(** * Timeloom: tag filtering, tag merge, paging cache and activity feed

    A shallow embedding of the client-side orchestration code of the
    dashboard (src/lib/tagFiltering.ts, googleCalendarClient, supabaseClient.ts,
    cardApi, timelineClient, the EmailsList component and the TimelinePage
    component), followed by the properties of the specification stated over it.

    Conventions of the embedding:
    - a JavaScript [string] is a [string]; [x?: string] is [option string];
      [string | null | undefined] is [jsval];
    - truthiness is written out ([truthy], [truthy_opt]): the empty string is
      falsy;
    - an [async] function that may throw returns a [result];
    - a [Map] that is only read with [has]/[get] is a [gmap string _]; a [Map]
      whose iteration order is observable is an insertion-ordered association
      list ([omap]);
    - remote services (mail, calendar, tag store) are explicit arguments: the
      answer of the service to each request, or the table contents. *)

From stdpp Require Import gmap strings list fin_maps pretty sorting.
From Stdlib Require Import ZArith.

Open Scope string_scope.
Open Scope list_scope.

(* ===================================================================== *)
(** * Part I: definitions                                                 *)
(* ===================================================================== *)

(** ** JavaScript values *)

(** The outcome of an [async] function: a value or a thrown error, the error
    being identified by its [message]. *)
Inductive result (A : Type) : Type :=
| Ok (a : A)
| Throw (msg : string).
Arguments Ok {A} a.
Arguments Throw {A} msg.

Global Instance result_ret : MRet result := λ A a, Ok a.

Global Instance result_bind : MBind result := λ A B k r,
  match r with
  | Ok a => k a
  | Throw m => Throw m
  end.

(** [string | null | undefined] *)
Inductive jsval : Type :=
| Undefined
| Null
| Str (s : string).

Global Instance jsval_eq_dec : EqDecision jsval.
Proof. solve_decision. Defined.

(** [!!s] for a string. *)
Definition truthy (s : string) : bool := negb (String.eqb s "").

(** [!!x] for an optional string field. *)
Definition truthy_opt (o : option string) : bool :=
  match o with
  | Some s => truthy s
  | None => false
  end.

(** [!!v] for [string | null | undefined]. *)
Definition truthy_js (v : jsval) : bool :=
  match v with
  | Str s => truthy s
  | _ => false
  end.

(** [s.toLowerCase()] for strings of ASCII characters: the letters A to Z
    are folded.  The case folding of the other letters of Unicode is not
    modelled; the properties below use the search either with the empty term
    or for an arbitrary outcome of [matchesSearch]. *)
Definition lower_ascii (c : Ascii.ascii) : Ascii.ascii :=
  let n := Ascii.nat_of_ascii c in
  if (65 <=? n)%nat && (n <=? 90)%nat then Ascii.ascii_of_nat (n + 32) else c.

Fixpoint toLowerCase (s : string) : string :=
  match s with
  | EmptyString => EmptyString
  | String c s' => String (lower_ascii c) (toLowerCase s')
  end.

(** [s.includes(sub)] *)
Definition includes (s sub : string) : bool :=
  match String.index 0 sub s with
  | Some _ => true
  | None => false
  end.

(** ** Shared records *)

Record Tag : Type := mkTag {
  tag_id : string;
  tag_name : string;
  tag_type : string;
  tag_color : string
}.

Global Instance Tag_eq_dec : EqDecision Tag.
Proof. solve_decision. Defined.

(** [FilterMode = 'any' | 'all'] *)
Inductive FilterMode : Type := ModeAny | ModeAll.

(** ** Session and HTTP *)

(** What [supabase.auth.getSession()] yields, as far as the token helpers
    look at it. *)
Inductive Session : Type :=
| SessionError                       (* { error } is set *)
| NoSession                          (* session is null *)
| SessionWith (provider_token : option string).

Definition token_expired : string := "Google API token expired".

(** [getGmailAccessToken] and [getCalendarAccessToken] (same body): [null]
    on a session error, the provider token when there is one, and the
    credential-expired error otherwise. *)
Definition getAccessToken (s : Session) : result (option string) :=
  match s with
  | SessionError => Ok None
  | NoSession => Throw token_expired
  | SessionWith tok =>
      if truthy_opt tok then Ok tok else Throw token_expired
  end.

(** An HTTP response: the status line, the parsed body of a successful
    answer, and [errorBody?.error?.message] of a failed one. *)
Record Response (A : Type) : Type := mkResponse {
  status : Z;
  statusText : string;
  body : A;
  error_message : option string
}.
Arguments mkResponse {A}.
Arguments status {A}.
Arguments statusText {A}.
Arguments body {A}.
Arguments error_message {A}.

(** [response.ok]: the status is in 200..299. *)
Definition ok {A} (r : Response A) : bool :=
  (200 <=? status r)%Z && (status r <=? 299)%Z.

(** [response.status === 401 || response.status === 403] *)
Definition is_auth_status (st : Z) : bool :=
  (st =? 401)%Z || (st =? 403)%Z.

(** What [await fetch(url, ...)] does: reject (network error) or resolve. *)
Inductive Fetched (A : Type) : Type :=
| Rejected (msg : string)
| Responded (r : Response A).
Arguments Rejected {A}.
Arguments Responded {A}.

(** [errorBody?.error?.message || response.statusText] *)
Definition message_or_statusText {A} (r : Response A) : string :=
  match error_message r with
  | Some m => if truthy m then m else statusText r
  | None => statusText r
  end.

(** ** The tag store (hosted relational service)

    The tables the code below reads and writes, one list of rows per table.
    The rows a query sees are those the row-level policy lets through; the
    code also filters on [user_id] itself, and that filter is modelled. *)

Record EmailRow : Type := mkEmailRow {
  er_email_id : string;
  er_user_id : string;
  er_thread_id : option string;
  er_is_starred : option bool;
  er_created_at : string;
  er_updated_at : string
}.

Record EmailTagRow : Type := mkEmailTagRow {
  et_email_id : string;
  et_tag_id : string;
  et_user_id : string
}.

Record RemovedTagLogRow : Type := mkRemovedTagLogRow {
  rl_email_id : string;
  rl_tag_id : string;
  rl_user_id : string;
  rl_removed_at : string
}.

Record CalendarEventTagRow : Type := mkCalendarEventTagRow {
  cet_user_id : string;
  cet_event_id : string;
  cet_tag_id : string
}.

Record TimelineCardTagRow : Type := mkTimelineCardTagRow {
  tct_user_id : string;
  tct_card_id : string;
  tct_tag_id : string
}.

Record CustomCardRow : Type := mkCustomCardRow {
  cc_id : string;
  cc_user_id : string;
  cc_title : string;
  cc_content : string;
  cc_created_at : string;
  cc_updated_at : string
}.

Record CustomCardTagRow : Type := mkCustomCardTagRow {
  cct_card_id : string;
  cct_tag_id : string;
  cct_user_id : string
}.

Record CardLogRow : Type := mkCardLogRow {
  cl_card_id : string;
  cl_user_id : string;
  cl_activity_type : string;
  cl_title : option string;                  (* [None] is [null] *)
  cl_activity_timestamp : string
}.

Global Instance EmailRow_eq_dec : EqDecision EmailRow.
Proof. solve_decision. Defined.
Global Instance EmailTagRow_eq_dec : EqDecision EmailTagRow.
Proof. solve_decision. Defined.
Global Instance RemovedTagLogRow_eq_dec : EqDecision RemovedTagLogRow.
Proof. solve_decision. Defined.
Global Instance CalendarEventTagRow_eq_dec : EqDecision CalendarEventTagRow.
Proof. solve_decision. Defined.
Global Instance TimelineCardTagRow_eq_dec : EqDecision TimelineCardTagRow.
Proof. solve_decision. Defined.
Global Instance CustomCardRow_eq_dec : EqDecision CustomCardRow.
Proof. solve_decision. Defined.
Global Instance CustomCardTagRow_eq_dec : EqDecision CustomCardTagRow.
Proof. solve_decision. Defined.
Global Instance CardLogRow_eq_dec : EqDecision CardLogRow.
Proof. solve_decision. Defined.

Record Store : Type := mkStore {
  tags : list Tag;
  emails : list EmailRow;
  email_tags : list EmailTagRow;
  removed_email_tags_log : list RemovedTagLogRow;
  calendar_event_tags : list CalendarEventTagRow;
  timeline_card_tags : list TimelineCardTagRow;
  custom_cards : list CustomCardRow;
  custom_card_tags : list CustomCardTagRow;
  custom_cards_log : list CardLogRow
}.

Global Instance Store_eq_dec : EqDecision Store.
Proof. solve_decision. Defined.

(** How the service answers one statement: [{ error: null }], [{ error }],
    or the awaited call itself throws.  A statement that does not succeed
    leaves its table as it was (one statement is atomic at the service). *)
Inductive Outcome : Type :=
| Succeeds
| Fails (msg : string)
| Raises (msg : string).

(** The embedded [tags ( id, name, type, color )] of a join row. *)
Definition find_tag (st : Store) (id : string) : option Tag :=
  List.find (λ t, String.eqb (tag_id t) id) (tags st).

(** ** Calendar client (googleCalendarClient) *)

Record GoogleCalendarEventDateTime : Type := mkEventDateTime {
  dt_dateTime : option string;
  dt_date : option string;
  dt_timeZone : option string
}.

Record GoogleCalendarEvent : Type := mkEvent {
  ev_id : string;
  ev_summary : option string;
  ev_description : option string;
  ev_start : option GoogleCalendarEventDateTime;
  ev_end : option GoogleCalendarEventDateTime;
  ev_status : option string;
  ev_htmlLink : option string;
  ev_created : option string;
  ev_updated : option string;
  ev_tags : option (list Tag)
}.

Global Instance GoogleCalendarEventDateTime_eq_dec :
  EqDecision GoogleCalendarEventDateTime.
Proof. solve_decision. Defined.
Global Instance GoogleCalendarEvent_eq_dec : EqDecision GoogleCalendarEvent.
Proof. solve_decision. Defined.

(** [{ ...event, tags }] *)
Definition with_tags (e : GoogleCalendarEvent) (ts : list Tag)
  : GoogleCalendarEvent :=
  mkEvent (ev_id e) (ev_summary e) (ev_description e) (ev_start e) (ev_end e)
          (ev_status e) (ev_htmlLink e) (ev_created e) (ev_updated e) (Some ts).

(** A row of
    [from('calendar_event_tags').select('event_id, tags ( id, name, type, color )')]. *)
Record CalendarTagJoin : Type := mkCalendarTagJoin {
  ctj_event_id : string;
  ctj_tags : option Tag
}.

(** [.eq('user_id', userId).in('event_id', eventIds)] *)
Definition select_calendar_event_tags (st : Store) (userId : string)
    (eventIds : list string) : list CalendarTagJoin :=
  map (λ r, mkCalendarTagJoin (cet_event_id r) (find_tag st (cet_tag_id r)))
      (filter (λ r, cet_user_id r = userId ∧ cet_event_id r ∈ eventIds)
              (calendar_event_tags st)).

(** The [data.forEach] of [fetchCalendarEventTagsForEventIds]: rows are
    grouped by event id, each group in row order. *)
Definition group_calendar_tags (data : list CalendarTagJoin)
  : gmap string (list Tag) :=
  fold_left
    (λ (tagsByEventId : gmap string (list Tag)) item,
       match ctj_tags item with
       | Some t =>
           if truthy (ctj_event_id item) then
             let currentTags := default [] (tagsByEventId !! ctj_event_id item) in
             <[ctj_event_id item := currentTags ++ [t]]> tagsByEventId
           else tagsByEventId
       | None => tagsByEventId
       end)
    data ∅.

(** [fetchCalendarEventTagsForEventIds]: an error of the query is thrown
    inside the [try] and turned into an empty map by its [catch]. *)
Definition fetchCalendarEventTagsForEventIds (st : Store) (o : Outcome)
    (userId : string) (eventIds : list string) : gmap string (list Tag) :=
  if negb (truthy userId) || bool_decide (eventIds = []) then ∅
  else match o with
       | Succeeds => group_calendar_tags (select_calendar_event_tags st userId eventIds)
       | Fails _ | Raises _ => ∅
       end.

(** [fetchCalendarEvents(userId, calendarId, timeMin, timeMax)].  [resp] is
    the answer of the calendar service to the one list request made for the
    window; its body is [data.items]. *)
Definition fetchCalendarEvents (sess : Session)
    (resp : Fetched (option (list GoogleCalendarEvent)))
    (st : Store) (tagOutcome : Outcome) (userId : string)
  : result (list GoogleCalendarEvent) :=
  accessToken ← getAccessToken sess;
  if negb (truthy userId) then Throw "User ID is required."
  else match resp with
       | Rejected m => Throw m
       | Responded r =>
           if negb (ok r) then
             if is_auth_status (status r) then Throw token_expired
             else Throw ("Failed to fetch events: " +:+ message_or_statusText r)
           else
             let events := default [] (body r) in
             if bool_decide (events ≠ []) then
               let eventIds := map ev_id events in
               let tagsMap :=
                 fetchCalendarEventTagsForEventIds st tagOutcome userId eventIds in
               Ok (map (λ event, with_tags event (default [] (tagsMap !! ev_id event)))
                       events)
             else Ok events
       end.

(** ** Tag filter engine (tagFiltering.ts, TimelinePage) *)

(** The [eventTagIds] set of [fetchCalendarEventsByTags]. *)
Definition eventTagIds (event : GoogleCalendarEvent) : gset string :=
  list_to_set (List.filter truthy (map tag_id (default [] (ev_tags event)))).

(** The callback of [allRelevantEvents.filter]. *)
Definition event_passes (tagIds : list string) (mode : FilterMode)
    (event : GoogleCalendarEvent) : bool :=
  match mode with
  | ModeAll => forallb (λ targetTagId, bool_decide (targetTagId ∈ eventTagIds event)) tagIds
  | ModeAny => existsb (λ targetTagId, bool_decide (targetTagId ∈ eventTagIds event)) tagIds
  end.

(** [fetchCalendarEventsByTags(tagIds, mode)]; [user] is what
    [supabase.auth.getUser()] returns. *)
Definition fetchCalendarEventsByTags (user : option string) (sess : Session)
    (resp : Fetched (option (list GoogleCalendarEvent)))
    (st : Store) (tagOutcome : Outcome)
    (tagIds : list string) (mode : FilterMode)
  : result (list GoogleCalendarEvent) :=
  match user with
  | None => Throw "User not authenticated"
  | Some uid =>
      if bool_decide (tagIds = []) then Ok []
      else
        allRelevantEvents ← fetchCalendarEvents sess resp st tagOutcome uid;
        Ok (List.filter (event_passes tagIds mode) allRelevantEvents)
  end.

(** Project (timeline) cards as [fetchTimelineCardsWithTags] returns them. *)
Record TimelineCard : Type := mkTimelineCard {
  tc_id : string;
  tc_user_id : string;
  tc_title : string;
  tc_description : option string;
  tc_start_date : string;
  tc_end_date : option string;
  tc_created_at : string;
  tc_tags : list Tag
}.

Global Instance TimelineCard_eq_dec : EqDecision TimelineCard.
Proof. solve_decision. Defined.

(** [matchesSearch] of [filteredCardsForDisplay]. *)
Definition matchesSearch (globalSearchTerm : string) (card : TimelineCard) : bool :=
  let searchTermLower := toLowerCase globalSearchTerm in
  negb (truthy globalSearchTerm)
  || includes (toLowerCase (tc_title card)) searchTermLower
  || match tc_description card with
     | Some d => truthy d && includes (toLowerCase d) searchTermLower
     | None => false
     end
  || existsb (λ tag, includes (toLowerCase (tag_name tag)) searchTermLower)
             (tc_tags card).

Definition cardTagIds (card : TimelineCard) : gset string :=
  list_to_set (map tag_id (tc_tags card)).

(** The callback of [customTimelineCards.filter]. *)
Definition card_passes (globalSearchTerm : string)
    (selectedFilterTagIds : list string) (tagFilterMode : FilterMode)
    (card : TimelineCard) : bool :=
  if negb (matchesSearch globalSearchTerm card) then false
  else if bool_decide (selectedFilterTagIds = []) then true
  else match tagFilterMode with
       | ModeAny =>
           existsb (λ filterTagId, bool_decide (filterTagId ∈ cardTagIds card))
                   selectedFilterTagIds
       | ModeAll =>
           forallb (λ filterTagId, bool_decide (filterTagId ∈ cardTagIds card))
                   selectedFilterTagIds
       end.

Definition filteredCardsForDisplay (customTimelineCards : list TimelineCard)
    (globalSearchTerm : string) (selectedFilterTagIds : list string)
    (tagFilterMode : FilterMode) : list TimelineCard :=
  List.filter (card_passes globalSearchTerm selectedFilterTagIds tagFilterMode)
              customTimelineCards.

(** ** Mail client (supabaseClient.ts): message details *)

Record Header : Type := mkHeader {
  h_name : string;
  h_value : string
}.

Record GmailFullMessage : Type := mkGmailFullMessage {
  gm_id : string;
  gm_threadId : string;
  gm_snippet : string;
  gm_labelIds : option (list string);
  gm_internalDate : option string;
  gm_headers : option (list Header)        (* payload?.headers *)
}.

Global Instance Header_eq_dec : EqDecision Header.
Proof. solve_decision. Defined.
Global Instance GmailFullMessage_eq_dec : EqDecision GmailFullMessage.
Proof. solve_decision. Defined.

(** [getHeaderValue] (and [getHeader] of the list component, same body). *)
Definition getHeaderValue (headers : list Header) (name : string) : string :=
  match List.find (λ h, String.eqb (toLowerCase (h_name h)) (toLowerCase name))
                  headers with
  | Some header => h_value header
  | None => ""
  end.

(** The [.then(async res => ...)] callback of one detail request. *)
Definition detail_then (res : Response GmailFullMessage)
  : result (option GmailFullMessage) :=
  if negb (ok res) then
    if is_auth_status (status res) then Throw token_expired
    else Ok None
  else Ok (Some (body res)).

(** One element of [requests]: [fetch(...).then(...).catch(() => null)].  The
    [.catch] is chained after the [.then], so it also receives what the
    [.then] callback throws. *)
Definition detail_request (f : Fetched GmailFullMessage)
  : option GmailFullMessage :=
  match f with
  | Rejected _ => None
  | Responded res =>
      match detail_then res with
      | Ok v => v
      | Throw _ => None
      end
  end.

(** [fetchFullEmailDetails(messageIds)]; [remote id] is the answer of the
    mail service to the detail request for [id]. *)
Definition fetchFullEmailDetails (sess : Session)
    (remote : string → Fetched GmailFullMessage)
    (messageIds : list string) : result (list GmailFullMessage) :=
  accessToken ← getAccessToken sess;
  if bool_decide (messageIds = []) then Ok []
  else
    let results := map (λ id, detail_request (remote id)) messageIds in
    Ok (omap id results).

(** ** Tag filter engine: emails *)

(** A row of the [emails] query with the embedded [email_tags!inner(tag_id)]. *)
Record EmailWithTags : Type := mkEmailWithTags {
  ewt_email : EmailRow;
  ewt_email_tags : list string
}.

(** [from('emails').select('..., email_tags!inner(tag_id)')
      .eq('user_id', user.id).in('email_tags.tag_id', tagIds)]:
    every email of the user with its association rows whose tag is one of
    [tagIds]; the inner join keeps the emails that have such a row. *)
Definition select_emails_by_tags (st : Store) (uid : string)
    (tagIds : list string) : list EmailWithTags :=
  List.filter (λ row, negb (bool_decide (ewt_email_tags row = [])))
    (map (λ e, mkEmailWithTags e
                 (map et_tag_id
                    (filter (λ et, et_email_id et = er_email_id e
                                   ∧ et_user_id et = uid
                                   ∧ et_tag_id et ∈ tagIds)
                            (email_tags st))))
         (filter (λ e, er_user_id e = uid) (emails st))).

(** A JavaScript [Map] whose iteration order is observed: pairs in insertion
    order. *)
Definition jsmap_has {V} (k : string) (m : list (string * V)) : bool :=
  bool_decide (k ∈ m.*1).

Fixpoint jsmap_set {V} (k : string) (v : V) (m : list (string * V))
  : list (string * V) :=
  match m with
  | [] => [(k, v)]
  | (k', v') :: m' =>
      if String.eqb k' k then (k, v) :: m' else (k', v') :: jsmap_set k v m'
  end.

(** The [Email] of tagFiltering.ts. *)
Record Email : Type := mkEmail {
  email_id : string;
  user_id : string;
  thread_id : option string;
  is_starred : option bool;
  created_at : string;
  updated_at : string;
  subject : option string;
  snippet : option string;
  from : option string;
  date : option string
}.

Definition baseEmailData (e : EmailRow) : Email :=
  mkEmail (er_email_id e) (er_user_id e) (er_thread_id e) (er_is_starred e)
          (er_created_at e) (er_updated_at e) None None None None.

(** [uniqueTagsForThisEmail]: the tags of all rows of [emailsData] that carry
    this email id. *)
Definition uniqueTagsForThisEmail (emailsData : list EmailWithTags)
    (emailId : string) : gset string :=
  list_to_set
    (concat (map ewt_email_tags
               (List.filter (λ e, String.eqb (er_email_id (ewt_email e)) emailId)
                            emailsData))).

(** Step 2 of [fetchEmailsByTags]: the [emailsData.forEach] that fills
    [matchingEmailsMap]. *)
Definition matchingEmailsMap (tagIds : list string) (mode : FilterMode)
    (emailsData : list EmailWithTags) : list (string * Email) :=
  fold_left
    (λ acc email,
       let id := er_email_id (ewt_email email) in
       match mode with
       | ModeAll =>
           if jsmap_has id acc then acc
           else if forallb (λ targetTagId,
                     bool_decide (targetTagId ∈ uniqueTagsForThisEmail emailsData id))
                     tagIds
                then jsmap_set id (baseEmailData (ewt_email email)) acc
                else acc
       | ModeAny =>
           if negb (jsmap_has id acc)
           then jsmap_set id (baseEmailData (ewt_email email)) acc
           else acc
       end)
    emailsData [].

(** Step 4: [detailsMap], the last detail for an id wins. *)
Definition detailsMap (emailDetailsList : list GmailFullMessage)
  : gmap string GmailFullMessage :=
  fold_left (λ acc detail, <[gm_id detail := detail]> acc) emailDetailsList ∅.

(** Step 5: one entry of [finalEmails]. *)
Definition mergeDetails (details : option GmailFullMessage) (baseData : Email)
  : Email :=
  mkEmail (email_id baseData) (user_id baseData)
    (match details with
     | Some d => if truthy (gm_threadId d) then Some (gm_threadId d)
                 else thread_id baseData
     | None => thread_id baseData
     end)
    (is_starred baseData) (created_at baseData) (updated_at baseData)
    (match details with
     | Some d => Some (getHeaderValue (default [] (gm_headers d)) "Subject")
     | None => None
     end)
    (match details with
     | Some d => Some (gm_snippet d)
     | None => None
     end)
    (match details with
     | Some d => Some (getHeaderValue (default [] (gm_headers d)) "From")
     | None => None
     end)
    (match details with
     | Some d => Some (getHeaderValue (default [] (gm_headers d)) "Date")
     | None => None
     end).

(** [fetchEmailsByTags(tagIds, mode)]; [queryOutcome] is the outcome of the
    [emails] query. *)
Definition fetchEmailsByTags (user : option string) (st : Store)
    (queryOutcome : Outcome) (sess : Session)
    (remote : string → Fetched GmailFullMessage)
    (tagIds : list string) (mode : FilterMode) : result (list Email) :=
  match user with
  | None => Throw "User not authenticated"
  | Some uid =>
      if bool_decide (tagIds = []) then Ok []
      else
        match queryOutcome with
        | Fails m | Raises m => Throw m
        | Succeeds =>
            let emailsData := select_emails_by_tags st uid tagIds in
            if bool_decide (emailsData = []) then Ok []
            else
              let matching := matchingEmailsMap tagIds mode emailsData in
              let matchingEmailIds := matching.*1 in
              if bool_decide (matchingEmailIds = []) then Ok []
              else
                emailDetailsList ← fetchFullEmailDetails sess remote matchingEmailIds;
                let dm := detailsMap emailDetailsList in
                Ok (map (λ '(emailId, baseData), mergeDetails (dm !! emailId) baseData)
                        matching)
        end
  end.

(** The tag ids currently attached to an email in the store. *)
Definition email_tag_ids (st : Store) (uid emailId : string) : gset string :=
  list_to_set
    (map et_tag_id
       (filter (λ et, et_email_id et = emailId ∧ et_user_id et = uid)
               (email_tags st))).

(** The set-theoretic predicate of the specification: [T] is the tag-id set
    of the item, [S] the selection. *)
Definition Passes (mode : FilterMode) (S T : gset string) : Prop :=
  match mode with
  | ModeAny => T ∩ S ≠ ∅
  | ModeAll => S ⊆ T
  end.

(** ** Mail client (supabaseClient.ts): listing *)

Record GmailMessageMetadata : Type := mkMetadata {
  md_id : string;
  md_threadId : string
}.

(** The JSON body of a list or search answer: [data.messages],
    [data.nextPageToken]. *)
Record MessageList : Type := mkMessageList {
  ml_messages : option (list GmailMessageMetadata);
  ml_nextPageToken : option string
}.

(** [FetchEmailMetadataResult] / [SearchResult] *)
Record FetchEmailMetadataResult : Type := mkMetadataResult {
  messages : list GmailMessageMetadata;
  nextPageToken_of : option string
}.

(** [fetchEmailMetadataPage(pageToken, 20)].  The detailed error built inside
    the inner [try] is caught by that [try]'s own [catch (parseError)]; the
    error that leaves the function carries the status only. *)
Definition fetchEmailMetadataPage (sess : Session) (resp : Fetched MessageList)
  : result FetchEmailMetadataResult :=
  accessToken ← getAccessToken sess;
  match resp with
  | Rejected m => Throw m
  | Responded response =>
      if negb (ok response) then
        if is_auth_status (status response) then Throw token_expired
        else Throw ("Failed to fetch email metadata: " +:+ pretty (status response))
      else
        let data := body response in
        Ok (mkMetadataResult (default [] (ml_messages data)) (ml_nextPageToken data))
  end.

(** [fetchImportantEmailMetadataPage(pageToken, 20)] *)
Definition fetchImportantEmailMetadataPage (sess : Session)
    (resp : Fetched MessageList) : result FetchEmailMetadataResult :=
  accessToken ← getAccessToken sess;
  match resp with
  | Rejected m => Throw m
  | Responded response =>
      if negb (ok response) then
        if is_auth_status (status response) then Throw token_expired
        else Throw ("Failed to fetch important email metadata: "
                    +:+ pretty (status response))
      else
        let data := body response in
        Ok (mkMetadataResult (default [] (ml_messages data)) (ml_nextPageToken data))
  end.

(** [searchGmailMessages(query)] *)
Definition searchGmailMessages (sess : Session) (query : string)
    (resp : Fetched MessageList) : result FetchEmailMetadataResult :=
  accessToken ← getAccessToken sess;
  if negb (truthy query) then Throw "Search query cannot be empty."
  else match resp with
       | Rejected m => Throw m
       | Responded response =>
           if negb (ok response) then
             if is_auth_status (status response) then Throw token_expired
             else Throw ("Failed to search messages: "
                         +:+ message_or_statusText response)
           else
             let data := body response in
             Ok (mkMetadataResult (default [] (ml_messages data))
                                  (ml_nextPageToken data))
       end.

(** ** Tag store reads used by the email list *)

Record SupabaseEmailData : Type := mkSupabaseEmailData {
  sed_email_id : string;
  sed_is_starred : bool;
  sed_tags : list Tag
}.

(** The [tags] of one processed row: the nested tag object of every
    association row, kept when it is there and has an [id]. *)
Definition embedded_tags (st : Store) (userId emailId : string) : list Tag :=
  omap (λ et, match find_tag st (et_tag_id et) with
              | Some tagObject =>
                  if truthy (tag_id tagObject) then Some tagObject else None
              | None => None
              end)
       (filter (λ et, et_email_id et = emailId ∧ et_user_id et = userId)
               (email_tags st)).

(** [fetchSupabaseEmailData(userId, emailIds)]: an error of the query yields
    the empty list. *)
Definition fetchSupabaseEmailData (st : Store) (o : Outcome) (userId : string)
    (emailIds : list string) : list SupabaseEmailData :=
  if negb (truthy userId) || bool_decide (emailIds = []) then []
  else match o with
       | Succeeds =>
           map (λ e, mkSupabaseEmailData (er_email_id e)
                       (default false (er_is_starred e))
                       (embedded_tags st userId (er_email_id e)))
               (filter (λ e, er_user_id e = userId ∧ er_email_id e ∈ emailIds)
                       (emails st))
       | Fails _ | Raises _ => []
       end.

(** [TaggedEmailIdentifier], a row of the [get_email_ids_by_tag] procedure. *)
Record TaggedEmailIdentifier : Type := mkTaggedEmailIdentifier {
  tei_email_id : string;
  tei_thread_id : string
}.

(** [fetchEmailIdsAndThreadIdsByTag(userId, tagName)]; [rpc] is what the
    stored procedure answers. *)
Definition fetchEmailIdsAndThreadIdsByTag
    (rpc : result (option (list TaggedEmailIdentifier)))
    (userId tagName : string) : result (list TaggedEmailIdentifier) :=
  if negb (truthy userId) || negb (truthy tagName) then Ok []
  else data ← rpc; Ok (default [] data).

(** ** The email list component (EmailsList) *)

Record EmailItem : Type := mkEmailItem {
  ei_id : string;
  ei_threadId : string;
  ei_subject : string;
  ei_sender : string;
  ei_senderAddress : string;
  ei_excerpt : string;
  ei_date : string;
  ei_dateObj : option Z;
  ei_read : bool;
  ei_starred : bool;
  ei_tags : list Tag
}.

Global Instance EmailItem_eq_dec : EqDecision EmailItem.
Proof. solve_decision. Defined.

(** The display helpers of the component depend on the locale and on the
    current day ([toLocaleTimeString], [new Date()]); they are taken from the
    environment.  A [Date] is its [getTime()], [None] for an invalid date. *)
Record Display : Type := mkDisplay {
  parseSender : string → string * string;     (* name, address *)
  parseDate : string → option Z;
  formatDate : option Z → string
}.

(** [a || b] on strings. *)
Definition str_or (a b : string) : string := if truthy a then a else b.

(** A JavaScript [Map] built from a list of entries: a later entry for a key
    replaces an earlier one. *)
Definition jsMap_of {V} (entries : list (string * V)) : gmap string V :=
  fold_left (λ m p, <[p.1 := p.2]> m) entries ∅.

(** The [emailItem] built for one fetched message in
    [processAndMergeEmails]. *)
Definition emailItem_of (d : Display) (msg : GmailFullMessage)
    (supabaseDetail : option SupabaseEmailData) : EmailItem :=
  let headers := default [] (gm_headers msg) in
  let senderInfo := parseSender d (getHeaderValue headers "From") in
  let dateObj := parseDate d (getHeaderValue headers "Date") in
  mkEmailItem (gm_id msg) (gm_threadId msg)
    (str_or (getHeaderValue headers "Subject") "(No Subject)")
    senderInfo.1 senderInfo.2
    (str_or (gm_snippet msg) "")
    (formatDate d dateObj) dateObj
    (negb (match gm_labelIds msg with
           | Some labelIds => bool_decide ("UNREAD" ∈ labelIds)
           | None => true
           end))
    (match supabaseDetail with
     | Some sd => sed_is_starred sd
     | None => false
     end)
    (match supabaseDetail with
     | Some sd => sed_tags sd
     | None => []
     end).

(** The [newCacheEntries] of [processAndMergeEmails]: one entry per fetched
    message, keyed by the id of the message. *)
Definition newCacheEntries (d : Display)
    (supabaseMap : gmap string SupabaseEmailData)
    (fetchedGmailMessages : list GmailFullMessage) : gmap string EmailItem :=
  fold_left (λ (m : gmap string EmailItem) msg,
               <[gm_id msg := emailItem_of d msg (supabaseMap !! gm_id msg)]> m)
            fetchedGmailMessages ∅.

(** [processAndMergeEmails(messageIds, fetchedGmailMessages, supabaseData,
    currentCache)], returning [(processedEmails, updatedCache)]. *)
Definition processAndMergeEmails (d : Display) (messageIds : list string)
    (fetchedGmailMessages : list GmailFullMessage)
    (supabaseData : list SupabaseEmailData)
    (currentCache : gmap string EmailItem)
  : list EmailItem * gmap string EmailItem :=
  let supabaseMap := jsMap_of (map (λ sd, (sed_email_id sd, sd)) supabaseData) in
  (* new Map([...currentCache, ...newCacheEntries]) *)
  let updatedCache :=
    newCacheEntries d supabaseMap fetchedGmailMessages ∪ currentCache in
  let processedEmails := omap (λ id, updatedCache !! id) messageIds in
  (processedEmails, updatedCache).

(** Route and session inputs of one render: [useAuth()], [useSearchParams()]
    and [useParams()]. *)
Record Props : Type := mkProps {
  isAuthenticated : bool;
  user_id_of : option string;         (* user?.id *)
  param_tag : option string;          (* searchParams.get('tag') *)
  param_priority : option string;     (* searchParams.get('priority') *)
  param_q : option string;            (* searchParams.get('q') *)
  param_tags : option string;         (* searchParams.get('tags') *)
  param_mode : option string;         (* searchParams.get('mode') *)
  param_threadId : option string      (* params.threadId *)
}.

(** [tagFilter || priorityFilter] *)
Definition activeFilterName (p : Props) : option string :=
  if truthy_opt (param_tag p) then param_tag p else param_priority p.

Definition isTagView (p : Props) : bool := truthy_opt (activeFilterName p).
Definition searchQuery (p : Props) : option string := param_q p.
Definition isSearchView (p : Props) : bool := truthy_opt (searchQuery p).
Definition filterTagsParam (p : Props) : option string := param_tags p.
Definition isNewTagFilterView (p : Props) : bool := truthy_opt (filterTagsParam p).

(** [(searchParams.get('mode') as FilterMode) || 'any'], as
    [fetchEmailsByTags] reads it ([mode === 'all'], anything else is "any"). *)
Definition filterModeParam (p : Props) : FilterMode :=
  match param_mode p with
  | Some m => if String.eqb m "all" then ModeAll else ModeAny
  | None => ModeAny
  end.

(** [s.split(',')] *)
Fixpoint split_comma (s : string) : list string :=
  match s with
  | EmptyString => [""]
  | String c s' =>
      if Ascii.eqb c (Ascii.ascii_of_nat 44) then "" :: split_comma s'
      else match split_comma s' with
           | [] => [String c ""]
           | h :: t => String c h :: t
           end
  end.

(** The state of the component: the [useState] cells, the four [useRef]
    cells, and the route the component last navigated to with [nav]. *)
Record ListState : Type := mkListState {
  allEmails : list EmailItem;
  emailCache : gmap string EmailItem;
  pageToken : jsval;
  nextPageToken : option string;
  prevPageTokens : list string;
  isLoading : bool;
  error : option string;
  selectedEmails : list string;
  selectAll : bool;
  activeTab : string;
  refreshKey : nat;
  pageTokenRef : jsval;
  activeFilterNameRef : option string;
  searchQueryRef : option string;
  filterTagsParamRef : option string;
  navigatedTo : option string
}.

(** The [useState] setters, and [nav]. *)
Definition setAllEmails (v : list EmailItem) (s : ListState) : ListState :=
  mkListState
    v (emailCache s) (pageToken s) (nextPageToken s) (prevPageTokens s)
    (isLoading s) (error s) (selectedEmails s) (selectAll s) (activeTab s)
    (refreshKey s) (pageTokenRef s) (activeFilterNameRef s)
    (searchQueryRef s) (filterTagsParamRef s) (navigatedTo s).

Definition setEmailCache (v : gmap string EmailItem) (s : ListState) : ListState :=
  mkListState
    (allEmails s) v (pageToken s) (nextPageToken s) (prevPageTokens s)
    (isLoading s) (error s) (selectedEmails s) (selectAll s) (activeTab s)
    (refreshKey s) (pageTokenRef s) (activeFilterNameRef s)
    (searchQueryRef s) (filterTagsParamRef s) (navigatedTo s).

Definition setPageToken (v : jsval) (s : ListState) : ListState :=
  mkListState
    (allEmails s) (emailCache s) v (nextPageToken s) (prevPageTokens s)
    (isLoading s) (error s) (selectedEmails s) (selectAll s) (activeTab s)
    (refreshKey s) (pageTokenRef s) (activeFilterNameRef s)
    (searchQueryRef s) (filterTagsParamRef s) (navigatedTo s).

Definition setNextPageToken (v : option string) (s : ListState) : ListState :=
  mkListState
    (allEmails s) (emailCache s) (pageToken s) v (prevPageTokens s)
    (isLoading s) (error s) (selectedEmails s) (selectAll s) (activeTab s)
    (refreshKey s) (pageTokenRef s) (activeFilterNameRef s)
    (searchQueryRef s) (filterTagsParamRef s) (navigatedTo s).

Definition setPrevPageTokens (v : list string) (s : ListState) : ListState :=
  mkListState
    (allEmails s) (emailCache s) (pageToken s) (nextPageToken s) v
    (isLoading s) (error s) (selectedEmails s) (selectAll s) (activeTab s)
    (refreshKey s) (pageTokenRef s) (activeFilterNameRef s)
    (searchQueryRef s) (filterTagsParamRef s) (navigatedTo s).

Definition setIsLoading (v : bool) (s : ListState) : ListState :=
  mkListState
    (allEmails s) (emailCache s) (pageToken s) (nextPageToken s)
    (prevPageTokens s) v (error s) (selectedEmails s) (selectAll s)
    (activeTab s) (refreshKey s) (pageTokenRef s) (activeFilterNameRef s)
    (searchQueryRef s) (filterTagsParamRef s) (navigatedTo s).

Definition setError (v : option string) (s : ListState) : ListState :=
  mkListState
    (allEmails s) (emailCache s) (pageToken s) (nextPageToken s)
    (prevPageTokens s) (isLoading s) v (selectedEmails s) (selectAll s)
    (activeTab s) (refreshKey s) (pageTokenRef s) (activeFilterNameRef s)
    (searchQueryRef s) (filterTagsParamRef s) (navigatedTo s).

Definition setSelectedEmails (v : list string) (s : ListState) : ListState :=
  mkListState
    (allEmails s) (emailCache s) (pageToken s) (nextPageToken s)
    (prevPageTokens s) (isLoading s) (error s) v (selectAll s) (activeTab s)
    (refreshKey s) (pageTokenRef s) (activeFilterNameRef s)
    (searchQueryRef s) (filterTagsParamRef s) (navigatedTo s).

Definition setSelectAll (v : bool) (s : ListState) : ListState :=
  mkListState
    (allEmails s) (emailCache s) (pageToken s) (nextPageToken s)
    (prevPageTokens s) (isLoading s) (error s) (selectedEmails s) v
    (activeTab s) (refreshKey s) (pageTokenRef s) (activeFilterNameRef s)
    (searchQueryRef s) (filterTagsParamRef s) (navigatedTo s).

Definition setActiveTab (v : string) (s : ListState) : ListState :=
  mkListState
    (allEmails s) (emailCache s) (pageToken s) (nextPageToken s)
    (prevPageTokens s) (isLoading s) (error s) (selectedEmails s)
    (selectAll s) v (refreshKey s) (pageTokenRef s) (activeFilterNameRef s)
    (searchQueryRef s) (filterTagsParamRef s) (navigatedTo s).

Definition setRefreshKey (v : nat) (s : ListState) : ListState :=
  mkListState
    (allEmails s) (emailCache s) (pageToken s) (nextPageToken s)
    (prevPageTokens s) (isLoading s) (error s) (selectedEmails s)
    (selectAll s) (activeTab s) v (pageTokenRef s) (activeFilterNameRef s)
    (searchQueryRef s) (filterTagsParamRef s) (navigatedTo s).

Definition nav (v : option string) (s : ListState) : ListState :=
  mkListState
    (allEmails s) (emailCache s) (pageToken s) (nextPageToken s)
    (prevPageTokens s) (isLoading s) (error s) (selectedEmails s)
    (selectAll s) (activeTab s) (refreshKey s) (pageTokenRef s)
    (activeFilterNameRef s) (searchQueryRef s) (filterTagsParamRef s) v.

(** The four assignments to [.current] at the end of the effect body. *)
Definition assign_refs (pageToken' : jsval)
    (activeFilterName' searchQuery' filterTagsParam' : option string)
    (s : ListState) : ListState :=
  mkListState
    (allEmails s) (emailCache s) (pageToken s) (nextPageToken s)
    (prevPageTokens s) (isLoading s) (error s) (selectedEmails s)
    (selectAll s) (activeTab s) (refreshKey s) pageToken' activeFilterName'
    searchQuery' filterTagsParam' (navigatedTo s).

(** What the mail service, the tag store and the scheduler do during one
    load. *)
Record Env : Type := mkEnv {
  env_display : Display;
  env_session : Session;
  env_user : option string;            (* supabase.auth.getUser() *)
  env_store : Store;
  env_emails_query : Outcome;          (* the query of fetchEmailsByTags *)
  env_email_data : Outcome;            (* the query of fetchSupabaseEmailData *)
  env_page : option string → Fetched MessageList;
  env_important : option string → Fetched MessageList;
  env_search : string → Fetched MessageList;
  env_detail : string → Fetched GmailFullMessage;
  env_tag_rpc : string → string → result (option (list TaggedEmailIdentifier));
  (** the [await] of the load (counted from 0) during which the effect is
      cleaned up and its [AbortController] aborted, if any *)
  env_abort : option nat
}.

(** [if (pageToken) url += '&pageToken=...']: the page a list request asks
    for, [None] being the first page. *)
Definition requested_page (pageToken : jsval) : option string :=
  match pageToken with
  | Str t => if truthy t then Some t else None
  | _ => None
  end.

(** The requests a load sends, in order. *)
Inductive Request : Type :=
| ReqByTags (tagIds : list string) (mode : FilterMode)
| ReqSearch (query : string)
| ReqTagRpc (tagName : string)
| ReqPage (page : option string)
| ReqImportant (page : option string)
| ReqDetails (ids : list string)
| ReqSupabase (ids : list string).

Global Instance FilterMode_eq_dec : EqDecision FilterMode.
Proof. solve_decision. Defined.
Global Instance Request_eq_dec : EqDecision Request.
Proof. solve_decision. Defined.

(** *** The load as a sequence of awaits

    [loadData] is an [async] function: it runs synchronously up to its first
    [await], then the effect body that called it goes on (and assigns the
    refs), and what follows each [await] runs later.  [Load] threads the
    component state, the requests sent so far, the number of awaits passed
    and whether the [AbortController] has been aborted. *)
Record LoadSt : Type := mkLoadSt {
  ls_state : ListState;
  ls_trace : list Request;
  ls_awaits : nat;
  ls_aborted : bool
}.

Inductive Flow (A : Type) : Type :=
| Next (a : A) (l : LoadSt)            (* goes on with [a] *)
| Returned (l : LoadSt)                (* [return;] *)
| Raised (msg : string) (l : LoadSt).  (* an error is thrown *)
Arguments Next {A}.
Arguments Returned {A}.
Arguments Raised {A}.

Record Load (A : Type) : Type := mkLoad { runLoad : LoadSt → Flow A }.
Arguments mkLoad {A}.
Arguments runLoad {A}.

Global Instance Load_ret : MRet Load := λ A a, mkLoad (λ l, Next a l).

Global Instance Load_bind : MBind Load := λ A B k m,
  mkLoad (λ l, match runLoad m l with
               | Next a l' => runLoad (k a) l'
               | Returned l' => Returned l'
               | Raised msg l' => Raised msg l'
               end).

(** A state setter. *)
Definition upd (f : ListState → ListState) (l : LoadSt) : LoadSt :=
  mkLoadSt (f (ls_state l)) (ls_trace l) (ls_awaits l) (ls_aborted l).

Definition set_ (f : ListState → ListState) : Load unit :=
  mkLoad (λ l, Next tt (upd f l)).

(** Reading a ref, or [signal.aborted]. *)
Definition read {A} (f : LoadSt → A) : Load A := mkLoad (λ l, Next (f l) l).

(** [return;] *)
Definition return_ {A} : Load A := mkLoad (λ l, Returned l).

(** [if (signal.aborted) return;] *)
Definition return_if_aborted : Load unit :=
  mkLoad (λ l, if ls_aborted l then Returned l else Next tt l).

Definition when (b : bool) (m : Load unit) : Load unit :=
  if b then m else mret tt.

Section load.
Context (env : Env) (p : Props) (s0 : ListState).

(** [await promise].  The function is suspended and control is back in the
    effect body, which assigns the refs from the values of this render
    (assigning them again at a later [await] changes nothing); the cleanup
    of the effect may abort the signal while the function is suspended;
    then the promise settles and the function resumes or throws. *)
Definition suspend (req : Request) (l : LoadSt) : LoadSt :=
  mkLoadSt
    (assign_refs (pageToken s0) (activeFilterName p) (searchQuery p)
                 (filterTagsParam p) (ls_state l))
    (ls_trace l ++ [req])
    (S (ls_awaits l))
    (ls_aborted l || bool_decide (env_abort env = Some (ls_awaits l))).

Definition await {A} (req : Request) (r : result A) : Load A :=
  mkLoad (λ l, match r with
               | Ok a => Next a (suspend req l)
               | Throw msg => Raised msg (suspend req l)
               end).

(** [user.id] inside the effect (the guard of the effect made it truthy). *)
Definition user_id_ : string := default "" (user_id_of p).

(** The three resets at the head of every non-paged branch. *)
Definition reset_paging : Load unit :=
  set_ (setPageToken Null);;
  set_ (setNextPageToken None);;
  set_ (setPrevPageTokens []).

(** The [EmailItem] built from one filtered email in the multi-tag branch. *)
Definition filtered_emailItem (supabaseMap : gmap string SupabaseEmailData)
    (fe : Email) : EmailItem :=
  let d := env_display env in
  let supabaseDetail := supabaseMap !! email_id fe in
  let from_ := default "" (from fe) in
  mkEmailItem (email_id fe)
    (match thread_id fe with Some t => str_or t "" | None => "" end)
    (match subject fe with Some t => str_or t "(No Subject)"
                      | None => "(No Subject)" end)
    (parseSender d from_).1 (parseSender d from_).2
    (match snippet fe with Some t => str_or t "" | None => "" end)
    (match date fe with
     | Some t => if truthy t then formatDate d (parseDate d t) else "N/A"
     | None => "N/A"
     end)
    (match date fe with
     | Some t => if truthy t then parseDate d t else Some 0%Z
     | None => Some 0%Z
     end)
    true
    (default false (is_starred fe))
    (match supabaseDetail with Some sd => sed_tags sd | None => [] end).

(** The branch of the multi-tag filter view; yields
    [(messageIds, fetchedEmailsResult, finalCache)]. *)
Definition load_multi_tag (tagsParam : string)
  : Load (list string * list EmailItem * gmap string EmailItem) :=
  reset_paging;;
  let tagIds := split_comma tagsParam in
  fetchedFilteredEmails ←
    await (ReqByTags tagIds (filterModeParam p))
          (fetchEmailsByTags (env_user env) (env_store env)
             (env_emails_query env) (env_session env) (env_detail env)
             tagIds (filterModeParam p));
  return_if_aborted;;
  if bool_decide (fetchedFilteredEmails ≠ []) then
    let filteredEmailIds := map email_id fetchedFilteredEmails in
    supabaseData ←
      await (ReqSupabase filteredEmailIds)
            (Ok (fetchSupabaseEmailData (env_store env) (env_email_data env)
                   user_id_ filteredEmailIds));
    return_if_aborted;;
    let supabaseMap := jsMap_of (map (λ sd, (sed_email_id sd, sd)) supabaseData) in
    let fetchedEmailsResult :=
      map (filtered_emailItem supabaseMap) fetchedFilteredEmails in
    let newCacheEntries :=
      jsMap_of (map (λ it, (ei_id it, it)) fetchedEmailsResult) in
    mret ([], fetchedEmailsResult, newCacheEntries ∪ emailCache s0)
  else mret ([], [], emailCache s0).

(** The branch of the free-text search view. *)
Definition load_search (query : string)
  : Load (list string * list EmailItem * gmap string EmailItem) :=
  reset_paging;;
  searchResult ←
    await (ReqSearch query)
          (searchGmailMessages (env_session env) query (env_search env query));
  return_if_aborted;;
  if bool_decide (messages searchResult = []) then
    set_ (setAllEmails []);; set_ (setIsLoading false);; return_
  else mret (map md_id (messages searchResult), [], emailCache s0).

(** The branch of the legacy single-tag view. *)
Definition load_legacy_tag (name : string)
  : Load (list string * list EmailItem * gmap string EmailItem) :=
  reset_paging;;
  tagIdentifiers ←
    await (ReqTagRpc name)
          (fetchEmailIdsAndThreadIdsByTag (env_tag_rpc env user_id_ name)
             user_id_ name);
  return_if_aborted;;
  if bool_decide (tagIdentifiers = []) then
    set_ (setAllEmails []);; set_ (setIsLoading false);; return_
  else mret (map tei_email_id tagIdentifiers, [], emailCache s0).

(** The default, paginated branch. *)
Definition load_paged
  : Load (list string * list EmailItem * gmap string EmailItem) :=
  let page := requested_page (pageToken s0) in
  metadataResult ←
    (if String.eqb (activeTab s0) "important"
     then await (ReqImportant page)
                (fetchImportantEmailMetadataPage (env_session env)
                   (env_important env page))
     else await (ReqPage page)
                (fetchEmailMetadataPage (env_session env) (env_page env page)));
  return_if_aborted;;
  let messageIds := map md_id (messages metadataResult) in
  set_ (setNextPageToken
          (if truthy_opt (nextPageToken_of metadataResult)
           then nextPageToken_of metadataResult else None));;
  when (bool_decide (messages metadataResult = [])) (set_ (setAllEmails []));;
  mret (messageIds, [], emailCache s0).

(** The common part for the search, legacy-tag and paginated views: only
    the identifiers that are not in the cache are fetched in detail. *)
Definition load_details (messageIds : list string)
  : Load (list EmailItem * gmap string EmailItem) :=
  let idsToFetchDetails :=
    List.filter (λ id, negb (bool_decide (is_Some (emailCache s0 !! id))))
                messageIds in
  fetchedGmailMessages ←
    (if bool_decide (idsToFetchDetails ≠ []) then
       r ← await (ReqDetails idsToFetchDetails)
                 (fetchFullEmailDetails (env_session env) (env_detail env)
                    idsToFetchDetails);
       return_if_aborted;;
       mret r
     else mret []);
  supabaseData ←
    await (ReqSupabase messageIds)
          (Ok (fetchSupabaseEmailData (env_store env) (env_email_data env)
                 user_id_ messageIds));
  return_if_aborted;;
  mret (processAndMergeEmails (env_display env) messageIds
          fetchedGmailMessages supabaseData (emailCache s0)).

(** The condition under which the selection is cleared, read when the load
    gets there. *)
Definition selection_must_clear (l : LoadSt) : bool :=
  bool_decide (pageToken s0 ≠ pageTokenRef (ls_state l))
  || bool_decide (activeFilterName p ≠ activeFilterNameRef (ls_state l))
  || bool_decide (searchQuery p ≠ searchQueryRef (ls_state l))
  || bool_decide (filterTagsParam p ≠ filterTagsParamRef (ls_state l)).

(** The choice of the view: multi-tag filter first, then search, then the
    legacy tag view, then the paginated default. *)
Definition load_view
  : Load (list string * list EmailItem * gmap string EmailItem) :=
  if isNewTagFilterView p then load_multi_tag (default "" (filterTagsParam p))
  else if isSearchView p then load_search (default "" (searchQuery p))
  else if isTagView p then load_legacy_tag (default "" (activeFilterName p))
  else load_paged.

(** "Common logic for search, old tag and paginated views", skipped by the
    multi-tag filter view. *)
Definition load_common
    (view : list string * list EmailItem * gmap string EmailItem)
  : Load (list EmailItem * gmap string EmailItem) :=
  let '(messageIds, fetchedEmailsResult, finalCache) := view in
  if negb (isNewTagFilterView p) && bool_decide (messageIds ≠ [])
  then load_details messageIds
  else if negb (isNewTagFilterView p) then mret ([], emailCache s0)
  else mret (fetchedEmailsResult, finalCache).

(** "Update state (common)" and the clearing of the selection. *)
Definition load_commit (merged : list EmailItem * gmap string EmailItem)
  : Load unit :=
  let '(fetchedEmailsResult, finalCache) := merged in
  aborted ← read ls_aborted;
  when (negb aborted)
       (set_ (setAllEmails fetchedEmailsResult);; set_ (setEmailCache finalCache));;
  clear ← read selection_must_clear;
  when clear (set_ (setSelectedEmails []);; set_ (setSelectAll false)).

(** The body of the [try] block of [loadData]. *)
Definition load_try : Load unit :=
  pageTokenRef_current ← read (λ l, pageTokenRef (ls_state l));
  let isPaging :=
    bool_decide (pageToken s0 ≠ pageTokenRef_current)
    && bool_decide (pageToken s0 ≠ Undefined) in
  when (negb isPaging)
       (set_ (setNextPageToken None);; set_ (setPrevPageTokens []));;
  view ← load_view;
  merged ← load_common view;
  load_commit merged.

(** The [catch] block: no error is an [AbortError], since the signal is
    never handed to a [fetch]. *)
Definition load_catch (msg : string) (s : ListState) : ListState :=
  let s1 := setError (Some (str_or msg "Failed to load emails.")) s in
  let s2 := setAllEmails [] s1 in
  if String.eqb msg token_expired then nav (Some "/auth") s2 else s2.

(** [loadData], run to completion. *)
Definition loadData (l : LoadSt) : LoadSt :=
  let l1 := upd (setError None) (upd (setIsLoading true) l) in
  if truthy_opt (param_threadId p) then upd (setIsLoading false) l1
  else
    let l2 :=
      match runLoad load_try l1 with
      | Next _ l' | Returned l' => l'
      | Raised msg l' => upd (load_catch msg) l'
      end in
    (* finally *)
    if ls_aborted l2 then l2 else upd (setIsLoading false) l2.

(** The reset of the effect when there is no authenticated user. *)
Definition reset_list (s : ListState) : ListState :=
  setSelectAll false
    (setSelectedEmails []
       (setError None
          (setPrevPageTokens []
             (setNextPageToken None
                (setPageToken Undefined
                   (setEmailCache ∅ (setAllEmails [] s))))))).

(** The data-fetching effect for the render with props [p] and state [s0]:
    the state once the load it starts has finished, and the requests the
    load sent. *)
Definition effect : ListState * list Request :=
  if negb (isAuthenticated p) || negb (truthy_opt (user_id_of p))
  then (reset_list s0, [])
  else
    let l := loadData (mkLoadSt s0 [] 0 false) in
    (assign_refs (pageToken s0) (activeFilterName p) (searchQuery p)
                 (filterTagsParam p) (ls_state l),
     ls_trace l).
End load.

(** *** Event handlers of the list *)

(** [pageToken || ''] *)
Definition pageToken_or_empty (v : jsval) : string :=
  match v with
  | Str t => t
  | _ => ""
  end.

Definition goToNextPage (s : ListState) : ListState :=
  if truthy_opt (nextPageToken s) then
    setPageToken (Str (default "" (nextPageToken s)))
      (setPrevPageTokens (prevPageTokens s ++ [pageToken_or_empty (pageToken s)]) s)
  else s.

Definition goToPrevPage (s : ListState) : ListState :=
  match last (prevPageTokens s) with
  | Some lastToken =>
      setPageToken (Str lastToken)
        (setPrevPageTokens (removelast (prevPageTokens s)) s)
  | None => s
  end.

Definition triggerRefresh (p : Props) (s : ListState) : ListState :=
  if negb (isTagView p) && negb (isSearchView p) && negb (isNewTagFilterView p)
     && negb (isLoading s)
  then setRefreshKey (S (refreshKey s))
         (setError None (setPageToken Null (setEmailCache ∅ s)))
  else s.

Definition toggleEmailSelection (id : string) (s : ListState) : ListState :=
  setSelectedEmails
    (if bool_decide (id ∈ selectedEmails s)
     then List.filter (λ emailId, negb (String.eqb emailId id)) (selectedEmails s)
     else selectedEmails s ++ [id])
    s.

(** ** Mail client (supabaseClient.ts): the other endpoints *)

Record GmailThread (M : Type) : Type := mkGmailThread {
  th_id : string;
  th_historyId : string;
  th_messages : list M
}.
Arguments mkGmailThread {M}.
Arguments th_id {M}.
Arguments th_historyId {M}.
Arguments th_messages {M}.

(** [fetchEmailThread(threadId)]; [sortMessages] is
    [messages.sort((a, b) => parseInt(a.internalDate || '0') - ...)]. *)
Definition fetchEmailThread {M} (sortMessages : list M → list M)
    (sess : Session) (resp : Fetched (GmailThread M))
  : result (GmailThread M) :=
  accessToken ← getAccessToken sess;
  match resp with
  | Rejected m => Throw m
  | Responded response =>
      if negb (ok response) then
        if is_auth_status (status response) then Throw token_expired
        else Throw ("Failed to fetch thread: " +:+ pretty (status response))
      else
        let threadData := body response in
        Ok (mkGmailThread (th_id threadData) (th_historyId threadData)
                          (sortMessages (th_messages threadData)))
  end.

(** [sendReply(threadId, replyBody, originalMessage)]: the send request, then
    the request for the full sent message. *)
Definition sendReply {M} (sess : Session) (send : Fetched M)
    (full : M → Fetched M) : result (option M) :=
  accessToken ← getAccessToken sess;
  match send with
  | Rejected m => Throw m
  | Responded response =>
      if negb (ok response) then
        if is_auth_status (status response) then Throw token_expired
        else Throw ("Failed to send reply: " +:+ pretty (status response))
      else
        let sentMessage := body response in
        match full sentMessage with
        | Rejected m => Throw m
        | Responded fullMessageResponse =>
            if negb (ok fullMessageResponse) then Ok None
            else Ok (Some (body fullMessageResponse))
        end
  end.

(** [sendNewGmailMessage(to, subject, body)] *)
Definition sendNewGmailMessage (sess : Session) (resp : Fetched unit)
  : result bool :=
  accessToken ← getAccessToken sess;
  match resp with
  | Rejected m => Throw m
  | Responded response =>
      if negb (ok response) then
        if is_auth_status (status response) then Throw token_expired
        else Throw ("Failed to send email: " +:+ pretty (status response))
      else Ok true
  end.

(** The [try] block of a function whose [catch] returns a value: what the
    [try] throws is replaced by [fallback]. *)
Definition catch_return {A} (fallback : A) (r : result A) : result A :=
  match r with
  | Ok a => Ok a
  | Throw _ => Ok fallback
  end.

(** [markMessageAsRead(messageId)] *)
Definition markMessageAsRead (sess : Session) (messageId : string)
    (resp : Fetched unit) : result bool :=
  accessToken ← getAccessToken sess;
  if negb (truthy messageId) then Ok false
  else
    catch_return false
      match resp with
      | Rejected m => Throw m
      | Responded response =>
          if negb (ok response) then
            if is_auth_status (status response) then Throw token_expired
            else Ok false
          else Ok true
      end.

(** [markEmailStarred(userId, messageId, starred)]; [supabaseUpdateSuccess]
    is what [updateSupabaseEmail] returns, which only decides a warning. *)
Definition markEmailStarred (sess : Session) (resp : Fetched unit)
    (supabaseUpdateSuccess : bool) : result bool :=
  accessToken ← getAccessToken sess;
  catch_return false
    match resp with
    | Rejected m => Throw m
    | Responded response =>
        if negb (ok response) then
          if is_auth_status (status response) then Throw token_expired
          else Ok false
        else Ok true
    end.

(** ** Calendar client: writes and the activity feed *)

(** [createCalendarEvent(calendarId, eventData)] *)
Definition createCalendarEvent (sess : Session)
    (resp : Fetched GoogleCalendarEvent) : result GoogleCalendarEvent :=
  accessToken ← getAccessToken sess;
  match resp with
  | Rejected m => Throw m
  | Responded response =>
      if negb (ok response) then
        if is_auth_status (status response) then Throw token_expired
        else Throw ("Failed to create event: " +:+ message_or_statusText response)
      else Ok (body response)
  end.

(** [updateCalendarEvent(calendarId, eventId, eventData)] *)
Definition updateCalendarEvent (sess : Session)
    (resp : Fetched GoogleCalendarEvent) : result GoogleCalendarEvent :=
  accessToken ← getAccessToken sess;
  match resp with
  | Rejected m => Throw m
  | Responded response =>
      if negb (ok response) then
        if is_auth_status (status response) then Throw token_expired
        else Throw ("Failed to update event: " +:+ message_or_statusText response)
      else Ok (body response)
  end.

(** [deleteCalendarEvent(calendarId, eventId)] *)
Definition deleteCalendarEvent (sess : Session) (resp : Fetched unit)
  : result unit :=
  accessToken ← getAccessToken sess;
  match resp with
  | Rejected m => Throw m
  | Responded response =>
      if negb (ok response) && negb (status response =? 204)%Z then
        if is_auth_status (status response) then Throw token_expired
        else Throw ("Failed to delete event: " +:+ message_or_statusText response)
      else Ok tt
  end.

(** [TimelineEvent['type']], the calendar part. *)
Inductive CalendarActivity : Type :=
| CALENDAR_EVENT_CREATED
| CALENDAR_EVENT_UPDATED
| CALENDAR_EVENT_DELETED.

Record TimelineEvent : Type := mkTimelineEvent {
  te_id : string;
  te_type : CalendarActivity;
  te_timestamp : string;
  te_eventId : string;
  te_eventSummary : string;
  te_htmlLink : option string
}.

(** The clock and the date parser of the host: [new Date().toISOString()] and
    [new Date(s).getTime()], [None] being [NaN]. *)
Record Clock : Type := mkClock {
  now : string;
  getTime : string → option Z
}.

(** [new Date(updated).getTime() - new Date(created).getTime() < 5000]; a
    comparison with [NaN] is false. *)
Definition created_just_now (c : Clock) (created updated : string) : bool :=
  match getTime c updated, getTime c created with
  | Some u, Some cr => (u - cr <? 5000)%Z
  | _, _ => false
  end.

(** The choice of [eventType] and [timestamp] in the [events.map] callback of
    [fetchRecentCalendarActivity]; [None] is the [return null]. *)
Definition classify (c : Clock) (event : GoogleCalendarEvent)
  : option (CalendarActivity * string) :=
  if bool_decide (ev_status event = Some "cancelled") then
    Some (CALENDAR_EVENT_DELETED,
          if truthy_opt (ev_updated event) then default "" (ev_updated event)
          else now c)
  else if truthy_opt (ev_created event) && truthy_opt (ev_updated event)
          && created_just_now c (default "" (ev_created event))
                              (default "" (ev_updated event))
  then Some (CALENDAR_EVENT_CREATED, default "" (ev_created event))
  else if truthy_opt (ev_updated event)
  then Some (CALENDAR_EVENT_UPDATED, default "" (ev_updated event))
  else None.

(** The [events.map] callback. *)
Definition timelineEvent_of (c : Clock) (event : GoogleCalendarEvent)
  : option TimelineEvent :=
  match classify c event with
  | Some (eventType, timestamp) =>
      Some (mkTimelineEvent
              ("cal-" +:+ ev_id event +:+ "-" +:+ timestamp)
              eventType timestamp (ev_id event)
              (match ev_summary event with
               | Some s => str_or s "(No Title)"
               | None => "(No Title)"
               end)
              (ev_htmlLink event))
  | None => None
  end.

(** [fetchRecentCalendarActivity(calendarId, limit)]; [sortDesc] is the
    [timelineEvents.sort] by descending timestamp. *)
Definition fetchRecentCalendarActivity (c : Clock)
    (sortDesc : list TimelineEvent → list TimelineEvent)
    (sess : Session) (resp : Fetched (option (list GoogleCalendarEvent)))
  : result (list TimelineEvent) :=
  accessToken ← getAccessToken sess;
  catch_return []
    match resp with
    | Rejected m => Throw m
    | Responded response =>
        if negb (ok response) then
          if is_auth_status (status response) then Throw token_expired
          else Ok []
        else
          let events := default [] (body response) in
          Ok (sortDesc (omap (timelineEvent_of c) events))
    end.

(** ** Tag store writes (supabaseClient.ts, timelineClient, cardApi) *)

(** The message of the error of a statement that did not succeed. *)
Definition failure (o : Outcome) : option string :=
  match o with
  | Succeeds => None
  | Fails m => Some m
  | Raises m => Some m
  end.

Definition with_email_tags (rows : list EmailTagRow) (st : Store) : Store :=
  mkStore (tags st) (emails st) rows (removed_email_tags_log st)
          (calendar_event_tags st) (timeline_card_tags st) (custom_cards st)
          (custom_card_tags st) (custom_cards_log st).

Definition with_removed_email_tags_log (rows : list RemovedTagLogRow)
    (st : Store) : Store :=
  mkStore (tags st) (emails st) (email_tags st) rows
          (calendar_event_tags st) (timeline_card_tags st) (custom_cards st)
          (custom_card_tags st) (custom_cards_log st).

Definition with_calendar_event_tags (rows : list CalendarEventTagRow)
    (st : Store) : Store :=
  mkStore (tags st) (emails st) (email_tags st) (removed_email_tags_log st)
          rows (timeline_card_tags st) (custom_cards st)
          (custom_card_tags st) (custom_cards_log st).

Definition with_timeline_card_tags (rows : list TimelineCardTagRow)
    (st : Store) : Store :=
  mkStore (tags st) (emails st) (email_tags st) (removed_email_tags_log st)
          (calendar_event_tags st) rows (custom_cards st)
          (custom_card_tags st) (custom_cards_log st).

Definition with_custom_cards (rows : list CustomCardRow) (st : Store) : Store :=
  mkStore (tags st) (emails st) (email_tags st) (removed_email_tags_log st)
          (calendar_event_tags st) (timeline_card_tags st) rows
          (custom_card_tags st) (custom_cards_log st).

Definition with_custom_card_tags (rows : list CustomCardTagRow) (st : Store)
  : Store :=
  mkStore (tags st) (emails st) (email_tags st) (removed_email_tags_log st)
          (calendar_event_tags st) (timeline_card_tags st) (custom_cards st)
          rows (custom_cards_log st).

Definition with_custom_cards_log (rows : list CardLogRow) (st : Store) : Store :=
  mkStore (tags st) (emails st) (email_tags st) (removed_email_tags_log st)
          (calendar_event_tags st) (timeline_card_tags st) (custom_cards st)
          (custom_card_tags st) rows.

(** [from('email_tags').delete().eq('email_id', emailId).eq('tag_id', tagId)
      .eq('user_id', userId)] *)
Definition delete_email_tag (userId emailId tagId : string) (st : Store)
  : Store :=
  with_email_tags
    (filter (λ r, ¬ (et_email_id r = emailId ∧ et_tag_id r = tagId
                     ∧ et_user_id r = userId))
            (email_tags st))
    st.

(** [removeTagFromEmail(userId, emailId, tagId)]: the value returned and the
    store afterwards.  [dbNow] is the default the store gives [removed_at]. *)
Definition removeTagFromEmail (st : Store) (deleteOutcome logOutcome : Outcome)
    (dbNow : string) (userId emailId tagId : string) : bool * Store :=
  if negb (truthy userId) || negb (truthy emailId) || negb (truthy tagId)
  then (false, st)
  else
    match deleteOutcome with
    | Fails _ => (false, st)
    | Raises _ => (false, st)           (* catch: removalSuccess is false *)
    | Succeeds =>
        let st1 := delete_email_tag userId emailId tagId st in
        match logOutcome with
        | Succeeds =>
            (true,
             with_removed_email_tags_log
               (removed_email_tags_log st1
                ++ [mkRemovedTagLogRow emailId tagId userId dbNow]) st1)
        | Fails _ => (true, st1)
        | Raises _ => (true, st1)       (* catch: removalSuccess is true *)
        end
    end.

(** [.delete().eq('user_id', userId).eq('event_id', eventId)] *)
Definition delete_calendar_event_tags (userId eventId : string) (st : Store)
  : Store :=
  with_calendar_event_tags
    (filter (λ r, ¬ (cet_user_id r = userId ∧ cet_event_id r = eventId))
            (calendar_event_tags st))
    st.

(** [setTagsForCalendarEvent(userId, eventId, tagIds)] *)
Definition setTagsForCalendarEvent (st : Store)
    (deleteOutcome insertOutcome : Outcome)
    (userId eventId : string) (tagIds : list string) : result unit * Store :=
  if negb (truthy userId) || negb (truthy eventId) then (Ok tt, st)
  else
    match failure deleteOutcome with
    | Some deleteError => (Throw deleteError, st)
    | None =>
        let st1 := delete_calendar_event_tags userId eventId st in
        if bool_decide (tagIds ≠ []) then
          let newLinks :=
            map (λ tagId, mkCalendarEventTagRow userId eventId tagId) tagIds in
          match failure insertOutcome with
          | Some insertError => (Throw insertError, st1)
          | None =>
              (Ok tt,
               with_calendar_event_tags (calendar_event_tags st1 ++ newLinks) st1)
          end
        else (Ok tt, st1)
    end.

(** [.delete().eq('user_id', userId).eq('card_id', cardId)] *)
Definition delete_timeline_card_tags (userId cardId : string) (st : Store)
  : Store :=
  with_timeline_card_tags
    (filter (λ r, ¬ (tct_user_id r = userId ∧ tct_card_id r = cardId))
            (timeline_card_tags st))
    st.

(** [setTagsForTimelineCard(userId, cardId, tagIds)] *)
Definition setTagsForTimelineCard (st : Store)
    (deleteOutcome insertOutcome : Outcome)
    (userId cardId : string) (tagIds : list string) : result unit * Store :=
  if negb (truthy userId) || negb (truthy cardId) then (Ok tt, st)
  else
    match failure deleteOutcome with
    | Some deleteError => (Throw deleteError, st)
    | None =>
        let st1 := delete_timeline_card_tags userId cardId st in
        if bool_decide (tagIds ≠ []) then
          let newLinks :=
            map (λ tagId, mkTimelineCardTagRow userId cardId tagId) tagIds in
          match failure insertOutcome with
          | Some insertError => (Throw insertError, st1)
          | None =>
              (Ok tt,
               with_timeline_card_tags (timeline_card_tags st1 ++ newLinks) st1)
          end
        else (Ok tt, st1)
    end.

(** The [CustomCard] of cardApi. *)
Record CustomCard : Type := mkCustomCard {
  card_row : CustomCardRow;
  card_tags : list Tag
}.

(** [createCard(title, content, tagIds)]: [user] is the user of
    [supabase.auth.getUser()] ([None] when there is an error or no user),
    [newId] and [dbNow] the id and the timestamps the store gives the new
    row.  An error of the card insert or of the tag insert is thrown; an
    error of the log insert is only written to the console. *)
Definition createCard (st : Store) (user : option string)
    (cardOutcome tagsOutcome logOutcome : Outcome) (newId dbNow : string)
    (title content : string) (tagIds : list string)
  : result CustomCard * Store :=
  match user with
  | None => (Throw "User not authenticated", st)
  | Some uid =>
      match failure cardOutcome with
      | Some createError => (Throw createError, st)
      | None =>
          let newCard := mkCustomCardRow newId uid title content dbNow dbNow in
          let st1 := with_custom_cards (custom_cards st ++ [newCard]) st in
          let tagged :=
            if bool_decide (tagIds ≠ []) then
              let tagInserts :=
                map (λ tagId, mkCustomCardTagRow newId tagId uid) tagIds in
              match tagsOutcome with
              | Succeeds =>
                  (None,
                   with_custom_card_tags (custom_card_tags st1 ++ tagInserts) st1)
              | Fails m =>
                  (Some ("Card created, but failed to add tags: " +:+ m), st1)
              | Raises m => (Some m, st1)
              end
            else (None, st1) in
          match tagged with
          | (Some tagError, st2) => (Throw tagError, st2)
          | (None, st2) =>
              match logOutcome with
              | Succeeds =>
                  (Ok (mkCustomCard newCard []),
                   with_custom_cards_log
                     (custom_cards_log st2
                      ++ [mkCardLogRow newId uid "CREATED" (Some title) dbNow]) st2)
              | Fails _ => (Ok (mkCustomCard newCard []), st2)
              | Raises m => (Throw m, st2)
              end
          end
      end
  end.

(** ** Notions used to state and prove the properties *)

(** The store has an [emails] row for this id and user. *)
Definition has_email (st : Store) (uid eid : string) : Prop :=
  ∃ e, e ∈ emails st ∧ er_email_id e = eid ∧ er_user_id e = uid.

(** What decides, for an email id, whether step 2 of [fetchEmailsByTags]
    records it. *)
Definition keeps (tagIds : list string) (mode : FilterMode)
    (full : list EmailWithTags) (id : string) : bool :=
  match mode with
  | ModeAll => forallb (λ t, bool_decide (t ∈ uniqueTagsForThisEmail full id)) tagIds
  | ModeAny => true
  end.

(** One iteration of the [forEach] of step 2, the two modes written alike. *)
Definition step (tagIds : list string) (mode : FilterMode)
    (full : list EmailWithTags) (acc : list (string * Email))
    (email : EmailWithTags) : list (string * Email) :=
  let id := er_email_id (ewt_email email) in
  if jsmap_has id acc then acc
  else if keeps tagIds mode full id
       then jsmap_set id (baseEmailData (ewt_email email)) acc
       else acc.

(** The weakest precondition of a load: [Q] holds when it goes on, [E] when
    it returns early or throws. *)
Definition wp {A} (m : Load A) (Q : A → LoadSt → Prop) (E : LoadSt → Prop)
    (l : LoadSt) : Prop :=
  match runLoad m l with
  | Next a l' => Q a l'
  | Returned l' => E l'
  | Raised _ l' => E l'
  end.

(** The selection is what it was when the effect started. *)
Definition Sel (s0 : ListState) (l : LoadSt) : Prop :=
  selectedEmails (ls_state l) = selectedEmails s0
  ∧ selectAll (ls_state l) = selectAll s0.

(** The refs hold the values of the render that started the effect. *)
Definition Refs (p : Props) (s0 : ListState) (l : LoadSt) : Prop :=
  pageTokenRef (ls_state l) = pageToken s0
  ∧ activeFilterNameRef (ls_state l) = activeFilterName p
  ∧ searchQueryRef (ls_state l) = searchQuery p
  ∧ filterTagsParamRef (ls_state l) = filterTagsParam p.

(** The paging cursors are reset: no current page token, no forward cursor,
    no prior cursors. *)
Definition cursor_reset (s : ListState) : Prop :=
  pageToken s = Null ∧ nextPageToken s = None ∧ prevPageTokens s = [].

(** The render shows the paginated default view. *)
Definition paged_view (p : Props) : bool :=
  negb (isNewTagFilterView p) && negb (isSearchView p) && negb (isTagView p).

(** The render starts a load: there is an authenticated user and no thread is
    open. *)
Definition loads (p : Props) : bool :=
  isAuthenticated p && truthy_opt (user_id_of p)
  && negb (truthy_opt (param_threadId p)).

(** The list request of the paginated view for the first page. *)
Definition first_page_request (s : ListState) : Request :=
  if String.eqb (activeTab s) "important" then ReqImportant None
  else ReqPage None.

(** No detail fetch of the trace names an identifier that was in the cache
    when the load started. *)
Definition fetches_uncached_only (cache : gmap string EmailItem)
    (trace : list Request) : Prop :=
  ∀ ids id, ReqDetails ids ∈ trace → id ∈ ids → cache !! id = None.

(** The mail service answers a detail request with the message asked for. *)
Definition detail_faithful (env : Env) : Prop :=
  ∀ id res, env_detail env id = Responded res → ok res = true →
            gm_id (body res) = id.

(** The first request of the trace. *)
Definition starts_with (r : Request) (l : LoadSt) : Prop :=
  ∃ rest, ls_trace l = r :: rest.





(** [fetches_uncached_only] for the requests sent so far. *)
Definition trace_uncached (s0 : ListState) (l : LoadSt) : Prop :=
  fetches_uncached_only (emailCache s0) (ls_trace l).

(** No identifier of the first cache is missing from the second. *)
Definition keeps_keys (c0 c1 : gmap string EmailItem) : Prop :=
  ∀ id, is_Some (c0 !! id) → is_Some (c1 !! id).

(** Every entry of the first cache is, unchanged, in the second. *)
Definition keeps_entries (c0 c1 : gmap string EmailItem) : Prop :=
  ∀ id item, c0 !! id = Some item → c1 !! id = Some item.

(** The cache of the component is related by [R] to the cache the load
    started with. *)
Definition grows (R : gmap string EmailItem → gmap string EmailItem → Prop)
    (s0 : ListState) (l : LoadSt) : Prop :=
  R (emailCache s0) (emailCache (ls_state l)).

(** The load has not called the by-tags reader. *)
Definition no_by_tags (trace : list Request) : Prop :=
  ∀ tagIds mode, ReqByTags tagIds mode ∉ trace.

Definition trace_no_by_tags (l : LoadSt) : Prop := no_by_tags (ls_trace l).

(** ** Example data

    Concrete inputs used by the examples, witnesses and counterexamples. *)

(** The scenario of the specification: emails A {t1}, B {t1, t2}, C {}, and
    one calendar event tagged t1. *)
Definition t1 : Tag := mkTag "t1" "work" "pin" "red".
Definition t2 : Tag := mkTag "t2" "urgent" "priority" "blue".

Definition example_store : Store :=
  mkStore [t1; t2]
    [mkEmailRow "A" "u" None None "d0" "d0";
     mkEmailRow "B" "u" None None "d0" "d0";
     mkEmailRow "C" "u" None None "d0" "d0"]
    [mkEmailTagRow "A" "t1" "u"; mkEmailTagRow "B" "t1" "u";
     mkEmailTagRow "B" "t2" "u"]
    []
    [mkCalendarEventTagRow "u" "e1" "t1"]
    [] [] [] [].

Definition example_event (id : string) : GoogleCalendarEvent :=
  mkEvent id None None None None None None None None None.

Definition example_calendar_answer
  : Fetched (option (list GoogleCalendarEvent)) :=
  Responded (mkResponse 200 "OK" (Some [example_event "e1"; example_event "e2"]) None).

Definition no_detail (id : string) : Fetched GmailFullMessage :=
  Rejected "offline".

(** A mail service with two pages, [A B C] then [D], and a list component
    that has just been mounted. *)
Definition example_display : Display :=
  mkDisplay (λ s, (s, s)) (λ _, None) (λ _, "date").

Definition example_message (id : string) : GmailFullMessage :=
  mkGmailFullMessage id ("th-" +:+ id) "snippet" (Some ["UNREAD"]) None
                     (Some [mkHeader "Subject" "hello"]).

Definition example_page (page : option string) : Fetched MessageList :=
  match page with
  | None =>
      Responded (mkResponse 200 "OK"
        (mkMessageList (Some [mkMetadata "A" "th-A"; mkMetadata "B" "th-B";
                              mkMetadata "C" "th-C"]) (Some "p2")) None)
  | Some _ =>
      Responded (mkResponse 200 "OK"
        (mkMessageList (Some [mkMetadata "D" "th-D"]) None) None)
  end.

Definition example_detail (id : string) : Fetched GmailFullMessage :=
  Responded (mkResponse 200 "OK" (example_message id) None).

Definition example_env : Env :=
  mkEnv example_display (SessionWith (Some "tok")) (Some "u") example_store
        Succeeds Succeeds example_page example_page (λ _, example_page None)
        example_detail (λ _ _, Ok None) None.

(** The same service, except that the detail request for [B] is answered
    with 404. *)
Definition example_env_missing_detail : Env :=
  mkEnv example_display (SessionWith (Some "tok")) (Some "u") example_store
        Succeeds Succeeds example_page example_page (λ _, example_page None)
        (λ id, if String.eqb id "B"
               then Responded (mkResponse 404 "Not Found" (example_message id) None)
               else example_detail id)
        (λ _ _, Ok None) None.

Definition initial_state : ListState :=
  mkListState [] ∅ Undefined None [] false None [] false "all" 0
              Undefined None None None None.

Definition paged_props : Props :=
  mkProps true (Some "u") None None None None None None.

Definition search_props : Props :=
  mkProps true (Some "u") None None (Some "invoice") None None None.

(** A clock that knows three instants: T, T + 2 s and T + 10 min. *)
Definition example_clock : Clock :=
  mkClock "2025-03-01T12:00:00.000Z"
    (λ s, if String.eqb s "2025-03-01T09:00:00.000Z" then Some 1740819600000%Z
          else if String.eqb s "2025-03-01T09:00:02.000Z" then Some 1740819602000%Z
          else if String.eqb s "2025-03-01T09:10:00.000Z" then Some 1740820200000%Z
          else None).

Definition example_activity (status created updated : option string)
  : GoogleCalendarEvent :=
  mkEvent "e1" (Some "Standup") None None None status None created updated None.

Definition unauthorized {A} (a : A) : Fetched A :=
  Responded (mkResponse 401 "Unauthorized" a None).

(** A store in which the calendar event [e1] carries the tag [t1]. *)
Definition tagged_event_store : Store :=
  mkStore [t1; t2] [] [mkEmailTagRow "A" "t1" "u"] []
          [mkCalendarEventTagRow "u" "e1" "t1"] [] [] [] [].


(* --------------------------------------------------------------------- *)
(** ** Further code of the repository *)
(* --------------------------------------------------------------------- *)

(** ** Further notions: paging *)

(** The list request of the paginated view for the page the state is on. *)
Definition page_request (s : ListState) : Request :=
  if String.eqb (activeTab s) "important"
  then ReqImportant (requested_page (pageToken s))
  else ReqPage (requested_page (pageToken s)).

(** The page token and the stack of prior cursors are what they were when
    the effect started. *)
Definition Paging (s0 : ListState) (l : LoadSt) : Prop :=
  pageToken (ls_state l) = pageToken s0
  ∧ prevPageTokens (ls_state l) = prevPageTokens s0
  ∧ activeTab (ls_state l) = activeTab s0.

(** *** The selection and the tabs of the list (EmailsList) *)

(** [filteredEmails]: the emails of the active tab. *)
Definition filteredEmails (s : ListState) : list EmailItem :=
  if String.eqb (activeTab s) "unread"
  then List.filter (λ email, negb (ei_read email)) (allEmails s)
  else if String.eqb (activeTab s) "starred"
  then List.filter (λ email, ei_starred email) (allEmails s)
  else allEmails s.

(** The effect on [[selectedEmails, filteredEmails]] that updates
    [selectAll]. *)
Definition syncSelectAll (s : ListState) : ListState :=
  if bool_decide (filteredEmails s ≠ [])
     && bool_decide (length (selectedEmails s) = length (filteredEmails s))
  then setSelectAll true s
  else setSelectAll false s.

Definition handleSelectAll (checked : bool) (s : ListState) : ListState :=
  let s1 := setSelectAll checked s in
  if checked then setSelectedEmails (map ei_id (filteredEmails s)) s1
  else setSelectedEmails [] s1.

(** ** Tag store: adding a tag to an email (supabaseClient.ts) *)

Definition with_emails (rows : list EmailRow) (st : Store) : Store :=
  mkStore (tags st) rows (email_tags st) (removed_email_tags_log st)
          (calendar_event_tags st) (timeline_card_tags st) (custom_cards st)
          (custom_card_tags st) (custom_cards_log st).

(** Step 3 of [addTagToEmail]: the insert into [email_tags]. *)
Definition insert_email_tag (insertTagOutcome : Outcome)
    (userId emailId tagId : string) (st : Store) : bool * Store :=
  match insertTagOutcome with
  | Succeeds =>
      (true,
       with_email_tags (email_tags st ++ [mkEmailTagRow emailId tagId userId]) st)
  | Fails _ => (false, st)
  | Raises _ => (false, st)
  end.

(** [addTagToEmail(userId, emailId, tagId)]: the value returned and the store
    afterwards.  The three outcomes are those of the [maybeSingle] lookup of
    the email, of the insert of the missing email and of the insert of the
    association; [maybeSingle] answers with an error when more than one row
    matches.  The inserted email has no thread id, is not starred, and gets
    its timestamps, [dbNow], from the store. *)
Definition addTagToEmail (st : Store)
    (selectOutcome insertEmailOutcome insertTagOutcome : Outcome)
    (dbNow : string) (userId emailId tagId : string) : bool * Store :=
  if negb (truthy userId) || negb (truthy emailId) || negb (truthy tagId)
  then (false, st)
  else
    match selectOutcome with
    | Fails _ => (false, st)
    | Raises _ => (false, st)
    | Succeeds =>
        match filter (λ e, er_email_id e = emailId ∧ er_user_id e = userId)
                     (emails st) with
        | [] =>
            match insertEmailOutcome with
            | Succeeds =>
                insert_email_tag insertTagOutcome userId emailId tagId
                  (with_emails
                     (emails st
                      ++ [mkEmailRow emailId userId None (Some false) dbNow dbNow])
                     st)
            | Fails _ => (false, st)
            | Raises _ => (false, st)
            end
        | [existingEmail] =>
            insert_email_tag insertTagOutcome userId emailId tagId st
        | _ :: _ :: _ => (false, st)
        end
    end.

(** [fetchEmailTagIds(userId, emailId)] *)
Definition fetchEmailTagIds (st : Store) (o : Outcome) (userId emailId : string)
  : list string :=
  if negb (truthy userId) || negb (truthy emailId) then []
  else match o with
       | Succeeds =>
           map et_tag_id
               (filter (λ et, et_email_id et = emailId ∧ et_user_id et = userId)
                       (email_tags st))
       | Fails _ => []
       | Raises _ => []
       end.

(** *** Starring and tagging from the list (EmailsList) *)

(** [{ ...email, starred }] and [{ ...email, tags }] *)
Definition with_starred (starred : bool) (e : EmailItem) : EmailItem :=
  mkEmailItem (ei_id e) (ei_threadId e) (ei_subject e) (ei_sender e)
    (ei_senderAddress e) (ei_excerpt e) (ei_date e) (ei_dateObj e) (ei_read e)
    starred (ei_tags e).

Definition with_item_tags (ts : list Tag) (e : EmailItem) : EmailItem :=
  mkEmailItem (ei_id e) (ei_threadId e) (ei_subject e) (ei_sender e)
    (ei_senderAddress e) (ei_excerpt e) (ei_date e) (ei_dateObj e) (ei_read e)
    (ei_starred e) ts.

(** The two state updates every branch of [toggleStar] and
    [handleTagToggle] makes: the entry of [id] in the cache, when there is
    one, and every item of the list with that id are replaced by [f] of
    themselves. *)
Definition update_item (id : string) (f : EmailItem → EmailItem)
    (s : ListState) : ListState :=
  let s1 :=
    setEmailCache
      (match emailCache s !! id with
       | Some currentEmail => <[id := f currentEmail]> (emailCache s)
       | None => emailCache s
       end) s in
  setAllEmails
    (map (λ e, if String.eqb (ei_id e) id then f e else e) (allEmails s1)) s1.
Arguments update_item : simpl never.

(** [toggleStar(id)]; [sess], [resp] and [supabaseUpdateSuccess] are what
    [markEmailStarred] meets.  The optimistic update is undone when
    [markEmailStarred] throws, and only then. *)
Definition toggleStar (p : Props) (sess : Session) (resp : Fetched unit)
    (supabaseUpdateSuccess : bool) (id : string) (s : ListState) : ListState :=
  if negb (truthy_opt (user_id_of p)) then s
  else
    match emailCache s !! id with
    | None => s
    | Some emailToUpdate =>
        let newStarredState := negb (ei_starred emailToUpdate) in
        let s1 := update_item id (with_starred newStarredState) s in
        match markEmailStarred sess resp supabaseUpdateSuccess with
        | Ok _ => s1
        | Throw _ => update_item id (with_starred (negb newStarredState)) s1
        end
    end.

(** How the tag store answers the statements of [removeTagFromEmail] and
    [addTagToEmail]. *)
Record TagWrites : Type := mkTagWrites {
  tw_delete : Outcome;
  tw_log : Outcome;
  tw_select : Outcome;
  tw_insert_email : Outcome;
  tw_insert_tag : Outcome;
  tw_now : string
}.

(** [handleTagToggle(emailId, tagId)]: the state of the list and the tag
    store afterwards.  [availableTags] is the state cell of that name.
    [removeTagFromEmail] and [addTagToEmail] return a boolean and never
    throw, so the [catch] that would undo the optimistic update is never
    entered. *)
Definition handleTagToggle (p : Props) (availableTags : list Tag)
    (w : TagWrites) (emailId tagId : string) (s : ListState) (st : Store)
  : ListState * Store :=
  if negb (truthy_opt (user_id_of p)) then (s, st)
  else
    match emailCache s !! emailId with
    | None => (s, st)
    | Some emailToUpdate =>
        let isCurrentlyTagged :=
          existsb (λ t, String.eqb (tag_id t) tagId) (ei_tags emailToUpdate) in
        match List.find (λ t, String.eqb (tag_id t) tagId) availableTags with
        | None => (s, st)
        | Some tagDetails =>
            let updatedTags :=
              if isCurrentlyTagged
              then List.filter (λ t, negb (String.eqb (tag_id t) tagId))
                               (ei_tags emailToUpdate)
              else ei_tags emailToUpdate ++ [tagDetails] in
            let s1 := update_item emailId (with_item_tags updatedTags) s in
            let userId := default "" (user_id_of p) in
            if isCurrentlyTagged
            then (s1, (removeTagFromEmail st (tw_delete w) (tw_log w) (tw_now w)
                         userId emailId tagId).2)
            else (s1, (addTagToEmail st (tw_select w) (tw_insert_email w)
                         (tw_insert_tag w) (tw_now w) userId emailId tagId).2)
        end
    end.

(** The tag ids the list shows on an email: those of its cache entry. *)
Definition shown_tag_ids (s : ListState) (emailId : string) : gset string :=
  match emailCache s !! emailId with
  | Some e => list_to_set (map tag_id (ei_tags e))
  | None => ∅
  end.

(** ** The project page (TimelinePage): the list of cards *)

(** [handleSaveSuccess(savedCard)], the function passed to
    [setCustomTimelineCards]: the first card with the id of [savedCard] is
    replaced by it; when there is none [savedCard] is put in front. *)
Definition handleSaveSuccess (savedCard : TimelineCard)
    (prevCards : list TimelineCard) : list TimelineCard :=
  match list_find (λ c, tc_id c = tc_id savedCard) prevCards with
  | Some (index, _) => <[index := savedCard]> prevCards
  | None => savedCard :: prevCards
  end.

(** [handleDeleteSuccess(deletedCardId)] *)
Definition handleDeleteSuccess (deletedCardId : string)
    (prevCards : list TimelineCard) : list TimelineCard :=
  List.filter (λ card, negb (String.eqb (tc_id card) deletedCardId)) prevCards.

(** ** Project cards in the tag store (timelineClient) *)

(** A row of [timeline_custom_cards]. *)
Record TimelineCardRow : Type := mkTimelineCardRow {
  tcr_id : string;
  tcr_user_id : string;
  tcr_title : string;
  tcr_description : option string;
  tcr_start_date : string;
  tcr_end_date : option string;
  tcr_created_at : string
}.

Global Instance TimelineCardRow_eq_dec : EqDecision TimelineCardRow.
Proof. solve_decision. Defined.

(** The nested [timeline_card_tags ( tags ( id, name, color, type ) )] of
    one card, flattened as [processedCards] does:
    [card.timeline_card_tags?.map(link => link.tags).filter(Boolean)]. *)
Definition card_embedded_tags (st : Store) (userId cardId : string) : list Tag :=
  omap (λ link, find_tag st (tct_tag_id link))
       (filter (λ link, tct_card_id link = cardId ∧ tct_user_id link = userId)
               (timeline_card_tags st)).

(** [fetchTimelineCardsWithTags(userId)].  [cards] is the table
    [timeline_custom_cards], [orderByStartDate] the
    [.order('start_date', { ascending: true })] of the store.  Whatever the
    query throws is caught and the empty list returned. *)
Definition fetchTimelineCardsWithTags
    (orderByStartDate : list TimelineCardRow → list TimelineCardRow)
    (cards : list TimelineCardRow) (st : Store) (o : Outcome) (userId : string)
  : list TimelineCard :=
  if negb (truthy userId) then []
  else match o with
       | Succeeds =>
           map (λ card,
                  mkTimelineCard (tcr_id card) (tcr_user_id card) (tcr_title card)
                    (tcr_description card) (tcr_start_date card)
                    (tcr_end_date card) (tcr_created_at card)
                    (card_embedded_tags st userId (tcr_id card)))
               (orderByStartDate (filter (λ card, tcr_user_id card = userId) cards))
       | Fails _ => []
       | Raises _ => []
       end.

(** [deleteTimelineCard(userId, cardId)]: what is thrown, and the table of
    cards and the store afterwards.  The association rows of a deleted card
    go with it: [timeline_card_tags.card_id] references the card with
    [ON DELETE CASCADE]. *)
Definition deleteTimelineCard (cards : list TimelineCardRow) (st : Store)
    (o : Outcome) (userId cardId : string)
  : result unit * (list TimelineCardRow * Store) :=
  if negb (truthy userId) || negb (truthy cardId)
  then (Throw "User ID and Card ID are required to delete a timeline card.",
        (cards, st))
  else
    match failure o with
    | Some error => (Throw error, (cards, st))
    | None =>
        let deleted :=
          filter (λ card, tcr_id card = cardId ∧ tcr_user_id card = userId) cards in
        (Ok tt,
         (filter (λ card, ¬ (tcr_id card = cardId ∧ tcr_user_id card = userId)) cards,
          if bool_decide (deleted = []) then st
          else with_timeline_card_tags
                 (filter (λ link, tct_card_id link ≠ cardId) (timeline_card_tags st))
                 st))
    end.

(** [handleDeleteClick(cardId)] of the project page: the list of cards shown,
    the table of cards and the store afterwards.  [user] is [user?.id]. *)
Definition handleDeleteClick (user : option string)
    (cards : list TimelineCardRow) (st : Store) (o : Outcome) (cardId : string)
    (customTimelineCards : list TimelineCard)
  : list TimelineCard * (list TimelineCardRow * Store) :=
  if negb (truthy_opt user) then (customTimelineCards, (cards, st))
  else
    match deleteTimelineCard cards st o (default "" user) cardId with
    | (Ok _, db) => (handleDeleteSuccess cardId customTimelineCards, db)
    | (Throw _, db) => (customTimelineCards, db)
    end.

(** [{ ...card, tags }] *)
Definition with_card_tags (ts : list Tag) (card : TimelineCard) : TimelineCard :=
  mkTimelineCard (tc_id card) (tc_user_id card) (tc_title card)
    (tc_description card) (tc_start_date card) (tc_end_date card)
    (tc_created_at card) ts.

(** The tags the association rows of the store name for a calendar event, in
    row order. *)
Definition event_tags_of (st : Store) (userId eventId : string) : list Tag :=
  omap (λ r, find_tag st (cet_tag_id r))
       (filter (λ r, cet_user_id r = userId ∧ cet_event_id r = eventId)
               (calendar_event_tags st)).

(** ** Mail client (supabaseClient.ts): the body of a message *)

(** [GmailMessagePart] (and [GmailMessagePayload], which has the same
    fields): a node of the MIME tree of a message. *)
Unset Elimination Schemes.
Inductive GmailMessagePart : Type :=
| mkPart (partId : string) (mimeType : string) (filename : string)
         (headers : list Header)
         (body_attachmentId : option string) (body_size : Z)
         (body_data : option string)
         (parts : option (list GmailMessagePart)).
Set Elimination Schemes.

Definition part_mimeType (part : GmailMessagePart) : string :=
  match part with mkPart _ mimeType _ _ _ _ _ _ => mimeType end.

Definition part_body_data (part : GmailMessagePart) : option string :=
  match part with mkPart _ _ _ _ _ _ body_data _ => body_data end.

Definition part_parts (part : GmailMessagePart) : option (list GmailMessagePart) :=
  match part with mkPart _ _ _ _ _ _ _ parts => parts end.

(** [part.mimeType === 'text/html' && part.body?.data] *)
Definition is_html_part (part : GmailMessagePart) : bool :=
  String.eqb (part_mimeType part) "text/html" && truthy_opt (part_body_data part).

(** [part.mimeType === 'text/plain' && part.body?.data] *)
Definition is_text_part (part : GmailMessagePart) : bool :=
  String.eqb (part_mimeType part) "text/plain" && truthy_opt (part_body_data part).

(** [findPartsRecursive] of [findBestBodyPart]; the pair is the two
    variables [htmlPart] and [textPart] it assigns. *)
Fixpoint findPartsRecursive (part : GmailMessagePart)
    (found : option GmailMessagePart * option GmailMessagePart)
  : option GmailMessagePart * option GmailMessagePart :=
  let '(htmlPart, textPart) := found in
  if is_html_part part then (Some part, textPart)
  else
    let textPart :=
      if is_text_part part && negb (bool_decide (is_Some htmlPart))
      then Some part else textPart in
    match part with
    | mkPart _ mimeType _ _ _ _ _ parts =>
        match htmlPart, parts with
        | None, Some subParts =>
            if String.prefix "multipart/" mimeType then
              (fix for_of (subParts : list GmailMessagePart)
                   (found : option GmailMessagePart * option GmailMessagePart) :=
                 match subParts with
                 | [] => found
                 | subPart :: rest =>
                     if bool_decide (is_Some found.1) then found   (* break *)
                     else for_of rest (findPartsRecursive subPart found)
                 end) subParts (htmlPart, textPart)
            else (htmlPart, textPart)
        | _, _ => (htmlPart, textPart)
        end
    end.

(** [findBestBodyPart(payload)]: [htmlPart || textPart || null]. *)
Definition findBestBodyPart (payload : option GmailMessagePart)
  : option GmailMessagePart :=
  match payload with
  | None => None
  | Some payload =>
      let '(htmlPart, textPart) := findPartsRecursive payload (None, None) in
      match htmlPart with
      | Some part => Some part
      | None => textPart
      end
  end.

(** The parts of a message in document order, as far as the search can reach
    them: the parts below a part are reached when the part is a
    [multipart/*] container that is not itself taken as the HTML body. *)
Fixpoint document_order (part : GmailMessagePart) : list GmailMessagePart :=
  part ::
  (if is_html_part part then []
   else match part with
        | mkPart _ mimeType _ _ _ _ _ (Some subParts) =>
            if String.prefix "multipart/" mimeType
            then (fix below (subParts : list GmailMessagePart) :=
                    match subParts with
                    | [] => []
                    | subPart :: rest => document_order subPart ++ below rest
                    end) subParts
            else []
        | _ => []
        end).

(** The last plain-text part of a list of parts, [textPart] when there is
    none. *)
Definition last_text (l : list GmailMessagePart) (textPart : option GmailMessagePart)
  : option GmailMessagePart :=
  match last (List.filter is_text_part l) with
  | Some part => Some part
  | None => textPart
  end.

(** Induction on the MIME tree: a property holds of every part when it holds
    of a part as soon as it holds of the parts directly below it. *)
Fixpoint GmailMessagePart_ind (P : GmailMessagePart → Prop)
    (step : ∀ partId mimeType filename headers body_attachmentId body_size
              body_data parts,
        match parts with
        | Some subParts => Forall P subParts
        | None => True
        end →
        P (mkPart partId mimeType filename headers body_attachmentId body_size
                  body_data parts))
    (part : GmailMessagePart) : P part :=
  match part with
  | mkPart partId mimeType filename headers body_attachmentId body_size
           body_data parts =>
      step partId mimeType filename headers body_attachmentId body_size
           body_data parts
           (match parts
                  return match parts with
                         | Some subParts => Forall P subParts
                         | None => True
                         end with
            | Some subParts =>
                (fix all (l : list GmailMessagePart) : Forall P l :=
                   match l with
                   | [] => @List.Forall_nil _ P
                   | subPart :: rest =>
                       @List.Forall_cons _ P subPart rest
                         (GmailMessagePart_ind P step subPart) (all rest)
                   end) subParts
            | None => I
            end)
  end.

(** ** Tag filter engine: project cards (tagFiltering.ts) *)

(** *** A plain JavaScript object used as a dictionary

    [acc] in [cardsData.reduce((acc, current) => ..., {})] is an ordinary
    object: reading [acc[key]] also finds what [Object.prototype] defines,
    and [Object.values] lists the values of the keys that are array indices
    first, in ascending order, and then those of the other keys in the order
    in which they were added.  The own properties are kept in the order of
    insertion. *)

(** The property names of [Object.prototype]. *)
Definition object_prototype_keys : list string :=
  ["constructor"; "__defineGetter__"; "__defineSetter__"; "hasOwnProperty";
   "__lookupGetter__"; "__lookupSetter__"; "isPrototypeOf";
   "propertyIsEnumerable"; "toString"; "valueOf"; "__proto__";
   "toLocaleString"].

(** [!!obj[key]] when every own value is an object: the key is an own
    property or a property of the prototype. *)
Definition object_has_truthy {V} (key : string) (obj : list (string * V)) : bool :=
  jsmap_has key obj || bool_decide (key ∈ object_prototype_keys).

(** The value of a string of decimal digits. *)
Fixpoint digits_value (s : string) (acc : N) : option N :=
  match s with
  | EmptyString => Some acc
  | String c rest =>
      let n := Ascii.N_of_ascii c in
      if (48 <=? n)%N && (n <=? 57)%N
      then digits_value rest (10 * acc + (n - 48))%N
      else None
  end.

(** The array index a property key denotes, if any: the canonical decimal
    numeral of an integer from 0 to 2^32 - 2. *)
Definition array_index (key : string) : option N :=
  match key with
  | EmptyString => None
  | String c rest =>
      if Ascii.eqb c (Ascii.ascii_of_nat 48)
      then (if String.eqb rest "" then Some 0%N else None)
      else match digits_value key 0 with
           | Some n => if (n <=? 4294967294)%N then Some n else None
           | None => None
           end
  end.

(** The order of two indexed entries. *)
Definition index_le {V} (a b : N * V) : Prop := (a.1 ≤ b.1)%N.

Global Instance index_le_dec {V} (a b : N * V) : Decision (index_le a b) :=
  decide (a.1 ≤ b.1)%N.

(** [Object.values(obj)] *)
Definition Object_values {V} (obj : list (string * V)) : list V :=
  (merge_sort index_le
     (omap (λ entry : string * V,
              match array_index entry.1 with
              | Some n => Some (n, entry.2)
              | None => None
              end) obj)).*2
  ++ (filter (λ entry : string * V, array_index entry.1 = None) obj).*2.

(** *** The reader *)

(** A row of the [timeline_custom_cards] query with the embedded
    [timeline_card_tags!inner(tag_id)]. *)
Record CardWithTags : Type := mkCardWithTags {
  cwt_card : TimelineCardRow;
  cwt_timeline_card_tags : list string
}.

(** [from('timeline_custom_cards').select('..., timeline_card_tags!inner(tag_id)')
      .eq('user_id', user.id).in('timeline_card_tags.tag_id', tagIds)]:
    every card of the user with its association rows whose tag is one of
    [tagIds]; the inner join keeps the cards that have such a row. *)
Definition select_cards_by_tags (cards : list TimelineCardRow) (st : Store)
    (uid : string) (tagIds : list string) : list CardWithTags :=
  List.filter (λ row, negb (bool_decide (cwt_timeline_card_tags row = [])))
    (map (λ card, mkCardWithTags card
                    (map tct_tag_id
                       (filter (λ tct, tct_card_id tct = tcr_id card
                                       ∧ tct_user_id tct = uid
                                       ∧ tct_tag_id tct ∈ tagIds)
                               (timeline_card_tags st))))
         (filter (λ card, tcr_user_id card = uid) cards)).

(** [fetchTimelineCustomCardsByTags(tagIds, mode)]; [cards] is the table
    [timeline_custom_cards], [o] the outcome of the query. *)
Definition fetchTimelineCustomCardsByTags (user : option string)
    (cards : list TimelineCardRow) (st : Store) (o : Outcome)
    (tagIds : list string) (mode : FilterMode) : result (list TimelineCardRow) :=
  match user with
  | None => Throw "User not authenticated"
  | Some uid =>
      if bool_decide (tagIds = []) then Ok []
      else
        match o with
        | Fails cardsError => Throw cardsError
        | Raises error => Throw error
        | Succeeds =>
            let cardsData := select_cards_by_tags cards st uid tagIds in
            match mode with
            | ModeAll =>
                let filteredCards :=
                  List.filter
                    (λ card,
                       let associatedTagIds : gset string :=
                         list_to_set (cwt_timeline_card_tags card) in
                       forallb (λ targetTagId,
                                  bool_decide (targetTagId ∈ associatedTagIds))
                               tagIds)
                    cardsData in
                Ok (map cwt_card filteredCards)
            | ModeAny =>
                let uniqueCards :=
                  fold_left
                    (λ acc current,
                       let cardData := cwt_card current in
                       if negb (object_has_truthy (tcr_id cardData) acc)
                       then jsmap_set (tcr_id cardData) cardData acc
                       else acc)
                    cardsData [] in
                Ok (Object_values uniqueCards)
            end
        end
  end.

(** The tag ids currently attached to a project card in the store. *)
Definition card_tag_ids (st : Store) (uid cardId : string) : gset string :=
  list_to_set
    (map tct_tag_id
       (filter (λ tct, tct_card_id tct = cardId ∧ tct_user_id tct = uid)
               (timeline_card_tags st))).

(** The table has a card with this id for this user. *)
Definition has_card (cards : list TimelineCardRow) (uid cardId : string) : Prop :=
  ∃ card, card ∈ cards ∧ tcr_id card = cardId ∧ tcr_user_id card = uid.

(** ** The header of the email section (EmailsHeader) and the URL *)

(** [URLSearchParams]: name-value pairs in order; a name may occur more than
    once. *)
Definition sp_get (name : string) (sp : list (string * string)) : option string :=
  match List.find (λ entry, String.eqb entry.1 name) sp with
  | Some entry => Some entry.2
  | None => None
  end.

(** [delete(name)]: every pair with that name goes. *)
Definition sp_delete (name : string) (sp : list (string * string))
  : list (string * string) :=
  List.filter (λ entry, negb (String.eqb entry.1 name)) sp.

(** [set(name, value)]: the first pair with that name gets the value and the
    others go; without such a pair, one is appended. *)
Fixpoint sp_set (name value : string) (sp : list (string * string))
  : list (string * string) :=
  match sp with
  | [] => [(name, value)]
  | entry :: rest =>
      if String.eqb entry.1 name then (name, value) :: sp_delete name rest
      else entry :: sp_set name value rest
  end.

(** [ids.join(',')] *)
Definition join_comma (ids : list string) : string := String.concat "," ids.

(** The state cells of the header that take part in the filter. *)
Record HeaderState : Type := mkHeaderState {
  selectedTagIds : list string;
  filterMode : string
}.

(** The initial values of the two cells: [initialTags] and [initialMode]. *)
Definition initial_header (searchParams : list (string * string)) : HeaderState :=
  mkHeaderState
    (match sp_get "tags" searchParams with
     | Some tags => split_comma tags
     | None => []
     end)
    (match sp_get "mode" searchParams with
     | Some mode => if truthy mode then mode else "any"
     | None => "any"
     end).

(** [handleTagSelectionChange(tagId, checked)] *)
Definition handleTagSelectionChange (tagId : string) (checked : bool)
    (h : HeaderState) : HeaderState :=
  mkHeaderState
    (if checked then selectedTagIds h ++ [tagId]
     else List.filter (λ id, negb (String.eqb id tagId)) (selectedTagIds h))
    (filterMode h).

(** The effect "Update URL when filter changes": the search parameters of
    the location it navigates to, [None] when it does not navigate. *)
Definition syncUrl (isViewingThread : bool) (searchParams : list (string * string))
    (h : HeaderState) : option (list (string * string)) :=
  if isViewingThread then None
  else
    let currentParams :=
      if bool_decide (selectedTagIds h ≠ [])
      then sp_set "mode" (filterMode h)
             (sp_set "tags" (join_comma (selectedTagIds h)) searchParams)
      else sp_delete "mode" (sp_delete "tags" searchParams) in
    Some (match sp_get "q" searchParams with
          | Some q => if truthy q then sp_set "q" q currentParams
                      else sp_delete "q" currentParams
          | None => sp_delete "q" currentParams
          end).

(** What the list reads from the session and the location: [useAuth()],
    [useSearchParams()] and [useParams()]. *)
Definition list_props (isAuthenticated : bool) (user : option string)
    (searchParams : list (string * string)) (threadId : option string) : Props :=
  mkProps isAuthenticated user (sp_get "tag" searchParams)
    (sp_get "priority" searchParams) (sp_get "q" searchParams)
    (sp_get "tags" searchParams) (sp_get "mode" searchParams) threadId.

(** No comma occurs in the string. *)
Fixpoint comma_free (s : string) : bool :=
  match s with
  | EmptyString => true
  | String c rest =>
      negb (Ascii.eqb c (Ascii.ascii_of_nat 44)) && comma_free rest
  end.

(** ** Further notions: how a load ends *)

(** What the paginated view asks the mail service first, and what the
    service answers. *)
Definition page_answer (env : Env) (s : ListState)
  : result FetchEmailMetadataResult :=
  if String.eqb (activeTab s) "important"
  then fetchImportantEmailMetadataPage (env_session env)
         (env_important env (requested_page (pageToken s)))
  else fetchEmailMetadataPage (env_session env)
         (env_page env (requested_page (pageToken s))).

(** The load has not been aborted and has not recorded an error. *)
Definition Running (l : LoadSt) : Prop :=
  ls_aborted l = false ∧ error (ls_state l) = None.

(** ** Custom cards: reading and updating (cardApi) *)

(** [fetchCardTagIds(userId, cardId)] *)
Definition fetchCardTagIds (st : Store) (o : Outcome) (userId cardId : string)
  : result (list string) :=
  if negb (truthy userId) || negb (truthy cardId) then Ok []
  else match o with
       | Succeeds =>
           Ok (map cct_tag_id
                 (filter (λ r, cct_user_id r = userId ∧ cct_card_id r = cardId)
                         (custom_card_tags st)))
       | Fails m =>
           Throw ("Failed to fetch tags for card " +:+ cardId +:+ ": " +:+ m)
       | Raises m => Throw m
       end.

(** The primary key of [custom_card_tags] is [(card_id, tag_id)]: the insert
    of a pair that is present is answered with the code 23505. *)
Definition unique_violation (st : Store) (cardId tagId : string) : bool :=
  bool_decide (Exists (λ r, cct_card_id r = cardId ∧ cct_tag_id r = tagId)
                      (custom_card_tags st)).

(** [addTagToCard(userId, cardId, tagId)].  [Fails] is an error with another
    code than 23505; with [Succeeds] the insert is answered as the primary
    key decides. *)
Definition addTagToCard (userId cardId : string) (o : Outcome) (tagId : string)
    (st : Store) : result bool * Store :=
  if negb (truthy userId) || negb (truthy cardId) || negb (truthy tagId)
  then (Ok false, st)
  else
    match o with
    | Succeeds =>
        if unique_violation st cardId tagId then (Ok true, st)
        else
          (Ok true,
           with_custom_card_tags
             (custom_card_tags st ++ [mkCustomCardTagRow cardId tagId userId]) st)
    | Fails m =>
        (Throw ("Failed to add tag " +:+ tagId +:+ " to card " +:+ cardId
                +:+ ": " +:+ m), st)
    | Raises m => (Throw m, st)
    end.

(** [removeTagFromCard(userId, cardId, tagId)] *)
Definition removeTagFromCard (userId cardId : string) (o : Outcome)
    (tagId : string) (st : Store) : result bool * Store :=
  if negb (truthy userId) || negb (truthy cardId) || negb (truthy tagId)
  then (Ok false, st)
  else
    match o with
    | Succeeds =>
        (Ok true,
         with_custom_card_tags
           (filter (λ r, ¬ (cct_user_id r = userId ∧ cct_card_id r = cardId
                            ∧ cct_tag_id r = tagId))
                   (custom_card_tags st)) st)
    | Fails m =>
        (Throw ("Failed to remove tag " +:+ tagId +:+ " from card " +:+ cardId
                +:+ ": " +:+ m), st)
    | Raises m => (Throw m, st)
    end.

(** [await Promise.all(tagIds.map(tagId => call(tagId)))]: every call is
    started, in the order of the list, and every request sent is answered,
    [answers i] being the answer to the request of the call at index [i];
    the [await] throws when one of the calls does.  The value is whether it
    did not throw, and the store once the requests are answered, taken to
    reach the service in the order they are sent. *)
Fixpoint promise_all (call : Outcome → string → Store → result bool * Store)
    (answers : nat → Outcome) (i : nat) (tagIds : list string) (st : Store)
  : bool * Store :=
  match tagIds with
  | [] => (true, st)
  | tagId :: rest =>
      let first := call (answers i) tagId st in
      let others := promise_all call answers (S i) rest first.2 in
      (match first.1 with Ok _ => others.1 | Throw _ => false end, others.2)
  end.

(** The answers of the service to the statements of one [updateCard]:
    [cw_remove i] and [cw_add i] to the request of the removal and of the
    addition at index [i]. *)
Record CardWrites : Type := mkCardWrites {
  cw_update : Outcome;
  cw_select_tags : Outcome;
  cw_remove : nat → Outcome;
  cw_add : nat → Outcome;
  cw_log : Outcome
}.

(** The [try] block of [updateCard]; its [catch] only writes to the
    console. *)
Definition update_card_tags (w : CardWrites) (userId id : string)
    (tagIds : list string) (st : Store) : Store :=
  match fetchCardTagIds st (cw_select_tags w) userId id with
  | Throw _ => st
  | Ok currentTagIds =>
      let tagsToAdd :=
        List.filter (λ tagId, negb (bool_decide (tagId ∈ currentTagIds))) tagIds in
      let tagsToRemove :=
        List.filter (λ tagId, negb (bool_decide (tagId ∈ tagIds))) currentTagIds in
      let removed :=
        if bool_decide (tagsToRemove ≠ []) then
          promise_all (removeTagFromCard userId id) (cw_remove w) 0 tagsToRemove st
        else (true, st) in
      if removed.1 then
        if bool_decide (tagsToAdd ≠ []) then
          (promise_all (addTagToCard userId id) (cw_add w) 0 tagsToAdd removed.2).2
        else removed.2
      else removed.2
  end.

(** The message of the error [.single()] answers with when the statement
    does not touch exactly one row. *)
Definition no_single_row : string :=
  "JSON object requested, multiple (or no) rows returned".

(** [{ ...row, title, content, updated_at }] *)
Definition with_content (title content updated_at : string) (row : CustomCardRow)
  : CustomCardRow :=
  mkCustomCardRow (cc_id row) (cc_user_id row) title content (cc_created_at row)
                  updated_at.

(** [updateCard(id, title, content, tagIds)]: [user] is the user of
    [supabase.auth.getUser()], [now] is [new Date().toISOString()], [dbNow]
    the timestamp the store gives the log row; [tagIds] is [None] for
    [null].  The update is a [.single()] statement: when the rows with this
    id and user are not exactly one, it is answered with an error and
    changes nothing. *)
Definition updateCard (st : Store) (user : option string) (w : CardWrites)
    (now dbNow : string) (id title content : string)
    (tagIds : option (list string)) : result CustomCard * Store :=
  match user with
  | None => (Throw "User not authenticated", st)
  | Some uid =>
      match failure (cw_update w) with
      | Some updateError => (Throw updateError, st)
      | None =>
          match filter (λ r, cc_id r = id ∧ cc_user_id r = uid) (custom_cards st) with
          | [row] =>
              let updatedCardData := with_content title content now row in
              let st1 :=
                with_custom_cards
                  (map (λ r, if bool_decide (cc_id r = id ∧ cc_user_id r = uid)
                             then with_content title content now r else r)
                       (custom_cards st)) st in
              let st2 :=
                match tagIds with
                | Some tagIds => update_card_tags w uid id tagIds st1
                | None => st1
                end in
              match cw_log w with
              | Succeeds =>
                  (Ok (mkCustomCard updatedCardData []),
                   with_custom_cards_log
                     (custom_cards_log st2
                      ++ [mkCardLogRow id uid "UPDATED" (Some title) dbNow]) st2)
              | Fails _ => (Ok (mkCustomCard updatedCardData []), st2)
              | Raises m => (Throw m, st2)
              end
          | _ => (Throw no_single_row, st)
          end
      end
  end.

(** A row of
    [from('custom_card_tags').select('card_id, tags ( id, name, color, type )')]. *)
Record CardTagJoin : Type := mkCardTagJoin {
  ctl_card_id : string;
  ctl_tags : option Tag
}.

(** [.eq('user_id', user.id).in('card_id', cardIds)] *)
Definition select_custom_card_tags (st : Store) (userId : string)
    (cardIds : list string) : list CardTagJoin :=
  map (λ r, mkCardTagJoin (cct_card_id r) (find_tag st (cct_tag_id r)))
      (filter (λ r, cct_user_id r = userId ∧ cct_card_id r ∈ cardIds)
              (custom_card_tags st)).

(** The [tagLinks.forEach] of [getCards]. *)
Definition group_card_tags (tagLinks : list CardTagJoin) : gmap string (list Tag) :=
  fold_left
    (λ (tagsByCardId : gmap string (list Tag)) link,
       match ctl_tags link with
       | Some tagData =>
           let currentTags := default [] (tagsByCardId !! ctl_card_id link) in
           <[ctl_card_id link := currentTags ++ [tagData]]> tagsByCardId
       | None => tagsByCardId
       end)
    tagLinks ∅.

(** [getCards()]; [orderByCreatedAt] is the
    [.order('created_at', { ascending: false })] of the store.  A query
    that is answered without an error carries a list of rows. *)
Definition getCards (orderByCreatedAt : list CustomCardRow → list CustomCardRow)
    (st : Store) (user : option string) (cardsOutcome linksOutcome : Outcome)
  : result (list CustomCard) :=
  match user with
  | None => Throw "User not authenticated"
  | Some uid =>
      match failure cardsOutcome with
      | Some cardsError => Throw cardsError
      | None =>
          let cardsData :=
            orderByCreatedAt (filter (λ r, cc_user_id r = uid) (custom_cards st)) in
          let cardIds := map cc_id cardsData in
          if bool_decide (cardIds = []) then
            Ok (map (λ card, mkCustomCard card []) cardsData)
          else
            match failure linksOutcome with
            | Some tagLinksError => Throw tagLinksError
            | None =>
                let tagsByCardId :=
                  group_card_tags (select_custom_card_tags st uid cardIds) in
                Ok (map (λ card,
                           mkCustomCard card
                             (default [] (tagsByCardId !! cc_id card)))
                        cardsData)
            end
      end
  end.

(** The tag ids the store holds for a card of a user, in row order, and the
    tags they name. *)
Definition custom_card_tag_ids (st : Store) (userId cardId : string) : list string :=
  map cct_tag_id
      (filter (λ r, cct_user_id r = userId ∧ cct_card_id r = cardId)
              (custom_card_tags st)).

Definition custom_card_tags_of (st : Store) (userId cardId : string) : list Tag :=
  omap (find_tag st) (custom_card_tag_ids st userId cardId).

(** Only the links of the cards differ between the two stores. *)
Definition links_only (st st' : Store) : Prop :=
  st' = with_custom_card_tags (custom_card_tags st') st.

(** Example data: a store with one card carrying one tag, and the answers
    of the service to an update. *)
Definition card_writes_ok : CardWrites :=
  mkCardWrites Succeeds Succeeds (λ _, Succeeds) (λ _, Succeeds) Succeeds.

Definition card_store : Store :=
  mkStore [t1; t2] [] [] [] [] []
          [mkCustomCardRow "c1" "u" "Old" "text" "d0" "d0"]
          [mkCustomCardTagRow "c1" "t1" "u"] [].

Definition card_writes_refused : CardWrites :=
  mkCardWrites Succeeds Succeeds (λ _, Fails "denied") (λ _, Succeeds) Succeeds.

(** Example data: two project cards and their links. *)
Definition project_cards : list TimelineCardRow :=
  [mkTimelineCardRow "c1" "u" "Plan" None "2025-03-01" None "d0";
   mkTimelineCardRow "c2" "u" "Launch" None "2025-04-01" None "d0"].

Definition project_store : Store :=
  with_timeline_card_tags
    [mkTimelineCardTagRow "u" "c1" "t1"; mkTimelineCardTagRow "u" "c2" "t1";
     mkTimelineCardTagRow "u" "c2" "t2"] example_store.

(** ** Clearing the tags of an event or of a card (supabaseClient.ts,
    timelineClient) *)

(** [deleteCalendarEventTags(userId, eventId)] *)
Definition deleteCalendarEventTags (st : Store) (o : Outcome)
    (userId eventId : string) : result unit * Store :=
  if negb (truthy userId) || negb (truthy eventId) then (Ok tt, st)
  else
    match failure o with
    | Some error => (Throw error, st)
    | None => (Ok tt, delete_calendar_event_tags userId eventId st)
    end.

(** [deleteTimelineCardTags(userId, cardId)] *)
Definition deleteTimelineCardTags (st : Store) (o : Outcome)
    (userId cardId : string) : result unit * Store :=
  if negb (truthy userId) || negb (truthy cardId) then (Ok tt, st)
  else
    match failure o with
    | Some error => (Throw error, st)
    | None => (Ok tt, delete_timeline_card_tags userId cardId st)
    end.

(** ** The pagination hook (usePaginatedEmails) *)

(** The three refs of the hook. *)
Record HookRefs : Type := mkHookRefs {
  hasFetchedInitial : bool;
  lastFetchedPageToken : option string;      (* [None] is [null] *)
  prevUserId : option string                 (* [None] is [null] *)
}.

(** The values of one render the effect reads: [userId] is [None] for
    [null], [hookPageToken] is [None] for [undefined]. *)
Record HookInputs : Type := mkHookInputs {
  hookIsAuthenticated : bool;
  hookUserId : option string;
  hookPageToken : option string
}.

(** The calls the effect makes. *)
Inductive HookCall : Type :=
| ResetEmails
| LoadEmails (token : option string).

Global Instance HookCall_eq_dec : EqDecision HookCall.
Proof. solve_decision. Defined.

Definition initial_refs : HookRefs := mkHookRefs false None None.

(** One run of the effect of [usePaginatedEmails]: the calls made and the
    refs afterwards. *)
Definition usePaginatedEmails_effect (i : HookInputs) (r : HookRefs)
  : list HookCall * HookRefs :=
  if negb (hookIsAuthenticated i) then
    ([ResetEmails], mkHookRefs false None None)
  else if truthy_opt (hookUserId i)
          && negb (bool_decide (prevUserId r = hookUserId i)) then
    ([ResetEmails], mkHookRefs false None (hookUserId i))
  else if negb (hasFetchedInitial r) && bool_decide (hookPageToken i = None) then
    ([LoadEmails None], mkHookRefs true None (prevUserId r))
  else
    match hookPageToken i with
    | Some pageToken =>
        if negb (bool_decide (Some pageToken = lastFetchedPageToken r)) then
          ([LoadEmails (Some pageToken)],
           mkHookRefs (hasFetchedInitial r) (Some pageToken) (prevUserId r))
        else ([], r)
    | None => ([], r)
    end.

(** The effect run once per render of a sequence of renders: all the calls
    made, in order, and the refs at the end. *)
Fixpoint usePaginatedEmails_runs (renders : list HookInputs) (r : HookRefs)
  : list HookCall * HookRefs :=
  match renders with
  | [] => ([], r)
  | i :: rest =>
      let first := usePaginatedEmails_effect i r in
      let others := usePaginatedEmails_runs rest first.2 in
      (first.1 ++ others.1, others.2)
  end.

(** The refs record that the page [x] is the one loaded last. *)
Definition remembers (x : option string) (r : HookRefs) : Prop :=
  match x with
  | None => hasFetchedInitial r = true
  | Some token => lastFetchedPageToken r = Some token
  end.

(** ** Saving a project card (timelineClient, AddEditTimelineCardDialog) *)

(** [TimelineCardInput]: [in_description] is [None] for [undefined],
    [in_end_date] is [None] for [null]. *)
Record TimelineCardInput : Type := mkTimelineCardInput {
  in_title : string;
  in_description : option string;
  in_start_date : string;
  in_end_date : option string
}.

(** [Partial<TimelineCardInput>]: a field is [None] when the key is absent
    or [undefined], in which case the request does not carry it;
    [p_end_date] is [Some None] for [null]. *)
Record CardPatch : Type := mkCardPatch {
  p_title : option string;
  p_description : option string;
  p_start_date : option string;
  p_end_date : option (option string)
}.

(** A [TimelineCardInput] passed where a [Partial<TimelineCardInput>] is
    expected. *)
Definition patch_of_input (cardData : TimelineCardInput) : CardPatch :=
  mkCardPatch (Some (in_title cardData)) (in_description cardData)
              (Some (in_start_date cardData)) (Some (in_end_date cardData)).

(** The row after [.update(cardData)]. *)
Definition apply_patch (cardData : CardPatch) (row : TimelineCardRow)
  : TimelineCardRow :=
  mkTimelineCardRow (tcr_id row) (tcr_user_id row)
    (default (tcr_title row) (p_title cardData))
    (match p_description cardData with
     | Some d => Some d
     | None => tcr_description row
     end)
    (default (tcr_start_date row) (p_start_date cardData))
    (default (tcr_end_date row) (p_end_date cardData))
    (tcr_created_at row).

(** [createTimelineCard(userId, cardData)]: what is returned or thrown and
    the table of cards afterwards; [newId] and [dbNow] are the id and the
    [created_at] the store gives the new row. *)
Definition createTimelineCard (cards : list TimelineCardRow) (o : Outcome)
    (newId dbNow : string) (userId : string) (cardData : TimelineCardInput)
  : result TimelineCardRow * list TimelineCardRow :=
  if negb (truthy userId)
  then (Throw "User ID is required to create a timeline card.", cards)
  else if negb (truthy (in_title cardData)) || negb (truthy (in_start_date cardData))
  then (Throw "Title and Start Date are required to create a timeline card.",
        cards)
  else
    match failure o with
    | Some error => (Throw error, cards)
    | None =>
        let data :=
          mkTimelineCardRow newId userId (in_title cardData)
            (in_description cardData) (in_start_date cardData)
            (in_end_date cardData) dbNow in
        (Ok data, cards ++ [data])
    end.

(** [updateTimelineCard(userId, cardId, cardData)].  The update is a
    [.single()] statement: when the rows with this id and user are not
    exactly one, it is answered with an error and changes nothing. *)
Definition updateTimelineCard (cards : list TimelineCardRow) (o : Outcome)
    (userId cardId : string) (cardData : CardPatch)
  : result TimelineCardRow * list TimelineCardRow :=
  if negb (truthy userId) || negb (truthy cardId)
  then (Throw "User ID and Card ID are required to update a timeline card.",
        cards)
  else
    match failure o with
    | Some error => (Throw error, cards)
    | None =>
        match filter (λ r, tcr_id r = cardId ∧ tcr_user_id r = userId) cards with
        | [row] =>
            (Ok (apply_patch cardData row),
             map (λ r, if bool_decide (tcr_id r = cardId ∧ tcr_user_id r = userId)
                       then apply_patch cardData r else r)
                 cards)
        | _ => (Throw no_single_row, cards)
        end
    end.

(** [{ ...savedCardData, tags }] *)
Definition card_of_row (row : TimelineCardRow) (ts : list Tag) : TimelineCard :=
  mkTimelineCard (tcr_id row) (tcr_user_id row) (tcr_title row)
    (tcr_description row) (tcr_start_date row) (tcr_end_date row)
    (tcr_created_at row) ts.

(** The state of the dialog [handleSave] reads. *)
Record DialogForm : Type := mkDialogForm {
  f_title : string;
  f_startDate : string;
  f_endDate : string;
  f_description : string;
  f_selectedTagIds : list string;
  f_availableTags : list Tag;
  f_cardToEdit : option TimelineCard
}.

(** The answers of the store to the statements of one [handleSave], and the
    id and timestamp it gives a new row. *)
Record SaveWrites : Type := mkSaveWrites {
  sw_card : Outcome;
  sw_delete_tags : Outcome;
  sw_insert_tags : Outcome;
  sw_newId : string;
  sw_dbNow : string
}.

(** [handleSave()] of the dialog, with [handleSaveSuccess] of the project
    page as its [onSaveSuccess]: the list of cards shown and whether the
    dialog is open, and the table of cards and the store, afterwards.
    [trim] is [String.prototype.trim] and [endsBefore endDate startDate] is
    [new Date(endDate) < new Date(startDate)]; [user] is [user?.id]. *)
Definition handleSave (trim : string → string)
    (endsBefore : string → string → bool) (user : option string)
    (w : SaveWrites) (form : DialogForm)
    (cards : list TimelineCardRow) (st : Store)
    (customTimelineCards : list TimelineCard) (isOpen : bool)
  : (list TimelineCard * bool) * (list TimelineCardRow * Store) :=
  if negb (truthy (trim (f_title form))) || negb (truthy (f_startDate form))
  then ((customTimelineCards, isOpen), (cards, st))
  else if truthy (f_endDate form) && truthy (f_startDate form)
          && endsBefore (f_endDate form) (f_startDate form)
  then ((customTimelineCards, isOpen), (cards, st))
  else if negb (truthy_opt user)
  then ((customTimelineCards, isOpen), (cards, st))
  else
    let userId := default "" user in
    let cardData :=
      mkTimelineCardInput
        (trim (f_title form))
        (if truthy (trim (f_description form))
         then Some (trim (f_description form)) else None)
        (f_startDate form)
        (if truthy (f_endDate form) then Some (f_endDate form) else None) in
    let saved :=
      match f_cardToEdit form with
      | Some cardToEdit =>
          updateTimelineCard cards (sw_card w) userId (tc_id cardToEdit)
                             (patch_of_input cardData)
      | None =>
          createTimelineCard cards (sw_card w) (sw_newId w) (sw_dbNow w) userId
                             cardData
      end in
    match saved with
    | (Throw _, cards') => ((customTimelineCards, isOpen), (cards', st))
    | (Ok savedCardData, cards') =>
        if truthy (tcr_id savedCardData) then
          match setTagsForTimelineCard st (sw_delete_tags w) (sw_insert_tags w)
                  userId (tcr_id savedCardData) (f_selectedTagIds form) with
          | (Ok _, st') =>
              let finalTags :=
                List.filter
                  (λ tag, bool_decide (tag_id tag ∈ f_selectedTagIds form))
                  (f_availableTags form) in
              let finalCard := card_of_row savedCardData finalTags in
              ((handleSaveSuccess finalCard customTimelineCards, false),
               (cards', st'))
          | (Throw _, st') =>
              let cardWithoutTags := card_of_row savedCardData [] in
              ((handleSaveSuccess cardWithoutTags customTimelineCards, false),
               (cards', st'))
          end
        else
          let cardWithoutTags := card_of_row savedCardData [] in
          ((handleSaveSuccess cardWithoutTags customTimelineCards, false),
           (cards', st))
    end.

(** Example data: the form of the dialog, and hosts in which [trim] changes
    nothing and no date is before another. *)
Definition edit_form : DialogForm :=
  mkDialogForm "Plan B" "2025-03-02" "" "" ["t2"] [t1; t2]
    (Some (mkTimelineCard "c1" "u" "Plan" (Some "first draft") "2025-03-01"
             (Some "2025-03-05") "d0" [t1])).

Definition described_cards : list TimelineCardRow :=
  [mkTimelineCardRow "c1" "u" "Plan" (Some "first draft") "2025-03-01"
     (Some "2025-03-05") "d0"].

Definition save_ok : SaveWrites :=
  mkSaveWrites Succeeds Succeeds Succeeds "c9" "d9".

Definition save_tags_refused : SaveWrites :=
  mkSaveWrites Succeeds (Fails "denied") Succeeds "c9" "d9".

(** ** The tag ids of an item in the store *)

(** The tag ids currently attached to a calendar event in the store. *)
Definition calendar_event_tag_ids (st : Store) (uid eventId : string)
  : gset string :=
  list_to_set
    (map cet_tag_id
       (filter (λ r, cet_user_id r = uid ∧ cet_event_id r = eventId)
               (calendar_event_tags st))).

(** Every link of a calendar event or of a project card names a tag of the
    store, by a non-empty id: [tag_id] references [tags(id)] in both tables. *)
Definition links_name_tags (st : Store) : Prop :=
  (∀ link, link ∈ calendar_event_tags st →
           truthy (cet_tag_id link) = true
           ∧ is_Some (find_tag st (cet_tag_id link)))
  ∧ (∀ link, link ∈ timeline_card_tags st →
             is_Some (find_tag st (tct_tag_id link))).

(** ** Deleting a card, creating and deleting a tag (cardApi,
    supabaseClient.ts, Sidebar) *)











(* ===================================================================== *)
(** * Part II: properties                                                 *)
(* ===================================================================== *)
(** ** Auxiliary facts: lists and ordered maps *)

Lemma elem_of_bfilter {A} (p : A → bool) (l : list A) (x : A) :
  x ∈ List.filter p l ↔ x ∈ l ∧ p x = true.
Proof. rewrite !list_elem_of_In. apply filter_In. Qed.

Lemma forallb_elem_of {A} (p : A → bool) (l : list A) :
  forallb p l = true ↔ ∀ x, x ∈ l → p x = true.
Proof.
  rewrite forallb_forall. split; intros H x Hx; apply H.
  - apply list_elem_of_In, Hx.
  - apply list_elem_of_In, Hx.
Qed.

Lemma existsb_elem_of {A} (p : A → bool) (l : list A) :
  existsb p l = true ↔ ∃ x, x ∈ l ∧ p x = true.
Proof.
  rewrite existsb_exists. split; intros (x & Hx & Hp); exists x; split; try done.
  - apply list_elem_of_In, Hx.
  - apply list_elem_of_In, Hx.
Qed.

Lemma jsmap_has_true {V} (k : string) (m : list (string * V)) :
  jsmap_has k m = true ↔ k ∈ m.*1.
Proof. unfold jsmap_has. apply bool_decide_eq_true. Qed.

Lemma jsmap_set_keys {V} (k k' : string) (v : V) (m : list (string * V)) :
  k' ∈ (jsmap_set k v m).*1 ↔ k' = k ∨ k' ∈ m.*1.
Proof.
  induction m as [|[k0 v0] m IH]; simpl.
  - rewrite list_elem_of_singleton, elem_of_nil. tauto.
  - destruct (String.eqb_spec k0 k) as [->|Hne]; simpl.
    + rewrite !elem_of_cons. tauto.
    + rewrite !elem_of_cons, IH. tauto.
Qed.

Lemma jsmap_set_fresh {V} (k : string) (v : V) (m : list (string * V)) :
  k ∉ m.*1 → jsmap_set k v m = m ++ [(k, v)].
Proof.
  induction m as [|[k0 v0] m IH]; simpl; [done|].
  rewrite not_elem_of_cons. intros [Hne Hnin].
  destruct (String.eqb_spec k0 k) as [->|_]; [done|].
  by rewrite IH.
Qed.

Lemma fold_left_pointwise {A B} (f g : A → B → A) (l : list B) (a : A) :
  (∀ a x, f a x = g a x) → fold_left f l a = fold_left g l a.
Proof.
  intros Hfg. revert a. induction l as [|x l IH]; intros a; simpl; [done|].
  by rewrite Hfg, IH.
Qed.

(** ** Tag filter engine: emails *)

Section matching_emails.
Context (tagIds : list string) (mode : FilterMode).

Lemma matchingEmailsMap_step (full : list EmailWithTags) :
  matchingEmailsMap tagIds mode full = fold_left (step tagIds mode full) full [].
Proof.
  unfold matchingEmailsMap. apply fold_left_pointwise.
  intros acc email. unfold step, keeps.
  destruct mode; destruct (jsmap_has _ acc); simpl; done.
Qed.

Lemma fold_step_keys (full l : list EmailWithTags) (acc : list (string * Email))
    (k : string) :
  k ∈ (fold_left (step tagIds mode full) l acc).*1 ↔
  k ∈ acc.*1 ∨ (k ∈ (er_email_id ∘ ewt_email) <$> l ∧ keeps tagIds mode full k = true).
Proof.
  revert acc. induction l as [|x l IH]; intros acc; simpl.
  - simpl. rewrite elem_of_nil. tauto.
  - rewrite IH. unfold step; cbv zeta.
    destruct (jsmap_has _ acc) eqn:Hhas.
    + apply jsmap_has_true in Hhas. rewrite elem_of_cons. simpl.
      split; [tauto|]. intros [?|[[->|?] ?]]; auto.
    + destruct (keeps tagIds mode full (er_email_id (ewt_email x))) eqn:Hk.
      * rewrite jsmap_set_keys, elem_of_cons. simpl.
        split; [intros [[->|?]|[? ?]]; auto|].
        intros [?|[[->|?] ?]]; auto.
      * rewrite elem_of_cons. simpl.
        split; [tauto|]. intros [?|[[->|?] ?]]; auto. congruence.
Qed.

Lemma fold_step_values (full l : list EmailWithTags) (acc : list (string * Email)) :
  Forall (λ p, email_id p.2 = p.1) acc →
  Forall (λ p, email_id p.2 = p.1) (fold_left (step tagIds mode full) l acc).
Proof.
  revert acc. induction l as [|x l IH]; intros acc Hacc; simpl; [done|].
  apply IH. unfold step.
  destruct (jsmap_has _ acc) eqn:Hhas; [done|].
  destruct (keeps tagIds mode full _); [|done].
  rewrite jsmap_set_fresh.
  - apply Forall_app. split; [done|]. by constructor.
  - intros Hin. apply jsmap_has_true in Hin. congruence.
Qed.

Lemma matchingEmailsMap_keys (full : list EmailWithTags) (k : string) :
  k ∈ (matchingEmailsMap tagIds mode full).*1 ↔
  k ∈ (er_email_id ∘ ewt_email) <$> full ∧ keeps tagIds mode full k = true.
Proof.
  rewrite matchingEmailsMap_step, fold_step_keys. simpl.
  rewrite elem_of_nil. tauto.
Qed.

Lemma matchingEmailsMap_ids (full : list EmailWithTags) :
  email_id <$> (matchingEmailsMap tagIds mode full).*2
  = (matchingEmailsMap tagIds mode full).*1.
Proof.
  rewrite matchingEmailsMap_step.
  pose proof (fold_step_values full full [] (Forall_nil_2 _)) as H.
  revert H. generalize (fold_left (step tagIds mode full) full []). intros m H.
  induction H as [|[k v] l Hx Hl IH]; simpl; [done|].
  simpl in Hx. rewrite Hx. f_equal. exact IH.
Qed.
End matching_emails.

Section emails_query.
Context (st : Store) (uid : string) (tagIds : list string).

Lemma elem_of_email_tag_ids (t eid : string) :
  t ∈ email_tag_ids st uid eid ↔
  ∃ et, et ∈ email_tags st ∧ et_tag_id et = t
        ∧ et_email_id et = eid ∧ et_user_id et = uid.
Proof.
  unfold email_tag_ids.
  rewrite elem_of_list_to_set, list_elem_of_fmap.
  split.
  - intros (et & -> & Het). apply list_elem_of_filter in Het as [[? ?] ?].
    by exists et.
  - intros (et & Het & <- & ? & ?). exists et. split; [done|].
    apply list_elem_of_filter. done.
Qed.

Lemma elem_of_embedded_tags (t eid : string) :
  t ∈ et_tag_id <$> filter (λ et, et_email_id et = eid ∧ et_user_id et = uid
                               ∧ et_tag_id et ∈ tagIds) (email_tags st)
  ↔ t ∈ tagIds ∧ t ∈ email_tag_ids st uid eid.
Proof.
  rewrite elem_of_email_tag_ids, list_elem_of_fmap. split.
  - intros (et & -> & Het). apply list_elem_of_filter in Het as [(? & ? & ?) ?].
    split; [done|]. by exists et.
  - intros (Ht & et & Het & <- & ? & ?). exists et. split; [done|].
    apply list_elem_of_filter. done.
Qed.

Lemma elem_of_select_emails_by_tags (row : EmailWithTags) :
  row ∈ select_emails_by_tags st uid tagIds ↔
  ewt_email row ∈ emails st ∧ er_user_id (ewt_email row) = uid
  ∧ ewt_email_tags row ≠ []
  ∧ ewt_email_tags row
    = et_tag_id <$> filter (λ et, et_email_id et = er_email_id (ewt_email row)
                                  ∧ et_user_id et = uid
                                  ∧ et_tag_id et ∈ tagIds) (email_tags st).
Proof.
  unfold select_emails_by_tags.
  rewrite elem_of_bfilter, negb_true_iff, bool_decide_eq_false.
  rewrite list_elem_of_fmap. split.
  - intros [(e & -> & He) Hne]. simpl in *.
    apply list_elem_of_filter in He as [? ?]. done.
  - intros (He & Hu & Hne & Htags). split; [|done].
    exists (ewt_email row). split.
    + destruct row as [e ts]; simpl in *. by rewrite Htags.
    + apply list_elem_of_filter. done.
Qed.

Lemma select_emails_by_tags_keys (eid : string) :
  eid ∈ (er_email_id ∘ ewt_email) <$> select_emails_by_tags st uid tagIds ↔
  has_email st uid eid ∧ ∃ t, t ∈ tagIds ∧ t ∈ email_tag_ids st uid eid.
Proof.
  rewrite list_elem_of_fmap. split.
  - intros (row & -> & Hrow). simpl.
    apply elem_of_select_emails_by_tags in Hrow as (He & Hu & Hne & Htags).
    split; [by exists (ewt_email row)|].
    destruct (ewt_email_tags row) as [|t ts] eqn:Hts; [done|].
    exists t. apply elem_of_embedded_tags. rewrite <- Htags. by left.
  - intros [(e & He & <- & Hu) (t & Ht & HtT)].
    exists (mkEmailWithTags e
              (et_tag_id <$> filter (λ et, et_email_id et = er_email_id e
                                           ∧ et_user_id et = uid
                                           ∧ et_tag_id et ∈ tagIds) (email_tags st))).
    split; [done|]. apply elem_of_select_emails_by_tags. simpl.
    repeat split; try done.
    intros Hnil.
    assert (t ∈ (et_tag_id <$> filter (λ et, et_email_id et = er_email_id e
                                           ∧ et_user_id et = uid
                                           ∧ et_tag_id et ∈ tagIds) (email_tags st)))
      as Hin by (by apply elem_of_embedded_tags).
    rewrite Hnil in Hin. by apply elem_of_nil in Hin.
Qed.

Lemma elem_of_uniqueTagsForThisEmail (t eid : string) :
  t ∈ uniqueTagsForThisEmail (select_emails_by_tags st uid tagIds) eid ↔
  has_email st uid eid ∧ t ∈ tagIds ∧ t ∈ email_tag_ids st uid eid.
Proof.
  unfold uniqueTagsForThisEmail.
  rewrite elem_of_list_to_set, list_elem_of_In, in_concat. split.
  - intros (ts & Hts & Ht).
    apply list_elem_of_In, list_elem_of_fmap in Hts as (row & -> & Hrow).
    apply elem_of_bfilter in Hrow as [Hrow Hid].
    apply String.eqb_eq in Hid.
    apply elem_of_select_emails_by_tags in Hrow as (He & Hu & Hne & Htags).
    split; [by exists (ewt_email row)|].
    rewrite <- Hid. apply elem_of_embedded_tags.
    rewrite <- Htags. by apply list_elem_of_In.
  - intros [(e & He & <- & Hu) [Ht HtT]].
    set (ts := et_tag_id <$> filter (λ et, et_email_id et = er_email_id e
                                           ∧ et_user_id et = uid
                                           ∧ et_tag_id et ∈ tagIds) (email_tags st)).
    assert (t ∈ ts) as Hin by (by apply elem_of_embedded_tags).
    exists ts. split; [|by apply list_elem_of_In].
    apply list_elem_of_In, list_elem_of_fmap.
    exists (mkEmailWithTags e ts). split; [done|].
    apply elem_of_bfilter. simpl. split; [|by apply String.eqb_eq].
    apply elem_of_select_emails_by_tags. simpl. repeat split; try done.
    intros Hnil. rewrite Hnil in Hin. by apply elem_of_nil in Hin.
Qed.
End emails_query.

(** ** The two JavaScript idioms of the filter and the set predicate *)

Lemma every_has_spec (tagIds : list string) (T : gset string) :
  forallb (λ t, bool_decide (t ∈ T)) tagIds = true ↔ Passes ModeAll (list_to_set tagIds) T.
Proof.
  rewrite forallb_elem_of. simpl. split.
  - intros H t Ht. apply elem_of_list_to_set in Ht.
    specialize (H t Ht). by apply bool_decide_eq_true in H.
  - intros H t Ht. apply bool_decide_eq_true_2, H. by apply elem_of_list_to_set.
Qed.

Lemma some_has_spec (tagIds : list string) (T : gset string) :
  existsb (λ t, bool_decide (t ∈ T)) tagIds = true ↔ Passes ModeAny (list_to_set tagIds) T.
Proof.
  rewrite existsb_elem_of. simpl. split.
  - intros (t & Ht & HtT). apply bool_decide_eq_true in HtT.
    intros Hempty.
    assert (t ∈ T ∩ list_to_set (C:=gset string) tagIds) as Hin.
    { apply elem_of_intersection. split; [done|]. by apply elem_of_list_to_set. }
    rewrite Hempty in Hin. by apply not_elem_of_empty in Hin.
  - intros Hne. apply set_choose_L in Hne as [t Ht].
    apply elem_of_intersection in Ht as [HtT Ht].
    apply elem_of_list_to_set in Ht.
    exists t. split; [done|]. by apply bool_decide_eq_true_2.
Qed.

Lemma passes_any_iff (S T : gset string) :
  Passes ModeAny S T ↔ ∃ t, t ∈ S ∧ t ∈ T.
Proof.
  simpl. split.
  - intros Hne. apply set_choose_L in Hne as [t Ht].
    apply elem_of_intersection in Ht as [? ?]. by exists t.
  - intros (t & HS & HT) Hempty.
    assert (t ∈ T ∩ S) as Hin by (by apply elem_of_intersection).
    rewrite Hempty in Hin. by apply not_elem_of_empty in Hin.
Qed.

Lemma event_passes_spec (tagIds : list string) (mode : FilterMode)
    (event : GoogleCalendarEvent) :
  event_passes tagIds mode event = true
  ↔ Passes mode (list_to_set tagIds) (eventTagIds event).
Proof.
  destruct mode; unfold event_passes.
  - apply some_has_spec.
  - apply every_has_spec.
Qed.

Lemma card_passes_spec (term : string) (tagIds : list string) (mode : FilterMode)
    (card : TimelineCard) :
  tagIds ≠ [] →
  card_passes term tagIds mode card = true
  ↔ matchesSearch term card = true
    ∧ Passes mode (list_to_set tagIds) (cardTagIds card).
Proof.
  intros Hne. unfold card_passes.
  destruct (matchesSearch term card); simpl; [|intuition discriminate].
  rewrite bool_decide_eq_false_2 by done.
  destruct mode.
  - rewrite some_has_spec. tauto.
  - rewrite every_has_spec. tauto.
Qed.

Lemma matching_emails_spec (st : Store) (uid : string) (tagIds : list string)
    (mode : FilterMode) (eid : string) :
  tagIds ≠ [] →
  eid ∈ (matchingEmailsMap tagIds mode (select_emails_by_tags st uid tagIds)).*1
  ↔ has_email st uid eid
    ∧ Passes mode (list_to_set tagIds) (email_tag_ids st uid eid).
Proof.
  intros Hne.
  rewrite matchingEmailsMap_keys, select_emails_by_tags_keys.
  destruct mode; unfold keeps.
  - rewrite passes_any_iff. split.
    + intros [[Hhas (t & Ht & HtT)] _]. split; [done|].
      exists t. split; [|done]. by apply elem_of_list_to_set.
    + intros [Hhas (t & Ht & HtT)]. split; [|done]. split; [done|].
      exists t. split; [|done]. by apply elem_of_list_to_set in Ht.
  - rewrite forallb_elem_of. simpl. split.
    + intros [[Hhas _] Hall]. split; [done|].
      intros t Ht. apply elem_of_list_to_set in Ht.
      specialize (Hall t Ht). apply bool_decide_eq_true in Hall.
      by apply elem_of_uniqueTagsForThisEmail in Hall as (_ & _ & ?).
    + intros [Hhas Hsub]. split.
      * split; [done|]. destruct tagIds as [|t ts]; [done|].
        exists t. split; [by left|]. apply Hsub, elem_of_list_to_set. by left.
      * intros t Ht. apply bool_decide_eq_true_2, elem_of_uniqueTagsForThisEmail.
        repeat split; try done. by apply Hsub, elem_of_list_to_set.
Qed.

Lemma email_id_mergeDetails (d : option GmailFullMessage) (b : Email) :
  email_id (mergeDetails d b) = email_id b.
Proof. done. Qed.

Lemma finalEmails_ids (dm : gmap string GmailFullMessage)
    (matching : list (string * Email)) :
  email_id <$> map (λ '(emailId, baseData), mergeDetails (dm !! emailId) baseData)
                   matching
  = email_id <$> matching.*2.
Proof.
  induction matching as [|[k v] m IH]; simpl; [done|]. f_equal. exact IH.
Qed.

Lemma fetchEmailsByTags_membership (st : Store) (uid : string) (sess : Session)
    (tok : option string) (remote : string → Fetched GmailFullMessage)
    (tagIds : list string) (mode : FilterMode) :
  tagIds ≠ [] →
  getAccessToken sess = Ok tok →
  ∃ out, fetchEmailsByTags (Some uid) st Succeeds sess remote tagIds mode = Ok out
         ∧ ∀ eid, eid ∈ email_id <$> out
                  ↔ has_email st uid eid
                    ∧ Passes mode (list_to_set tagIds) (email_tag_ids st uid eid).
Proof.
  intros Hne Htok. unfold fetchEmailsByTags.
  rewrite bool_decide_eq_false_2 by done.
  pose proof (matching_emails_spec st uid tagIds mode) as Hspec.
  set (emailsData := select_emails_by_tags st uid tagIds) in *.
  set (matching := matchingEmailsMap tagIds mode emailsData) in *.
  case_bool_decide as Hdata.
  { exists []. split; [done|]. intros eid. rewrite <- (Hspec eid Hne).
    subst matching. rewrite Hdata. done. }
  case_bool_decide as Hids.
  { exists []. split; [done|]. intros eid. rewrite <- (Hspec eid Hne).
    rewrite Hids. done. }
  unfold fetchFullEmailDetails. rewrite Htok. simpl.
  rewrite bool_decide_eq_false_2 by done. simpl.
  eexists. split; [done|]. intros eid. rewrite <- (Hspec eid Hne).
  rewrite finalEmails_ids. subst matching.
  by rewrite matchingEmailsMap_ids.
Qed.

(** ** C1: the multi-tag predicate *)

Lemma fetchCalendarEventsByTags_membership (uid : string) (sess : Session)
    (resp : Fetched (option (list GoogleCalendarEvent))) (st : Store)
    (o : Outcome) (tagIds : list string) (mode : FilterMode)
    (allRelevantEvents : list GoogleCalendarEvent) :
  tagIds ≠ [] →
  fetchCalendarEvents sess resp st o uid = Ok allRelevantEvents →
  ∃ out, fetchCalendarEventsByTags (Some uid) sess resp st o tagIds mode = Ok out
         ∧ ∀ ev, ev ∈ out
                 ↔ ev ∈ allRelevantEvents
                   ∧ Passes mode (list_to_set tagIds) (eventTagIds ev).
Proof.
  intros Hne Hall. unfold fetchCalendarEventsByTags.
  rewrite bool_decide_eq_false_2 by done. rewrite Hall. simpl.
  eexists. split; [done|]. intros ev.
  by rewrite elem_of_bfilter, event_passes_spec.
Qed.

Lemma filteredCardsForDisplay_membership (cards : list TimelineCard)
    (term : string) (tagIds : list string) (mode : FilterMode)
    (card : TimelineCard) :
  tagIds ≠ [] →
  card ∈ filteredCardsForDisplay cards term tagIds mode
  ↔ card ∈ cards ∧ matchesSearch term card = true
    ∧ Passes mode (list_to_set tagIds) (cardTagIds card).
Proof.
  intros Hne. unfold filteredCardsForDisplay.
  by rewrite elem_of_bfilter, card_passes_spec.
Qed.

Example scenario_any :
  email_id <$> default [] (match fetchEmailsByTags (Some "u") example_store Succeeds
                              (SessionWith (Some "tok")) no_detail ["t1"; "t2"] ModeAny
                           with Ok l => Some l | Throw _ => None end)
  = ["A"; "B"].
Proof. vm_compute. reflexivity. Qed.

Example scenario_all :
  email_id <$> default [] (match fetchEmailsByTags (Some "u") example_store Succeeds
                              (SessionWith (Some "tok")) no_detail ["t1"; "t2"] ModeAll
                           with Ok l => Some l | Throw _ => None end)
  = ["B"].
Proof. vm_compute. reflexivity. Qed.

(** ** C2: the empty selection *)

(** C2, counterexample. With an empty selection [fetchCalendarEventsByTags]
    returns no event although the window holds two: the input list is not
    returned unchanged. *)
Lemma empty_selection_passes_nothing :
  fetchCalendarEvents (SessionWith (Some "tok")) example_calendar_answer
    example_store Succeeds "u"
  = Ok [with_tags (example_event "e1") [t1]; with_tags (example_event "e2") []]
  ∧ fetchCalendarEventsByTags (Some "u") (SessionWith (Some "tok"))
      example_calendar_answer example_store Succeeds [] ModeAny
    = Ok [].
Proof. split; vm_compute; reflexivity. Qed.

(** ** Reasoning about loads *)

Section wp_rules.
Context {A B : Type}.
Implicit Types (Q : A → LoadSt → Prop) (E : LoadSt → Prop) (l : LoadSt).

Lemma wp_ret (a : A) Q E l : Q a l → wp (mret a) Q E l.
Proof. done. Qed.

Lemma wp_bind (m : Load A) (k : A → Load B) (R : B → LoadSt → Prop) E l :
  wp m (λ a l', wp (k a) R E l') E l → wp (m ≫= k) R E l.
Proof.
  unfold wp, mbind, Load_bind. simpl. by destruct (runLoad m l).
Qed.

Lemma wp_read (f : LoadSt → A) Q E l : Q (f l) l → wp (read f) Q E l.
Proof. done. Qed.

Lemma wp_return Q E l : E l → wp return_ Q E l.
Proof. done. Qed.

Lemma wp_await (req : Request) (r : result A) env p s0 Q E l :
  match r with
  | Ok a => Q a (suspend env p s0 req l)
  | Throw _ => E (suspend env p s0 req l)
  end →
  wp (await env p s0 req r) Q E l.
Proof. unfold wp, await. simpl. by destruct r. Qed.

Lemma wp_mono (m : Load A) Q Q' E E' l :
  (∀ a l', Q a l' → Q' a l') → (∀ l', E l' → E' l') →
  wp m Q E l → wp m Q' E' l.
Proof.
  intros HQ HE. unfold wp. destruct (runLoad m l); auto.
Qed.
End wp_rules.

Lemma wp_set (f : ListState → ListState) (Q : unit → LoadSt → Prop)
    (E : LoadSt → Prop) (l : LoadSt) :
  Q tt (upd f l) → wp (set_ f) Q E l.
Proof. done. Qed.

Lemma wp_return_if_aborted (Q : unit → LoadSt → Prop) (E : LoadSt → Prop)
    (l : LoadSt) :
  (if ls_aborted l then E l else Q tt l) → wp return_if_aborted Q E l.
Proof. unfold wp, return_if_aborted. simpl. by destruct (ls_aborted l). Qed.

Lemma bool_decide_neq_refl {A} `{EqDecision A} (x : A) : bool_decide (x ≠ x) = false.
Proof. by apply bool_decide_eq_false_2; intros H; apply H. Qed.

(** One step of symbolic execution of a load. *)
Ltac wp_step :=
  lazymatch goal with
  | |- wp (mbind _ _) _ _ _ => apply wp_bind
  | |- wp (mret _) _ _ _ => apply wp_ret
  | |- wp (set_ _) _ _ _ => apply wp_set
  | |- wp (read _) _ _ _ => apply wp_read
  | |- wp return_ _ _ _ => apply wp_return
  | |- wp return_if_aborted _ _ _ =>
      apply wp_return_if_aborted;
      let H := fresh "Hab" in
      lazymatch goal with
      | |- context [ls_aborted ?l] => destruct (ls_aborted l) eqn:H
      end
  | |- wp (await _ _ _ _ ?r) _ _ _ =>
      apply wp_await; let H := fresh "Hres" in destruct r eqn:H
  | |- wp (when ?b _) _ _ _ =>
      let H := fresh "Hb" in destruct b eqn:H; unfold when
  | |- wp (if ?b then _ else _) _ _ _ =>
      let H := fresh "Hb" in destruct b eqn:H
  | |- wp (let '(_, _) := ?x in _) _ _ _ => destruct x
  | |- wp (match ?x with _ => _ end) _ _ _ => destruct x
  end; cbv beta iota.

Ltac wp_run := repeat wp_step.

(** ** C6: the selection and the load *)

Section selection.
Context (env : Env) (p : Props) (s0 : ListState).

Ltac sel_leaf :=
  unfold Sel, Refs, suspend, upd in *; simpl in *; intuition done.

Lemma load_multi_tag_selection (tagsParam : string) (l : LoadSt) :
  Sel s0 l →
  wp (load_multi_tag env p s0 tagsParam) (λ _ l', Sel s0 l' ∧ Refs p s0 l')
     (Sel s0) l.
Proof. intros H. unfold load_multi_tag, reset_paging. wp_run; sel_leaf. Qed.

Lemma load_search_selection (query : string) (l : LoadSt) :
  Sel s0 l →
  wp (load_search env p s0 query) (λ _ l', Sel s0 l' ∧ Refs p s0 l') (Sel s0) l.
Proof. intros H. unfold load_search, reset_paging. wp_run; sel_leaf. Qed.

Lemma load_legacy_tag_selection (name : string) (l : LoadSt) :
  Sel s0 l →
  wp (load_legacy_tag env p s0 name) (λ _ l', Sel s0 l' ∧ Refs p s0 l')
     (Sel s0) l.
Proof. intros H. unfold load_legacy_tag, reset_paging. wp_run; sel_leaf. Qed.

Lemma load_paged_selection (l : LoadSt) :
  Sel s0 l →
  wp (load_paged env p s0) (λ _ l', Sel s0 l' ∧ Refs p s0 l') (Sel s0) l.
Proof. intros H. unfold load_paged. wp_run; sel_leaf. Qed.

Lemma load_view_selection (l : LoadSt) :
  Sel s0 l →
  wp (load_view env p s0) (λ _ l', Sel s0 l' ∧ Refs p s0 l') (Sel s0) l.
Proof.
  intros H. unfold load_view.
  destruct (isNewTagFilterView p); [by apply load_multi_tag_selection|].
  destruct (isSearchView p); [by apply load_search_selection|].
  destruct (isTagView p); [by apply load_legacy_tag_selection|].
  by apply load_paged_selection.
Qed.

Lemma load_details_selection (messageIds : list string) (l : LoadSt) :
  Sel s0 l ∧ Refs p s0 l →
  wp (load_details env p s0 messageIds) (λ _ l', Sel s0 l' ∧ Refs p s0 l')
     (Sel s0) l.
Proof. intros H. unfold load_details. wp_run; sel_leaf. Qed.

Lemma load_common_selection view (l : LoadSt) :
  Sel s0 l ∧ Refs p s0 l →
  wp (load_common env p s0 view) (λ _ l', Sel s0 l' ∧ Refs p s0 l') (Sel s0) l.
Proof.
  intros H. unfold load_common. destruct view as [[messageIds res] cache].
  destruct (negb (isNewTagFilterView p) && bool_decide (messageIds ≠ [])).
  { by apply load_details_selection. }
  destruct (negb (isNewTagFilterView p)); by apply wp_ret.
Qed.

(** Once the refs hold the values of the render, the clearing condition is
    false. *)
Lemma selection_must_clear_false (l : LoadSt) :
  Refs p s0 l → selection_must_clear p s0 l = false.
Proof.
  intros (H1 & H2 & H3 & H4). unfold selection_must_clear.
  rewrite H1, H2, H3, H4. by rewrite !bool_decide_neq_refl.
Qed.

Lemma load_commit_selection merged (l : LoadSt) :
  Sel s0 l ∧ Refs p s0 l →
  wp (load_commit p s0 merged) (λ _, Sel s0) (Sel s0) l.
Proof.
  intros [Hsel Hrefs]. unfold load_commit. destruct merged as [res cache].
  apply wp_bind, wp_read. apply wp_bind.
  assert (∀ l', Sel s0 l' ∧ Refs p s0 l' →
                wp (clear ← read (selection_must_clear p s0);
                    when clear (set_ (setSelectedEmails []);;
                                set_ (setSelectAll false)))
                   (λ _, Sel s0) (Sel s0) l') as Hfinal.
  { intros l' [Hs Hr]. apply wp_bind, wp_read.
    rewrite selection_must_clear_false by done. by apply wp_ret. }
  destruct (negb (ls_aborted l)); unfold when.
  - wp_step. wp_step. wp_step. apply Hfinal. sel_leaf.
  - wp_step. by apply Hfinal.
Qed.

Lemma load_try_selection (l : LoadSt) :
  Sel s0 l → wp (load_try env p s0) (λ _, Sel s0) (Sel s0) l.
Proof.
  intros Hsel. unfold load_try.
  apply wp_bind, wp_read. apply wp_bind.
  assert (∀ l', Sel s0 l' →
            wp (view ← load_view env p s0;
                merged ← load_common env p s0 view;
                load_commit p s0 merged) (λ _, Sel s0) (Sel s0) l') as Hrest.
  { intros l' Hl'. apply wp_bind.
    eapply wp_mono; [| |by apply load_view_selection]; [|done].
    intros view l1 H1. simpl. apply wp_bind.
    eapply wp_mono; [| |by apply load_common_selection]; [|done].
    intros merged l2 H2. simpl. by apply load_commit_selection. }
  match goal with |- context [when ?b _] => destruct b end; unfold when.
  - wp_step. wp_step. wp_step. apply Hrest. sel_leaf.
  - wp_step. by apply Hrest.
Qed.

Lemma loadData_selection (l : LoadSt) :
  Sel s0 l → Sel s0 (loadData env p s0 l).
Proof.
  intros Hsel. unfold loadData.
  destruct (truthy_opt (param_threadId p)); [sel_leaf|].
  assert (Sel s0 (upd (setError None) (upd (setIsLoading true) l))) as H1
    by sel_leaf.
  pose proof (load_try_selection _ H1) as Hwp. unfold wp in Hwp.
  destruct (runLoad _ _) as [a l'|l'|msg l'].
  - destruct (ls_aborted l'); [done|sel_leaf].
  - destruct (ls_aborted l'); [done|sel_leaf].
  - assert (Sel s0 (upd (load_catch msg) l')) as H2.
    { unfold load_catch. destruct (String.eqb msg token_expired); sel_leaf. }
    destruct (ls_aborted _); [done|]. revert H2. clear. sel_leaf.
Qed.

(** The load started by the effect of an authenticated render leaves the
    selection as it found it, whatever the page token, the filters and the
    search query of the render and of the one before it. *)
Lemma effect_keeps_selection :
  isAuthenticated p = true →
  truthy_opt (user_id_of p) = true →
  selectedEmails (effect env p s0).1 = selectedEmails s0
  ∧ selectAll (effect env p s0).1 = selectAll s0.
Proof.
  intros Hauth Huid. unfold effect. rewrite Hauth, Huid. simpl.
  assert (Sel s0 (mkLoadSt s0 [] 0 false)) as H0 by done.
  apply loadData_selection in H0. destruct H0 as [H1 H2].
  by split.
Qed.
End selection.

(** ** C4: the cursors across view modes *)

Section cursors.
Context (env : Env) (p : Props) (s0 : ListState).

Ltac pg_leaf :=
  unfold cursor_reset, suspend, upd in *; simpl in *; intuition done.

Lemma load_multi_tag_cursor (tagsParam : string) (l : LoadSt) :
  wp (load_multi_tag env p s0 tagsParam)
     (λ _ l', cursor_reset (ls_state l')) (λ l', cursor_reset (ls_state l')) l.
Proof. unfold load_multi_tag, reset_paging. wp_run; pg_leaf. Qed.

Lemma load_search_cursor (query : string) (l : LoadSt) :
  wp (load_search env p s0 query)
     (λ _ l', cursor_reset (ls_state l')) (λ l', cursor_reset (ls_state l')) l.
Proof. unfold load_search, reset_paging. wp_run; pg_leaf. Qed.

Lemma load_legacy_tag_cursor (name : string) (l : LoadSt) :
  wp (load_legacy_tag env p s0 name)
     (λ _ l', cursor_reset (ls_state l')) (λ l', cursor_reset (ls_state l')) l.
Proof. unfold load_legacy_tag, reset_paging. wp_run; pg_leaf. Qed.

Lemma load_view_cursor (l : LoadSt) :
  paged_view p = false →
  wp (load_view env p s0)
     (λ _ l', cursor_reset (ls_state l')) (λ l', cursor_reset (ls_state l')) l.
Proof.
  unfold paged_view, load_view. intros Hview.
  destruct (isNewTagFilterView p); [by apply load_multi_tag_cursor|].
  destruct (isSearchView p); [by apply load_search_cursor|].
  destruct (isTagView p); [by apply load_legacy_tag_cursor|done].
Qed.

Lemma load_details_cursor (messageIds : list string) (l : LoadSt) :
  cursor_reset (ls_state l) →
  wp (load_details env p s0 messageIds)
     (λ _ l', cursor_reset (ls_state l')) (λ l', cursor_reset (ls_state l')) l.
Proof. intros H. unfold load_details. wp_run; pg_leaf. Qed.

Lemma load_common_cursor view (l : LoadSt) :
  cursor_reset (ls_state l) →
  wp (load_common env p s0 view)
     (λ _ l', cursor_reset (ls_state l')) (λ l', cursor_reset (ls_state l')) l.
Proof.
  intros H. unfold load_common. destruct view as [[messageIds res] cache].
  destruct (negb (isNewTagFilterView p) && bool_decide (messageIds ≠ [])).
  { by apply load_details_cursor. }
  destruct (negb (isNewTagFilterView p)); by apply wp_ret.
Qed.

Lemma load_commit_cursor merged (l : LoadSt) :
  cursor_reset (ls_state l) →
  wp (load_commit p s0 merged)
     (λ _ l', cursor_reset (ls_state l')) (λ l', cursor_reset (ls_state l')) l.
Proof.
  intros H. unfold load_commit. destruct merged as [res cache].
  wp_run; pg_leaf.
Qed.

Lemma load_try_cursor (l : LoadSt) :
  paged_view p = false →
  wp (load_try env p s0)
     (λ _ l', cursor_reset (ls_state l')) (λ l', cursor_reset (ls_state l')) l.
Proof.
  intros Hview. unfold load_try.
  apply wp_bind, wp_read. apply wp_bind.
  assert (∀ l',
            wp (view ← load_view env p s0;
                merged ← load_common env p s0 view;
                load_commit p s0 merged)
               (λ _ l', cursor_reset (ls_state l'))
               (λ l', cursor_reset (ls_state l')) l') as Hrest.
  { intros l'. apply wp_bind.
    eapply wp_mono; [| |by apply load_view_cursor]; [|done].
    intros view l1 H1. simpl. apply wp_bind.
    eapply wp_mono; [| |by apply load_common_cursor]; [|done].
    intros merged l2 H2. simpl. by apply load_commit_cursor. }
  match goal with |- context [when ?b _] => destruct b end; unfold when.
  - wp_step. wp_step. wp_step. apply Hrest.
  - wp_step. by apply Hrest.
Qed.

Lemma loadData_cursor (l : LoadSt) :
  paged_view p = false →
  truthy_opt (param_threadId p) = false →
  cursor_reset (ls_state (loadData env p s0 l)).
Proof.
  intros Hview Hthread. unfold loadData. rewrite Hthread.
  pose proof (load_try_cursor (upd (setError None) (upd (setIsLoading true) l))
                Hview) as Hwp.
  unfold wp in Hwp.
  destruct (runLoad _ _) as [a l'|l'|msg l'].
  - destruct (ls_aborted l'); [done|pg_leaf].
  - destruct (ls_aborted l'); [done|pg_leaf].
  - assert (cursor_reset (ls_state (upd (load_catch msg) l'))) as H2.
    { unfold load_catch. destruct (String.eqb msg token_expired); pg_leaf. }
    destruct (ls_aborted _); [done|]. revert H2. clear. pg_leaf.
Qed.

Lemma effect_cursor :
  loads p = true → paged_view p = false →
  cursor_reset (effect env p s0).1.
Proof.
  unfold loads. intros Hloads Hview.
  apply andb_prop in Hloads as [Hloads Hthread].
  apply andb_prop in Hloads as [Hauth Huid].
  apply negb_true_iff in Hthread.
  unfold effect. rewrite Hauth, Huid. simpl.
  pose proof (loadData_cursor (mkLoadSt s0 [] 0 false) Hview Hthread) as H.
  revert H. generalize (loadData env p s0 (mkLoadSt s0 [] 0 false)).
  intros l. pg_leaf.
Qed.

(** *** The first request of a load in the paginated view *)

Ltac hd_leaf :=
  unfold starts_with, suspend, upd in *; simpl in *;
  try match goal with H : ∃ _, _ |- _ => destruct H as [? ->] end;
  simpl; eauto.

Lemma load_paged_first (l : LoadSt) :
  ls_trace l = [] →
  requested_page (pageToken s0) = None →
  wp (load_paged env p s0) (λ _, starts_with (first_page_request s0))
     (starts_with (first_page_request s0)) l.
Proof.
  intros Htr Hpage. unfold load_paged, first_page_request. rewrite Hpage.
  wp_run; unfold starts_with, suspend, upd; simpl; rewrite Htr; simpl; eauto.
Qed.

Lemma load_details_first (r : Request) (messageIds : list string) (l : LoadSt) :
  starts_with r l →
  wp (load_details env p s0 messageIds) (λ _, starts_with r) (starts_with r) l.
Proof. intros H. unfold load_details. wp_run; hd_leaf. Qed.

Lemma load_commit_first (r : Request) merged (l : LoadSt) :
  starts_with r l →
  wp (load_commit p s0 merged) (λ _, starts_with r) (starts_with r) l.
Proof.
  intros H. unfold load_commit. destruct merged as [res cache].
  wp_run; hd_leaf.
Qed.

Lemma load_try_first (l : LoadSt) :
  ls_trace l = [] →
  paged_view p = true →
  requested_page (pageToken s0) = None →
  wp (load_try env p s0) (λ _, starts_with (first_page_request s0))
     (starts_with (first_page_request s0)) l.
Proof.
  intros Htr Hview Hpage. unfold load_try.
  apply wp_bind, wp_read. apply wp_bind.
  assert (∀ l', ls_trace l' = [] →
            wp (view ← load_view env p s0;
                merged ← load_common env p s0 view;
                load_commit p s0 merged)
               (λ _, starts_with (first_page_request s0))
               (starts_with (first_page_request s0)) l') as Hrest.
  { intros l' Hl'. apply wp_bind. unfold load_view.
    unfold paged_view in Hview.
    destruct (isNewTagFilterView p) eqn:Hnew; [done|].
    destruct (isSearchView p); [done|].
    destruct (isTagView p); [done|].
    eapply wp_mono; [| |by apply load_paged_first]; [|done].
    intros view l1 H1. simpl. apply wp_bind. unfold load_common.
    destruct view as [[messageIds res] cache]. rewrite Hnew. simpl.
    destruct (bool_decide (messageIds ≠ [])).
    - eapply wp_mono; [| |by apply load_details_first]; [|done].
      intros merged l2 H2. simpl. by apply load_commit_first.
    - apply wp_ret. by apply load_commit_first. }
  match goal with |- context [when ?b _] => destruct b end; unfold when.
  - wp_step. wp_step. wp_step. by apply Hrest.
  - wp_step. by apply Hrest.
Qed.

Lemma effect_first_page :
  loads p = true → paged_view p = true →
  requested_page (pageToken s0) = None →
  ∃ rest, (effect env p s0).2 = first_page_request s0 :: rest.
Proof.
  unfold loads. intros Hloads Hview Hpage.
  apply andb_prop in Hloads as [Hloads Hthread].
  apply andb_prop in Hloads as [Hauth Huid].
  apply negb_true_iff in Hthread.
  unfold effect. rewrite Hauth, Huid. simpl.
  unfold loadData. rewrite Hthread.
  pose proof (load_try_first (upd (setError None)
                (upd (setIsLoading true) (mkLoadSt s0 [] 0 false)))
                eq_refl Hview Hpage) as Hwp.
  unfold wp in Hwp.
  destruct (runLoad _ _) as [a l'|l'|msg l'].
  - destruct (ls_aborted l'); hd_leaf.
  - destruct (ls_aborted l'); hd_leaf.
  - destruct (ls_aborted (upd _ _)); hd_leaf.
Qed.
End cursors.

(** ** The merge step of the email reader *)

Section merge.
Context (d : Display) (supabaseMap : gmap string SupabaseEmailData).


Lemma fold_entries_lookup (fetched : list GmailFullMessage)
    (m0 : gmap string EmailItem) (id : string) (item : EmailItem) :
  fold_left (λ (m : gmap string EmailItem) msg,
               <[gm_id msg := emailItem_of d msg (supabaseMap !! gm_id msg)]> m)
            fetched m0 !! id = Some item →
  (∃ msg, msg ∈ fetched ∧ gm_id msg = id
          ∧ item = emailItem_of d msg (supabaseMap !! id))
  ∨ m0 !! id = Some item.
Proof.
  revert m0. induction fetched as [|msg fetched IH]; intros m0 H; simpl in *; [by right|].
  apply IH in H as [(msg' & Hin & Hid & Hitem)|H].
  - left. exists msg'. split; [by right|done].
  - destruct (decide (gm_id msg = id)) as [<-|Hne].
    + rewrite lookup_insert_eq in H. left. exists msg.
      split; [by left|]. split; [done|]. congruence.
    + rewrite lookup_insert_ne in H by done. by right.
Qed.

Lemma newCacheEntries_lookup (fetched : list GmailFullMessage) (id : string)
    (item : EmailItem) :
  newCacheEntries d supabaseMap fetched !! id = Some item →
  ∃ msg, msg ∈ fetched ∧ gm_id msg = id
         ∧ item = emailItem_of d msg (supabaseMap !! id).
Proof.
  intros H. apply fold_entries_lookup in H as [H|H]; [done|].
  by rewrite lookup_empty in H.
Qed.



End merge.

Lemma processAndMergeEmails_cache (d : Display) (messageIds : list string)
    (fetched : list GmailFullMessage) (supabaseData : list SupabaseEmailData)
    (cache : gmap string EmailItem) (id : string) :
  (processAndMergeEmails d messageIds fetched supabaseData cache).2 !! id
  = match newCacheEntries d
            (jsMap_of (map (λ sd, (sed_email_id sd, sd)) supabaseData))
            fetched !! id with
    | Some item => Some item
    | None => cache !! id
    end.
Proof.
  unfold processAndMergeEmails. simpl. rewrite lookup_union.
  destruct (newCacheEntries _ _ _ !! id) as [item|]; simpl.
  - by destruct (cache !! id).
  - by destruct (cache !! id).
Qed.




(** ** C3: the tag merge of the readers *)







Lemma bfilter_all {A} (f : A → bool) (l : list A) :
  (∀ x, x ∈ l → f x = true) → List.filter f l = l.
Proof.
  induction l as [|x l IH]; intros H; simpl; [done|].
  rewrite H by (by left). f_equal. apply IH. intros y Hy. apply H. by right.
Qed.




(** ** C4 and C6: the statements *)

(** C4. A render of a non-paged view (multi-tag filter, free-text search or
    legacy single-tag view) that starts a load leaves the page token at
    [null], the forward cursor empty and the stack of prior cursors empty,
    whatever the cursors were and however the load ends; and the next load of
    the paginated view, started from any state with that page token, first
    asks the mail service for the first page. *)
Theorem non_paged_view_resets_cursors
    (env env' : Env) (p p' : Props) (s0 s2 : ListState) :
  loads p = true → paged_view p = false →
  loads p' = true → paged_view p' = true →
  pageToken s2 = pageToken (effect env p s0).1 →
  cursor_reset (effect env p s0).1
  ∧ ∃ rest, (effect env' p' s2).2 = first_page_request s2 :: rest.
Proof.
  intros Hloads Hview Hloads' Hview' Htok.
  pose proof (effect_cursor env p s0 Hloads Hview) as Hreset.
  split; [done|].
  apply effect_first_page; [done|done|].
  rewrite Htok. destruct Hreset as [-> _]. done.
Qed.

Lemma non_paged_view_resets_cursors_witness :
  loads search_props = true ∧ paged_view search_props = false
  ∧ loads paged_props = true ∧ paged_view paged_props = true
  ∧ pageToken (goToNextPage (effect example_env paged_props initial_state).1)
    = Str "p2"
  ∧ cursor_reset
      (effect example_env search_props
         (goToNextPage (effect example_env paged_props initial_state).1)).1
  ∧ ∃ rest,
      (effect example_env paged_props
         (effect example_env search_props
            (goToNextPage (effect example_env paged_props initial_state).1)).1).2
      = ReqPage None :: rest.
Proof.
  split; [reflexivity|]. split; [reflexivity|]. split; [reflexivity|].
  split; [reflexivity|]. split; [vm_compute; reflexivity|].
  apply (non_paged_view_resets_cursors example_env example_env search_props
           paged_props
           (goToNextPage (effect example_env paged_props initial_state).1)
           (effect example_env search_props
              (goToNextPage (effect example_env paged_props initial_state).1)).1);
    reflexivity.
Defined.

(** C6, the code at the failing input. Three emails of the first page are
    selected and the user goes to the next page: the page token of the render
    is ["p2"] while the ref still holds the token of the first page. The
    load of the second page finishes and the three emails are still
    selected. *)
Theorem selection_survives_page_change :
  let s1 := (effect example_env paged_props initial_state).1 in
  let s2 := goToNextPage (setSelectedEmails ["A"; "B"; "C"] s1) in
  pageToken s2 = Str "p2"
  ∧ pageTokenRef s2 = Undefined
  ∧ ei_id <$> allEmails (effect example_env paged_props s2).1 = ["D"]
  ∧ selectedEmails (effect example_env paged_props s2).1 = ["A"; "B"; "C"].
Proof. vm_compute. done. Qed.

(** ** C5: the identifier-to-item cache *)

Lemma fetches_uncached_only_snoc (cache : gmap string EmailItem)
    (trace : list Request) (req : Request) :
  fetches_uncached_only cache trace →
  (∀ ids, req = ReqDetails ids → ∀ id, id ∈ ids → cache !! id = None) →
  fetches_uncached_only cache (trace ++ [req]).
Proof.
  intros Htrace Hreq ids id Hin Hid.
  apply elem_of_app in Hin as [Hin|Hin]; [by eapply Htrace|].
  apply list_elem_of_singleton in Hin. by eapply Hreq.
Qed.

Lemma uncached_filter (cache : gmap string EmailItem) (messageIds : list string)
    (id : string) :
  id ∈ List.filter (λ id, negb (bool_decide (is_Some (cache !! id)))) messageIds →
  cache !! id = None.
Proof.
  intros Hin. apply elem_of_bfilter in Hin as [_ Hin].
  apply negb_true_iff, bool_decide_eq_false in Hin.
  destruct (cache !! id); [|done]. exfalso. apply Hin. eauto.
Qed.

Lemma fetchFullEmailDetails_ids (env : Env) (sess : Session) (ids : list string)
    (fetched : list GmailFullMessage) (msg : GmailFullMessage) :
  detail_faithful env →
  fetchFullEmailDetails sess (env_detail env) ids = Ok fetched →
  msg ∈ fetched → gm_id msg ∈ ids.
Proof.
  intros Hfaith Hfetch Hmsg. unfold fetchFullEmailDetails in Hfetch.
  destruct (getAccessToken sess); simpl in Hfetch; [|done].
  case_bool_decide; simplify_eq; [by apply elem_of_nil in Hmsg|].
  apply list_elem_of_omap in Hmsg as (o & Ho & Hsome). simpl in Hsome. subst o.
  apply list_elem_of_fmap in Ho as (id & Hreq & Hid).
  unfold detail_request in Hreq.
  destruct (env_detail env id) as [|res] eqn:Hd; [done|].
  unfold detail_then in Hreq.
  destruct (ok res) eqn:Hok; simpl in Hreq.
  - injection Hreq as ->. by rewrite (Hfaith id res Hd Hok).
  - by destruct (is_auth_status (status res)).
Qed.

Section cache.
Context (env : Env) (p : Props) (s0 : ListState).

Ltac tu_leaf :=
  unfold trace_uncached, suspend, upd in *; simpl in *;
  repeat (apply fetches_uncached_only_snoc;
          [|try (intros ? [=]);
            try (intros ? ?; subst; by eapply uncached_filter)]);
  try done.

Lemma load_search_uncached (query : string) (l : LoadSt) :
  trace_uncached s0 l → wp (load_search env p s0 query) (λ _, trace_uncached s0) (trace_uncached s0) l.
Proof. intros H. unfold load_search, reset_paging. wp_run; tu_leaf. Qed.

Lemma load_legacy_tag_uncached (name : string) (l : LoadSt) :
  trace_uncached s0 l → wp (load_legacy_tag env p s0 name) (λ _, trace_uncached s0) (trace_uncached s0) l.
Proof. intros H. unfold load_legacy_tag, reset_paging. wp_run; tu_leaf. Qed.

Lemma load_paged_uncached (l : LoadSt) :
  trace_uncached s0 l → wp (load_paged env p s0) (λ _, trace_uncached s0) (trace_uncached s0) l.
Proof. intros H. unfold load_paged. wp_run; tu_leaf. Qed.

Lemma load_details_uncached (messageIds : list string) (l : LoadSt) :
  trace_uncached s0 l → wp (load_details env p s0 messageIds) (λ _, trace_uncached s0) (trace_uncached s0) l.
Proof. intros H. unfold load_details. wp_run; tu_leaf. Qed.

Lemma load_commit_uncached merged (l : LoadSt) :
  trace_uncached s0 l → wp (load_commit p s0 merged) (λ _, trace_uncached s0) (trace_uncached s0) l.
Proof.
  intros H. unfold load_commit. destruct merged as [res cache].
  wp_run; tu_leaf.
Qed.

Lemma load_try_uncached (l : LoadSt) :
  isNewTagFilterView p = false →
  trace_uncached s0 l → wp (load_try env p s0) (λ _, trace_uncached s0) (trace_uncached s0) l.
Proof.
  intros Hnew Htu. unfold load_try.
  apply wp_bind, wp_read. apply wp_bind.
  assert (∀ l', trace_uncached s0 l' →
            wp (view ← load_view env p s0;
                merged ← load_common env p s0 view;
                load_commit p s0 merged) (λ _, trace_uncached s0) (trace_uncached s0) l') as Hrest.
  { intros l' Hl'. apply wp_bind. unfold load_view. rewrite Hnew.
    assert (wp (if isSearchView p
                then load_search env p s0 (default "" (searchQuery p))
                else if isTagView p
                     then load_legacy_tag env p s0 (default "" (activeFilterName p))
                     else load_paged env p s0) (λ _, trace_uncached s0) (trace_uncached s0) l') as Hview.
    { destruct (isSearchView p); [by apply load_search_uncached|].
      destruct (isTagView p); [by apply load_legacy_tag_uncached|].
      by apply load_paged_uncached. }
    eapply wp_mono; [| |exact Hview]; [|done].
    intros view l1 H1. simpl. apply wp_bind. unfold load_common.
    destruct view as [[messageIds res] cache]. rewrite Hnew. simpl.
    destruct (bool_decide (messageIds ≠ [])).
    - eapply wp_mono; [| |by apply load_details_uncached]; [|done].
      intros merged l2 H2. simpl. by apply load_commit_uncached.
    - apply wp_ret. by apply load_commit_uncached. }
  match goal with |- context [when ?b _] => destruct b end; unfold when.
  - wp_step. wp_step. wp_step. by apply Hrest.
  - wp_step. by apply Hrest.
Qed.

Lemma effect_uncached :
  isNewTagFilterView p = false →
  fetches_uncached_only (emailCache s0) (effect env p s0).2.
Proof.
  intros Hnew. unfold effect.
  destruct (negb (isAuthenticated p) || negb (truthy_opt (user_id_of p))).
  { simpl. intros ids id Hin. by apply elem_of_nil in Hin. }
  simpl. unfold loadData.
  destruct (truthy_opt (param_threadId p)).
  { simpl. intros ids id Hin. by apply elem_of_nil in Hin. }
  assert (trace_uncached s0 (upd (setError None)
                (upd (setIsLoading true) (mkLoadSt s0 [] 0 false)))) as H0.
  { intros ids id Hin. by apply elem_of_nil in Hin. }
  pose proof (load_try_uncached _ Hnew H0) as Hwp. unfold wp in Hwp.
  destruct (runLoad _ _) as [a l'|l'|msg l'].
  - by destruct (ls_aborted l').
  - by destruct (ls_aborted l').
  - by destruct (ls_aborted (upd _ _)).
Qed.
End cache.

(** *** The cache only grows *)

Section cache_growth.
Context (env : Env) (p : Props) (s0 : ListState).
Context (R : gmap string EmailItem → gmap string EmailItem → Prop).
Context (R_refl : ∀ c, R c c).
Context (R_multi : isNewTagFilterView p = true →
                   ∀ new, R (emailCache s0) (new ∪ emailCache s0)).
Context (R_details :
  ∀ messageIds fetched supabaseData,
    fetched = []
    ∨ fetchFullEmailDetails (env_session env) (env_detail env)
        (List.filter (λ id, negb (bool_decide (is_Some (emailCache s0 !! id))))
                     messageIds) = Ok fetched →
    R (emailCache s0)
      (processAndMergeEmails (env_display env) messageIds fetched supabaseData
         (emailCache s0)).2).

Local Opaque processAndMergeEmails.

Ltac grow_leaf :=
  unfold grows, suspend, upd in *; simpl in *; try done; try (split; done);
  try (split; [done|]).

Lemma load_multi_tag_grows (tagsParam : string) (l : LoadSt) :
  isNewTagFilterView p = true →
  (grows R s0) l →
  wp (load_multi_tag env p s0 tagsParam)
     (λ view l', (grows R s0) l' ∧ R (emailCache s0) view.2) (grows R s0) l.
Proof.
  intros Hnew H. unfold load_multi_tag, reset_paging.
  wp_run; grow_leaf. by apply R_multi.
Qed.

Lemma load_search_grows (query : string) (l : LoadSt) :
  (grows R s0) l →
  wp (load_search env p s0 query)
     (λ view l', (grows R s0) l' ∧ R (emailCache s0) view.2) (grows R s0) l.
Proof. intros H. unfold load_search, reset_paging. wp_run; grow_leaf. Qed.

Lemma load_legacy_tag_grows (name : string) (l : LoadSt) :
  (grows R s0) l →
  wp (load_legacy_tag env p s0 name)
     (λ view l', (grows R s0) l' ∧ R (emailCache s0) view.2) (grows R s0) l.
Proof. intros H. unfold load_legacy_tag, reset_paging. wp_run; grow_leaf. Qed.

Lemma load_paged_grows (l : LoadSt) :
  (grows R s0) l →
  wp (load_paged env p s0)
     (λ view l', (grows R s0) l' ∧ R (emailCache s0) view.2) (grows R s0) l.
Proof. intros H. unfold load_paged. wp_run; grow_leaf. Qed.

Lemma load_view_grows (l : LoadSt) :
  (grows R s0) l →
  wp (load_view env p s0)
     (λ view l', (grows R s0) l' ∧ R (emailCache s0) view.2) (grows R s0) l.
Proof.
  intros H. unfold load_view.
  case_eq (isNewTagFilterView p); intros Hnew; [by apply load_multi_tag_grows|].
  destruct (isSearchView p); [by apply load_search_grows|].
  destruct (isTagView p); [by apply load_legacy_tag_grows|].
  by apply load_paged_grows.
Qed.

Lemma load_details_grows (messageIds : list string) (l : LoadSt) :
  (grows R s0) l →
  wp (load_details env p s0 messageIds)
     (λ merged l', (grows R s0) l' ∧ R (emailCache s0) merged.2) (grows R s0) l.
Proof.
  intros H. unfold load_details. wp_run; grow_leaf.
  - apply R_details. by right.
  - apply R_details. by left.
Qed.

Lemma load_common_grows view (l : LoadSt) :
  (grows R s0) l ∧ R (emailCache s0) view.2 →
  wp (load_common env p s0 view)
     (λ merged l', (grows R s0) l' ∧ R (emailCache s0) merged.2) (grows R s0) l.
Proof.
  intros [H Hview]. unfold load_common. destruct view as [[messageIds res] cache].
  destruct (negb (isNewTagFilterView p) && bool_decide (messageIds ≠ [])).
  { by apply load_details_grows. }
  destruct (negb (isNewTagFilterView p)); by apply wp_ret.
Qed.

Lemma load_commit_grows merged (l : LoadSt) :
  (grows R s0) l ∧ R (emailCache s0) merged.2 →
  wp (load_commit p s0 merged) (λ _, (grows R s0)) (grows R s0) l.
Proof.
  intros [H Hm]. unfold load_commit. destruct merged as [res cache].
  wp_run; grow_leaf.
Qed.

Lemma load_try_grows (l : LoadSt) :
  (grows R s0) l → wp (load_try env p s0) (λ _, (grows R s0)) (grows R s0) l.
Proof.
  intros Hl. unfold load_try.
  apply wp_bind, wp_read. apply wp_bind.
  assert (∀ l', (grows R s0) l' →
            wp (view ← load_view env p s0;
                merged ← load_common env p s0 view;
                load_commit p s0 merged) (λ _, (grows R s0)) (grows R s0) l') as Hrest.
  { intros l' Hl'. apply wp_bind.
    eapply wp_mono; [| |by apply load_view_grows]; [|done].
    intros view l1 H1. simpl. apply wp_bind.
    eapply wp_mono; [| |by apply load_common_grows]; [|done].
    intros merged l2 H2. simpl. by apply load_commit_grows. }
  match goal with |- context [when ?b _] => destruct b end; unfold when.
  - wp_step. wp_step. wp_step. by apply Hrest.
  - wp_step. by apply Hrest.
Qed.

Lemma effect_grows :
  isAuthenticated p = true → truthy_opt (user_id_of p) = true →
  R (emailCache s0) (emailCache (effect env p s0).1).
Proof.
  intros Hauth Huid. unfold effect. rewrite Hauth, Huid. simpl.
  unfold loadData.
  destruct (truthy_opt (param_threadId p)); [apply R_refl|].
  assert ((grows R s0) (upd (setError None)
                   (upd (setIsLoading true) (mkLoadSt s0 [] 0 false)))) as H0
    by apply R_refl.
  pose proof (load_try_grows _ H0) as Hwp. unfold wp in Hwp.
  destruct (runLoad _ _) as [a l'|l'|msg l'].
  - by destruct (ls_aborted l').
  - by destruct (ls_aborted l').
  - assert ((grows R s0) (upd (load_catch msg) l')) as H2.
    { unfold load_catch. by destruct (String.eqb msg token_expired). }
    by destruct (ls_aborted _).
Qed.
End cache_growth.

Lemma effect_keeps_keys (env : Env) (p : Props) (s0 : ListState) :
  isAuthenticated p = true → truthy_opt (user_id_of p) = true →
  keeps_keys (emailCache s0) (emailCache (effect env p s0).1).
Proof.
  apply effect_grows.
  - by intros c id.
  - intros _ new id [item Hid]. rewrite lookup_union.
    rewrite Hid. destruct (new !! id); eauto.
  - intros messageIds fetched sd _ id [item Hid].
    rewrite processAndMergeEmails_cache.
    destruct (newCacheEntries _ _ _ !! id); eauto.
Qed.

Lemma effect_keeps_entries (env : Env) (p : Props) (s0 : ListState) :
  isNewTagFilterView p = false → detail_faithful env →
  isAuthenticated p = true → truthy_opt (user_id_of p) = true →
  keeps_entries (emailCache s0) (emailCache (effect env p s0).1).
Proof.
  intros Hnew Hfaith. apply effect_grows.
  - by intros c id.
  - by rewrite Hnew.
  - intros messageIds fetched sd Hfetched id item Hid.
    rewrite processAndMergeEmails_cache.
    destruct (newCacheEntries _ _ _ !! id) as [item'|] eqn:Hentry; [|done].
    exfalso.
    apply newCacheEntries_lookup in Hentry as (msg & Hmsg & Hmid & _).
    destruct Hfetched as [->|Hfetched]; [by apply elem_of_nil in Hmsg|].
    pose proof (fetchFullEmailDetails_ids env _ _ _ msg Hfaith Hfetched Hmsg) as Hin.
    apply uncached_filter in Hin. congruence.
Qed.

(** *** Manual refresh *)

Lemma triggerRefresh_paged (p : Props) (s : ListState) :
  paged_view p = true → isLoading s = false →
  triggerRefresh p s
  = setRefreshKey (S (refreshKey s))
      (setError None (setPageToken Null (setEmailCache ∅ s))).
Proof.
  unfold paged_view, triggerRefresh. intros Hview Hload. rewrite Hload.
  by destruct (isNewTagFilterView p), (isSearchView p), (isTagView p).
Qed.

Lemma triggerRefresh_ignored (p : Props) (s : ListState) :
  paged_view p = false ∨ isLoading s = true → triggerRefresh p s = s.
Proof.
  unfold paged_view, triggerRefresh. intros [Hview|Hload].
  - by destruct (isNewTagFilterView p), (isSearchView p), (isTagView p).
  - rewrite Hload. by rewrite andb_false_r.
Qed.

(** C5, counterexample. In the search view a manual refresh leaves the cache
    as it is: the item cached for [A] by the first page is still there, and
    the page token is not reset. *)
Lemma refresh_ignored_in_search_view :
  triggerRefresh search_props
    (goToNextPage (effect example_env paged_props initial_state).1)
  = goToNextPage (effect example_env paged_props initial_state).1
  ∧ ei_id <$> emailCache
                (triggerRefresh search_props
                   (goToNextPage (effect example_env paged_props initial_state).1))
              !! "A"
    = Some "A"
  ∧ pageToken
      (triggerRefresh search_props
         (goToNextPage (effect example_env paged_props initial_state).1))
    = Str "p2".
Proof. split; [reflexivity|]. split; vm_compute; reflexivity. Qed.

(** C5, as amended. In the paginated, search and legacy-tag views a load
    sends detail requests only for identifiers that were not in the cache
    when it started. A load never removes an identifier from the cache, and
    in those three views it leaves every cached entry as it was (the mail
    service answering each detail request with the message asked for). A
    manual refresh in the paginated view, while no load is in flight, empties
    the cache and sets the page token to [null], and the load that follows
    asks for the first page; in the other views, or while a load is in
    flight, a manual refresh changes nothing. *)
Theorem cache_discipline (env : Env) (p : Props) (s0 : ListState) :
  isAuthenticated p = true → truthy_opt (user_id_of p) = true →
  (isNewTagFilterView p = false →
   fetches_uncached_only (emailCache s0) (effect env p s0).2)
  ∧ keeps_keys (emailCache s0) (emailCache (effect env p s0).1)
  ∧ (isNewTagFilterView p = false → detail_faithful env →
     keeps_entries (emailCache s0) (emailCache (effect env p s0).1))
  ∧ (paged_view p = true → isLoading s0 = false →
     emailCache (triggerRefresh p s0) = ∅
     ∧ pageToken (triggerRefresh p s0) = Null
     ∧ (truthy_opt (param_threadId p) = false →
        ∃ rest, (effect env p (triggerRefresh p s0)).2
                = first_page_request s0 :: rest))
  ∧ (paged_view p = false ∨ isLoading s0 = true → triggerRefresh p s0 = s0).
Proof.
  intros Hauth Huid.
  split; [intros Hnew; by apply effect_uncached|].
  split; [by apply effect_keeps_keys|].
  split; [intros Hnew Hfaith; by apply effect_keeps_entries|].
  split; [|by apply triggerRefresh_ignored].
  intros Hview Hload. rewrite triggerRefresh_paged by done.
  split; [done|]. split; [done|]. intros Hthread.
  apply (effect_first_page env p
           (setRefreshKey (S (refreshKey s0))
              (setError None (setPageToken Null (setEmailCache ∅ s0))))).
  - unfold loads. by rewrite Hauth, Huid, Hthread.
  - done.
  - done.
Qed.

Lemma cache_discipline_witness :
  isAuthenticated paged_props = true
  ∧ truthy_opt (user_id_of paged_props) = true
  ∧ fetches_uncached_only
      (emailCache (effect example_env paged_props initial_state).1)
      (effect example_env paged_props
         (effect example_env paged_props initial_state).1).2.
Proof.
  split; [reflexivity|]. split; [reflexivity|].
  apply (cache_discipline example_env paged_props
           (effect example_env paged_props initial_state).1);
    reflexivity.
Defined.

(** The first page is loaded twice without clearing the cache: the second
    load sends no detail request. *)
Example second_visit_fetches_no_detail :
  (effect example_env paged_props initial_state).2
  = [ReqPage None; ReqDetails ["A"; "B"; "C"]; ReqSupabase ["A"; "B"; "C"]]
  ∧ (effect example_env paged_props
       (effect example_env paged_props initial_state).1).2
    = [ReqPage None; ReqSupabase ["A"; "B"; "C"]].
Proof. vm_compute. done. Qed.

(** ** C2: the empty selection, as the code has it *)

Lemma no_by_tags_snoc (trace : list Request) (req : Request) :
  no_by_tags trace → (∀ tagIds mode, req ≠ ReqByTags tagIds mode) →
  no_by_tags (trace ++ [req]).
Proof.
  intros Htrace Hreq tagIds mode Hin.
  apply elem_of_app in Hin as [Hin|Hin]; [by eapply Htrace|].
  apply list_elem_of_singleton in Hin. by eapply Hreq.
Qed.

Section no_filter.
Context (env : Env) (p : Props) (s0 : ListState).

Ltac nbt_leaf :=
  unfold trace_no_by_tags, suspend, upd in *; simpl in *;
  repeat (apply no_by_tags_snoc; [|by intros ? ?]);
  try done.

Lemma load_search_no_by_tags (query : string) (l : LoadSt) :
  trace_no_by_tags l →
  wp (load_search env p s0 query) (λ _, trace_no_by_tags) trace_no_by_tags l.
Proof. intros H. unfold load_search, reset_paging. wp_run; nbt_leaf. Qed.

Lemma load_legacy_tag_no_by_tags (name : string) (l : LoadSt) :
  trace_no_by_tags l →
  wp (load_legacy_tag env p s0 name) (λ _, trace_no_by_tags) trace_no_by_tags l.
Proof. intros H. unfold load_legacy_tag, reset_paging. wp_run; nbt_leaf. Qed.

Lemma load_paged_no_by_tags (l : LoadSt) :
  trace_no_by_tags l →
  wp (load_paged env p s0) (λ _, trace_no_by_tags) trace_no_by_tags l.
Proof. intros H. unfold load_paged. wp_run; nbt_leaf. Qed.

Lemma load_details_no_by_tags (messageIds : list string) (l : LoadSt) :
  trace_no_by_tags l →
  wp (load_details env p s0 messageIds) (λ _, trace_no_by_tags)
     trace_no_by_tags l.
Proof. intros H. unfold load_details. wp_run; nbt_leaf. Qed.

Lemma load_commit_no_by_tags merged (l : LoadSt) :
  trace_no_by_tags l →
  wp (load_commit p s0 merged) (λ _, trace_no_by_tags) trace_no_by_tags l.
Proof.
  intros H. unfold load_commit. destruct merged as [res cache].
  wp_run; nbt_leaf.
Qed.

Lemma load_try_no_by_tags (l : LoadSt) :
  isNewTagFilterView p = false →
  trace_no_by_tags l →
  wp (load_try env p s0) (λ _, trace_no_by_tags) trace_no_by_tags l.
Proof.
  intros Hnew Hl. unfold load_try.
  apply wp_bind, wp_read. apply wp_bind.
  assert (∀ l', trace_no_by_tags l' →
            wp (view ← load_view env p s0;
                merged ← load_common env p s0 view;
                load_commit p s0 merged)
               (λ _, trace_no_by_tags) trace_no_by_tags l') as Hrest.
  { intros l' Hl'. apply wp_bind. unfold load_view. rewrite Hnew.
    assert (wp (if isSearchView p
                then load_search env p s0 (default "" (searchQuery p))
                else if isTagView p
                     then load_legacy_tag env p s0 (default "" (activeFilterName p))
                     else load_paged env p s0)
               (λ _, trace_no_by_tags) trace_no_by_tags l') as Hview.
    { destruct (isSearchView p); [by apply load_search_no_by_tags|].
      destruct (isTagView p); [by apply load_legacy_tag_no_by_tags|].
      by apply load_paged_no_by_tags. }
    eapply wp_mono; [| |exact Hview]; [|done].
    intros view l1 H1. simpl. apply wp_bind. unfold load_common.
    destruct view as [[messageIds res] cache]. rewrite Hnew. simpl.
    destruct (bool_decide (messageIds ≠ [])).
    - eapply wp_mono; [| |by apply load_details_no_by_tags]; [|done].
      intros merged l2 H2. simpl. by apply load_commit_no_by_tags.
    - apply wp_ret. by apply load_commit_no_by_tags. }
  match goal with |- context [when ?b _] => destruct b end; unfold when.
  - wp_step. wp_step. wp_step. by apply Hrest.
  - wp_step. by apply Hrest.
Qed.

Lemma effect_no_by_tags :
  isNewTagFilterView p = false → no_by_tags (effect env p s0).2.
Proof.
  intros Hnew. unfold effect.
  destruct (negb (isAuthenticated p) || negb (truthy_opt (user_id_of p))).
  { simpl. intros ids m Hin. by apply elem_of_nil in Hin. }
  simpl. unfold loadData.
  destruct (truthy_opt (param_threadId p)).
  { simpl. intros ids m Hin. by apply elem_of_nil in Hin. }
  assert (trace_no_by_tags (upd (setError None)
            (upd (setIsLoading true) (mkLoadSt s0 [] 0 false)))) as H0.
  { intros ids m Hin. by apply elem_of_nil in Hin. }
  pose proof (load_try_no_by_tags _ Hnew H0) as Hwp. unfold wp in Hwp.
  destruct (runLoad _ _) as [a l'|l'|msg l'].
  - by destruct (ls_aborted l').
  - by destruct (ls_aborted l').
  - by destruct (ls_aborted (upd _ _)).
Qed.
End no_filter.

Lemma matchesSearch_empty (card : TimelineCard) : matchesSearch "" card = true.
Proof. done. Qed.

(** C2, as amended. With an empty tag selection the project-card filter
    applies the text search only, so with an empty search term it returns
    the card list unchanged; the by-tags readers of emails and of calendar
    events return the empty list; and the email list view, when its [tags]
    parameter is absent or empty, does not call the by-tags reader at all. *)
Theorem empty_selection_behaviour
    (cards : list TimelineCard) (term : string) (mode : FilterMode)
    (uid : string) (st : Store) (o oc : Outcome) (sess : Session)
    (remote : string → Fetched GmailFullMessage)
    (resp : Fetched (option (list GoogleCalendarEvent)))
    (env : Env) (p : Props) (s0 : ListState) :
  truthy_opt (param_tags p) = false →
  filteredCardsForDisplay cards term [] mode
  = List.filter (matchesSearch term) cards
  ∧ filteredCardsForDisplay cards "" [] mode = cards
  ∧ fetchEmailsByTags (Some uid) st o sess remote [] mode = Ok []
  ∧ fetchCalendarEventsByTags (Some uid) sess resp st oc [] mode = Ok []
  ∧ no_by_tags (effect env p s0).2.
Proof.
  intros Htags.
  assert (∀ t, filteredCardsForDisplay cards t [] mode
               = List.filter (matchesSearch t) cards) as Hfilter.
  { intros t. unfold filteredCardsForDisplay.
    induction cards as [|card cs IH]; simpl; [done|].
    unfold card_passes at 1. simpl.
    destruct (matchesSearch t card); simpl; by rewrite IH. }
  split; [by apply Hfilter|]. split.
  { rewrite Hfilter. apply bfilter_all. intros card _. apply matchesSearch_empty. }
  split; [done|]. split; [done|].
  by apply effect_no_by_tags.
Qed.

Lemma empty_selection_behaviour_witness :
  truthy_opt (param_tags paged_props) = false
  ∧ filteredCardsForDisplay
      [mkTimelineCard "c1" "u" "Launch" None "2025-01-01" None "d0" [t1]]
      "" [] ModeAll
    = [mkTimelineCard "c1" "u" "Launch" None "2025-01-01" None "d0" [t1]].
Proof.
  split; [reflexivity|].
  apply (empty_selection_behaviour
           [mkTimelineCard "c1" "u" "Launch" None "2025-01-01" None "d0" [t1]]
           "" ModeAll "u" example_store Succeeds Succeeds
           (SessionWith (Some "tok")) no_detail example_calendar_answer
           example_env paged_props initial_state).
  reflexivity.
Defined.

(** ** C7: the credential-expired error *)

Lemma auth_status_not_ok {A} (r : Response A) :
  is_auth_status (status r) = true → ok r = false.
Proof.
  unfold is_auth_status, ok. intros H.
  apply orb_true_iff in H as [H|H]; apply Z.eqb_eq in H; by rewrite H.
Qed.

Lemma auth_status_not_204 {A} (r : Response A) :
  is_auth_status (status r) = true → (status r =? 204)%Z = false.
Proof.
  unfold is_auth_status. intros H.
  apply orb_true_iff in H as [H|H]; apply Z.eqb_eq in H; by rewrite H.
Qed.

(** C7, counterexample. A 401 answer to [markMessageAsRead] comes back as
    [false], one to [fetchRecentCalendarActivity] as the empty list, and one
    to a detail request of [fetchFullEmailDetails] as a missing item: none of
    the three callers sees the credential-expired error. *)
Lemma auth_status_absorbed :
  markMessageAsRead (SessionWith (Some "tok")) "m1" (unauthorized tt) = Ok false
  ∧ fetchRecentCalendarActivity example_clock id (SessionWith (Some "tok"))
      (unauthorized None) = Ok []
  ∧ fetchFullEmailDetails (SessionWith (Some "tok"))
      (λ id, unauthorized (example_message id)) ["A"] = Ok [].
Proof. repeat split. Qed.

(** C7, as amended. With a usable session, a 401 or 403 answer is turned
    into the error "Google API token expired" and thrown to the caller by
    the list, search, thread, send and calendar read/write endpoints;
    [markEmailStarred] and [markMessageAsRead] return [false] instead,
    [fetchRecentCalendarActivity] returns the empty list, and
    [fetchFullEmailDetails] does not throw. *)
Theorem credential_expiry_mapping
    (st : Z) (sess : Session) (tok : option string)
    (query uid messageId : string) :
  is_auth_status st = true →
  getAccessToken sess = Ok tok →
  truthy query = true → truthy uid = true → truthy messageId = true →
  (∀ r, status r = st →
        fetchEmailMetadataPage sess (Responded r) = Throw token_expired)
  ∧ (∀ r, status r = st →
          fetchImportantEmailMetadataPage sess (Responded r) = Throw token_expired)
  ∧ (∀ r, status r = st →
          searchGmailMessages sess query (Responded r) = Throw token_expired)
  ∧ (∀ (sortMessages : list GmailFullMessage → list GmailFullMessage) r,
        status r = st →
        fetchEmailThread sortMessages sess (Responded r) = Throw token_expired)
  ∧ (∀ (r : Response GmailFullMessage) full, status r = st →
        sendReply sess (Responded r) full = Throw token_expired)
  ∧ (∀ r, status r = st →
          sendNewGmailMessage sess (Responded r) = Throw token_expired)
  ∧ (∀ r store o, status r = st →
        fetchCalendarEvents sess (Responded r) store o uid = Throw token_expired)
  ∧ (∀ r, status r = st →
          createCalendarEvent sess (Responded r) = Throw token_expired)
  ∧ (∀ r, status r = st →
          updateCalendarEvent sess (Responded r) = Throw token_expired)
  ∧ (∀ r, status r = st →
          deleteCalendarEvent sess (Responded r) = Throw token_expired)
  ∧ (∀ r b, status r = st → markEmailStarred sess (Responded r) b = Ok false)
  ∧ (∀ r, status r = st →
          markMessageAsRead sess messageId (Responded r) = Ok false)
  ∧ (∀ c sortDesc r, status r = st →
        fetchRecentCalendarActivity c sortDesc sess (Responded r) = Ok [])
  ∧ (∀ remote ids, ∃ out, fetchFullEmailDetails sess remote ids = Ok out).
Proof.
  intros Hst Htok Hq Hu Hm.
  repeat split; intros;
    try (match goal with
         | H : status ?r = st |- _ =>
             assert (is_auth_status (status r) = true) as Hauth
               by (by rewrite H);
             pose proof (auth_status_not_ok r Hauth) as Hnok;
             pose proof (auth_status_not_204 r Hauth) as Hn204
         end).
  all: unfold fetchEmailMetadataPage, fetchImportantEmailMetadataPage,
         searchGmailMessages, fetchEmailThread, sendReply, sendNewGmailMessage,
         fetchCalendarEvents, createCalendarEvent, updateCalendarEvent,
         deleteCalendarEvent, markEmailStarred, markMessageAsRead,
         fetchRecentCalendarActivity, fetchFullEmailDetails.
  all: rewrite Htok; simpl; rewrite ?Hq, ?Hu, ?Hm; simpl.
  all: try (match goal with
            | H : ok ?r = false |- _ => rewrite H
            end; simpl;
            match goal with
            | H : is_auth_status (status ?r) = true |- _ => rewrite H
            end; done).
  - by rewrite Hnok, Hn204, Hauth.
  - destruct (bool_decide (ids = [])); eauto.
Qed.

Lemma credential_expiry_mapping_witness :
  is_auth_status 403 = true
  ∧ getAccessToken (SessionWith (Some "tok")) = Ok (Some "tok")
  ∧ truthy "invoice" = true ∧ truthy "u" = true ∧ truthy "m1" = true
  ∧ ∀ r : Response MessageList,
      status r = 403%Z →
      fetchEmailMetadataPage (SessionWith (Some "tok")) (Responded r)
      = Throw token_expired.
Proof.
  split; [reflexivity|]. split; [reflexivity|]. split; [reflexivity|].
  split; [reflexivity|]. split; [reflexivity|].
  apply (credential_expiry_mapping 403 (SessionWith (Some "tok")) (Some "tok")
           "invoice" "u" "m1"); reflexivity.
Defined.

(** ** C8: the classification of calendar activity *)

(** C8, counterexample. An event that is not cancelled and carries no
    [updated] timestamp is skipped, not classified as an update; a cancelled
    one is stamped with the current time. *)
Lemma activity_without_updated :
  timelineEvent_of example_clock
    (example_activity (Some "confirmed") (Some "2025-03-01T09:00:00.000Z") None)
  = None
  ∧ classify example_clock
      (example_activity (Some "cancelled") (Some "2025-03-01T09:00:00.000Z") None)
    = Some (CALENDAR_EVENT_DELETED, "2025-03-01T12:00:00.000Z").
Proof. split; reflexivity. Qed.

(** C8, as amended. For an event that carries a non-empty [updated]
    timestamp: cancelled, it is a deletion stamped at [updated]; otherwise,
    if it carries a non-empty [created], both timestamps parse and
    [updated − created] is below 5000 ms, it is a creation stamped at
    [created]; otherwise it is an update stamped at [updated]. For an event
    without [updated] (absent or empty): cancelled, it is a deletion stamped
    with the current time; otherwise it is skipped. Whatever the event, the
    activity built from it carries the type and the timestamp of the
    classification and the id of the event. *)
Theorem calendar_activity_classification
    (c : Clock) (event : GoogleCalendarEvent) :
  (∀ updated,
     ev_updated event = Some updated → truthy updated = true →
     (ev_status event = Some "cancelled" →
      classify c event = Some (CALENDAR_EVENT_DELETED, updated))
     ∧ (ev_status event ≠ Some "cancelled" →
        ∀ created u t,
          ev_created event = Some created → truthy created = true →
          getTime c updated = Some u → getTime c created = Some t →
          (u - t < 5000)%Z →
          classify c event = Some (CALENDAR_EVENT_CREATED, created))
     ∧ (ev_status event ≠ Some "cancelled" →
        (truthy_opt (ev_created event) = false
         ∨ getTime c updated = None
         ∨ getTime c (default "" (ev_created event)) = None
         ∨ ∃ u t, getTime c updated = Some u
                  ∧ getTime c (default "" (ev_created event)) = Some t
                  ∧ (5000 ≤ u - t)%Z) →
        classify c event = Some (CALENDAR_EVENT_UPDATED, updated)))
  ∧ (truthy_opt (ev_updated event) = false →
     (ev_status event = Some "cancelled" →
      classify c event = Some (CALENDAR_EVENT_DELETED, now c))
     ∧ (ev_status event ≠ Some "cancelled" →
        classify c event = None ∧ timelineEvent_of c event = None))
  ∧ (∀ te, timelineEvent_of c event = Some te →
           classify c event = Some (te_type te, te_timestamp te)
           ∧ te_eventId te = ev_id event).
Proof.
  split; [|split].
  - intros updated Hup Htruthy. unfold classify. rewrite Hup. simpl.
    rewrite Htruthy. split; [|split].
    + intros Hst. by rewrite bool_decide_eq_true_2.
    + intros Hst created u t Hcr Hct Hu Ht Hlt.
      rewrite bool_decide_eq_false_2 by done.
      rewrite Hcr. simpl. rewrite Hct. simpl.
      unfold created_just_now. rewrite Hu, Ht.
      by rewrite (proj2 (Z.ltb_lt _ _) Hlt).
    + intros Hst Hfar. rewrite bool_decide_eq_false_2 by done.
      destruct (truthy_opt (ev_created event)) eqn:Hcr; simpl; [|done].
      unfold created_just_now.
      destruct Hfar as [?|[->|[->|(u & t & -> & -> & Hge)]]]; try done.
      * by destruct (getTime c updated).
      * by rewrite (proj2 (Z.ltb_ge _ _) Hge).
  - intros Hno. unfold timelineEvent_of, classify. rewrite Hno. split.
    + intros Hst. by rewrite bool_decide_eq_true_2.
    + intros Hst. rewrite bool_decide_eq_false_2 by done.
      by rewrite andb_false_r.
  - intros te Hte. unfold timelineEvent_of in Hte.
    destruct (classify c event) as [[eventType timestamp]|]; [|done].
    by injection Hte as <-.
Qed.

Lemma calendar_activity_classification_witness :
  classify example_clock
    (example_activity None (Some "2025-03-01T09:00:00.000Z")
                      (Some "2025-03-01T09:00:02.000Z"))
  = Some (CALENDAR_EVENT_CREATED, "2025-03-01T09:00:00.000Z")
  ∧ classify example_clock
      (example_activity (Some "cancelled") (Some "2025-03-01T09:00:00.000Z") None)
    = Some (CALENDAR_EVENT_DELETED, "2025-03-01T12:00:00.000Z")
  ∧ timelineEvent_of example_clock
      (example_activity (Some "confirmed") (Some "2025-03-01T09:00:00.000Z")
                        (Some ""))
    = None.
Proof.
  split; [|split].
  - destruct (calendar_activity_classification example_clock
                (example_activity None (Some "2025-03-01T09:00:00.000Z")
                                  (Some "2025-03-01T09:00:02.000Z")))
      as (Hwith & _ & _).
    destruct (Hwith "2025-03-01T09:00:02.000Z" eq_refl eq_refl)
      as (_ & Hcreated & _).
    apply (Hcreated ltac:(done) "2025-03-01T09:00:00.000Z"
             1740819602000%Z 1740819600000%Z); reflexivity.
  - destruct (calendar_activity_classification example_clock
                (example_activity (Some "cancelled")
                                  (Some "2025-03-01T09:00:00.000Z") None))
      as (_ & Hwithout & _).
    destruct (Hwithout eq_refl) as (Hcancelled & _). by apply Hcancelled.
  - destruct (calendar_activity_classification example_clock
                (example_activity (Some "confirmed")
                                  (Some "2025-03-01T09:00:00.000Z") (Some "")))
      as (_ & Hwithout & _).
    destruct (Hwithout eq_refl) as (_ & Hskipped).
    apply Hskipped. discriminate.
Defined.

(** The scenario of the specification: created at T and updated at T + 2 s
    is a creation at T; the same event updated at T + 10 min is an update at
    T + 10 min. *)
Example activity_scenario :
  classify example_clock
    (example_activity (Some "confirmed") (Some "2025-03-01T09:00:00.000Z")
                      (Some "2025-03-01T09:00:02.000Z"))
  = Some (CALENDAR_EVENT_CREATED, "2025-03-01T09:00:00.000Z")
  ∧ classify example_clock
      (example_activity (Some "confirmed") (Some "2025-03-01T09:00:00.000Z")
                        (Some "2025-03-01T09:10:00.000Z"))
    = Some (CALENDAR_EVENT_UPDATED, "2025-03-01T09:10:00.000Z").
Proof. split; reflexivity. Qed.

(** ** C9: failures on the write paths *)


(** ** C10: the audit log of tag removals *)

Lemma delete_email_tag_removes (userId emailId tagId : string) (st : Store)
    (row : EmailTagRow) :
  row ∈ email_tags (delete_email_tag userId emailId tagId st)
  ↔ row ∈ email_tags st
    ∧ ¬ (et_email_id row = emailId ∧ et_tag_id row = tagId
         ∧ et_user_id row = userId).
Proof.
  unfold delete_email_tag. simpl. rewrite list_elem_of_filter. tauto.
Qed.

(** C10. When the three identifiers are given and the deletion of the
    association row succeeds, [removeTagFromEmail] returns [true] whatever
    the insert into the removal log does, the association is gone from
    [email_tags] and the other associations are kept; when the log insert
    does not succeed the store is exactly the store after the deletion. *)
Theorem removeTagFromEmail_log_is_best_effort
    (st : Store) (logOutcome : Outcome) (dbNow userId emailId tagId : string) :
  truthy userId = true → truthy emailId = true → truthy tagId = true →
  (removeTagFromEmail st Succeeds logOutcome dbNow userId emailId tagId).1 = true
  ∧ (∀ row,
       row ∈ email_tags
               (removeTagFromEmail st Succeeds logOutcome dbNow userId emailId
                                   tagId).2
       ↔ row ∈ email_tags st
         ∧ ¬ (et_email_id row = emailId ∧ et_tag_id row = tagId
              ∧ et_user_id row = userId))
  ∧ (logOutcome ≠ Succeeds →
     (removeTagFromEmail st Succeeds logOutcome dbNow userId emailId tagId).2
     = delete_email_tag userId emailId tagId st).
Proof.
  intros Hu He Ht. unfold removeTagFromEmail. rewrite Hu, He, Ht. simpl.
  split; [by destruct logOutcome|]. split.
  - intros row. rewrite <- delete_email_tag_removes.
    by destruct logOutcome.
  - intros Hlog. by destruct logOutcome.
Qed.

Lemma removeTagFromEmail_log_is_best_effort_witness :
  truthy "u" = true ∧ truthy "A" = true ∧ truthy "t1" = true
  ∧ (removeTagFromEmail tagged_event_store Succeeds (Fails "log table missing")
       "2025-03-01" "u" "A" "t1").1 = true.
Proof.
  split; [reflexivity|]. split; [reflexivity|]. split; [reflexivity|].
  apply (removeTagFromEmail_log_is_best_effort tagged_event_store
           (Fails "log table missing") "2025-03-01" "u" "A" "t1"); reflexivity.
Defined.

Example removeTagFromEmail_failed_log :
  removeTagFromEmail tagged_event_store Succeeds (Fails "log table missing")
    "2025-03-01" "u" "A" "t1"
  = (true, with_email_tags [] tagged_event_store).
Proof. reflexivity. Qed.

(* ===================================================================== *)
(** * Part III: further properties                                        *)
(* ===================================================================== *)

(** ** Paging forward and back *)

Lemma requested_page_or_empty (v : jsval) :
  requested_page (Str (pageToken_or_empty v)) = requested_page v.
Proof. by destruct v. Qed.

Lemma last_snoc' {A} (l : list A) (x : A) : last (l ++ [x]) = Some x.
Proof. induction l as [|y [|z l] IH]; simpl in *; done. Qed.

Lemma removelast_snoc {A} (l : list A) (x : A) : removelast (l ++ [x]) = l.
Proof. by rewrite removelast_app, app_nil_r. Qed.

Lemma goToPrevPage_goToNextPage (s : ListState) :
  truthy_opt (nextPageToken s) = true →
  goToPrevPage (goToNextPage s)
  = setPageToken (Str (pageToken_or_empty (pageToken s))) s.
Proof.
  intros Hnext. unfold goToNextPage, goToPrevPage. rewrite Hnext. simpl.
  rewrite last_snoc'. simpl. rewrite removelast_snoc.
  by destruct s.
Qed.

Section paging.
Context (env : Env) (p : Props) (s0 : ListState).

Ltac pk_leaf :=
  unfold Paging, suspend, upd in *; simpl in *; intuition done.

Ltac first_leaf :=
  unfold starts_with, suspend, upd in *; simpl in *;
  try match goal with H : ∃ _, _ |- _ => destruct H as [? ->] end;
  simpl; eauto.

Lemma load_paged_paging (l : LoadSt) :
  Paging s0 l → wp (load_paged env p s0) (λ _, Paging s0) (Paging s0) l.
Proof. intros H. unfold load_paged. wp_run; pk_leaf. Qed.

Lemma load_details_paging (messageIds : list string) (l : LoadSt) :
  Paging s0 l →
  wp (load_details env p s0 messageIds) (λ _, Paging s0) (Paging s0) l.
Proof. intros H. unfold load_details. wp_run; pk_leaf. Qed.

Lemma load_commit_paging merged (l : LoadSt) :
  Paging s0 l → wp (load_commit p s0 merged) (λ _, Paging s0) (Paging s0) l.
Proof.
  intros H. unfold load_commit. destruct merged as [res cache].
  wp_run; pk_leaf.
Qed.

Lemma load_rest_paging (l : LoadSt) :
  paged_view p = true → Paging s0 l →
  wp (view ← load_view env p s0;
      merged ← load_common env p s0 view;
      load_commit p s0 merged) (λ _, Paging s0) (Paging s0) l.
Proof.
  intros Hview Hl. apply wp_bind. unfold load_view.
  unfold paged_view in Hview.
  destruct (isNewTagFilterView p) eqn:Hnew; [done|].
  destruct (isSearchView p); [done|].
  destruct (isTagView p); [done|].
  eapply wp_mono; [| |by apply load_paged_paging]; [|done].
  intros view l1 H1. simpl. apply wp_bind. unfold load_common.
  destruct view as [[messageIds res] cache]. rewrite Hnew. simpl.
  destruct (bool_decide (messageIds ≠ [])).
  - eapply wp_mono; [| |by apply load_details_paging]; [|done].
    intros merged l2 H2. simpl. by apply load_commit_paging.
  - apply wp_ret. by apply load_commit_paging.
Qed.

(** In the paginated view, a load started by a change of page keeps the page
    token, the stack of prior cursors and the tab. *)
Lemma effect_paging :
  loads p = true → paged_view p = true →
  pageToken s0 ≠ pageTokenRef s0 → pageToken s0 ≠ Undefined →
  pageToken (effect env p s0).1 = pageToken s0
  ∧ prevPageTokens (effect env p s0).1 = prevPageTokens s0
  ∧ activeTab (effect env p s0).1 = activeTab s0.
Proof.
  unfold loads. intros Hloads Hview Href Hundef.
  apply andb_prop in Hloads as [Hloads Hthread].
  apply andb_prop in Hloads as [Hauth Huid].
  apply negb_true_iff in Hthread.
  unfold effect. rewrite Hauth, Huid. simpl.
  unfold loadData. rewrite Hthread.
  set (l1 := upd (setError None) (upd (setIsLoading true) (mkLoadSt s0 [] 0 false))).
  assert (Paging s0 l1) as H1 by done.
  assert (wp (load_try env p s0) (λ _, Paging s0) (Paging s0) l1) as Hwp.
  { unfold load_try. apply wp_bind, wp_read. apply wp_bind.
    assert (pageTokenRef (ls_state l1) = pageTokenRef s0) as -> by done.
    rewrite !bool_decide_eq_true_2 by done. simpl. unfold when.
    apply wp_ret. by apply load_rest_paging. }
  unfold wp in Hwp.
  destruct (runLoad _ _) as [a l'|l'|msg l'].
  - destruct (ls_aborted l'); pk_leaf.
  - destruct (ls_aborted l'); pk_leaf.
  - assert (Paging s0 (upd (load_catch msg) l')) as H2.
    { unfold load_catch. destruct (String.eqb msg token_expired); pk_leaf. }
    destruct (ls_aborted _); [pk_leaf|]. revert H2. clear. pk_leaf.
Qed.

Lemma load_paged_request (l : LoadSt) :
  ls_trace l = [] →
  wp (load_paged env p s0) (λ _, starts_with (page_request s0))
     (starts_with (page_request s0)) l.
Proof.
  intros Htr. unfold load_paged, page_request.
  wp_run; unfold starts_with, suspend, upd; simpl; rewrite Htr; simpl; eauto.
Qed.

(** The first request of a load of the paginated view asks for the page the
    state is on. *)
Lemma effect_page_request :
  loads p = true → paged_view p = true →
  ∃ rest, (effect env p s0).2 = page_request s0 :: rest.
Proof.
  unfold loads. intros Hloads Hview.
  apply andb_prop in Hloads as [Hloads Hthread].
  apply andb_prop in Hloads as [Hauth Huid].
  apply negb_true_iff in Hthread.
  unfold effect. rewrite Hauth, Huid. simpl.
  unfold loadData. rewrite Hthread.
  set (l1 := upd (setError None) (upd (setIsLoading true) (mkLoadSt s0 [] 0 false))).
  assert (wp (load_try env p s0) (λ _, starts_with (page_request s0))
             (starts_with (page_request s0)) l1) as Hwp.
  { unfold load_try. apply wp_bind, wp_read. apply wp_bind.
    assert (∀ l', ls_trace l' = [] →
              wp (view ← load_view env p s0;
                  merged ← load_common env p s0 view;
                  load_commit p s0 merged)
                 (λ _, starts_with (page_request s0))
                 (starts_with (page_request s0)) l') as Hrest.
    { intros l' Hl'. apply wp_bind. unfold load_view.
      unfold paged_view in Hview.
      destruct (isNewTagFilterView p) eqn:Hnew; [done|].
      destruct (isSearchView p); [done|].
      destruct (isTagView p); [done|].
      eapply wp_mono; [| |by apply load_paged_request]; [|done].
      intros view l2 H2. simpl. apply wp_bind. unfold load_common.
      destruct view as [[messageIds res] cache]. rewrite Hnew. simpl.
      destruct (bool_decide (messageIds ≠ [])).
      - eapply wp_mono; [| |by apply load_details_first]; [|done].
        intros merged l3 H3. simpl. by apply load_commit_first.
      - apply wp_ret. by apply load_commit_first. }
    match goal with |- context [when ?b _] => destruct b end; unfold when.
    - wp_step. wp_step. wp_step. by apply Hrest.
    - wp_step. by apply Hrest. }
  unfold wp in Hwp.
  destruct (runLoad _ _) as [a l'|l'|msg l'].
  - destruct (ls_aborted l'); first_leaf.
  - destruct (ls_aborted l'); first_leaf.
  - destruct (ls_aborted (upd _ _)); first_leaf.
Qed.
End paging.

(** X1. Paging forward and then back shows the page the user came from: in
    the paginated view, after "Next" (to a token other than the current
    one), the load it starts, and "Previous", the stack of prior cursors is
    what it was and the next load first asks the mail service for the page
    that was shown before "Next". *)
Theorem paging_back_returns_to_page (env env' : Env) (p : Props) (s : ListState) :
  loads p = true → paged_view p = true →
  truthy_opt (nextPageToken s) = true →
  pageTokenRef s = pageToken s →
  Str (default "" (nextPageToken s)) ≠ pageToken s →
  let s1 := (effect env p (goToNextPage s)).1 in
  let s2 := goToPrevPage s1 in
  prevPageTokens s2 = prevPageTokens s
  ∧ ∃ rest, (effect env' p s2).2 = page_request s :: rest.
Proof.
  intros Hloads Hview Hnext Href Hnew s1 s2.
  assert (pageToken (goToNextPage s) = Str (default "" (nextPageToken s))
          ∧ prevPageTokens (goToNextPage s)
            = prevPageTokens s ++ [pageToken_or_empty (pageToken s)]
          ∧ pageTokenRef (goToNextPage s) = pageTokenRef s
          ∧ activeTab (goToNextPage s) = activeTab s) as (Hn1 & Hn2 & Hn3 & Hn4).
  { unfold goToNextPage. by rewrite Hnext. }
  destruct (effect_paging env p (goToNextPage s) Hloads Hview) as (H1 & H2 & H3).
  { rewrite Hn1, Hn3, Href. done. }
  { by rewrite Hn1. }
  fold s1 in H1, H2, H3.
  assert (prevPageTokens s2 = prevPageTokens s
          ∧ pageToken s2 = Str (pageToken_or_empty (pageToken s))
          ∧ activeTab s2 = activeTab s) as (Hp & Ht & Ha).
  { subst s2. unfold goToPrevPage. rewrite H2, Hn2, last_snoc'. simpl.
    rewrite removelast_snoc. by rewrite H3, Hn4. }
  split; [done|].
  destruct (effect_page_request env' p s2 Hloads Hview) as [rest Hrest].
  exists rest. rewrite Hrest. f_equal. unfold page_request.
  by rewrite Ha, Ht, requested_page_or_empty.
Qed.

Lemma paging_back_returns_to_page_witness :
  let s := (effect example_env paged_props initial_state).1 in
  (loads paged_props = true ∧ paged_view paged_props = true
   ∧ truthy_opt (nextPageToken s) = true
   ∧ pageTokenRef s = pageToken s
   ∧ Str (default "" (nextPageToken s)) ≠ pageToken s)
  ∧ prevPageTokens
      (goToPrevPage (effect example_env paged_props (goToNextPage s)).1)
    = prevPageTokens s.
Proof.
  intros s. split; [by vm_compute|].
  apply (paging_back_returns_to_page example_env example_env paged_props s);
    by vm_compute.
Defined.

(** ** The selection of the list *)

Lemma filter_neq_length (id : string) (l : list string) :
  id ∈ l →
  length (List.filter (λ emailId, negb (String.eqb emailId id)) l) < length l.
Proof.
  induction l as [|x l IH]; intros Hin; [by apply elem_of_nil in Hin|].
  simpl. destruct (String.eqb x id) eqn:Hx; simpl.
  - pose proof (filter_length_le (λ emailId, negb (String.eqb emailId id)) l). lia.
  - apply elem_of_cons in Hin as [->|Hin].
    + by rewrite String.eqb_refl in Hx.
    + apply IH in Hin. lia.
Qed.

(** X2. Ticking the box of an email toggles that email and no other: it is
    selected afterwards iff it was not before, every other identifier is
    selected afterwards iff it was before, and a selection without
    repetition stays without repetition. *)
Theorem toggleEmailSelection_toggles_one (id : string) (s : ListState) :
  let s' := toggleEmailSelection id s in
  (id ∈ selectedEmails s' ↔ id ∉ selectedEmails s)
  ∧ (∀ other, other ≠ id →
       (other ∈ selectedEmails s' ↔ other ∈ selectedEmails s))
  ∧ (NoDup (selectedEmails s) → NoDup (selectedEmails s')).
Proof.
  unfold toggleEmailSelection. simpl. case_bool_decide as Hin.
  - split; [|split].
    + rewrite elem_of_bfilter, String.eqb_refl. simpl. intuition done.
    + intros other Hne. rewrite elem_of_bfilter.
      apply String.eqb_neq in Hne. rewrite Hne. simpl. tauto.
    + intros Hnd. apply NoDup_ListNoDup, List.NoDup_filter. by apply NoDup_ListNoDup.
  - split; [|split].
    + rewrite elem_of_app, list_elem_of_singleton. tauto.
    + intros other Hne. rewrite elem_of_app, list_elem_of_singleton. tauto.
    + intros Hnd. apply NoDup_app. split; [done|]. split.
      * intros x Hx Hx'. apply list_elem_of_singleton in Hx' as ->. done.
      * apply NoDup_singleton.
Qed.

(** X3. When the active tab shows at least one email, "Select all" selects
    exactly the emails of that tab and the box stays ticked once the effect
    that follows the selection has run; unticking any one of the selected
    emails afterwards unticks "Select all". *)
Theorem select_all_then_untick (s : ListState) (id : string) :
  id ∈ map ei_id (filteredEmails s) →
  let s1 := syncSelectAll (handleSelectAll true s) in
  selectedEmails s1 = map ei_id (filteredEmails s)
  ∧ selectAll s1 = true
  ∧ selectAll (syncSelectAll (toggleEmailSelection id s1)) = false.
Proof.
  intros Hin.
  assert (filteredEmails (handleSelectAll true s) = filteredEmails s) as Hf by done.
  assert (selectedEmails (handleSelectAll true s) = map ei_id (filteredEmails s))
    as Hs by done.
  assert (filteredEmails s ≠ []) as Hne.
  { intros Hnil. rewrite Hnil in Hin. by apply elem_of_nil in Hin. }
  assert (syncSelectAll (handleSelectAll true s)
          = setSelectAll true (handleSelectAll true s)) as Hsync.
  { unfold syncSelectAll. rewrite Hf, Hs, length_map.
    by rewrite !bool_decide_eq_true_2. }
  cbv zeta. rewrite Hsync. split; [done|]. split; [done|].
  unfold syncSelectAll.
  assert (filteredEmails (toggleEmailSelection id
            (setSelectAll true (handleSelectAll true s))) = filteredEmails s)
    as -> by done.
  unfold toggleEmailSelection. simpl.
  rewrite (bool_decide_eq_true_2 (filteredEmails s ≠ [])) by done.
  rewrite (bool_decide_eq_true_2 (id ∈ _)) by done.
  pose proof (filter_neq_length id _ Hin) as Hlt. rewrite length_map in Hlt.
  match goal with |- context [bool_decide (length ?a = ?b)] =>
    rewrite (bool_decide_eq_false_2 (length a = b)) by lia end.
  by rewrite andb_false_r.
Qed.

Lemma select_all_then_untick_witness :
  let s := (effect example_env paged_props initial_state).1 in
  "B" ∈ map ei_id (filteredEmails s)
  ∧ selectedEmails (syncSelectAll (handleSelectAll true s)) = ["A"; "B"; "C"]
  ∧ selectAll (syncSelectAll (handleSelectAll true s)) = true
  ∧ selectAll (syncSelectAll (toggleEmailSelection "B"
                 (syncSelectAll (handleSelectAll true s)))) = false.
Proof.
  intros s.
  assert ("B" ∈ map ei_id (filteredEmails s)) as Hin.
  { vm_compute. apply list_elem_of_In. simpl. tauto. }
  split; [exact Hin|].
  pose proof (select_all_then_untick s "B" Hin) as (H1 & H2 & H3).
  split; [|split; [exact H2|exact H3]].
  rewrite H1. by vm_compute.
Defined.

(** ** Adding and removing the tag of an email *)

Lemma email_rows_snoc (uid eid : string) (rows : list EmailTagRow)
    (row : EmailTagRow) :
  filter (λ et, et_email_id et = eid ∧ et_user_id et = uid) (rows ++ [row])
  = filter (λ et, et_email_id et = eid ∧ et_user_id et = uid) rows
    ++ (if decide (et_email_id row = eid ∧ et_user_id row = uid)
        then [row] else []).
Proof.
  by rewrite filter_app.
Qed.

Lemma filter_absent_key (uid eid tid : string) (rows : list EmailTagRow) :
  (∀ row, row ∈ rows →
     ¬ (et_email_id row = eid ∧ et_tag_id row = tid ∧ et_user_id row = uid)) →
  filter (λ r, ¬ (et_email_id r = eid ∧ et_tag_id r = tid ∧ et_user_id r = uid))
         rows = rows.
Proof.
  intros Habs. induction rows as [|r rows IH]; [done|].
  rewrite filter_cons. case_decide as Hr.
  - f_equal. apply IH. intros row Hrow. apply Habs. by right.
  - exfalso. eapply Habs; [by left|exact Hr].
Qed.

(** The store once [addTagToEmail] has gone through, when the lookup finds at
    most one row for the email. *)
Lemma addTagToEmail_succeeds (st : Store) (dbNow uid eid tid : string) :
  truthy uid = true → truthy eid = true → truthy tid = true →
  (length (filter (λ e, er_email_id e = eid ∧ er_user_id e = uid) (emails st))
   ≤ 1)%nat →
  ∃ rows,
    addTagToEmail st Succeeds Succeeds Succeeds dbNow uid eid tid
    = (true,
       with_email_tags (email_tags st ++ [mkEmailTagRow eid tid uid])
         (with_emails rows st))
    ∧ (rows = emails st
       ∨ (rows = emails st ++ [mkEmailRow eid uid None (Some false) dbNow dbNow]
          ∧ ¬ has_email st uid eid))
    ∧ has_email (with_emails rows st) uid eid.
Proof.
  intros Hu He Ht Hone. unfold addTagToEmail. rewrite Hu, He, Ht. simpl.
  destruct (filter _ (emails st)) as [|e [|e' rest]] eqn:Hrows.
  - eexists. split; [done|]. split.
    + right. split; [done|]. intros (e & Hin & Hid & Huid).
      assert (e ∈ filter (λ e, er_email_id e = eid ∧ er_user_id e = uid) (emails st))
        as Hf by (by apply list_elem_of_filter).
      rewrite Hrows in Hf. by apply elem_of_nil in Hf.
    + exists (mkEmailRow eid uid None (Some false) dbNow dbNow).
      split; [|done]. simpl. apply elem_of_app. right. by left.
  - exists (emails st). split; [by destruct st|]. split; [by left|].
    assert (e ∈ filter (λ e, er_email_id e = eid ∧ er_user_id e = uid) (emails st))
      as Hf by (rewrite Hrows; by left).
    apply list_elem_of_filter in Hf as [[Hid Huid] Hin].
    by exists e.
  - simpl in Hone. lia.
Qed.

(** X4. Adding a tag to an email and removing it again.  When the
    identifiers are given, the store holds at most one row for the email, the
    tag is not on the email and every statement succeeds, [addTagToEmail]
    returns [true], leaves a row for the email in [emails], and
    [fetchEmailTagIds] then lists the tag after the former ones;
    [removeTagFromEmail] then returns [true] and the associations, and
    what [fetchEmailTagIds] lists, are what they were before the tag was
    added. *)
Theorem add_then_remove_tag_restores
    (st : Store) (dbNow dbNow' uid eid tid : string) :
  truthy uid = true → truthy eid = true → truthy tid = true →
  (length (filter (λ e, er_email_id e = eid ∧ er_user_id e = uid) (emails st))
   ≤ 1)%nat →
  (∀ row, row ∈ email_tags st →
     ¬ (et_email_id row = eid ∧ et_tag_id row = tid ∧ et_user_id row = uid)) →
  let added := addTagToEmail st Succeeds Succeeds Succeeds dbNow uid eid tid in
  let removed :=
    removeTagFromEmail added.2 Succeeds Succeeds dbNow' uid eid tid in
  added.1 = true
  ∧ has_email added.2 uid eid
  ∧ fetchEmailTagIds added.2 Succeeds uid eid
    = fetchEmailTagIds st Succeeds uid eid ++ [tid]
  ∧ removed.1 = true
  ∧ email_tags removed.2 = email_tags st
  ∧ fetchEmailTagIds removed.2 Succeeds uid eid
    = fetchEmailTagIds st Succeeds uid eid.
Proof.
  intros Hu He Ht Hone Habs added removed.
  destruct (addTagToEmail_succeeds st dbNow uid eid tid Hu He Ht Hone)
    as (rows & Hadd & _ & Hhas).
  subst removed added. rewrite Hadd. simpl.
  assert (email_tags
            (removeTagFromEmail
               (with_email_tags (email_tags st ++ [mkEmailTagRow eid tid uid])
                  (with_emails rows st))
               Succeeds Succeeds dbNow' uid eid tid).2 = email_tags st) as Hback.
  { unfold removeTagFromEmail. rewrite Hu, He, Ht. simpl.
    rewrite filter_app, filter_absent_key by done.
    rewrite filter_cons, filter_nil. rewrite decide_False; [|by intros H; apply H].
    by rewrite app_nil_r. }
  split; [done|]. split; [done|]. split.
  { unfold fetchEmailTagIds. rewrite Hu, He. simpl.
    rewrite email_rows_snoc, map_app. simpl. by rewrite decide_True. }
  split.
  { unfold removeTagFromEmail. by rewrite Hu, He, Ht. }
  split; [done|].
  unfold fetchEmailTagIds. rewrite Hu, He. simpl. by rewrite Hback.
Qed.

Lemma add_then_remove_tag_restores_witness :
  (truthy "u" = true ∧ truthy "C" = true ∧ truthy "t2" = true)
  ∧ fetchEmailTagIds
      (addTagToEmail example_store Succeeds Succeeds Succeeds "now" "u" "A" "t2").2
      Succeeds "u" "A"
    = ["t1"; "t2"]
  ∧ email_tags
      (removeTagFromEmail
         (addTagToEmail example_store Succeeds Succeeds Succeeds "now" "u" "A" "t2").2
         Succeeds Succeeds "later" "u" "A" "t2").2
    = email_tags example_store.
Proof.
  split; [done|].
  assert (∀ row, row ∈ email_tags example_store →
            ¬ (et_email_id row = "A" ∧ et_tag_id row = "t2" ∧ et_user_id row = "u"))
    as Habs.
  { intros row Hrow (H1 & H2 & H3). simpl in Hrow.
    repeat (apply elem_of_cons in Hrow as [->|Hrow]; [done|]).
    by apply elem_of_nil in Hrow. }
  pose proof (add_then_remove_tag_restores example_store "now" "later" "u" "A" "t2"
                eq_refl eq_refl eq_refl) as H.
  destruct H as (_ & _ & H3 & _ & H5 & _); [simpl; lia|exact Habs|].
  split; [exact H3|exact H5].
Defined.

(** ** Starring and tagging from the list *)

Lemma with_starred_same (e : EmailItem) : with_starred (ei_starred e) e = e.
Proof. by destruct e. Qed.

Lemma with_starred_twice (a b : bool) (e : EmailItem) :
  with_starred a (with_starred b e) = with_starred a e.
Proof. done. Qed.

Lemma update_item_cache (id : string) (f : EmailItem → EmailItem)
    (s : ListState) (e : EmailItem) :
  emailCache s !! id = Some e →
  emailCache (update_item id f s) = <[id := f e]> (emailCache s).
Proof. intros H. unfold update_item. simpl. by rewrite H. Qed.

Lemma update_item_list (id : string) (f : EmailItem → EmailItem) (s : ListState) :
  allEmails (update_item id f s)
  = map (λ e, if String.eqb (ei_id e) id then f e else e) (allEmails s).
Proof. done. Qed.

(** X5. Starring from the list, for an email that is in the cache.  When the
    session has no token for the mail service the star is put back: the
    cache is what it was, and so is the list when its items showed the star
    of the cache.  When the session has a token the star stays flipped in the
    cache and in the list whatever the mail service answers to the request,
    and no other cache entry changes. *)
Theorem toggleStar_undone_only_without_token
    (p : Props) (sess : Session) (resp : Fetched unit)
    (supabaseUpdateSuccess : bool) (id : string) (s : ListState) (e : EmailItem) :
  truthy_opt (user_id_of p) = true →
  emailCache s !! id = Some e →
  let s' := toggleStar p sess resp supabaseUpdateSuccess id s in
  match getAccessToken sess with
  | Throw _ =>
      emailCache s' = emailCache s
      ∧ ((∀ x, x ∈ allEmails s → ei_id x = id → ei_starred x = ei_starred e) →
         allEmails s' = allEmails s)
  | Ok _ =>
      emailCache s' !! id = Some (with_starred (negb (ei_starred e)) e)
      ∧ (∀ other, other ≠ id → emailCache s' !! other = emailCache s !! other)
      ∧ (∀ x, x ∈ allEmails s' → ei_id x = id →
           ei_starred x = negb (ei_starred e))
  end.
Proof.
  intros Hu He s'. subst s'. unfold toggleStar. rewrite Hu, He. simpl.
  unfold markEmailStarred.
  destruct (getAccessToken sess) as [tok|m]; simpl.
  - set (s1 := update_item id (with_starred (negb (ei_starred e))) s).
    assert (s1 = match catch_return false
                         match resp with
                         | Rejected m => Throw m
                         | Responded response =>
                             if negb (ok response)
                             then if is_auth_status (status response)
                                  then Throw token_expired else Ok false
                             else Ok true
                         end with
                 | Ok _ => s1
                 | Throw _ => update_item id
                                (with_starred (negb (negb (ei_starred e)))) s1
                 end) as <-.
    { destruct resp as [m|r]; [done|].
      destruct (negb (ok r)); [|done]. by destruct (is_auth_status (status r)). }
    subst s1. split; [|split].
    + rewrite (update_item_cache _ _ _ e) by done. apply lookup_insert_eq.
    + intros other Hne. rewrite (update_item_cache _ _ _ e) by done.
      by apply lookup_insert_ne.
    + intros x Hx Hid. rewrite update_item_list in Hx.
      apply list_elem_of_fmap in Hx as (y & -> & Hy).
      destruct (String.eqb (ei_id y) id) eqn:Hy'; [done|].
      apply String.eqb_neq in Hy'. done.
  - split.
    + rewrite He, lookup_insert_eq, insert_insert_eq.
      rewrite with_starred_twice, negb_involutive, with_starred_same.
      by apply insert_id.
    + intros Hcons. rewrite map_map.
      rewrite <- (map_id (allEmails s)) at 2.
      apply map_ext_in. intros x Hx. apply list_elem_of_In in Hx.
      destruct (String.eqb (ei_id x) id) eqn:Hid; simpl; rewrite Hid; [|done].
      apply String.eqb_eq in Hid.
      rewrite negb_involutive.
      rewrite <- (Hcons x Hx Hid). by destruct x.
Qed.

Lemma toggleStar_undone_only_without_token_witness :
  let s := (effect example_env paged_props initial_state).1 in
  (truthy_opt (user_id_of paged_props) = true ∧ is_Some (emailCache s !! "A"))
  ∧ emailCache (toggleStar paged_props NoSession (Rejected "offline") true "A" s)
    = emailCache s.
Proof.
  intros s.
  assert (∃ e, emailCache s !! "A" = Some e) as [e He]
    by (eexists; vm_compute; reflexivity).
  split; [split; [done|by rewrite He]|].
  exact (proj1 (toggleStar_undone_only_without_token paged_props NoSession
                  (Rejected "offline") true "A" s e eq_refl He)).
Defined.

Lemma email_tag_ids_with_email_tags (rows : list EmailTagRow) (st : Store)
    (uid eid : string) :
  email_tag_ids (with_email_tags rows st) uid eid
  = list_to_set (map et_tag_id
       (filter (λ et, et_email_id et = eid ∧ et_user_id et = uid) rows)).
Proof. done. Qed.

Lemma email_tag_ids_delete (st : Store) (uid eid tid : string) :
  email_tag_ids (delete_email_tag uid eid tid st) uid eid
  = email_tag_ids st uid eid ∖ {[tid]}.
Proof.
  unfold delete_email_tag. rewrite email_tag_ids_with_email_tags.
  unfold email_tag_ids. apply set_eq. intros t.
  rewrite elem_of_difference, !elem_of_list_to_set, !list_elem_of_fmap.
  rewrite not_elem_of_singleton. split.
  - intros (r & -> & Hr). apply list_elem_of_filter in Hr as [[He Hu] Hr].
    apply list_elem_of_filter in Hr as [Hkey Hr]. split.
    + exists r. split; [done|]. by apply list_elem_of_filter.
    + intros Heq. apply Hkey. done.
  - intros [(r & -> & Hr) Hne]. apply list_elem_of_filter in Hr as [[He Hu] Hr].
    exists r. split; [done|]. apply list_elem_of_filter. split; [done|].
    apply list_elem_of_filter. split; [|done]. intros (_ & Ht & _). done.
Qed.

Lemma email_tag_ids_removeTagFromEmail (st : Store) (logOutcome : Outcome)
    (dbNow uid eid tid : string) :
  truthy uid = true → truthy eid = true → truthy tid = true →
  email_tag_ids
    (removeTagFromEmail st Succeeds logOutcome dbNow uid eid tid).2 uid eid
  = email_tag_ids st uid eid ∖ {[tid]}.
Proof.
  intros Hu He Ht. rewrite <- email_tag_ids_delete.
  unfold removeTagFromEmail. rewrite Hu, He, Ht. simpl.
  by destruct logOutcome.
Qed.

Lemma email_tag_ids_snoc (st st' : Store) (uid eid tid : string) :
  email_tag_ids (with_email_tags (email_tags st ++ [mkEmailTagRow eid tid uid]) st')
                uid eid
  = email_tag_ids st uid eid ∪ {[tid]}.
Proof.
  rewrite email_tag_ids_with_email_tags. unfold email_tag_ids.
  rewrite email_rows_snoc. simpl. rewrite decide_True by done.
  rewrite map_app, list_to_set_app_L. simpl. by rewrite union_empty_r_L.
Qed.

Lemma shown_tag_ids_update (emailId : string) (ts : list Tag) (s : ListState)
    (e : EmailItem) :
  emailCache s !! emailId = Some e →
  shown_tag_ids (update_item emailId (with_item_tags ts) s) emailId
  = list_to_set (map tag_id ts).
Proof.
  intros He. unfold shown_tag_ids.
  rewrite (update_item_cache _ _ _ e) by done. by rewrite lookup_insert_eq.
Qed.

Lemma tag_ids_without (tagId : string) (ts : list Tag) :
  list_to_set (map tag_id
     (List.filter (λ t, negb (String.eqb (tag_id t) tagId)) ts))
  =@{gset string} list_to_set (map tag_id ts) ∖ {[tagId]}.
Proof.
  apply set_eq. intros t.
  rewrite elem_of_difference, !elem_of_list_to_set, !list_elem_of_fmap.
  rewrite not_elem_of_singleton. split.
  - intros (x & -> & Hx). apply elem_of_bfilter in Hx as [Hx Hne].
    apply negb_true_iff, String.eqb_neq in Hne. split; [by exists x|done].
  - intros [(x & -> & Hx) Hne]. exists x. split; [done|].
    apply elem_of_bfilter. split; [done|].
    by apply negb_true_iff, String.eqb_neq.
Qed.

Lemma isCurrentlyTagged_spec (tagId : string) (ts : list Tag) :
  existsb (λ t, String.eqb (tag_id t) tagId) ts = true
  ↔ tagId ∈@{gset string} list_to_set (map tag_id ts).
Proof.
  rewrite existsb_exists, elem_of_list_to_set, list_elem_of_fmap. split.
  - intros (x & Hx & Heq). apply String.eqb_eq in Heq. exists x.
    split; [done|]. by apply list_elem_of_In.
  - intros (x & -> & Hx). exists x. split; [by apply list_elem_of_In|].
    apply String.eqb_refl.
Qed.

Lemma find_tag_id (tagId : string) (availableTags : list Tag) (tagDetails : Tag) :
  List.find (λ t, String.eqb (tag_id t) tagId) availableTags = Some tagDetails →
  tag_id tagDetails = tagId.
Proof. intros H. apply find_some in H as [_ H]. by apply String.eqb_eq. Qed.

(** X6. Tagging from the list keeps the list and the tag store in step.  For
    an email that is in the cache and a tag that is among the available
    ones, when the tag ids shown on the email are those the store holds for
    it and the statements that write the association succeed (the removal
    log may fail), the tag ids shown after [handleTagToggle] are again those
    the store holds, and the tag is shown afterwards iff it was not shown
    before. *)
Theorem handleTagToggle_keeps_list_and_store_in_step
    (p : Props) (availableTags : list Tag) (w : TagWrites)
    (uid emailId tagId : string) (s : ListState) (st : Store)
    (e : EmailItem) (tagDetails : Tag) :
  user_id_of p = Some uid →
  truthy uid = true → truthy emailId = true → truthy tagId = true →
  emailCache s !! emailId = Some e →
  List.find (λ t, String.eqb (tag_id t) tagId) availableTags = Some tagDetails →
  (length (filter (λ r, er_email_id r = emailId ∧ er_user_id r = uid) (emails st))
   ≤ 1)%nat →
  shown_tag_ids s emailId = email_tag_ids st uid emailId →
  tw_delete w = Succeeds → tw_select w = Succeeds →
  tw_insert_email w = Succeeds → tw_insert_tag w = Succeeds →
  let after := handleTagToggle p availableTags w emailId tagId s st in
  shown_tag_ids after.1 emailId = email_tag_ids after.2 uid emailId
  ∧ (tagId ∈ shown_tag_ids after.1 emailId ↔ tagId ∉ shown_tag_ids s emailId).
Proof.
  intros Hp Hu He Ht Hc Hfind Hone Hagree Hdel Hsel Hie Hit after. subst after.
  assert (shown_tag_ids s emailId = list_to_set (map tag_id (ei_tags e))) as Hshown
    by (unfold shown_tag_ids; by rewrite Hc).
  unfold handleTagToggle. rewrite Hp. simpl. rewrite Hu, Hc, Hfind. simpl.
  destruct (existsb _ (ei_tags e)) eqn:Htagged; simpl.
  - apply isCurrentlyTagged_spec in Htagged.
    rewrite (shown_tag_ids_update _ _ _ e) by done.
    rewrite Hdel, email_tag_ids_removeTagFromEmail by done.
    rewrite tag_ids_without, <- Hagree, Hshown. split; [done|].
    rewrite elem_of_difference, not_elem_of_singleton. tauto.
  - assert (tagId ∉@{gset string} list_to_set (map tag_id (ei_tags e))) as Hnot.
    { intros Hin. apply isCurrentlyTagged_spec in Hin. congruence. }
    rewrite (shown_tag_ids_update _ _ _ e) by done.
    rewrite Hsel, Hie, Hit.
    destruct (addTagToEmail_succeeds st (tw_now w) uid emailId tagId Hu He Ht Hone)
      as (rows & -> & _ & _).
    simpl. rewrite email_tag_ids_snoc.
    rewrite map_app, list_to_set_app_L. simpl.
    rewrite (find_tag_id _ _ _ Hfind), union_empty_r_L.
    rewrite <- Hshown, Hagree. split; [done|].
    rewrite <- Hagree, Hshown. clear -Hnot. set_solver.
Qed.

Lemma handleTagToggle_keeps_list_and_store_in_step_witness :
  let s := (effect example_env paged_props initial_state).1 in
  let w := mkTagWrites Succeeds (Fails "no log") Succeeds Succeeds Succeeds "now" in
  let after := handleTagToggle paged_props [t1; t2] w "A" "t2" s example_store in
  shown_tag_ids s "A" = email_tag_ids example_store "u" "A"
  ∧ shown_tag_ids after.1 "A" = email_tag_ids after.2 "u" "A"
  ∧ shown_tag_ids after.1 "A" = {["t1"; "t2"]}.
Proof.
  intros s w after.
  assert (∃ e, emailCache s !! "A" = Some e) as [e He]
    by (eexists; vm_compute; reflexivity).
  assert (shown_tag_ids s "A" = email_tag_ids example_store "u" "A") as Hagree
    by (by vm_compute).
  split; [exact Hagree|]. split.
  - apply (handleTagToggle_keeps_list_and_store_in_step paged_props [t1; t2] w
             "u" "A" "t2" s example_store e t2); done.
  - by vm_compute.
Defined.

(** X7. A tag change the store refuses is still shown as made.  When the
    statement that writes the association does not succeed, the
    associations of the store are what they were, and yet the list shows the
    tag iff it did not show it before: nothing undoes the optimistic
    update. *)
Theorem handleTagToggle_not_undone
    (p : Props) (availableTags : list Tag) (w : TagWrites)
    (uid emailId tagId : string) (s : ListState) (st : Store)
    (e : EmailItem) (tagDetails : Tag) :
  user_id_of p = Some uid → truthy uid = true →
  emailCache s !! emailId = Some e →
  List.find (λ t, String.eqb (tag_id t) tagId) availableTags = Some tagDetails →
  tw_delete w ≠ Succeeds → tw_insert_tag w ≠ Succeeds →
  let after := handleTagToggle p availableTags w emailId tagId s st in
  email_tags after.2 = email_tags st
  ∧ (tagId ∈ shown_tag_ids after.1 emailId ↔ tagId ∉ shown_tag_ids s emailId).
Proof.
  intros Hp Hu Hc Hfind Hdel Hit after. subst after.
  assert (shown_tag_ids s emailId = list_to_set (map tag_id (ei_tags e))) as Hshown
    by (unfold shown_tag_ids; by rewrite Hc).
  unfold handleTagToggle. rewrite Hp. simpl. rewrite Hu, Hc, Hfind. simpl.
  destruct (existsb _ (ei_tags e)) eqn:Htagged; simpl.
  - apply isCurrentlyTagged_spec in Htagged.
    rewrite (shown_tag_ids_update _ _ _ e) by done. split.
    + unfold removeTagFromEmail.
      destruct (negb (truthy uid) || negb (truthy emailId) || negb (truthy tagId));
        [done|].
      by destruct (tw_delete w).
    + rewrite tag_ids_without, Hshown.
      rewrite elem_of_difference, not_elem_of_singleton. tauto.
  - assert (tagId ∉@{gset string} list_to_set (map tag_id (ei_tags e))) as Hnot.
    { intros Hin. apply isCurrentlyTagged_spec in Hin. congruence. }
    rewrite (shown_tag_ids_update _ _ _ e) by done. split.
    + unfold addTagToEmail, insert_email_tag.
      destruct (negb (truthy uid) || negb (truthy emailId) || negb (truthy tagId));
        [done|].
      destruct (tw_select w); try done.
      destruct (filter _ (emails st)) as [|? [|? ?]]; try done.
      * destruct (tw_insert_email w); try done. by destruct (tw_insert_tag w).
      * by destruct (tw_insert_tag w).
    + rewrite map_app, list_to_set_app_L. simpl.
      rewrite (find_tag_id _ _ _ Hfind), union_empty_r_L, Hshown.
      split; [done|]. intros _. apply elem_of_union. right.
      by apply elem_of_singleton.
Qed.

Lemma handleTagToggle_not_undone_witness :
  let s := (effect example_env paged_props initial_state).1 in
  let w := mkTagWrites (Fails "denied") Succeeds Succeeds Succeeds
                       (Fails "denied") "now" in
  let after := handleTagToggle paged_props [t1; t2] w "A" "t1" s example_store in
  "t1" ∈ shown_tag_ids s "A"
  ∧ email_tags after.2 = email_tags example_store
  ∧ "t1" ∉ shown_tag_ids after.1 "A".
Proof.
  intros s w after.
  assert (∃ e, emailCache s !! "A" = Some e) as [e He]
    by (eexists; vm_compute; reflexivity).
  assert ("t1" ∈ shown_tag_ids s "A") as Hin.
  { assert (shown_tag_ids s "A" = {["t1"]}) as -> by (by vm_compute).
    by apply elem_of_singleton. }
  split; [exact Hin|].
  assert (tw_delete w ≠ Succeeds ∧ tw_insert_tag w ≠ Succeeds) as [Hd Hi] by done.
  destruct (handleTagToggle_not_undone paged_props [t1; t2] w "u" "A" "t1" s
              example_store e t1 eq_refl eq_refl He eq_refl Hd Hi) as [H1 H2].
  split; [exact H1|]. intros H. apply H2 in H. done.
Defined.

(** ** The list of project cards *)

Lemma handleSaveSuccess_ids (savedCard : TimelineCard) (cards : list TimelineCard) :
  tc_id <$> handleSaveSuccess savedCard cards
  = if bool_decide (tc_id savedCard ∈ tc_id <$> cards) then tc_id <$> cards
    else tc_id savedCard :: (tc_id <$> cards).
Proof.
  unfold handleSaveSuccess.
  destruct (list_find _ cards) as [[i c]|] eqn:Hfind.
  - apply list_find_Some in Hfind as (Hi & Hc & _).
    rewrite bool_decide_eq_true_2.
    + rewrite list_fmap_insert. apply list_insert_id.
      by rewrite list_lookup_fmap, Hi, <- Hc.
    + apply list_elem_of_fmap. exists c. split; [done|].
      by eapply list_elem_of_lookup_2.
  - apply list_find_None in Hfind. rewrite bool_decide_eq_false_2; [done|].
    intros Hin. apply list_elem_of_fmap in Hin as (c & Hc & Hin).
    rewrite Forall_forall in Hfind. by apply (Hfind c Hin).
Qed.

Lemma handleSaveSuccess_other (savedCard : TimelineCard)
    (cards : list TimelineCard) (c : TimelineCard) :
  tc_id c ≠ tc_id savedCard →
  c ∈ handleSaveSuccess savedCard cards ↔ c ∈ cards.
Proof.
  intros Hne. unfold handleSaveSuccess.
  destruct (list_find _ cards) as [[i old]|] eqn:Hfind.
  - apply list_find_Some in Hfind as (Hi & Hold & _).
    rewrite !list_elem_of_lookup. split.
    + intros [j Hj]. apply list_lookup_insert_Some in Hj as [(_ & <- & _)|[_ Hj]];
        [done|by exists j].
    + intros [j Hj]. exists j. apply list_lookup_insert_Some. right.
      split; [|done]. intros <-. rewrite Hi in Hj. injection Hj as ->. done.
  - rewrite elem_of_cons. split; [|tauto]. intros [->|H]; done.
Qed.

Lemma handleSaveSuccess_saved (savedCard : TimelineCard)
    (cards : list TimelineCard) :
  savedCard ∈ handleSaveSuccess savedCard cards.
Proof.
  unfold handleSaveSuccess.
  destruct (list_find _ cards) as [[i old]|] eqn:Hfind; [|by left].
  apply list_find_Some in Hfind as (Hi & _ & _).
  apply list_elem_of_lookup. exists i. apply list_lookup_insert_eq.
  by eapply lookup_lt_Some.
Qed.

Lemma NoDup_fmap_eq {A B} (f : A → B) (l : list A) (x y : A) :
  NoDup (f <$> l) → x ∈ l → y ∈ l → f x = f y → x = y.
Proof.
  intros Hnd Hx Hy Hf.
  apply list_elem_of_lookup in Hx as [i Hi].
  apply list_elem_of_lookup in Hy as [j Hj].
  assert (i = j) as ->.
  { eapply NoDup_lookup; [exact Hnd| |].
    - by rewrite list_lookup_fmap, Hi.
    - by rewrite list_lookup_fmap, Hj, Hf. }
  congruence.
Qed.

Lemma handleDeleteSuccess_fresh (id : string) (cards : list TimelineCard) :
  id ∉ tc_id <$> cards → handleDeleteSuccess id cards = cards.
Proof.
  intros Hfresh. apply bfilter_all. intros c Hc.
  apply negb_true_iff, String.eqb_neq. intros Heq. apply Hfresh.
  apply list_elem_of_fmap. by exists c.
Qed.

Lemma handleDeleteSuccess_insert (id : string) (cards : list TimelineCard)
    (i : nat) (old new : TimelineCard) :
  cards !! i = Some old → tc_id old = id → tc_id new = id →
  handleDeleteSuccess id (<[i := new]> cards) = handleDeleteSuccess id cards.
Proof.
  revert i. induction cards as [|c cards IH]; intros i Hi Hold Hnew; [done|].
  destruct i as [|i]; simpl in *.
  - injection Hi as ->. by rewrite Hold, Hnew, String.eqb_refl.
  - unfold handleDeleteSuccess in *. simpl. by rewrite (IH i).
Qed.

(** X8. Saving a card into the list of the project page, for a list in which
    no two cards share an id.  Afterwards the saved card is in the list and
    is the only card with its id, the cards with another id are those of
    before, no two cards share an id, and the list has grown by one card
    exactly when the id was new.  Deleting that id afterwards gives what
    deleting it before the save would have given: the list of before when
    the id was new. *)
Theorem handleSaveSuccess_keeps_one_card_per_id
    (savedCard : TimelineCard) (cards : list TimelineCard) :
  NoDup (tc_id <$> cards) →
  let saved := handleSaveSuccess savedCard cards in
  NoDup (tc_id <$> saved)
  ∧ savedCard ∈ saved
  ∧ (∀ c, c ∈ saved → tc_id c = tc_id savedCard → c = savedCard)
  ∧ (∀ c, tc_id c ≠ tc_id savedCard → (c ∈ saved ↔ c ∈ cards))
  ∧ length saved
    = (if bool_decide (tc_id savedCard ∈ tc_id <$> cards)
       then length cards else S (length cards))
  ∧ handleDeleteSuccess (tc_id savedCard) saved
    = handleDeleteSuccess (tc_id savedCard) cards
  ∧ (tc_id savedCard ∉ tc_id <$> cards →
     handleDeleteSuccess (tc_id savedCard) saved = cards).
Proof.
  intros Hnd saved.
  assert (NoDup (tc_id <$> saved)) as Hnd'.
  { subst saved. rewrite handleSaveSuccess_ids. case_bool_decide; [done|].
    by apply NoDup_cons. }
  assert (handleDeleteSuccess (tc_id savedCard) saved
          = handleDeleteSuccess (tc_id savedCard) cards) as Hdel.
  { subst saved. unfold handleSaveSuccess.
    destruct (list_find _ cards) as [[i old]|] eqn:Hfind.
    - apply list_find_Some in Hfind as (Hi & Hold & _).
      by apply (handleDeleteSuccess_insert _ _ _ old).
    - unfold handleDeleteSuccess. simpl. by rewrite String.eqb_refl. }
  split; [done|]. split; [apply handleSaveSuccess_saved|]. split.
  { intros c Hc Hid. symmetry.
    eapply (NoDup_fmap_eq tc_id); [exact Hnd'| |done|done].
    apply handleSaveSuccess_saved. }
  split; [intros c Hne; by apply handleSaveSuccess_other|]. split.
  { pose proof (handleSaveSuccess_ids savedCard cards) as Hids.
    apply (f_equal length) in Hids. rewrite length_fmap in Hids. fold saved in Hids.
    rewrite Hids. case_bool_decide; simpl; by rewrite length_fmap. }
  split; [done|]. intros Hfresh. rewrite Hdel.
  by apply handleDeleteSuccess_fresh.
Qed.

Lemma handleSaveSuccess_keeps_one_card_per_id_witness :
  let c1 := mkTimelineCard "c1" "u" "Plan" None "2025-03-01" None "d0" [] in
  let c2 := mkTimelineCard "c2" "u" "Launch" None "2025-04-01" None "d0" [t2] in
  let c1' := mkTimelineCard "c1" "u" "Plan B" None "2025-03-02" None "d0" [t1] in
  NoDup (tc_id <$> [c1; c2])
  ∧ handleSaveSuccess c1' [c1; c2] = [c1'; c2]
  ∧ NoDup (tc_id <$> handleSaveSuccess c1' [c1; c2]).
Proof.
  intros c1 c2 c1'.
  assert (NoDup (tc_id <$> [c1; c2])) as Hnd.
  { apply NoDup_ListNoDup. simpl. constructor; [|constructor; [|constructor]].
    - intros [H|[]]. discriminate.
    - intros []. }
  split; [exact Hnd|]. split; [reflexivity|].
  apply (handleSaveSuccess_keeps_one_card_per_id c1' [c1; c2] Hnd).
Defined.

(** ** Tags written and read back: calendar events *)

Lemma group_calendar_tags_snoc (data : list CalendarTagJoin) (item : CalendarTagJoin) :
  group_calendar_tags (data ++ [item])
  = match ctj_tags item with
    | Some t =>
        if truthy (ctj_event_id item) then
          <[ctj_event_id item :=
              default [] (group_calendar_tags data !! ctj_event_id item) ++ [t]]>
            (group_calendar_tags data)
        else group_calendar_tags data
    | None => group_calendar_tags data
    end.
Proof. unfold group_calendar_tags. by rewrite fold_left_app. Qed.

(** What the map of [fetchCalendarEventTagsForEventIds] holds for an event
    id: the tags of the rows of that event, in row order. *)
Lemma group_calendar_tags_lookup (data : list CalendarTagJoin) (id : string) :
  default [] (group_calendar_tags data !! id)
  = if truthy id
    then omap ctj_tags (filter (λ r, ctj_event_id r = id) data)
    else [].
Proof.
  induction data as [|item data IH] using rev_ind.
  { by destruct (truthy id). }
  rewrite group_calendar_tags_snoc, filter_app, omap_app.
  rewrite filter_cons, filter_nil.
  destruct (ctj_tags item) as [t|] eqn:Ht.
  - destruct (truthy (ctj_event_id item)) eqn:Hid.
    + destruct (decide (ctj_event_id item = id)) as [<-|Hne].
      * rewrite lookup_insert_eq, Hid in *. simpl. rewrite IH. simpl.
        by rewrite Ht.
      * rewrite lookup_insert_ne by done. rewrite IH.
        destruct (truthy id); [|done]. simpl. by rewrite app_nil_r.
    + rewrite IH. destruct (truthy id) eqn:Hid'; [|done].
      case_decide as Heq; [congruence|]. simpl. by rewrite app_nil_r.
  - rewrite IH. destruct (truthy id); [|done].
    case_decide; simpl; rewrite ?Ht; by rewrite app_nil_r.
Qed.

Lemma omap_cons' {A B} (f : A → option B) (x : A) (l : list A) :
  omap f (x :: l) = match f x with Some y => y :: omap f l | None => omap f l end.
Proof. done. Qed.

Lemma omap_joined_tags (st : Store) (id : string) (rows : list CalendarEventTagRow) :
  omap ctj_tags
    (filter (λ r, ctj_event_id r = id)
       (map (λ r, mkCalendarTagJoin (cet_event_id r) (find_tag st (cet_tag_id r)))
            rows))
  = omap (λ r, find_tag st (cet_tag_id r))
         (filter (λ r, cet_event_id r = id) rows).
Proof.
  induction rows as [|r rows IH]; [done|].
  rewrite map_cons, !filter_cons. cbn [ctj_event_id].
  destruct (decide (cet_event_id r = id)); [|exact IH].
  rewrite !omap_cons'. cbn [ctj_tags]. by rewrite IH.
Qed.

Lemma fetchCalendarEventTags_lookup (st : Store) (uid : string)
    (ids : list string) (id : string) :
  truthy uid = true → id ∈ ids →
  default [] (fetchCalendarEventTagsForEventIds st Succeeds uid ids !! id)
  = if truthy id then event_tags_of st uid id else [].
Proof.
  intros Hu Hin. unfold fetchCalendarEventTagsForEventIds. rewrite Hu. simpl.
  rewrite bool_decide_eq_false_2.
  2:{ intros ->. by apply elem_of_nil in Hin. }
  rewrite group_calendar_tags_lookup. destruct (truthy id); [|done].
  unfold select_calendar_event_tags, event_tags_of.
  rewrite omap_joined_tags, list_filter_filter. f_equal.
  apply list_filter_iff. intros r. split.
  - intros [-> [? ?]]. done.
  - intros [? ->]. done.
Qed.

Lemma fetchCalendarEvents_tags
    (sess : Session) (tok : option string)
    (res : Response (option (list GoogleCalendarEvent))) (st : Store)
    (uid : string) :
  getAccessToken sess = Ok tok → truthy uid = true → ok res = true →
  fetchCalendarEvents sess (Responded res) st Succeeds uid
  = Ok (map (λ event,
               with_tags event
                 (if truthy (ev_id event) then event_tags_of st uid (ev_id event)
                  else []))
            (default [] (body res))).
Proof.
  intros Htok Hu Hok. unfold fetchCalendarEvents.
  rewrite Htok. simpl. rewrite Hu, Hok. simpl.
  set (events := default [] (body res)).
  case_bool_decide as Hne.
  - f_equal. apply map_ext_in. intros event Hev.
    rewrite fetchCalendarEventTags_lookup; [done|done|].
    apply list_elem_of_In in Hev. apply list_elem_of_fmap. by exists event.
  - assert (events = []) as -> by (destruct events; [done|by destruct Hne]).
    done.
Qed.

(** X9. The calendar reader puts on every event exactly the tags the store
    holds for it: with a usable session, a user id and a successful answer
    of the calendar service, each event of the answer is returned, in order,
    with the tags named by its association rows, in row order (a row whose
    tag no longer exists is skipped; an event without an id gets none). *)
Theorem fetchCalendarEvents_merges_store_tags
    (sess : Session) (tok : option string)
    (res : Response (option (list GoogleCalendarEvent))) (st : Store)
    (uid : string) :
  getAccessToken sess = Ok tok → truthy uid = true → ok res = true →
  fetchCalendarEvents sess (Responded res) st Succeeds uid
  = Ok (map (λ event,
               with_tags event
                 (if truthy (ev_id event) then event_tags_of st uid (ev_id event)
                  else []))
            (default [] (body res))).
Proof. apply fetchCalendarEvents_tags. Qed.

Lemma fetchCalendarEvents_merges_store_tags_witness :
  getAccessToken (SessionWith (Some "tok")) = Ok (Some "tok")
  ∧ truthy "u" = true
  ∧ fetchCalendarEvents (SessionWith (Some "tok")) example_calendar_answer
      example_store Succeeds "u"
    = Ok [with_tags (example_event "e1") [t1]; with_tags (example_event "e2") []].
Proof.
  split; [reflexivity|]. split; [reflexivity|].
  unfold example_calendar_answer.
  rewrite (fetchCalendarEvents_merges_store_tags (SessionWith (Some "tok"))
             (Some "tok")
             (mkResponse 200 "OK" (Some [example_event "e1"; example_event "e2"]) None)
             example_store "u" eq_refl eq_refl eq_refl).
  reflexivity.
Defined.

Lemma omap_same {A B} (f g : A → option B) (l : list A) :
  (∀ x, f x = g x) → omap f l = omap g l.
Proof.
  intros H. induction l as [|x l IH]; [done|].
  by rewrite !omap_cons', H, IH.
Qed.

Lemma find_tag_same_tags (st st' : Store) (id : string) :
  tags st' = tags st → find_tag st' id = find_tag st id.
Proof. intros H. unfold find_tag. by rewrite H. Qed.

Lemma setTagsForCalendarEvent_rows (st : Store) (uid eventId : string)
    (tagIds : list string) :
  truthy uid = true → truthy eventId = true →
  let st' := (setTagsForCalendarEvent st Succeeds Succeeds uid eventId tagIds).2 in
  tags st' = tags st
  ∧ calendar_event_tags st'
    = filter (λ r, ¬ (cet_user_id r = uid ∧ cet_event_id r = eventId))
             (calendar_event_tags st)
      ++ map (λ tagId, mkCalendarEventTagRow uid eventId tagId) tagIds.
Proof.
  intros Hu He. unfold setTagsForCalendarEvent. rewrite Hu, He. simpl.
  case_bool_decide as Hne; simpl; [done|].
  assert (tagIds = []) as -> by (destruct tagIds; [done|by destruct Hne]).
  by rewrite app_nil_r.
Qed.

Lemma event_tags_of_after_set (st : Store) (uid eventId : string)
    (tagIds : list string) (id : string) :
  truthy uid = true → truthy eventId = true →
  event_tags_of (setTagsForCalendarEvent st Succeeds Succeeds uid eventId tagIds).2
                uid id
  = if String.eqb id eventId then omap (find_tag st) tagIds
    else event_tags_of st uid id.
Proof.
  intros Hu He.
  destruct (setTagsForCalendarEvent_rows st uid eventId tagIds Hu He)
    as [Htags Hrows].
  unfold event_tags_of. rewrite Hrows. clear Hrows.
  rewrite (omap_same _ (λ r, find_tag st (cet_tag_id r)));
    [|intros r; by apply find_tag_same_tags].
  rewrite filter_app, omap_app, list_filter_filter.
  destruct (String.eqb id eventId) eqn:Heq.
  - apply String.eqb_eq in Heq as ->.
    assert (filter (λ r, (cet_user_id r = uid ∧ cet_event_id r = eventId)
                         ∧ ¬ (cet_user_id r = uid ∧ cet_event_id r = eventId))
                   (calendar_event_tags st) = []) as ->.
    { induction (calendar_event_tags st) as [|r rows IH]; [done|].
      rewrite filter_cons. case_decide as Hr; [tauto|done]. }
    rewrite app_nil_l. clear.
    induction tagIds as [|t ts IH]; [done|].
    rewrite map_cons, filter_cons. cbn [cet_user_id cet_event_id].
    rewrite decide_True by done. rewrite omap_cons'. cbn [cet_tag_id].
    by rewrite IH.
  - apply String.eqb_neq in Heq.
    assert (filter (λ r, cet_user_id r = uid ∧ cet_event_id r = id)
              (map (λ tagId, mkCalendarEventTagRow uid eventId tagId) tagIds) = [])
      as ->.
    { clear -Heq. induction tagIds as [|t ts IH]; [done|].
      rewrite map_cons, filter_cons. cbn [cet_user_id cet_event_id].
      rewrite decide_False; [done|]. intros [_ H]. congruence. }
    rewrite app_nil_r. f_equal. apply list_filter_iff. intros r.
    split; [tauto|]. intros [H1 H2]. split; [done|]. intros [_ H3]. congruence.
Qed.

(** X10. Tags set on a calendar event are the tags the next fetch shows on
    it.  When [setTagsForCalendarEvent] goes through, it returns normally
    and a fetch of the calendar window afterwards returns every event with
    the tags it had in the store before, except the event written, which
    carries the tags of the ids given, in the order given (ids that name no
    tag are skipped). *)
Theorem setTagsForCalendarEvent_then_fetch
    (sess : Session) (tok : option string)
    (res : Response (option (list GoogleCalendarEvent))) (st : Store)
    (uid eventId : string) (tagIds : list string) :
  getAccessToken sess = Ok tok → truthy uid = true → truthy eventId = true →
  ok res = true →
  let written := setTagsForCalendarEvent st Succeeds Succeeds uid eventId tagIds in
  written.1 = Ok tt
  ∧ fetchCalendarEvents sess (Responded res) written.2 Succeeds uid
    = Ok (map (λ event,
                 with_tags event
                   (if String.eqb (ev_id event) eventId
                    then omap (find_tag st) tagIds
                    else if truthy (ev_id event)
                         then event_tags_of st uid (ev_id event)
                         else []))
              (default [] (body res))).
Proof.
  intros Htok Hu He Hok written. split.
  { subst written. unfold setTagsForCalendarEvent. rewrite Hu, He. simpl.
    by case_bool_decide. }
  rewrite (fetchCalendarEvents_tags sess tok) by done.
  f_equal. apply map_ext. intros event. f_equal. subst written.
  rewrite event_tags_of_after_set by done.
  destruct (String.eqb (ev_id event) eventId) eqn:Heq; [|done].
  apply String.eqb_eq in Heq. by rewrite Heq, He.
Qed.

Lemma setTagsForCalendarEvent_then_fetch_witness :
  (getAccessToken (SessionWith (Some "tok")) = Ok (Some "tok")
   ∧ truthy "u" = true ∧ truthy "e2" = true)
  ∧ fetchCalendarEvents (SessionWith (Some "tok")) example_calendar_answer
      (setTagsForCalendarEvent example_store Succeeds Succeeds "u" "e2"
         ["t2"; "gone"; "t1"]).2 Succeeds "u"
    = Ok [with_tags (example_event "e1") [t1];
          with_tags (example_event "e2") [t2; t1]].
Proof.
  split; [done|]. unfold example_calendar_answer.
  destruct (setTagsForCalendarEvent_then_fetch (SessionWith (Some "tok"))
              (Some "tok")
              (mkResponse 200 "OK" (Some [example_event "e1"; example_event "e2"]) None)
              example_store "u" "e2" ["t2"; "gone"; "t1"]
              eq_refl eq_refl eq_refl eq_refl) as [_ H].
  rewrite H. reflexivity.
Defined.

(** ** Tags written and read back: project cards *)

Lemma setTagsForTimelineCard_rows (st : Store) (uid cardId : string)
    (tagIds : list string) :
  truthy uid = true → truthy cardId = true →
  let st' := (setTagsForTimelineCard st Succeeds Succeeds uid cardId tagIds).2 in
  tags st' = tags st
  ∧ timeline_card_tags st'
    = filter (λ r, ¬ (tct_user_id r = uid ∧ tct_card_id r = cardId))
             (timeline_card_tags st)
      ++ map (λ tagId, mkTimelineCardTagRow uid cardId tagId) tagIds.
Proof.
  intros Hu He. unfold setTagsForTimelineCard. rewrite Hu, He. simpl.
  case_bool_decide as Hne; simpl; [done|].
  assert (tagIds = []) as -> by (destruct tagIds; [done|by destruct Hne]).
  by rewrite app_nil_r.
Qed.

Lemma card_embedded_tags_after_set (st : Store) (uid cardId : string)
    (tagIds : list string) (id : string) :
  truthy uid = true → truthy cardId = true →
  card_embedded_tags
    (setTagsForTimelineCard st Succeeds Succeeds uid cardId tagIds).2 uid id
  = if String.eqb id cardId then omap (find_tag st) tagIds
    else card_embedded_tags st uid id.
Proof.
  intros Hu He.
  destruct (setTagsForTimelineCard_rows st uid cardId tagIds Hu He)
    as [Htags Hrows].
  unfold card_embedded_tags. rewrite Hrows. clear Hrows.
  rewrite (omap_same _ (λ r, find_tag st (tct_tag_id r)));
    [|intros r; by apply find_tag_same_tags].
  rewrite filter_app, omap_app, list_filter_filter.
  destruct (String.eqb id cardId) eqn:Heq.
  - apply String.eqb_eq in Heq as ->.
    assert (filter (λ r, (tct_card_id r = cardId ∧ tct_user_id r = uid)
                         ∧ ¬ (tct_user_id r = uid ∧ tct_card_id r = cardId))
                   (timeline_card_tags st) = []) as ->.
    { induction (timeline_card_tags st) as [|r rows IH]; [done|].
      rewrite filter_cons. case_decide as Hr; [tauto|done]. }
    rewrite app_nil_l. clear.
    induction tagIds as [|t ts IH]; [done|].
    rewrite map_cons, filter_cons. cbn [tct_user_id tct_card_id].
    rewrite decide_True by done. rewrite omap_cons'. cbn [tct_tag_id].
    by rewrite IH.
  - apply String.eqb_neq in Heq.
    assert (filter (λ r, tct_card_id r = id ∧ tct_user_id r = uid)
              (map (λ tagId, mkTimelineCardTagRow uid cardId tagId) tagIds) = [])
      as ->.
    { clear -Heq. induction tagIds as [|t ts IH]; [done|].
      rewrite map_cons, filter_cons. cbn [tct_user_id tct_card_id].
      rewrite decide_False; [done|]. intros [H _]. congruence. }
    rewrite app_nil_r. f_equal. apply list_filter_iff. intros r.
    split; [tauto|]. intros [H1 H2]. split; [done|]. intros [_ H3]. congruence.
Qed.

(** X11. Tags set on a project card are the tags the next fetch shows on it.
    When [setTagsForTimelineCard] goes through, [fetchTimelineCardsWithTags]
    afterwards returns the cards it returned before, in the same order, each
    with the tags it had, except the card written, which carries the tags of
    the ids given, in the order given (ids that name no tag are skipped). *)
Theorem setTagsForTimelineCard_then_fetch
    (orderByStartDate : list TimelineCardRow → list TimelineCardRow)
    (cards : list TimelineCardRow) (st : Store)
    (uid cardId : string) (tagIds : list string) :
  truthy uid = true → truthy cardId = true →
  let written := setTagsForTimelineCard st Succeeds Succeeds uid cardId tagIds in
  written.1 = Ok tt
  ∧ fetchTimelineCardsWithTags orderByStartDate cards written.2 Succeeds uid
    = map (λ card, if String.eqb (tc_id card) cardId
                   then with_card_tags (omap (find_tag st) tagIds) card
                   else card)
          (fetchTimelineCardsWithTags orderByStartDate cards st Succeeds uid).
Proof.
  intros Hu He written. split.
  { subst written. unfold setTagsForTimelineCard. rewrite Hu, He. simpl.
    by case_bool_decide. }
  unfold fetchTimelineCardsWithTags. rewrite Hu. simpl.
  rewrite map_map. apply map_ext. intros card. simpl. subst written.
  rewrite card_embedded_tags_after_set by done.
  by destruct (String.eqb (tcr_id card) cardId).
Qed.

Lemma setTagsForTimelineCard_then_fetch_witness :
  let cards := [mkTimelineCardRow "c1" "u" "Plan" None "2025-03-01" None "d0";
                mkTimelineCardRow "c2" "u" "Launch" None "2025-04-01" None "d0"] in
  (truthy "u" = true ∧ truthy "c2" = true)
  ∧ map tc_tags
      (fetchTimelineCardsWithTags id cards
         (setTagsForTimelineCard example_store Succeeds Succeeds "u" "c2"
            ["t2"; "t1"]).2 Succeeds "u")
    = [[]; [t2; t1]].
Proof.
  intros cards. split; [done|].
  destruct (setTagsForTimelineCard_then_fetch id cards example_store "u" "c2"
              ["t2"; "t1"] eq_refl eq_refl) as [_ H].
  rewrite H. reflexivity.
Defined.

(** ** Deleting a project card from the page *)

Lemma handleDeleteSuccess_spec (id : string) (shown : list TimelineCard)
    (c : TimelineCard) :
  c ∈ handleDeleteSuccess id shown ↔ c ∈ shown ∧ tc_id c ≠ id.
Proof.
  unfold handleDeleteSuccess. rewrite elem_of_bfilter.
  by rewrite negb_true_iff, String.eqb_neq.
Qed.

(** X12. Deleting a project card with the button of the page.  When the
    store refuses the deletion, the list shown, the table of cards and the
    store are what they were.  When it goes through, no card with that id
    is shown any more and the other cards shown are those of before; the
    table keeps exactly the rows that are not that card of that user; a
    fetch afterwards returns no card with that id; and when the user had
    such a card, no association row names it any more. *)
Theorem handleDeleteClick_page_and_store
    (orderByStartDate : list TimelineCardRow → list TimelineCardRow)
    (cards : list TimelineCardRow) (st : Store) (o : Outcome)
    (uid cardId : string) (shown : list TimelineCard) :
  truthy uid = true → truthy cardId = true →
  (∀ l x, x ∈ orderByStartDate l → x ∈ l) →
  let after := handleDeleteClick (Some uid) cards st o cardId shown in
  (o ≠ Succeeds → after = (shown, (cards, st)))
  ∧ (o = Succeeds →
     (∀ c, c ∈ after.1 ↔ c ∈ shown ∧ tc_id c ≠ cardId)
     ∧ (∀ row, row ∈ after.2.1
               ↔ row ∈ cards ∧ ¬ (tcr_id row = cardId ∧ tcr_user_id row = uid))
     ∧ (∀ c, c ∈ fetchTimelineCardsWithTags orderByStartDate after.2.1 after.2.2
                   Succeeds uid → tc_id c ≠ cardId)
     ∧ ((∃ row, row ∈ cards ∧ tcr_id row = cardId ∧ tcr_user_id row = uid) →
        ∀ link, link ∈ timeline_card_tags after.2.2 → tct_card_id link ≠ cardId)).
Proof.
  intros Hu Hc Horder after. subst after.
  unfold handleDeleteClick, deleteTimelineCard. simpl. rewrite Hu, Hc. simpl.
  split.
  { intros Ho. by destruct o. }
  intros ->. simpl. split; [|split; [|split]].
  - intros c. apply handleDeleteSuccess_spec.
  - intros row. rewrite list_elem_of_filter. tauto.
  - intros c Hin. unfold fetchTimelineCardsWithTags in Hin. rewrite Hu in Hin.
    simpl in Hin. apply list_elem_of_fmap in Hin as (row & -> & Hrow). simpl.
    apply Horder in Hrow. apply list_elem_of_filter in Hrow as [Huser Hrow].
    apply list_elem_of_filter in Hrow as [Hkey _]. intros Hid. by apply Hkey.
  - intros (row & Hrow & Hid & Huser) link Hlink.
    rewrite bool_decide_eq_false_2 in Hlink.
    + simpl in Hlink. by apply list_elem_of_filter in Hlink as [? _].
    + intros Hnil.
      assert (row ∈ filter (λ card, tcr_id card = cardId ∧ tcr_user_id card = uid)
                           cards) as Hin by (by apply list_elem_of_filter).
      rewrite Hnil in Hin. by apply elem_of_nil in Hin.
Qed.

Lemma handleDeleteClick_page_and_store_witness :
  let cards := [mkTimelineCardRow "c1" "u" "Plan" None "2025-03-01" None "d0";
                mkTimelineCardRow "c2" "u" "Launch" None "2025-04-01" None "d0"] in
  let st := with_timeline_card_tags [mkTimelineCardTagRow "u" "c2" "t1"]
              example_store in
  let shown := fetchTimelineCardsWithTags id cards st Succeeds "u" in
  (truthy "u" = true ∧ truthy "c2" = true)
  ∧ handleDeleteClick (Some "u") cards st (Fails "denied") "c2" shown
    = (shown, (cards, st))
  ∧ map tc_id (handleDeleteClick (Some "u") cards st Succeeds "c2" shown).1 = ["c1"]
  ∧ timeline_card_tags (handleDeleteClick (Some "u") cards st Succeeds "c2" shown).2.2
    = [].
Proof.
  intros cards st shown. split; [done|]. split; [|split; reflexivity].
  apply (handleDeleteClick_page_and_store id cards st (Fails "denied") "u" "c2" shown
           eq_refl eq_refl); done.
Defined.

(** ** The body part of a message *)

Lemma find_app' {A} (f : A → bool) (l1 l2 : list A) :
  List.find f (l1 ++ l2)
  = match List.find f l1 with
    | Some x => Some x
    | None => List.find f l2
    end.
Proof.
  induction l1 as [|x l1 IH]; [done|]. simpl. by destruct (f x).
Qed.

Lemma last_app' {A} (l1 l2 : list A) :
  last (l1 ++ l2) = match last l2 with Some x => Some x | None => last l1 end.
Proof.
  induction l2 as [|x l2 IH] using rev_ind.
  - by rewrite app_nil_r; destruct (last l1).
  - by rewrite app_assoc, !last_snoc'.
Qed.

Lemma last_text_app (l1 l2 : list GmailMessagePart)
    (t : option GmailMessagePart) :
  last_text (l1 ++ l2) t = last_text l2 (last_text l1 t).
Proof.
  unfold last_text. rewrite List.filter_app, last_app'.
  by destruct (last (List.filter is_text_part l2)).
Qed.

Lemma last_text_cons (part : GmailMessagePart) (l : list GmailMessagePart)
    (t : option GmailMessagePart) :
  last_text (part :: l) t
  = last_text l (if is_text_part part then Some part else t).
Proof.
  change (part :: l) with ([part] ++ l). rewrite last_text_app. f_equal.
  unfold last_text. simpl. by destruct (is_text_part part).
Qed.

(** What one call of [findPartsRecursive] leaves in the two variables, when
    no HTML part has been found before it. *)
Lemma findPartsRecursive_spec (part : GmailMessagePart)
    (t : option GmailMessagePart) :
  (findPartsRecursive part (None, t)).1
  = List.find is_html_part (document_order part)
  ∧ ((findPartsRecursive part (None, t)).1 = None →
     (findPartsRecursive part (None, t)).2 = last_text (document_order part) t).
Proof.
  revert t. induction part
    as [partId mimeType filename headers aid size data parts IH]
    using GmailMessagePart_ind.
  intros t.
  set (part := mkPart partId mimeType filename headers aid size data parts).
  assert (document_order part
          = part :: (if is_html_part part then []
                     else match parts with
                          | Some subParts =>
                              if String.prefix "multipart/" mimeType
                              then (fix below (subParts : list GmailMessagePart) :=
                                      match subParts with
                                      | [] => []
                                      | subPart :: rest =>
                                          document_order subPart ++ below rest
                                      end) subParts
                              else []
                          | None => []
                          end)) as Horder by done.
  assert (findPartsRecursive part (None, t)
          = if is_html_part part then (Some part, t)
            else match parts with
                 | Some subParts =>
                     if String.prefix "multipart/" mimeType then
                       (fix for_of (subParts : list GmailMessagePart)
                            (found : option GmailMessagePart
                                     * option GmailMessagePart) :=
                          match subParts with
                          | [] => found
                          | subPart :: rest =>
                              if bool_decide (is_Some found.1) then found
                              else for_of rest (findPartsRecursive subPart found)
                          end) subParts
                         (None, if is_text_part part then Some part else t)
                     else (None, if is_text_part part then Some part else t)
                 | None => (None, if is_text_part part then Some part else t)
                 end) as Hrun.
  { subst part. simpl. destruct (is_html_part _); [done|].
    destruct parts as [subParts|]; [destruct (String.prefix _ _)|];
      by rewrite andb_true_r. }
  rewrite Hrun, Horder. clear Hrun Horder.
  destruct (is_html_part part) eqn:Hhtml.
  { simpl. rewrite Hhtml. done. }
  cbn [List.find]. rewrite Hhtml, last_text_cons.
  generalize (if is_text_part part then Some part else t). clear t. intros t.
  clear Hhtml. clear part.
  destruct parts as [subParts|]; [|done].
  destruct (String.prefix "multipart/" mimeType); [|done].
  revert t. induction subParts as [|subPart rest IHrest]; intros t; [done|].
  apply Forall_cons in IH as [IHsub IHall].
  specialize (IHrest IHall).
  rewrite find_app', last_text_app.
  destruct (IHsub t) as [H1 H2].
  cbn [fst bool_decide]. rewrite bool_decide_eq_false_2 by (intros [? [=]]).
  destruct (findPartsRecursive subPart (None, t)) as [h t'] eqn:Hsub.
  simpl in H1, H2. rewrite <- H1.
  destruct h as [h|].
  - destruct rest as [|next rest']; [done|].
    rewrite bool_decide_eq_true_2 by (by eexists). done.
  - rewrite H2 by done. apply IHrest.
Qed.

(** X13. Which part of a message is shown as its body.  Among the parts the
    search reaches, in document order, [findBestBodyPart] returns the first
    HTML part that has data; when there is none it returns the last
    plain-text part that has data (not the first); when there is none
    either, and when there is no payload, it returns nothing.  So whatever
    it returns is a part of the message, of type text/html or text/plain,
    with data. *)
Theorem findBestBodyPart_first_html_else_last_text (payload : GmailMessagePart) :
  findBestBodyPart None = None
  ∧ findBestBodyPart (Some payload)
    = match List.find is_html_part (document_order payload) with
      | Some part => Some part
      | None => last (List.filter is_text_part (document_order payload))
      end
  ∧ ∀ part, findBestBodyPart (Some payload) = Some part →
            part ∈ document_order payload
            ∧ is_html_part part || is_text_part part = true.
Proof.
  split; [done|].
  assert (findBestBodyPart (Some payload)
          = match List.find is_html_part (document_order payload) with
            | Some part => Some part
            | None => last (List.filter is_text_part (document_order payload))
            end) as Heq.
  { unfold findBestBodyPart.
    destruct (findPartsRecursive_spec payload None) as [H1 H2].
    destruct (findPartsRecursive payload (None, None)) as [h t].
    simpl in H1, H2. rewrite <- H1. destruct h as [h|]; [done|].
    rewrite H2 by done. unfold last_text.
    by destruct (last (List.filter is_text_part (document_order payload))). }
  split; [exact Heq|].
  intros part Hpart. rewrite Heq in Hpart.
  destruct (List.find is_html_part (document_order payload)) as [h|] eqn:Hfind.
  - injection Hpart as ->. apply find_some in Hfind as [Hin Hhtml].
    split; [by apply list_elem_of_In|]. by rewrite Hhtml.
  - apply last_Some in Hpart as [l' Hl'].
    assert (part ∈ List.filter is_text_part (document_order payload)) as Hin.
    { rewrite Hl'. apply elem_of_app. right. by left. }
    apply elem_of_bfilter in Hin as [Hin Htext].
    split; [done|]. rewrite Htext. apply orb_true_r.
Qed.

(** A message with two plain-text alternatives and no HTML: the second one is
    the body. *)
Example findBestBodyPart_two_texts :
  let text1 := mkPart "0" "text/plain" "" [] None 5 (Some "Zmlyc3Q") None in
  let text2 := mkPart "1" "text/plain" "" [] None 6 (Some "c2Vjb25k") None in
  findBestBodyPart
    (Some (mkPart "" "multipart/mixed" "" [] None 0 None (Some [text1; text2])))
  = Some text2.
Proof. reflexivity. Qed.

(** ** The tag filter of the project cards *)

Example Object_values_order :
  Object_values [("b", 1); ("10", 2); ("2", 3); ("a", 4); ("01", 5)]
  = [3; 2; 1; 4; 5].
Proof. reflexivity. Qed.

Lemma elem_of_Object_values {V} (obj : list (string * V)) (v : V) :
  v ∈ Object_values obj ↔ v ∈ obj.*2.
Proof.
  unfold Object_values. rewrite elem_of_app, merge_sort_Permutation.
  rewrite !list_elem_of_fmap. split.
  - intros [([n v'] & -> & Hin)|([k v'] & -> & Hin)].
    + apply list_elem_of_omap in Hin as ([k v''] & Hin & Hsome). simpl in *.
      destruct (array_index k); [|done]. injection Hsome as _ ->.
      by exists (k, v').
    + apply list_elem_of_filter in Hin as [_ Hin]. by exists (k, v').
  - intros ([k v'] & -> & Hin). simpl.
    destruct (array_index k) as [n|] eqn:Hk.
    + left. exists (n, v'). split; [done|]. apply list_elem_of_omap.
      exists (k, v'). split; [done|]. simpl. by rewrite Hk.
    + right. exists (k, v'). split; [done|]. by apply list_elem_of_filter.
Qed.

Section cards_query.
Context (cards : list TimelineCardRow) (st : Store) (uid : string)
        (tagIds : list string).

Lemma elem_of_card_tag_ids (t cardId : string) :
  t ∈ card_tag_ids st uid cardId ↔
  ∃ tct, tct ∈ timeline_card_tags st ∧ tct_tag_id tct = t
         ∧ tct_card_id tct = cardId ∧ tct_user_id tct = uid.
Proof.
  unfold card_tag_ids.
  rewrite elem_of_list_to_set, list_elem_of_fmap. split.
  - intros (tct & -> & H). apply list_elem_of_filter in H as [[? ?] ?].
    by exists tct.
  - intros (tct & H & <- & ? & ?). exists tct. split; [done|].
    by apply list_elem_of_filter.
Qed.

Lemma elem_of_embedded_card_tags (t cardId : string) :
  t ∈ map tct_tag_id
        (filter (λ tct, tct_card_id tct = cardId ∧ tct_user_id tct = uid
                        ∧ tct_tag_id tct ∈ tagIds) (timeline_card_tags st))
  ↔ t ∈ tagIds ∧ t ∈ card_tag_ids st uid cardId.
Proof.
  rewrite elem_of_card_tag_ids, list_elem_of_fmap. split.
  - intros (tct & -> & H). apply list_elem_of_filter in H as [(? & ? & ?) ?].
    split; [done|]. by exists tct.
  - intros (Ht & tct & H & <- & ? & ?). exists tct. split; [done|].
    by apply list_elem_of_filter.
Qed.

Lemma elem_of_select_cards_by_tags (row : CardWithTags) :
  row ∈ select_cards_by_tags cards st uid tagIds ↔
  cwt_card row ∈ cards ∧ tcr_user_id (cwt_card row) = uid
  ∧ cwt_timeline_card_tags row ≠ []
  ∧ cwt_timeline_card_tags row
    = map tct_tag_id
        (filter (λ tct, tct_card_id tct = tcr_id (cwt_card row)
                        ∧ tct_user_id tct = uid ∧ tct_tag_id tct ∈ tagIds)
                (timeline_card_tags st)).
Proof.
  unfold select_cards_by_tags.
  rewrite elem_of_bfilter, negb_true_iff, bool_decide_eq_false.
  rewrite list_elem_of_fmap. split.
  - intros [(card & -> & Hcard) Hne]. simpl in *.
    by apply list_elem_of_filter in Hcard as [? ?].
  - intros (Hcard & Hu & Hne & Htags). split; [|done].
    exists (cwt_card row). split.
    + destruct row as [card ts]; simpl in *. by rewrite Htags.
    + by apply list_elem_of_filter.
Qed.

(** The cards the query answers with: those of the user that carry one of
    the selected tags. *)
Lemma select_cards_by_tags_cards (card : TimelineCardRow) :
  card ∈ cwt_card <$> select_cards_by_tags cards st uid tagIds ↔
  card ∈ cards ∧ tcr_user_id card = uid
  ∧ ∃ t, t ∈ tagIds ∧ t ∈ card_tag_ids st uid (tcr_id card).
Proof.
  rewrite list_elem_of_fmap. split.
  - intros (row & -> & Hrow).
    apply elem_of_select_cards_by_tags in Hrow as (Hcard & Hu & Hne & Htags).
    split; [done|]. split; [done|].
    destruct (cwt_timeline_card_tags row) as [|t ts] eqn:Hts; [done|].
    exists t. apply elem_of_embedded_card_tags. rewrite <- Htags. by left.
  - intros (Hcard & Hu & t & Ht & HtT).
    exists (mkCardWithTags card
              (map tct_tag_id
                 (filter (λ tct, tct_card_id tct = tcr_id card
                                 ∧ tct_user_id tct = uid ∧ tct_tag_id tct ∈ tagIds)
                         (timeline_card_tags st)))).
    split; [done|]. apply elem_of_select_cards_by_tags. simpl.
    repeat split; try done. intros Hnil.
    assert (t ∈ map tct_tag_id
                  (filter (λ tct, tct_card_id tct = tcr_id card
                                  ∧ tct_user_id tct = uid ∧ tct_tag_id tct ∈ tagIds)
                          (timeline_card_tags st))) as Hin
      by (by apply elem_of_embedded_card_tags).
    rewrite Hnil in Hin. by apply elem_of_nil in Hin.
Qed.
End cards_query.

(** The [reduce] of the "any" mode records, for every id that is not a
    property of the prototype, the first row with that id. *)
Lemma uniqueCards_keys (cardsData : list CardWithTags)
    (acc : list (string * TimelineCardRow)) (k : string) :
  k ∈ (fold_left (λ acc current,
                    let cardData := cwt_card current in
                    if negb (object_has_truthy (tcr_id cardData) acc)
                    then jsmap_set (tcr_id cardData) cardData acc
                    else acc) cardsData acc).*1
  ↔ k ∈ acc.*1
    ∨ (k ∈ (tcr_id ∘ cwt_card) <$> cardsData ∧ k ∉ object_prototype_keys).
Proof.
  revert acc. induction cardsData as [|x l IH]; intros acc; simpl.
  { rewrite elem_of_nil. tauto. }
  rewrite IH. unfold object_has_truthy.
  destruct (jsmap_has _ acc) eqn:Hhas; simpl.
  - apply jsmap_has_true in Hhas. rewrite elem_of_cons.
    split; [tauto|]. intros [?|[[->|?] ?]]; auto.
  - case_bool_decide as Hproto; simpl.
    + rewrite elem_of_cons. split; [tauto|].
      intros [?|[[->|?] ?]]; auto. done.
    + rewrite jsmap_set_keys, elem_of_cons.
      split; [intros [[->|?]|[? ?]]; auto|].
      intros [?|[[->|?] ?]]; auto.
Qed.

Lemma uniqueCards_values (pool : list TimelineCardRow)
    (cardsData : list CardWithTags) (acc : list (string * TimelineCardRow)) :
  (∀ x, x ∈ cardsData → cwt_card x ∈ pool) →
  Forall (λ p, tcr_id p.2 = p.1 ∧ p.2 ∈ pool) acc →
  Forall (λ p, tcr_id p.2 = p.1 ∧ p.2 ∈ pool)
    (fold_left (λ acc current,
                  let cardData := cwt_card current in
                  if negb (object_has_truthy (tcr_id cardData) acc)
                  then jsmap_set (tcr_id cardData) cardData acc
                  else acc) cardsData acc).
Proof.
  revert acc. induction cardsData as [|x l IH]; intros acc Hpool Hacc; simpl;
    [done|].
  apply IH; [intros y Hy; apply Hpool; by right|].
  destruct (negb (object_has_truthy (tcr_id (cwt_card x)) acc)) eqn:Hset;
    [|done].
  rewrite jsmap_set_fresh.
  - apply Forall_app. split; [done|]. constructor; [|done].
    split; [done|]. apply Hpool. by left.
  - intros Hin. apply jsmap_has_true in Hin.
    apply negb_true_iff in Hset. unfold object_has_truthy in Hset.
    by rewrite Hin in Hset.
Qed.

Lemma keyed_values_ids (obj : list (string * TimelineCardRow)) (id : string) :
  Forall (λ p, tcr_id p.2 = p.1) obj →
  id ∈ tcr_id <$> obj.*2 ↔ id ∈ obj.*1.
Proof.
  intros Hobj. rewrite Forall_forall in Hobj.
  rewrite <- list_fmap_compose, !list_elem_of_fmap. split.
  - intros (p & -> & Hp). exists p. split; [|done]. simpl. by apply Hobj.
  - intros (p & -> & Hp). exists p. split; [|done]. simpl. symmetry.
    by apply Hobj.
Qed.

Lemma fetchTimelineCustomCardsByTags_ids
    (cards : list TimelineCardRow) (st : Store) (uid : string)
    (tagIds : list string) (mode : FilterMode) :
  tagIds ≠ [] →
  (∀ card, card ∈ cards → tcr_id card ∉ object_prototype_keys) →
  ∃ out,
    fetchTimelineCustomCardsByTags (Some uid) cards st Succeeds tagIds mode = Ok out
    ∧ (∀ card, card ∈ out → card ∈ cards ∧ tcr_user_id card = uid)
    ∧ (∀ id, id ∈ tcr_id <$> out
             ↔ has_card cards uid id
               ∧ Passes mode (list_to_set tagIds) (card_tag_ids st uid id)).
Proof.
  intros Hne Hproto. unfold fetchTimelineCustomCardsByTags.
  rewrite bool_decide_eq_false_2 by done.
  set (cardsData := select_cards_by_tags cards st uid tagIds).
  assert (∀ x, x ∈ cardsData →
               cwt_card x ∈ filter (λ card, tcr_user_id card = uid) cards)
    as Hpool.
  { intros x Hx. apply elem_of_select_cards_by_tags in Hx as (? & ? & _).
    by apply list_elem_of_filter. }
  destruct mode.
  - (* any *)
    eexists. split; [done|].
    set (uniqueCards := fold_left _ cardsData []).
    pose proof (uniqueCards_values _ cardsData [] Hpool (Forall_nil_2 _)) as Hvals.
    fold uniqueCards in Hvals. split.
    + intros card Hcard. apply elem_of_Object_values in Hcard.
      apply list_elem_of_fmap in Hcard as (p & -> & Hp).
      rewrite Forall_forall in Hvals. destruct (Hvals p Hp) as [_ Hin].
      apply list_elem_of_filter in Hin as [? ?]. done.
    + intros id.
      assert (id ∈ tcr_id <$> Object_values uniqueCards
              ↔ id ∈ tcr_id <$> uniqueCards.*2) as ->.
      { rewrite !list_elem_of_fmap.
        split; intros (c & -> & Hc); exists c; (split; [done|]);
          by apply elem_of_Object_values. }
      rewrite keyed_values_ids
        by (eapply Forall_impl; [exact Hvals|]; by intros p [? _]).
      subst uniqueCards. rewrite uniqueCards_keys, elem_of_nil.
      rewrite passes_any_iff, list_fmap_compose, list_elem_of_fmap. split.
      * intros [[]|[(card & -> & Hcard) _]].
        apply select_cards_by_tags_cards in Hcard as (Hc & Hu & t & Ht & HtT).
        split; [by exists card|]. exists t. split; [|done].
        by apply elem_of_list_to_set.
      * intros [(card & Hc & <- & Hu) (t & Ht & HtT)]. right. split.
        -- exists card. split; [done|]. apply select_cards_by_tags_cards.
           split; [done|]. split; [done|]. exists t. split; [|done].
           by apply elem_of_list_to_set in Ht.
        -- by apply Hproto.
  - (* all *)
    eexists. split; [done|]. split.
    + intros card Hcard. apply list_elem_of_fmap in Hcard as (row & -> & Hrow).
      apply elem_of_bfilter in Hrow as [Hrow _].
      apply elem_of_select_cards_by_tags in Hrow as (? & ? & _). done.
    + intros id. rewrite list_elem_of_fmap. split.
      * intros (card & -> & Hcard).
        apply list_elem_of_fmap in Hcard as (row & -> & Hrow).
        apply elem_of_bfilter in Hrow as [Hrow Hall].
        apply elem_of_select_cards_by_tags in Hrow as (Hc & Hu & Hnil & Htags).
        split; [by exists (cwt_card row)|].
        apply every_has_spec in Hall. simpl in *. intros t Ht.
        specialize (Hall t Ht). apply elem_of_list_to_set in Hall.
        rewrite Htags in Hall.
        by apply elem_of_embedded_card_tags in Hall as [_ ?].
      * intros [(card & Hc & <- & Hu) Hsub]. simpl in Hsub.
        exists card. split; [done|]. apply list_elem_of_fmap.
        set (ts := map tct_tag_id
                     (filter (λ tct, tct_card_id tct = tcr_id card
                                     ∧ tct_user_id tct = uid
                                     ∧ tct_tag_id tct ∈ tagIds)
                             (timeline_card_tags st))).
        assert (∀ t, t ∈ tagIds → t ∈ ts) as Hin.
        { intros t Ht. apply elem_of_embedded_card_tags. split; [done|].
          apply Hsub. by apply elem_of_list_to_set. }
        exists (mkCardWithTags card ts). split; [done|].
        apply elem_of_bfilter. split.
        -- apply elem_of_select_cards_by_tags. simpl. repeat split; try done.
           destruct tagIds as [|t0 rest]; [done|]. intros Hnil.
           specialize (Hin t0 (list_elem_of_here _ _)). rewrite Hnil in Hin.
           by apply elem_of_nil in Hin.
        -- apply every_has_spec. simpl. intros t Ht.
           apply elem_of_list_to_set. apply Hin. by apply elem_of_list_to_set in Ht.
Qed.

(** X14. The multi-tag filter of the project cards decides membership by the
    same set predicate as the other readers.  For a non-empty selection, and
    a table in which no card id is a property name of [Object.prototype],
    [fetchTimelineCustomCardsByTags] returns cards of the user only, and a
    card id is among those returned iff the user has a card with that id
    whose tag-id set meets the selection (ANY) or contains it (ALL). *)
Theorem fetchTimelineCustomCardsByTags_membership
    (cards : list TimelineCardRow) (st : Store) (uid : string)
    (tagIds : list string) (mode : FilterMode) :
  tagIds ≠ [] →
  (∀ card, card ∈ cards → tcr_id card ∉ object_prototype_keys) →
  ∃ out,
    fetchTimelineCustomCardsByTags (Some uid) cards st Succeeds tagIds mode = Ok out
    ∧ (∀ card, card ∈ out → card ∈ cards ∧ tcr_user_id card = uid)
    ∧ (∀ id, id ∈ tcr_id <$> out
             ↔ has_card cards uid id
               ∧ Passes mode (list_to_set tagIds) (card_tag_ids st uid id)).
Proof. apply fetchTimelineCustomCardsByTags_ids. Qed.

Lemma fetchTimelineCustomCardsByTags_membership_witness :
  let cards := [mkTimelineCardRow "c1" "u" "Plan" None "2025-03-01" None "d0";
                mkTimelineCardRow "c2" "u" "Launch" None "2025-04-01" None "d0"] in
  let st := with_timeline_card_tags
              [mkTimelineCardTagRow "u" "c1" "t1"; mkTimelineCardTagRow "u" "c2" "t1";
               mkTimelineCardTagRow "u" "c2" "t2"] example_store in
  ["t1"; "t2"] ≠ []
  ∧ (∀ card, card ∈ cards → tcr_id card ∉ object_prototype_keys)
  ∧ (tcr_id <$> default []
       (match fetchTimelineCustomCardsByTags (Some "u") cards st Succeeds
                ["t1"; "t2"] ModeAll with
        | Ok out => Some out
        | Throw _ => None
        end)) = ["c2"]
  ∧ ∃ out,
      fetchTimelineCustomCardsByTags (Some "u") cards st Succeeds ["t1"; "t2"] ModeAll
      = Ok out
      ∧ (∀ card, card ∈ out → card ∈ cards ∧ tcr_user_id card = "u")
      ∧ (∀ id, id ∈ tcr_id <$> out
               ↔ has_card cards "u" id
                 ∧ Passes ModeAll (list_to_set ["t1"; "t2"]) (card_tag_ids st "u" id)).
Proof.
  intros cards st.
  assert (∀ card, card ∈ cards → tcr_id card ∉ object_prototype_keys) as Hproto.
  { intros card Hin Hp. subst cards.
    repeat (apply elem_of_cons in Hin as [->|Hin];
            [simpl in Hp;
             repeat (apply elem_of_cons in Hp as [Hp|Hp]; [discriminate|]);
             by apply elem_of_nil in Hp|]).
    by apply elem_of_nil in Hin. }
  split; [done|]. split; [exact Hproto|]. split; [reflexivity|].
  apply (fetchTimelineCustomCardsByTags_membership cards st "u" ["t1"; "t2"] ModeAll);
    [done|exact Hproto].
Defined.

(** In the "any" mode a card whose id is a property name of
    [Object.prototype] is never recorded, although it carries a selected tag;
    the "all" mode returns it. *)
Example fetchTimelineCustomCardsByTags_prototype_key :
  let cards := [mkTimelineCardRow "constructor" "u" "Plan" None "2025-03-01" None "d0";
                mkTimelineCardRow "7" "u" "Launch" None "2025-04-01" None "d0";
                mkTimelineCardRow "c3" "u" "Retro" None "2025-05-01" None "d0";
                mkTimelineCardRow "10" "u" "Kickoff" None "2025-02-01" None "d0"] in
  let st := with_timeline_card_tags
              [mkTimelineCardTagRow "u" "constructor" "t1";
               mkTimelineCardTagRow "u" "7" "t1";
               mkTimelineCardTagRow "u" "c3" "t1";
               mkTimelineCardTagRow "u" "10" "t1"] example_store in
  (tcr_id <$> default []
     (match fetchTimelineCustomCardsByTags (Some "u") cards st Succeeds ["t1"] ModeAny
      with Ok out => Some out | Throw _ => None end)) = ["7"; "10"; "c3"]
  ∧ (tcr_id <$> default []
       (match fetchTimelineCustomCardsByTags (Some "u") cards st Succeeds ["t1"] ModeAll
        with Ok out => Some out | Throw _ => None end))
    = ["constructor"; "7"; "c3"; "10"].
Proof. split; reflexivity. Qed.

(** ** From the tag selection of the header to the request of the list *)

Lemma split_comma_comma_free (s : string) :
  comma_free s = true → split_comma s = [s].
Proof.
  induction s as [|c s IH]; [done|]. simpl.
  destruct (Ascii.eqb c (Ascii.ascii_of_nat 44)); [done|]. simpl.
  intros H. by rewrite IH.
Qed.

Lemma split_comma_append (s rest : string) :
  comma_free s = true →
  split_comma (s +:+ String (Ascii.ascii_of_nat 44) rest) = s :: split_comma rest.
Proof.
  induction s as [|c s IH]; simpl.
  - done.
  - destruct (Ascii.eqb c (Ascii.ascii_of_nat 44)); [done|]. simpl.
    intros H. by rewrite IH.
Qed.

(** [ids.join(',').split(',')] gives [ids] back, for a non-empty list of
    ids without commas. *)
Lemma split_comma_join_comma (ids : list string) :
  ids ≠ [] → Forall (λ id, comma_free id = true) ids →
  split_comma (join_comma ids) = ids.
Proof.
  intros Hne Hall. induction Hall as [|id ids Hid Hall IH]; [done|].
  destruct ids as [|id' ids].
  - simpl. by apply split_comma_comma_free.
  - change (join_comma (id :: id' :: ids))
      with (id +:+ String (Ascii.ascii_of_nat 44) (join_comma (id' :: ids))).
    rewrite split_comma_append by done. f_equal. by apply IH.
Qed.

Lemma sp_get_delete_eq (name : string) (sp : list (string * string)) :
  sp_get name (sp_delete name sp) = None.
Proof.
  unfold sp_get, sp_delete. induction sp as [|[k v] sp IH]; [done|]. simpl.
  destruct (String.eqb k name) eqn:Hk; simpl; [done|]. by rewrite Hk.
Qed.

Lemma sp_get_delete_ne (name other : string) (sp : list (string * string)) :
  name ≠ other → sp_get name (sp_delete other sp) = sp_get name sp.
Proof.
  intros Hne. unfold sp_get, sp_delete.
  induction sp as [|[k v] sp IH]; [done|]. simpl.
  destruct (String.eqb k other) eqn:Hk; simpl.
  - apply String.eqb_eq in Hk as ->.
    destruct (String.eqb_spec other name) as [->|_]; done.
  - destruct (String.eqb k name); done.
Qed.

Lemma sp_get_set_eq (name value : string) (sp : list (string * string)) :
  sp_get name (sp_set name value sp) = Some value.
Proof.
  unfold sp_get. induction sp as [|[k v] sp IH]; simpl.
  - by rewrite String.eqb_refl.
  - destruct (String.eqb k name) eqn:Hk; simpl.
    + by rewrite String.eqb_refl.
    + by rewrite Hk.
Qed.

Lemma sp_get_set_ne (name other value : string) (sp : list (string * string)) :
  name ≠ other → sp_get name (sp_set other value sp) = sp_get name sp.
Proof.
  intros Hne. induction sp as [|[k v] sp IH]; simpl.
  - unfold sp_get. simpl.
    destruct (String.eqb_spec other name) as [->|_]; done.
  - destruct (String.eqb k other) eqn:Hk; simpl.
    + apply String.eqb_eq in Hk as ->.
      pose proof (sp_get_delete_ne name other sp Hne) as Hd.
      unfold sp_get in *. simpl.
      destruct (String.eqb_spec other name) as [->|_]; done.
    + unfold sp_get in *. simpl. destruct (String.eqb k name); done.
Qed.

(** What the list reads from the location the header navigates to. *)
Lemma syncUrl_tags (searchParams sp' : list (string * string)) (h : HeaderState) :
  syncUrl false searchParams h = Some sp' →
  sp_get "tags" sp'
  = (if bool_decide (selectedTagIds h ≠ [])
     then Some (join_comma (selectedTagIds h)) else None)
  ∧ (selectedTagIds h ≠ [] → sp_get "mode" sp' = Some (filterMode h)).
Proof.
  unfold syncUrl. intros [= <-].
  set (currentParams := if bool_decide (selectedTagIds h ≠ []) then _ else _).
  assert (∀ name, name ≠ "q" →
            sp_get name
              match sp_get "q" searchParams with
              | Some q => if truthy q then sp_set "q" q currentParams
                          else sp_delete "q" currentParams
              | None => sp_delete "q" currentParams
              end = sp_get name currentParams) as Hq.
  { intros name Hname. destruct (sp_get "q" searchParams) as [q|].
    - destruct (truthy q).
      + by apply sp_get_set_ne.
      + by apply sp_get_delete_ne.
    - by apply sp_get_delete_ne. }
  rewrite !Hq by done. subst currentParams. case_bool_decide as Hsel.
  - split.
    + rewrite sp_get_set_ne by done. apply sp_get_set_eq.
    + intros _. apply sp_get_set_eq.
  - split; [|done].
    rewrite sp_get_delete_ne by done. apply sp_get_delete_eq.
Qed.

Section by_tags_request.
Context (env : Env) (p : Props) (s0 : ListState).

Ltac first_leaf :=
  unfold starts_with, suspend, upd in *; simpl in *;
  try match goal with H : ∃ _, _ |- _ => destruct H as [? ->] end;
  simpl; eauto.

Lemma load_multi_tag_request (tagsParam : string) (l : LoadSt) :
  ls_trace l = [] →
  wp (load_multi_tag env p s0 tagsParam)
     (λ _, starts_with (ReqByTags (split_comma tagsParam) (filterModeParam p)))
     (starts_with (ReqByTags (split_comma tagsParam) (filterModeParam p))) l.
Proof.
  intros Htr. unfold load_multi_tag, reset_paging.
  wp_run; unfold starts_with, suspend, upd; simpl; rewrite Htr; simpl; eauto.
Qed.

(** The first request of a load of the multi-tag filter view is the by-tags
    reader, called with the ids of the [tags] parameter and the mode of the
    [mode] parameter. *)
Lemma effect_by_tags_request (tagsParam : string) :
  loads p = true → filterTagsParam p = Some tagsParam →
  truthy tagsParam = true →
  ∃ rest, (effect env p s0).2
          = ReqByTags (split_comma tagsParam) (filterModeParam p) :: rest.
Proof.
  unfold loads. intros Hloads Htags Htruthy.
  apply andb_prop in Hloads as [Hloads Hthread].
  apply andb_prop in Hloads as [Hauth Huid].
  apply negb_true_iff in Hthread.
  assert (isNewTagFilterView p = true) as Hnew.
  { unfold isNewTagFilterView. by rewrite Htags. }
  unfold effect. rewrite Hauth, Huid. simpl.
  unfold loadData. rewrite Hthread.
  set (l1 := upd (setError None) (upd (setIsLoading true) (mkLoadSt s0 [] 0 false))).
  set (r := ReqByTags (split_comma tagsParam) (filterModeParam p)).
  assert (wp (load_try env p s0) (λ _, starts_with r) (starts_with r) l1) as Hwp.
  { unfold load_try. apply wp_bind, wp_read. apply wp_bind.
    assert (∀ l', ls_trace l' = [] →
              wp (view ← load_view env p s0;
                  merged ← load_common env p s0 view;
                  load_commit p s0 merged)
                 (λ _, starts_with r) (starts_with r) l') as Hrest.
    { intros l' Hl'. apply wp_bind. unfold load_view. rewrite Hnew, Htags. simpl.
      eapply wp_mono; [| |by apply load_multi_tag_request]; [|done].
      intros view l2 H2. simpl. apply wp_bind. unfold load_common.
      destruct view as [[messageIds res] cache]. rewrite Hnew. simpl.
      apply wp_ret. by apply load_commit_first. }
    match goal with |- context [when ?b _] => destruct b end; unfold when.
    - wp_step. wp_step. wp_step. by apply Hrest.
    - wp_step. by apply Hrest. }
  unfold wp in Hwp.
  destruct (runLoad _ _) as [a l'|l'|msg l'].
  - destruct (ls_aborted l'); first_leaf.
  - destruct (ls_aborted l'); first_leaf.
  - destruct (ls_aborted (upd _ _)); first_leaf.
Qed.
End by_tags_request.

(** X15. The tags ticked in the header are the tags the list filters by.
    Outside a thread, the header navigates to a location whose [tags]
    parameter is the selection joined by commas, and the list, rendered for
    that location, splits it again.  So for a selection of ids without
    commas whose joined form is not empty, the load of the list starts with
    the by-tags reader called with exactly the selected ids, in the mode
    "all" when the mode cell of the header is "all" and "any" otherwise; for
    an empty selection the [tags] parameter is removed and the load never
    calls the by-tags reader. *)
Theorem header_selection_reaches_reader
    (env : Env) (s0 : ListState) (user : option string)
    (searchParams sp' : list (string * string)) (h : HeaderState) :
  truthy_opt user = true →
  Forall (λ id, comma_free id = true) (selectedTagIds h) →
  syncUrl false searchParams h = Some sp' →
  let p := list_props true user sp' None in
  (selectedTagIds h = [] → no_by_tags (effect env p s0).2)
  ∧ (truthy (join_comma (selectedTagIds h)) = true →
     ∃ rest, (effect env p s0).2
             = ReqByTags (selectedTagIds h)
                 (if String.eqb (filterMode h) "all" then ModeAll else ModeAny)
               :: rest).
Proof.
  intros Huser Hfree Hsync p.
  destruct (syncUrl_tags searchParams sp' h Hsync) as [Htags Hmode].
  split.
  - intros Hnil. apply effect_no_by_tags.
    unfold isNewTagFilterView, filterTagsParam, p. simpl.
    rewrite Htags, Hnil. done.
  - intros Htruthy.
    assert (selectedTagIds h ≠ []) as Hne by (intros Hnil; by rewrite Hnil in Htruthy).
    rewrite bool_decide_eq_true_2 in Htags by done.
    destruct (effect_by_tags_request env p s0 (join_comma (selectedTagIds h)))
      as [rest Hrest]; try done.
    { unfold loads, p. simpl. by rewrite Huser. }
    exists rest. rewrite Hrest. f_equal.
    rewrite split_comma_join_comma by done. f_equal.
    unfold filterModeParam, p. simpl. by rewrite (Hmode Hne).
Qed.

Lemma header_selection_reaches_reader_witness :
  let h := handleTagSelectionChange "t2" true
             (handleTagSelectionChange "t1" true (initial_header [("q", "")])) in
  (truthy_opt (Some "u") = true
   ∧ Forall (λ id, comma_free id = true) (selectedTagIds h)
   ∧ syncUrl false [("q", "")] h = Some [("tags", "t1,t2"); ("mode", "any")]
   ∧ truthy (join_comma (selectedTagIds h)) = true)
  ∧ ∃ rest,
      (effect example_env
         (list_props true (Some "u") [("tags", "t1,t2"); ("mode", "any")] None)
         initial_state).2
      = ReqByTags ["t1"; "t2"] ModeAny :: rest.
Proof.
  intros h.
  assert (Forall (λ id, comma_free id = true) (selectedTagIds h)) as Hfree
    by (repeat constructor).
  split; [by repeat split|].
  apply (header_selection_reaches_reader example_env initial_state (Some "u")
           [("q", "")] [("tags", "t1,t2"); ("mode", "any")] h eq_refl Hfree eq_refl).
  reflexivity.
Defined.

(** ** How a load ends *)

(** X16. A failed page request in the paginated view.  When the first
    request of the view throws (no token in the session, a rejected request,
    a status outside 200..299), the load sends nothing else, the list is
    emptied, the message of the error is shown, and the component navigates
    to the sign-in page exactly when the message is that of an expired
    credential. *)
Theorem failed_page_request_ends_load
    (env : Env) (p : Props) (s0 : ListState) (msg : string) :
  loads p = true → paged_view p = true →
  page_answer env s0 = Throw msg →
  let s := (effect env p s0).1 in
  (effect env p s0).2 = [page_request s0]
  ∧ allEmails s = []
  ∧ error s = Some (str_or msg "Failed to load emails.")
  ∧ navigatedTo s
    = (if String.eqb msg token_expired then Some "/auth" else navigatedTo s0).
Proof.
  unfold loads, paged_view, page_answer, page_request.
  intros Hloads Hview Hans.
  apply andb_prop in Hloads as [Hloads Hthread].
  apply andb_prop in Hloads as [Hauth Huid].
  apply negb_true_iff in Hthread.
  apply andb_prop in Hview as [Hview Htag].
  apply andb_prop in Hview as [Hnew Hsearch].
  apply negb_true_iff in Hnew, Hsearch, Htag.
  unfold effect. rewrite Hauth, Huid. simpl.
  unfold loadData. rewrite Hthread.
  unfold load_try, load_view. rewrite Hnew, Hsearch, Htag.
  unfold load_paged.
  destruct (String.eqb (activeTab s0) "important") eqn:Htab;
    rewrite Hans; simpl;
    destruct (bool_decide (pageToken s0 ≠ pageTokenRef s0)
              && bool_decide (pageToken s0 ≠ Undefined)); simpl;
    destruct (bool_decide (env_abort env = Some 0)); simpl;
    unfold load_catch; destruct (String.eqb msg token_expired); done.
Qed.

Lemma failed_page_request_ends_load_witness :
  let env := mkEnv example_display NoSession (Some "u") example_store
               Succeeds Succeeds example_page example_page
               (λ _, example_page None) example_detail (λ _ _, Ok None) None in
  (loads paged_props = true ∧ paged_view paged_props = true
   ∧ page_answer env initial_state = Throw token_expired)
  ∧ (effect env paged_props initial_state).2 = [ReqPage None]
  ∧ navigatedTo (effect env paged_props initial_state).1 = Some "/auth".
Proof.
  intros env. split; [done|].
  destruct (failed_page_request_ends_load env paged_props initial_state
              token_expired eq_refl eq_refl eq_refl) as (H1 & _ & _ & H4).
  split; [exact H1|exact H4].
Defined.

Section running.
Context (env : Env) (p : Props) (s0 : ListState).
Context (no_abort : env_abort env = None).

Ltac run_leaf :=
  unfold Running, suspend, upd in *; simpl in *; rewrite ?no_abort;
  rewrite ?(bool_decide_eq_false_2 (None = Some _)) by done;
  simpl; intuition (try done; try congruence);
  match goal with H : ls_aborted _ = false |- _ => by rewrite H end.

Lemma load_multi_tag_running (tagsParam : string) (l : LoadSt) :
  Running l → wp (load_multi_tag env p s0 tagsParam) (λ _, Running) Running l.
Proof. intros H. unfold load_multi_tag, reset_paging. wp_run; run_leaf. Qed.

Lemma load_search_running (query : string) (l : LoadSt) :
  Running l → wp (load_search env p s0 query) (λ _, Running) Running l.
Proof. intros H. unfold load_search, reset_paging. wp_run; run_leaf. Qed.

Lemma load_legacy_tag_running (name : string) (l : LoadSt) :
  Running l → wp (load_legacy_tag env p s0 name) (λ _, Running) Running l.
Proof. intros H. unfold load_legacy_tag, reset_paging. wp_run; run_leaf. Qed.

Lemma load_paged_running (l : LoadSt) :
  Running l → wp (load_paged env p s0) (λ _, Running) Running l.
Proof. intros H. unfold load_paged. wp_run; run_leaf. Qed.

Lemma load_details_running (messageIds : list string) (l : LoadSt) :
  Running l → wp (load_details env p s0 messageIds) (λ _, Running) Running l.
Proof. intros H. unfold load_details. wp_run; run_leaf. Qed.

Lemma load_commit_running merged (l : LoadSt) :
  Running l → wp (load_commit p s0 merged) (λ _, Running) Running l.
Proof.
  intros H. unfold load_commit. destruct merged as [res cache].
  wp_run; run_leaf.
Qed.

Lemma load_try_running (l : LoadSt) :
  Running l → wp (load_try env p s0) (λ _, Running) Running l.
Proof.
  intros Hl. unfold load_try.
  apply wp_bind, wp_read. apply wp_bind.
  assert (∀ l', Running l' →
            wp (view ← load_view env p s0;
                merged ← load_common env p s0 view;
                load_commit p s0 merged) (λ _, Running) Running l') as Hrest.
  { intros l' Hl'. apply wp_bind.
    eapply wp_mono; [| |]; [| |unfold load_view;
      destruct (isNewTagFilterView p); [by apply load_multi_tag_running|];
      destruct (isSearchView p); [by apply load_search_running|];
      destruct (isTagView p); [by apply load_legacy_tag_running|];
      by apply load_paged_running]; [|done].
    intros view l1 H1. simpl. apply wp_bind. unfold load_common.
    destruct view as [[messageIds res] cache].
    destruct (negb (isNewTagFilterView p) && bool_decide (messageIds ≠ [])).
    - eapply wp_mono; [| |by apply load_details_running]; [|done].
      intros merged l2 H2. simpl. by apply load_commit_running.
    - destruct (negb (isNewTagFilterView p)); apply wp_ret;
        by apply load_commit_running. }
  match goal with |- context [when ?b _] => destruct b end; unfold when.
  - wp_step. wp_step. wp_step. apply Hrest. run_leaf.
  - wp_step. by apply Hrest.
Qed.
End running.

(** X17. How a load that is not aborted ends, in every view: the loading
    indicator is off, and either no error is shown, or an error is shown and
    the list is empty. *)
Theorem finished_load_is_settled (env : Env) (p : Props) (s0 : ListState) :
  loads p = true → env_abort env = None →
  let s := (effect env p s0).1 in
  isLoading s = false
  ∧ (error s = None ∨ allEmails s = []).
Proof.
  unfold loads. intros Hloads Habort.
  apply andb_prop in Hloads as [Hloads Hthread].
  apply andb_prop in Hloads as [Hauth Huid].
  apply negb_true_iff in Hthread.
  unfold effect. rewrite Hauth, Huid. simpl.
  unfold loadData. rewrite Hthread.
  set (l1 := upd (setError None) (upd (setIsLoading true) (mkLoadSt s0 [] 0 false))).
  assert (Running l1) as H1 by done.
  pose proof (load_try_running env p s0 Habort l1 H1) as Hwp. unfold wp in Hwp.
  destruct (runLoad _ _) as [a l'|l'|msg l'].
  - destruct Hwp as [Hab Herr]. rewrite Hab. simpl. split; [done|by left].
  - destruct Hwp as [Hab Herr]. rewrite Hab. simpl. split; [done|by left].
  - destruct Hwp as [Hab Herr].
    assert (ls_aborted (upd (load_catch msg) l') = false) as -> by done.
    simpl. split; [done|]. right. unfold load_catch.
    by destruct (String.eqb msg token_expired).
Qed.

Lemma finished_load_is_settled_witness :
  (loads search_props = true ∧ env_abort example_env_missing_detail = None)
  ∧ isLoading (effect example_env_missing_detail search_props initial_state).1
    = false.
Proof.
  split; [done|].
  apply (finished_load_is_settled example_env_missing_detail search_props
           initial_state eq_refl eq_refl).
Defined.

(** ** Custom cards (cardApi) *)

Lemma group_card_tags_snoc (tagLinks : list CardTagJoin) (link : CardTagJoin) :
  group_card_tags (tagLinks ++ [link])
  = match ctl_tags link with
    | Some tagData =>
        <[ctl_card_id link :=
            default [] (group_card_tags tagLinks !! ctl_card_id link) ++ [tagData]]>
          (group_card_tags tagLinks)
    | None => group_card_tags tagLinks
    end.
Proof. unfold group_card_tags. by rewrite fold_left_app. Qed.

(** What the map of [getCards] holds for a card id: the tags of the links of
    that card, in row order. *)
Lemma group_card_tags_lookup (tagLinks : list CardTagJoin) (id : string) :
  default [] (group_card_tags tagLinks !! id)
  = omap ctl_tags (filter (λ r, ctl_card_id r = id) tagLinks).
Proof.
  induction tagLinks as [|link tagLinks IH] using rev_ind; [done|].
  rewrite group_card_tags_snoc, filter_app, omap_app.
  rewrite filter_cons, filter_nil.
  destruct (ctl_tags link) as [t|] eqn:Ht.
  - destruct (decide (ctl_card_id link = id)) as [<-|Hne].
    + rewrite lookup_insert_eq. simpl. rewrite IH. simpl. by rewrite Ht.
    + rewrite lookup_insert_ne by done. rewrite IH. simpl. by rewrite app_nil_r.
  - rewrite IH. case_decide; simpl; rewrite ?Ht; by rewrite app_nil_r.
Qed.

Lemma omap_joined_card_tags (st : Store) (id : string) (rows : list CustomCardTagRow) :
  omap ctl_tags
    (filter (λ r, ctl_card_id r = id)
       (map (λ r, mkCardTagJoin (cct_card_id r) (find_tag st (cct_tag_id r))) rows))
  = omap (find_tag st)
         (map cct_tag_id (filter (λ r, cct_card_id r = id) rows)).
Proof.
  induction rows as [|r rows IH]; [done|].
  rewrite map_cons, !filter_cons. cbn [ctl_card_id].
  destruct (decide (cct_card_id r = id)); [|exact IH].
  rewrite map_cons, !omap_cons'. cbn [ctl_tags]. by rewrite IH.
Qed.

Lemma getCards_tags
    (orderByCreatedAt : list CustomCardRow → list CustomCardRow)
    (st : Store) (uid : string) :
  getCards orderByCreatedAt st (Some uid) Succeeds Succeeds
  = Ok (map (λ card, mkCustomCard card (custom_card_tags_of st uid (cc_id card)))
            (orderByCreatedAt (filter (λ r, cc_user_id r = uid) (custom_cards st)))).
Proof.
  unfold getCards. simpl.
  set (cardsData := orderByCreatedAt _).
  case_bool_decide as Hempty.
  - destruct cardsData; [done|discriminate].
  - f_equal. apply map_ext_in. intros card Hcard. f_equal.
    rewrite group_card_tags_lookup.
    unfold select_custom_card_tags, custom_card_tags_of, custom_card_tag_ids.
    rewrite omap_joined_card_tags, list_filter_filter. do 2 f_equal.
    apply list_filter_iff. intros r. split.
    + intros [-> [? ?]]. done.
    + intros [? ->]. split; [done|]. split; [done|].
      apply list_elem_of_In in Hcard. apply list_elem_of_fmap. by exists card.
Qed.

Lemma links_only_refl (st : Store) : links_only st st.
Proof. by destruct st. Qed.

Lemma links_only_trans (st1 st2 st3 : Store) :
  links_only st1 st2 → links_only st2 st3 → links_only st1 st3.
Proof.
  unfold links_only, with_custom_card_tags.
  destruct st1, st2, st3; simpl. intros [= -> -> -> -> -> -> -> ->] [= -> -> -> -> -> -> -> ->].
  done.
Qed.

Lemma links_only_with (rows : list CustomCardTagRow) (st : Store) :
  links_only st (with_custom_card_tags rows st).
Proof. by destruct st. Qed.

Lemma removeTagFromCard_links_only (uid id : string) (o : Outcome) (t : string)
    (st : Store) :
  links_only st (removeTagFromCard uid id o t st).2.
Proof.
  unfold removeTagFromCard.
  destruct (negb (truthy uid) || negb (truthy id) || negb (truthy t));
    [apply links_only_refl|].
  destruct o; simpl; auto using links_only_refl, links_only_with.
Qed.

Lemma addTagToCard_links_only (uid id : string) (o : Outcome) (t : string)
    (st : Store) :
  links_only st (addTagToCard uid id o t st).2.
Proof.
  unfold addTagToCard.
  destruct (negb (truthy uid) || negb (truthy id) || negb (truthy t));
    [apply links_only_refl|].
  destruct o; simpl; [|apply links_only_refl..].
  destruct (unique_violation st id t); simpl;
    [apply links_only_refl|apply links_only_with].
Qed.

Lemma promise_all_links_only
    (call : Outcome → string → Store → result bool * Store)
    (answers : nat → Outcome) (i : nat) (l : list string) (st : Store) :
  (∀ o t s, links_only s (call o t s).2) →
  links_only st (promise_all call answers i l st).2.
Proof.
  intros Hcall. revert i st.
  induction l as [|t l IH]; intros i st; simpl; [apply links_only_refl|].
  eapply links_only_trans; [apply Hcall|apply IH].
Qed.

Lemma unique_violation_true (st : Store) (id t : string) :
  unique_violation st id t = true
  ↔ ∃ r, r ∈ custom_card_tags st ∧ cct_card_id r = id ∧ cct_tag_id r = t.
Proof.
  unfold unique_violation. rewrite bool_decide_eq_true, Exists_exists.
  naive_solver.
Qed.

(** The removals of [updateCard], when every one of them is answered without
    an error. *)
Lemma promise_all_remove_ok (uid id : string) (answers : nat → Outcome)
    (i : nat) (l : list string) (st : Store) :
  truthy uid = true → truthy id = true → (∀ j, answers j = Succeeds) →
  let after := promise_all (removeTagFromCard uid id) answers i l st in
  after.1 = true
  ∧ ∀ r, r ∈ custom_card_tags after.2
         ↔ r ∈ custom_card_tags st
           ∧ ¬ (cct_user_id r = uid ∧ cct_card_id r = id
                ∧ cct_tag_id r ∈ l ∧ truthy (cct_tag_id r) = true).
Proof.
  intros Hu Hid Hans. revert i st.
  induction l as [|t l IH]; intros i st; simpl.
  { split; [done|]. intros r. rewrite elem_of_nil. tauto. }
  destruct (IH (S i) (removeTagFromCard uid id (answers i) t st).2) as [Hok Hrows].
  unfold removeTagFromCard in *. rewrite Hu, Hid, Hans in *. simpl in *.
  destruct (truthy t) eqn:Ht; simpl in *.
  - split; [done|]. intros r. rewrite Hrows, list_elem_of_filter, elem_of_cons.
    split.
    + intros [[Hne Hin] Hno]. split; [done|].
      intros (? & ? & [Heq|Hl] & ?); [apply Hne|apply Hno]; auto.
    + intros [Hin Hno]. split; [split; [|done]|].
      * intros (? & ? & Heq). apply Hno. rewrite Heq. rewrite Ht. auto.
      * intros (? & ? & ? & ?). apply Hno. auto.
  - split; [done|]. intros r. rewrite Hrows, elem_of_cons.
    split; intros [Hin Hno]; (split; [done|]).
    + intros (? & ? & [Heq|Hl] & Htr); [congruence|apply Hno; done].
    + intros (? & ? & ? & ?). apply Hno. auto.
Qed.

(** The removals never add a link, and their [await] throws as soon as one
    request for a non-empty tag id is answered with an error. *)
Lemma promise_all_remove_sub (uid id : string) (answers : nat → Outcome)
    (i : nat) (l : list string) (st : Store) (r : CustomCardTagRow) :
  r ∈ custom_card_tags (promise_all (removeTagFromCard uid id) answers i l st).2 →
  r ∈ custom_card_tags st.
Proof.
  revert i st. induction l as [|t l IH]; intros i st; simpl; [done|].
  intros Hin. apply IH in Hin. revert Hin. unfold removeTagFromCard.
  destruct (negb (truthy uid) || negb (truthy id) || negb (truthy t)); [done|].
  destruct (answers i); simpl; [|done..].
  rewrite list_elem_of_filter. tauto.
Qed.

Lemma promise_all_remove_fails (uid id : string) (answers : nat → Outcome)
    (i k : nat) (l : list string) (st : Store) (t : string) :
  truthy uid = true → truthy id = true →
  l !! k = Some t → truthy t = true → answers (i + k)%nat ≠ Succeeds →
  (promise_all (removeTagFromCard uid id) answers i l st).1 = false.
Proof.
  intros Hu Hid. revert i k st.
  induction l as [|t0 l IH]; intros i k st Hk Ht Hans; [done|].
  simpl. destruct k as [|k]; simpl in Hk.
  - injection Hk as ->. rewrite Nat.add_0_r in Hans.
    unfold removeTagFromCard at 1. rewrite Hu, Hid, Ht. simpl.
    by destruct (answers i).
  - rewrite (IH (S i) k); [by destruct (removeTagFromCard _ _ _ _ _).1|done|done|].
    by replace (S i + k)%nat with (i + S k)%nat by lia.
Qed.

(** The additions of [updateCard], when every insert of a pair that is not
    present is answered without an error. *)
Lemma promise_all_add_ok (uid id : string) (answers : nat → Outcome)
    (i : nat) (l : list string) (st : Store) :
  truthy uid = true → truthy id = true → (∀ j, answers j = Succeeds) →
  ∀ r, r ∈ custom_card_tags (promise_all (addTagToCard uid id) answers i l st).2
       ↔ r ∈ custom_card_tags st
         ∨ ∃ t, t ∈ l ∧ truthy t = true ∧ r = mkCustomCardTagRow id t uid
                ∧ unique_violation st id t = false.
Proof.
  intros Hu Hid Hans. revert i st.
  induction l as [|t l IH]; intros i st r; simpl.
  { split; [auto|]. intros [?|(? & Hin & _)]; [done|]. by apply elem_of_nil in Hin. }
  rewrite IH. unfold addTagToCard. rewrite Hu, Hid, Hans. simpl.
  destruct (truthy t) eqn:Ht; simpl.
  - destruct (unique_violation st id t) eqn:Hv; simpl.
    + split.
      * intros [?|(t' & Hin & ? & ? & ?)]; [auto|].
        right. exists t'. rewrite elem_of_cons. auto.
      * intros [?|(t' & Hin & ? & ? & Hv')]; [auto|].
        apply elem_of_cons in Hin as [->|Hin]; [congruence|].
        right. exists t'. auto.
    + destruct st as [? ? ? ? ? ? ? links ?]. simpl in *.
      split.
      * intros [Hin|(t' & Hin & ? & -> & Hv')].
        -- apply elem_of_app in Hin as [?|Hin]; [auto|].
           apply list_elem_of_singleton in Hin as ->.
           right. exists t. rewrite elem_of_cons. auto.
        -- right. exists t'. rewrite elem_of_cons. repeat split; auto.
           apply not_true_is_false. intros Hv''.
           apply not_true_iff_false in Hv'. apply Hv'.
           apply unique_violation_true in Hv'' as (r & Hr & ? & ?).
           apply unique_violation_true. exists r. simpl.
           rewrite elem_of_app. auto.
      * intros [?|(t' & Hin & Ht' & -> & Hv')].
        { left. rewrite elem_of_app. auto. }
        destruct (decide (t' = t)) as [->|Hne].
        { left. rewrite elem_of_app, list_elem_of_singleton. auto. }
        apply elem_of_cons in Hin as [?|Hin]; [done|].
        right. exists t'. repeat split; auto.
        apply not_true_is_false. intros Hv''.
        apply unique_violation_true in Hv'' as (r & Hr & Hc & Htag).
        simpl in Hr. apply elem_of_app in Hr as [Hr|Hr].
        -- apply not_true_iff_false in Hv'. apply Hv'.
           apply unique_violation_true. by exists r.
        -- apply list_elem_of_singleton in Hr as ->. simpl in Htag. congruence.
  - split.
    + intros [?|(t' & Hin & ? & ? & ?)]; [auto|].
      right. exists t'. rewrite elem_of_cons. auto.
    + intros [?|(t' & Hin & ? & ? & Hv')]; [auto|].
      apply elem_of_cons in Hin as [->|Hin]; [congruence|].
      right. exists t'. auto.
Qed.

Lemma elem_of_custom_card_tag_ids (st : Store) (uid id t : string) :
  t ∈ custom_card_tag_ids st uid id
  ↔ ∃ r, r ∈ custom_card_tags st
         ∧ cct_user_id r = uid ∧ cct_card_id r = id ∧ cct_tag_id r = t.
Proof.
  unfold custom_card_tag_ids. rewrite list_elem_of_fmap. split.
  - intros (r & -> & Hr). apply list_elem_of_filter in Hr as [[? ?] ?].
    by exists r.
  - intros (r & Hr & ? & ? & <-). exists r. split; [done|].
    apply list_elem_of_filter. done.
Qed.

Lemma elem_of_filter_bool {A} (f : A → bool) (l : list A) (x : A) :
  x ∈ List.filter f l ↔ x ∈ l ∧ f x = true.
Proof. rewrite !list_elem_of_In, List.filter_In. done. Qed.

Lemma promise_all_nil_or
    (call : Outcome → string → Store → result bool * Store)
    (answers : nat → Outcome) (l : list string) (st : Store) :
  (if bool_decide (l ≠ []) then promise_all call answers 0 l st else (true, st))
  = promise_all call answers 0 l st.
Proof.
  case_bool_decide as H; [done|]. by destruct l.
Qed.

Lemma update_card_tags_unfold (w : CardWrites) (uid id : string)
    (tagIds : list string) (st : Store) :
  truthy uid = true → truthy id = true → cw_select_tags w = Succeeds →
  let currentTagIds := custom_card_tag_ids st uid id in
  let tagsToAdd :=
    List.filter (λ tagId, negb (bool_decide (tagId ∈ currentTagIds))) tagIds in
  let tagsToRemove :=
    List.filter (λ tagId, negb (bool_decide (tagId ∈ tagIds))) currentTagIds in
  let removed :=
    promise_all (removeTagFromCard uid id) (cw_remove w) 0 tagsToRemove st in
  update_card_tags w uid id tagIds st
  = if removed.1
    then (promise_all (addTagToCard uid id) (cw_add w) 0 tagsToAdd removed.2).2
    else removed.2.
Proof.
  intros Hu Hid Hsel. unfold update_card_tags, fetchCardTagIds.
  rewrite Hu, Hid, Hsel. simpl. fold (custom_card_tag_ids st uid id).
  rewrite promise_all_nil_or.
  destruct (promise_all (removeTagFromCard uid id) _ _ _ _).1; [|done].
  case_bool_decide as H; [done|]. by rewrite H.
Qed.

Lemma update_card_tags_links_only (w : CardWrites) (uid id : string)
    (tagIds : list string) (st : Store) :
  links_only st (update_card_tags w uid id tagIds st).
Proof.
  unfold update_card_tags.
  destruct (fetchCardTagIds _ _ _ _); [|apply links_only_refl].
  rewrite promise_all_nil_or.
  set (removed := promise_all (removeTagFromCard uid id) _ _ _ _).
  assert (links_only st removed.2) as Hrem
    by apply promise_all_links_only, removeTagFromCard_links_only.
  destruct removed.1; [|done].
  case_bool_decide; [|done].
  eapply links_only_trans; [exact Hrem|].
  apply promise_all_links_only, addTagToCard_links_only.
Qed.

(** The tags of a card after the [try] block of [updateCard], when every
    statement of the block is answered without an error. *)
Lemma update_card_tags_ok (w : CardWrites) (uid id : string)
    (tagIds : list string) (st : Store) :
  truthy uid = true → truthy id = true →
  (∀ r, r ∈ custom_card_tags st → cct_card_id r = id → cct_user_id r = uid) →
  cw_select_tags w = Succeeds →
  (∀ j, cw_remove w j = Succeeds) → (∀ j, cw_add w j = Succeeds) →
  let st' := update_card_tags w uid id tagIds st in
  (∀ t, truthy t = true → (t ∈ custom_card_tag_ids st' uid id ↔ t ∈ tagIds))
  ∧ (∀ r, cct_card_id r ≠ id →
          (r ∈ custom_card_tags st' ↔ r ∈ custom_card_tags st)).
Proof.
  intros Hu Hid Hown Hsel Hrem Hadd. cbv zeta.
  rewrite update_card_tags_unfold by done. cbv zeta.
  destruct (promise_all_remove_ok uid id (cw_remove w) 0
              (List.filter (λ tagId, negb (bool_decide (tagId ∈ tagIds)))
                 (custom_card_tag_ids st uid id)) st Hu Hid Hrem) as [-> Hrows].
  set (removed := promise_all (removeTagFromCard uid id) _ _ _ _) in *.
  pose proof (promise_all_add_ok uid id (cw_add w) 0
                (List.filter
                   (λ tagId, negb (bool_decide (tagId ∈ custom_card_tag_ids st uid id)))
                   tagIds) removed.2 Hu Hid Hadd) as Hadded.
  split.
  - intros t Ht. rewrite elem_of_custom_card_tag_ids. split.
    + intros (r & Hr & Hru & Hrc & Hrt). apply Hadded in Hr as [Hr|Hr].
      * apply Hrows in Hr as [Hr Hkeep].
        destruct (decide (t ∈ tagIds)) as [|Hnot]; [done|]. exfalso.
        apply Hkeep. repeat split; [done|done| |by rewrite Hrt].
        apply elem_of_filter_bool. split.
        -- apply elem_of_custom_card_tag_ids. by exists r.
        -- rewrite Hrt. by rewrite bool_decide_eq_false_2.
      * destruct Hr as (t' & Hin & _ & -> & _). simpl in Hrt. subst t'.
        by apply elem_of_filter_bool in Hin as [? _].
    + intros Hin. destruct (decide (t ∈ custom_card_tag_ids st uid id)) as [Hcur|Hnew].
      * apply elem_of_custom_card_tag_ids in Hcur as (r & Hr & ? & ? & Hrt).
        exists r. split; [|done]. apply Hadded. left. apply Hrows.
        split; [done|]. intros (_ & _ & Hrm & _).
        apply elem_of_filter_bool in Hrm as [_ Hrm].
        rewrite Hrt in Hrm. by rewrite bool_decide_eq_true_2 in Hrm.
      * exists (mkCustomCardTagRow id t uid). split; [|done].
        apply Hadded. right. exists t. repeat split; [|done|].
        -- apply elem_of_filter_bool. split; [done|].
           by rewrite bool_decide_eq_false_2.
        -- apply not_true_is_false. intros Hv.
           apply unique_violation_true in Hv as (r & Hr & Hrc & Hrt).
           apply Hrows in Hr as [Hr _]. apply Hnew.
           apply elem_of_custom_card_tag_ids. exists r. auto.
  - intros r Hne. rewrite Hadded, Hrows. split.
    + intros [[? _]|(t & _ & _ & -> & _)]; [done|by destruct Hne].
    + intros Hr. left. split; [done|]. intros (_ & ? & _). done.
Qed.

Lemma updateCard_returns (st : Store) (uid : string) (w : CardWrites)
    (now dbNow id title content : string) (tagIds : option (list string))
    (row : CustomCardRow) :
  filter (λ r, cc_id r = id ∧ cc_user_id r = uid) (custom_cards st) = [row] →
  cw_update w = Succeeds → (∀ m, cw_log w ≠ Raises m) →
  let after := updateCard st (Some uid) w now dbNow id title content tagIds in
  let st1 :=
    with_custom_cards
      (map (λ r, if bool_decide (cc_id r = id ∧ cc_user_id r = uid)
                 then with_content title content now r else r)
           (custom_cards st)) st in
  after.1 = Ok (mkCustomCard (with_content title content now row) [])
  ∧ custom_card_tags after.2
    = custom_card_tags (match tagIds with
                        | Some tagIds => update_card_tags w uid id tagIds st1
                        | None => st1
                        end)
  ∧ custom_cards after.2 = custom_cards st1.
Proof.
  intros Hrow Hup Hlog. cbv zeta. unfold updateCard. rewrite Hup, Hrow. simpl.
  set (st1 := with_custom_cards _ st).
  set (st2 := match tagIds with Some _ => _ | None => _ end).
  assert (custom_cards st2 = custom_cards st1) as Hcards.
  { subst st2. destruct tagIds as [tagIds|]; [|done].
    pose proof (update_card_tags_links_only w uid id tagIds st1) as Hl.
    rewrite Hl. by destruct st1. }
  destruct (cw_log w) eqn:Hl; simpl.
  - split; [done|]. by destruct st2.
  - done.
  - by destruct (Hlog msg).
Qed.

(** X18. Updating a card with a list of tags.  When the user has exactly one
    card with the id, its links are the user's, and the update, the lookup
    of the current tags, the removals and the additions are answered without
    an error, [updateCard] returns the card with its new title, content and
    [updated_at] and with an empty tag list, and afterwards a non-empty tag
    id is on the card iff it is in the list given; the links of the other
    cards are what they were. *)
Theorem updateCard_sets_tags (st : Store) (uid : string) (w : CardWrites)
    (now dbNow id title content : string) (tagIds : list string)
    (row : CustomCardRow) :
  truthy uid = true → truthy id = true →
  filter (λ r, cc_id r = id ∧ cc_user_id r = uid) (custom_cards st) = [row] →
  (∀ r, r ∈ custom_card_tags st → cct_card_id r = id → cct_user_id r = uid) →
  cw_update w = Succeeds → cw_select_tags w = Succeeds →
  (∀ j, cw_remove w j = Succeeds) → (∀ j, cw_add w j = Succeeds) →
  (∀ m, cw_log w ≠ Raises m) →
  let after :=
    updateCard st (Some uid) w now dbNow id title content (Some tagIds) in
  after.1 = Ok (mkCustomCard (with_content title content now row) [])
  ∧ (∀ t, truthy t = true →
          (t ∈ custom_card_tag_ids after.2 uid id ↔ t ∈ tagIds))
  ∧ (∀ r, cct_card_id r ≠ id →
          (r ∈ custom_card_tags after.2 ↔ r ∈ custom_card_tags st)).
Proof.
  intros Hu Hid Hrow Hown Hup Hsel Hrem Hadd Hlog. cbv zeta.
  destruct (updateCard_returns st uid w now dbNow id title content (Some tagIds)
              row Hrow Hup Hlog) as (Hres & Hlinks & _).
  split; [exact Hres|].
  set (st1 := with_custom_cards _ st) in Hlinks.
  assert (custom_card_tags st1 = custom_card_tags st) as Hsame by done.
  destruct (update_card_tags_ok w uid id tagIds st1 Hu Hid) as [Hids Hothers];
    [by rewrite Hsame|done..|].
  unfold custom_card_tag_ids in *. rewrite Hlinks. split.
  - exact Hids.
  - intros r Hne. rewrite Hothers by done. by rewrite Hsame.
Qed.

Lemma updateCard_sets_tags_witness :
  let after :=
    updateCard card_store (Some "u") card_writes_ok "d1" "d2" "c1" "New" "text"
               (Some ["t2"; "t2"]) in
  after.1
  = Ok (mkCustomCard (mkCustomCardRow "c1" "u" "New" "text" "d0" "d1") [])
  ∧ custom_card_tags after.2 = [mkCustomCardTagRow "c1" "t2" "u"]
  ∧ (∀ t, truthy t = true →
          (t ∈ custom_card_tag_ids after.2 "u" "c1" ↔ t ∈ ["t2"; "t2"])).
Proof.
  split; [reflexivity|]. split; [reflexivity|].
  apply (updateCard_sets_tags card_store "u" card_writes_ok "d1" "d2" "c1" "New"
           "text" ["t2"; "t2"] (mkCustomCardRow "c1" "u" "Old" "text" "d0" "d0"));
    try reflexivity; try done.
  intros r Hr _. vm_compute in Hr.
  apply list_elem_of_singleton in Hr as ->. reflexivity.
Defined.

(** X19. [updateCard] does not report a failed tag update.  When the user
    has exactly one card with the id and the update of the card is answered
    without an error, [updateCard] returns the updated card whatever the
    lookup, the removals and the additions of tags are answered.  When the
    lookup of the current tags fails the links are what they were; when the
    removal of a non-empty tag id fails no link is added, so that the tags
    asked for are not put on the card. *)
Theorem updateCard_hides_tag_failure (st : Store) (uid : string) (w : CardWrites)
    (now dbNow id title content : string) (tagIds : list string)
    (row : CustomCardRow) :
  truthy uid = true → truthy id = true →
  filter (λ r, cc_id r = id ∧ cc_user_id r = uid) (custom_cards st) = [row] →
  cw_update w = Succeeds → (∀ m, cw_log w ≠ Raises m) →
  let after :=
    updateCard st (Some uid) w now dbNow id title content (Some tagIds) in
  let tagsToRemove :=
    List.filter (λ tagId, negb (bool_decide (tagId ∈ tagIds)))
                (custom_card_tag_ids st uid id) in
  after.1 = Ok (mkCustomCard (with_content title content now row) [])
  ∧ (cw_select_tags w ≠ Succeeds →
     custom_card_tags after.2 = custom_card_tags st)
  ∧ (cw_select_tags w = Succeeds →
     ∀ k t, tagsToRemove !! k = Some t → truthy t = true →
            cw_remove w k ≠ Succeeds →
            ∀ r, r ∈ custom_card_tags after.2 → r ∈ custom_card_tags st).
Proof.
  intros Hu Hid Hrow Hup Hlog. cbv zeta.
  destruct (updateCard_returns st uid w now dbNow id title content (Some tagIds)
              row Hrow Hup Hlog) as (Hres & Hlinks & _).
  split; [exact Hres|].
  set (st1 := with_custom_cards _ st) in Hlinks.
  assert (custom_card_tags st1 = custom_card_tags st) as Hsame by done.
  rewrite Hlinks. split.
  - intros Hsel. unfold update_card_tags, fetchCardTagIds. rewrite Hu, Hid. simpl.
    by destruct (cw_select_tags w).
  - intros Hsel k t Hk Ht Hfail r.
    assert (custom_card_tag_ids st1 uid id = custom_card_tag_ids st uid id)
      as Hids by done.
    rewrite update_card_tags_unfold by done. cbv zeta. rewrite Hids.
    rewrite (promise_all_remove_fails uid id (cw_remove w) 0 k _ st1 t); try done.
    intros Hr. apply promise_all_remove_sub in Hr. by rewrite Hsame in Hr.
Qed.

Lemma updateCard_hides_tag_failure_witness :
  let after :=
    updateCard card_store (Some "u") card_writes_refused "d1" "d2" "c1" "New"
               "text" (Some ["t2"]) in
  after.1
  = Ok (mkCustomCard (mkCustomCardRow "c1" "u" "New" "text" "d0" "d1") [])
  ∧ custom_card_tags after.2 = [mkCustomCardTagRow "c1" "t1" "u"]
  ∧ (∀ r, r ∈ custom_card_tags after.2 → r ∈ custom_card_tags card_store).
Proof.
  split; [reflexivity|]. split; [reflexivity|].
  destruct (updateCard_hides_tag_failure card_store "u" card_writes_refused
              "d1" "d2" "c1" "New" "text" ["t2"]
              (mkCustomCardRow "c1" "u" "Old" "text" "d0" "d0")
              eq_refl eq_refl eq_refl eq_refl) as (_ & _ & Hsub).
  { intros m. discriminate. }
  apply (Hsub eq_refl 0%nat "t1"); [reflexivity|reflexivity|discriminate].
Defined.

Lemma createCard_store (st : Store) (uid : string) (logOutcome : Outcome)
    (newId dbNow title content : string) (tagIds : list string) :
  (∀ m, logOutcome ≠ Raises m) →
  let newCard := mkCustomCardRow newId uid title content dbNow dbNow in
  let created :=
    createCard st (Some uid) Succeeds Succeeds logOutcome newId dbNow title
               content tagIds in
  created.1 = Ok (mkCustomCard newCard [])
  ∧ tags created.2 = tags st
  ∧ custom_cards created.2 = custom_cards st ++ [newCard]
  ∧ custom_card_tags created.2
    = custom_card_tags st ++ map (λ tagId, mkCustomCardTagRow newId tagId uid) tagIds.
Proof.
  intros Hlog. cbv zeta. unfold createCard. simpl.
  case_bool_decide as Hne.
  - destruct logOutcome; simpl; [done|done|by destruct (Hlog msg)].
  - assert (tagIds = []) as -> by (by destruct tagIds; [|destruct Hne]).
    simpl. rewrite app_nil_r.
    destruct logOutcome; simpl; [done|done|by destruct (Hlog msg)].
Qed.

Lemma custom_card_tags_of_same (st st' : Store) (uid id : string) :
  tags st' = tags st →
  filter (λ r, cct_user_id r = uid ∧ cct_card_id r = id) (custom_card_tags st')
  = filter (λ r, cct_user_id r = uid ∧ cct_card_id r = id) (custom_card_tags st) →
  custom_card_tags_of st' uid id = custom_card_tags_of st uid id.
Proof.
  intros Htags Hrows. unfold custom_card_tags_of, custom_card_tag_ids.
  rewrite Hrows. apply omap_same. intros t. unfold find_tag. by rewrite Htags.
Qed.

Lemma filter_none {A} (P : A → Prop) `{∀ x, Decision (P x)} (l : list A) :
  (∀ x, x ∈ l → ¬ P x) → filter P l = [].
Proof.
  intros Hno. induction l as [|x l IH]; [done|].
  rewrite filter_cons, decide_False by (apply Hno; left).
  apply IH. intros y Hy. apply Hno. by right.
Qed.

Lemma new_links_tag_ids (uid newId : string) (tagIds : list string) :
  map cct_tag_id (map (λ tagId, mkCustomCardTagRow newId tagId uid) tagIds)
  = tagIds.
Proof. induction tagIds as [|t tagIds IH]; [done|]. simpl. by rewrite IH. Qed.

Lemma filter_new_links (uid newId id : string) (tagIds : list string) :
  filter (λ r, cct_user_id r = uid ∧ cct_card_id r = id)
         (map (λ tagId, mkCustomCardTagRow newId tagId uid) tagIds)
  = if decide (newId = id)
    then map (λ tagId, mkCustomCardTagRow newId tagId uid) tagIds
    else [].
Proof.
  induction tagIds as [|t tagIds IH]; [by destruct (decide _)|].
  rewrite map_cons, filter_cons. cbn [cct_user_id cct_card_id]. rewrite IH.
  destruct (decide (newId = id)) as [->|Hne].
  - by rewrite decide_True.
  - rewrite decide_False; [done|]. intros [_ ?]. done.
Qed.

(** X20. A card created with tags shows them on the next read.  When the
    store gives the new card an id no card and no link uses, and the inserts
    of the card and of its links are answered without an error, [createCard]
    returns the card with an empty tag list, and [getCards] afterwards
    returns the cards it returned before, each with the tags it had, and the
    new card with the tags of the ids given, in the order given (ids that
    name no tag are skipped). *)
Theorem createCard_then_getCards
    (orderByCreatedAt : list CustomCardRow → list CustomCardRow)
    (st : Store) (uid : string) (logOutcome : Outcome)
    (newId dbNow title content : string) (tagIds : list string) :
  (∀ l x, x ∈ orderByCreatedAt l ↔ x ∈ l) →
  (∀ r, r ∈ custom_cards st → cc_id r ≠ newId) →
  (∀ r, r ∈ custom_card_tags st → cct_card_id r ≠ newId) →
  (∀ m, logOutcome ≠ Raises m) →
  let newCard := mkCustomCardRow newId uid title content dbNow dbNow in
  let created :=
    createCard st (Some uid) Succeeds Succeeds logOutcome newId dbNow title
               content tagIds in
  created.1 = Ok (mkCustomCard newCard [])
  ∧ ∃ before after,
      getCards orderByCreatedAt st (Some uid) Succeeds Succeeds = Ok before
      ∧ getCards orderByCreatedAt created.2 (Some uid) Succeeds Succeeds = Ok after
      ∧ ∀ c, c ∈ after
             ↔ c = mkCustomCard newCard (omap (find_tag st) tagIds) ∨ c ∈ before.
Proof.
  intros Hord Hfresh Hlinks Hlog. cbv zeta.
  destruct (createCard_store st uid logOutcome newId dbNow title content tagIds Hlog)
    as (Hres & Htags & Hcards & Htl).
  split; [exact Hres|].
  set (created := createCard _ _ _ _ _ _ _ _ _ _) in *.
  set (newCard := mkCustomCardRow newId uid title content dbNow dbNow) in *.
  eexists _, _. split; [apply getCards_tags|]. split; [apply getCards_tags|].
  assert (∀ id, filter (λ r, cct_user_id r = uid ∧ cct_card_id r = id)
                       (custom_card_tags created.2)
                = filter (λ r, cct_user_id r = uid ∧ cct_card_id r = id)
                         (custom_card_tags st)
                  ++ (if decide (newId = id)
                      then map (λ tagId, mkCustomCardTagRow newId tagId uid) tagIds
                      else [])) as Hfilter.
  { intros id. by rewrite Htl, filter_app, filter_new_links. }
  assert (custom_card_tags_of created.2 uid newId = omap (find_tag st) tagIds)
    as Hnew.
  { unfold custom_card_tags_of, custom_card_tag_ids.
    rewrite Hfilter, decide_True by done.
    rewrite (filter_none _ (custom_card_tags st)).
    2:{ intros r Hr [_ ?]. by eapply Hlinks. }
    simpl. rewrite new_links_tag_ids.
    apply omap_same. intros t. unfold find_tag. by rewrite Htags. }
  assert (∀ id, id ≠ newId →
            custom_card_tags_of created.2 uid id = custom_card_tags_of st uid id)
    as Hold.
  { intros id Hne. apply custom_card_tags_of_same; [done|].
    rewrite Hfilter, decide_False by done. by rewrite app_nil_r. }
  subst newCard. intros c. rewrite !list_elem_of_fmap. setoid_rewrite Hord.
  rewrite Hcards, filter_app. setoid_rewrite elem_of_app.
  rewrite filter_cons, filter_nil. cbn [cc_user_id].
  rewrite decide_True by done. setoid_rewrite list_elem_of_singleton.
  split.
  - intros (card & -> & [Hcard| ->]).
    + right. exists card. split; [|done]. f_equal. apply Hold.
      apply list_elem_of_filter in Hcard as [_ Hcard]. by apply Hfresh.
    + left. cbn [cc_id]. by rewrite Hnew.
  - intros [->|(card & -> & Hcard)].
    + eexists. split; [|right; reflexivity]. cbn [cc_id]. by rewrite Hnew.
    + exists card. split; [|auto]. f_equal. symmetry. apply Hold.
      apply list_elem_of_filter in Hcard as [_ Hcard]. by apply Hfresh.
Qed.

Lemma createCard_then_getCards_witness :
  let created :=
    createCard card_store (Some "u") Succeeds Succeeds Succeeds "c2" "d1" "Two"
               "text" ["t2"; "t1"] in
  created.1
  = Ok (mkCustomCard (mkCustomCardRow "c2" "u" "Two" "text" "d1" "d1") [])
  ∧ getCards (λ l, l) created.2 (Some "u") Succeeds Succeeds
    = Ok [mkCustomCard (mkCustomCardRow "c1" "u" "Old" "text" "d0" "d0") [t1];
          mkCustomCard (mkCustomCardRow "c2" "u" "Two" "text" "d1" "d1") [t2; t1]]
  ∧ ∃ before after,
      getCards (λ l, l) card_store (Some "u") Succeeds Succeeds = Ok before
      ∧ getCards (λ l, l) created.2 (Some "u") Succeeds Succeeds = Ok after
      ∧ ∀ c, c ∈ after
             ↔ c = mkCustomCard (mkCustomCardRow "c2" "u" "Two" "text" "d1" "d1")
                                (omap (find_tag card_store) ["t2"; "t1"])
               ∨ c ∈ before.
Proof.
  split; [reflexivity|]. split; [reflexivity|].
  apply (createCard_then_getCards (λ l, l) card_store "u" Succeeds "c2" "d1"
           "Two" "text" ["t2"; "t1"]).
  - done.
  - intros r Hr. vm_compute in Hr. apply list_elem_of_singleton in Hr as ->.
    discriminate.
  - intros r Hr. vm_compute in Hr. apply list_elem_of_singleton in Hr as ->.
    discriminate.
  - discriminate.
Defined.

(** ** The page filter and the store readers *)

Lemma find_tag_id' (st : Store) (id : string) (t : Tag) :
  find_tag st id = Some t → tag_id t = id.
Proof.
  unfold find_tag. intros H. apply List.find_some in H as [_ H].
  by apply String.eqb_eq in H.
Qed.

(** The tag ids of a fetched card are those of its links, when every link
    names a tag. *)
Lemma card_embedded_tag_ids (st : Store) (uid id : string) :
  (∀ link, link ∈ timeline_card_tags st → is_Some (find_tag st (tct_tag_id link))) →
  (list_to_set (map tag_id (card_embedded_tags st uid id)) : gset string)
  = card_tag_ids st uid id.
Proof.
  intros Hnamed. unfold card_embedded_tags, card_tag_ids.
  assert (∀ rows : list TimelineCardTagRow,
            (∀ link, link ∈ rows → is_Some (find_tag st (tct_tag_id link))) →
            map tag_id (omap (λ link, find_tag st (tct_tag_id link)) rows)
            = map tct_tag_id rows) as Hmap.
  { induction rows as [|link rows IH]; intros Hrows; [done|].
    rewrite omap_cons'. destruct (Hrows link (list_elem_of_here _ _)) as [t Ht].
    rewrite Ht. simpl. rewrite (find_tag_id' _ _ _ Ht). f_equal.
    apply IH. intros l Hl. apply Hrows. by right. }
  rewrite Hmap; [done|].
  intros link Hlink. apply list_elem_of_filter in Hlink as [_ Hlink]. auto.
Qed.

(** X21. The filter of the project page and the by-tags reader of the store
    select the same cards.  For a non-empty selection, when every link
    names a tag and no card id is a property name of [Object.prototype], a
    card id is returned by [fetchTimelineCustomCardsByTags] iff it is the id
    of a card that [filteredCardsForDisplay] keeps, with an empty search
    term, among the cards [fetchTimelineCardsWithTags] returns. *)
Theorem page_filter_agrees_with_store_reader
    (orderByStartDate : list TimelineCardRow → list TimelineCardRow)
    (cards : list TimelineCardRow) (st : Store) (uid : string)
    (tagIds : list string) (mode : FilterMode) :
  tagIds ≠ [] → truthy uid = true →
  (∀ l x, x ∈ orderByStartDate l ↔ x ∈ l) →
  (∀ card, card ∈ cards → tcr_id card ∉ object_prototype_keys) →
  (∀ link, link ∈ timeline_card_tags st → is_Some (find_tag st (tct_tag_id link))) →
  ∃ out,
    fetchTimelineCustomCardsByTags (Some uid) cards st Succeeds tagIds mode = Ok out
    ∧ ∀ id, id ∈ tcr_id <$> out
            ↔ id ∈ tc_id <$> filteredCardsForDisplay
                               (fetchTimelineCardsWithTags orderByStartDate cards
                                  st Succeeds uid)
                               "" tagIds mode.
Proof.
  intros Hne Hu Hord Hproto Hnamed.
  destruct (fetchTimelineCustomCardsByTags_ids cards st uid tagIds mode Hne Hproto)
    as (out & Hout & _ & Hids).
  exists out. split; [exact Hout|]. intros id. rewrite Hids.
  rewrite list_elem_of_fmap.
  setoid_rewrite (filteredCardsForDisplay_membership _ _ _ _ _ Hne).
  unfold fetchTimelineCardsWithTags. rewrite Hu. simpl.
  setoid_rewrite list_elem_of_fmap. setoid_rewrite Hord.
  setoid_rewrite list_elem_of_filter. split.
  - intros [(row & Hrow & <- & Hru) Hpass].
    eexists. split; [|split; [exists row; split; [reflexivity|done]|]].
    + done.
    + split; [done|]. unfold cardTagIds. simpl.
      by rewrite card_embedded_tag_ids.
  - intros (card & -> & (row & -> & Hru & Hrow) & _ & Hpass). simpl.
    split; [by exists row|].
    unfold cardTagIds in Hpass. simpl in Hpass.
    by rewrite card_embedded_tag_ids in Hpass.
Qed.

Lemma page_filter_agrees_with_store_reader_witness :
  (tc_id <$> filteredCardsForDisplay
               (fetchTimelineCardsWithTags (λ l, l) project_cards project_store
                  Succeeds "u")
               "" ["t1"; "t2"] ModeAll) = ["c2"]
  ∧ ∃ out,
      fetchTimelineCustomCardsByTags (Some "u") project_cards project_store
        Succeeds ["t1"; "t2"] ModeAll = Ok out
      ∧ ∀ id, id ∈ tcr_id <$> out
              ↔ id ∈ tc_id <$> filteredCardsForDisplay
                                 (fetchTimelineCardsWithTags (λ l, l) project_cards
                                    project_store Succeeds "u")
                                 "" ["t1"; "t2"] ModeAll.
Proof.
  split; [reflexivity|].
  apply (page_filter_agrees_with_store_reader (λ l, l) project_cards
           project_store "u" ["t1"; "t2"] ModeAll); [done|reflexivity|done| |].
  - intros card Hin Hp. unfold project_cards in Hin.
    repeat (apply elem_of_cons in Hin as [->|Hin];
            [simpl in Hp;
             repeat (apply elem_of_cons in Hp as [Hp|Hp]; [discriminate|]);
             by apply elem_of_nil in Hp|]).
    by apply elem_of_nil in Hin.
  - intros link Hin. unfold project_store in Hin. simpl in Hin.
    repeat (apply elem_of_cons in Hin as [->|Hin]; [by eexists|]).
    by apply elem_of_nil in Hin.
Defined.

Lemma passes_all_any (S T : gset string) :
  S ≠ ∅ → Passes ModeAll S T → Passes ModeAny S T.
Proof.
  intros Hne Hsub. apply passes_any_iff.
  apply set_choose_L in Hne as [t Ht]. exists t. split; [done|]. by apply Hsub.
Qed.

Lemma passes_singleton (t : string) (T : gset string) (mode : FilterMode) :
  Passes mode (list_to_set [t]) T ↔ t ∈ T.
Proof.
  destruct mode.
  - rewrite passes_any_iff. split.
    + intros (x & Hx & ?).
      apply elem_of_list_to_set, list_elem_of_singleton in Hx as ->. done.
    + intros Ht. exists t. split; [|done].
      apply elem_of_list_to_set. by left.
  - unfold Passes. split.
    + intros Hsub. apply Hsub. apply elem_of_list_to_set. by left.
    + intros Ht x Hx.
      apply elem_of_list_to_set, list_elem_of_singleton in Hx as ->. done.
Qed.

Lemma list_to_set_nonempty (tagIds : list string) :
  tagIds ≠ [] → (list_to_set tagIds : gset string) ≠ ∅.
Proof.
  destruct tagIds as [|t rest]; [done|]. intros _ Hempty.
  assert (t ∈ (list_to_set (t :: rest) : gset string)) as Hin
    by (apply elem_of_list_to_set; by left).
  rewrite Hempty in Hin. by apply not_elem_of_empty in Hin.
Qed.

(** X22. Asking for all the selected tags never returns more than asking for
    any of them.  For a non-empty selection, every email id
    [fetchEmailsByTags] returns in the mode "all" it returns in the mode
    "any", and so for the events of [fetchCalendarEventsByTags] and the
    cards of [filteredCardsForDisplay]; for a selection of one tag the two
    modes return the same email ids, events and cards. *)
Theorem all_mode_narrows_any_mode
    (tagIds : list string)
    (st : Store) (uid : string) (sess : Session) (tok : option string)
    (remote : string → Fetched GmailFullMessage)
    (resp : Fetched (option (list GoogleCalendarEvent))) (o : Outcome)
    (allRelevantEvents : list GoogleCalendarEvent)
    (cards : list TimelineCard) (term : string) :
  tagIds ≠ [] →
  getAccessToken sess = Ok tok →
  fetchCalendarEvents sess resp st o uid = Ok allRelevantEvents →
  ∃ emailsAll emailsAny eventsAll eventsAny,
    fetchEmailsByTags (Some uid) st Succeeds sess remote tagIds ModeAll = Ok emailsAll
    ∧ fetchEmailsByTags (Some uid) st Succeeds sess remote tagIds ModeAny = Ok emailsAny
    ∧ fetchCalendarEventsByTags (Some uid) sess resp st o tagIds ModeAll = Ok eventsAll
    ∧ fetchCalendarEventsByTags (Some uid) sess resp st o tagIds ModeAny = Ok eventsAny
    ∧ (∀ eid, eid ∈ email_id <$> emailsAll → eid ∈ email_id <$> emailsAny)
    ∧ (∀ ev, ev ∈ eventsAll → ev ∈ eventsAny)
    ∧ (∀ card, card ∈ filteredCardsForDisplay cards term tagIds ModeAll →
               card ∈ filteredCardsForDisplay cards term tagIds ModeAny)
    ∧ (length tagIds = 1%nat →
       (∀ eid, eid ∈ email_id <$> emailsAny → eid ∈ email_id <$> emailsAll)
       ∧ (∀ ev, ev ∈ eventsAny → ev ∈ eventsAll)
       ∧ (∀ card, card ∈ filteredCardsForDisplay cards term tagIds ModeAny →
                  card ∈ filteredCardsForDisplay cards term tagIds ModeAll)).
Proof.
  intros Hne Htok Hall.
  destruct (fetchEmailsByTags_membership st uid sess tok remote tagIds ModeAll
              Hne Htok) as (emailsAll & HeA & HmA).
  destruct (fetchEmailsByTags_membership st uid sess tok remote tagIds ModeAny
              Hne Htok) as (emailsAny & HeB & HmB).
  destruct (fetchCalendarEventsByTags_membership uid sess resp st o tagIds ModeAll
              allRelevantEvents Hne Hall) as (eventsAll & HvA & HnA).
  destruct (fetchCalendarEventsByTags_membership uid sess resp st o tagIds ModeAny
              allRelevantEvents Hne Hall) as (eventsAny & HvB & HnB).
  pose proof (list_to_set_nonempty tagIds Hne) as Hset.
  exists emailsAll, emailsAny, eventsAll, eventsAny.
  repeat (split; [done|]). split; [|split; [|split]].
  - intros eid. rewrite HmA, HmB. intros [? ?]. eauto using passes_all_any.
  - intros ev. rewrite HnA, HnB. intros [? ?]. eauto using passes_all_any.
  - intros card. rewrite !filteredCardsForDisplay_membership by done.
    intros (? & ? & ?). eauto using passes_all_any.
  - intros Hone. destruct tagIds as [|t [|? ?]]; try discriminate.
    split; [|split].
    + intros eid. rewrite HmA, HmB, !passes_singleton. done.
    + intros ev. rewrite HnA, HnB, !passes_singleton. done.
    + intros card. rewrite !filteredCardsForDisplay_membership by done.
      rewrite !passes_singleton. done.
Qed.

Lemma all_mode_narrows_any_mode_witness :
  ∃ emailsAll emailsAny eventsAll eventsAny,
    fetchEmailsByTags (Some "u") example_store Succeeds (SessionWith (Some "tok"))
      no_detail ["t1"; "t2"] ModeAll = Ok emailsAll
    ∧ fetchEmailsByTags (Some "u") example_store Succeeds (SessionWith (Some "tok"))
        no_detail ["t1"; "t2"] ModeAny = Ok emailsAny
    ∧ fetchCalendarEventsByTags (Some "u") (SessionWith (Some "tok"))
        example_calendar_answer example_store Succeeds ["t1"; "t2"] ModeAll
      = Ok eventsAll
    ∧ fetchCalendarEventsByTags (Some "u") (SessionWith (Some "tok"))
        example_calendar_answer example_store Succeeds ["t1"; "t2"] ModeAny
      = Ok eventsAny
    ∧ (∀ eid, eid ∈ email_id <$> emailsAll → eid ∈ email_id <$> emailsAny)
    ∧ (∀ ev, ev ∈ eventsAll → ev ∈ eventsAny)
    ∧ (∀ card, card ∈ filteredCardsForDisplay [] "" ["t1"; "t2"] ModeAll →
               card ∈ filteredCardsForDisplay [] "" ["t1"; "t2"] ModeAny)
    ∧ (length ["t1"; "t2"] = 1%nat →
       (∀ eid, eid ∈ email_id <$> emailsAny → eid ∈ email_id <$> emailsAll)
       ∧ (∀ ev, ev ∈ eventsAny → ev ∈ eventsAll)
       ∧ (∀ card, card ∈ filteredCardsForDisplay [] "" ["t1"; "t2"] ModeAny →
                  card ∈ filteredCardsForDisplay [] "" ["t1"; "t2"] ModeAll)).
Proof.
  apply (all_mode_narrows_any_mode ["t1"; "t2"] example_store "u"
           (SessionWith (Some "tok")) (Some "tok") no_detail
           example_calendar_answer Succeeds
           [with_tags (example_event "e1") [t1]; with_tags (example_event "e2") []]
           [] "");
    [done|reflexivity|reflexivity].
Defined.

(** ** Replacing the tags of an event or of a card *)

Lemma filter_filter_same {A} (P : A → Prop) `{∀ x, Decision (P x)}
    (l l' : list A) :
  (∀ x, x ∈ l' → ¬ P x) → filter P (filter P l ++ l') = filter P l.
Proof.
  intros Hno. rewrite filter_app, (filter_none P l') by done.
  rewrite app_nil_r, list_filter_filter. apply list_filter_iff. tauto.
Qed.

(** X23. The last write of the tags of an event or of a card wins.  When
    the statements succeed, setting the tags and then setting them again
    leaves the store as the second call alone would have left it; clearing
    the tags is setting them to the empty list, whatever the store
    answers. *)
Theorem setTags_last_write_wins
    (st : Store) (o o' : Outcome) (userId id : string)
    (tagIds tagIds' : list string) :
  (setTagsForCalendarEvent
     (setTagsForCalendarEvent st Succeeds Succeeds userId id tagIds).2
     Succeeds Succeeds userId id tagIds').2
  = (setTagsForCalendarEvent st Succeeds Succeeds userId id tagIds').2
  ∧ (setTagsForTimelineCard
       (setTagsForTimelineCard st Succeeds Succeeds userId id tagIds).2
       Succeeds Succeeds userId id tagIds').2
    = (setTagsForTimelineCard st Succeeds Succeeds userId id tagIds').2
  ∧ deleteCalendarEventTags st o userId id
    = setTagsForCalendarEvent st o o' userId id []
  ∧ deleteTimelineCardTags st o userId id
    = setTagsForTimelineCard st o o' userId id [].
Proof.
  split; [|split; [|split]].
  - unfold setTagsForCalendarEvent.
    destruct (negb (truthy userId) || negb (truthy id)); [done|].
    simpl. unfold delete_calendar_event_tags.
    assert (∀ ids rows,
              filter (λ r, ¬ (cet_user_id r = userId ∧ cet_event_id r = id))
                (filter (λ r, ¬ (cet_user_id r = userId ∧ cet_event_id r = id)) rows
                 ++ map (λ tagId, mkCalendarEventTagRow userId id tagId) ids)
              = filter (λ r, ¬ (cet_user_id r = userId ∧ cet_event_id r = id)) rows)
      as Hagain.
    { intros ids rows. apply filter_filter_same. intros x Hx.
      apply list_elem_of_fmap in Hx as (t & -> & _). simpl. tauto. }
    destruct st as [? ? ? ? rows ? ? ? ?].
    case_bool_decide; case_bool_decide; unfold with_calendar_event_tags; simpl;
      rewrite ?(Hagain tagIds rows), ?list_filter_filter;
      try done;
      repeat f_equal; try (apply list_filter_iff; tauto).
  - unfold setTagsForTimelineCard.
    destruct (negb (truthy userId) || negb (truthy id)); [done|].
    simpl. unfold delete_timeline_card_tags.
    assert (∀ ids rows,
              filter (λ r, ¬ (tct_user_id r = userId ∧ tct_card_id r = id))
                (filter (λ r, ¬ (tct_user_id r = userId ∧ tct_card_id r = id)) rows
                 ++ map (λ tagId, mkTimelineCardTagRow userId id tagId) ids)
              = filter (λ r, ¬ (tct_user_id r = userId ∧ tct_card_id r = id)) rows)
      as Hagain.
    { intros ids rows. apply filter_filter_same. intros x Hx.
      apply list_elem_of_fmap in Hx as (t & -> & _). simpl. tauto. }
    destruct st as [? ? ? ? ? rows ? ? ?].
    case_bool_decide; case_bool_decide; unfold with_timeline_card_tags; simpl;
      rewrite ?(Hagain tagIds rows), ?list_filter_filter;
      try done;
      repeat f_equal; try (apply list_filter_iff; tauto).
  - unfold deleteCalendarEventTags, setTagsForCalendarEvent.
    destruct (negb (truthy userId) || negb (truthy id)); [done|].
    by destruct (failure o).
  - unfold deleteTimelineCardTags, setTagsForTimelineCard.
    destruct (negb (truthy userId) || negb (truthy id)); [done|].
    by destruct (failure o).
Qed.

(** ** The pagination hook *)

Lemma usePaginatedEmails_effect_calls (i : HookInputs) (r : HookRefs) :
  let run := usePaginatedEmails_effect i r in
  (run.1 = [] ∧ run.2 = r)
  ∨ run.1 = [ResetEmails]
  ∨ ∃ x, run.1 = [LoadEmails x] ∧ remembers x run.2
         ∧ hookIsAuthenticated i = true ∧ ¬ remembers x r.
Proof.
  unfold usePaginatedEmails_effect.
  destruct (hookIsAuthenticated i); simpl; [|auto].
  destruct (truthy_opt (hookUserId i) && _); simpl; [auto|].
  destruct (hasFetchedInitial r) eqn:Hinit; simpl.
  - destruct (hookPageToken i) as [pageToken|]; [|auto].
    case_bool_decide as Hlast; simpl; [auto|].
    right. right. exists (Some pageToken). simpl.
    repeat split; first [done|congruence].
  - case_bool_decide as Htok; simpl.
    + right. right. exists None. simpl.
      repeat split; first [done|congruence].
    + destruct (hookPageToken i) as [pageToken|]; [|done].
      case_bool_decide as Hlast; simpl; [auto|].
      right. right. exists (Some pageToken). simpl.
      repeat split; first [done|congruence].
Qed.

(** While the refs remember a page, the next call is not a load of it. *)
Lemma usePaginatedEmails_runs_head (renders : list HookInputs) (r : HookRefs)
    (x : option string) (rest : list HookCall) :
  remembers x r →
  (usePaginatedEmails_runs renders r).1 ≠ LoadEmails x :: rest.
Proof.
  revert r. induction renders as [|i renders IH]; intros r Hrem; [done|].
  simpl.
  destruct (usePaginatedEmails_effect_calls i r)
    as [[-> ->]|[->|(y & -> & _ & _ & Hnot)]]; simpl.
  - by apply IH.
  - done.
  - intros [= ->]. done.
Qed.

Lemma usePaginatedEmails_runs_no_repeat (renders : list HookInputs) (r : HookRefs)
    (pre post : list HookCall) (x : option string) :
  (usePaginatedEmails_runs renders r).1 ≠ pre ++ LoadEmails x :: LoadEmails x :: post.
Proof.
  revert r pre. induction renders as [|i renders IH]; intros r pre; simpl.
  { by destruct pre. }
  destruct (usePaginatedEmails_effect_calls i r)
    as [[-> ->]|[->|(y & -> & Hrem & _ & _)]]; simpl.
  - apply IH.
  - destruct pre as [|c pre]; simpl; [done|]. intros [= _ H]. by eapply IH.
  - destruct pre as [|c pre]; simpl.
    + intros [= -> H]. by eapply usePaginatedEmails_runs_head.
    + intros [= _ H]. by eapply IH.
Qed.

Lemma usePaginatedEmails_runs_signed_out (renders : list HookInputs) (r : HookRefs) :
  Forall (λ i, hookIsAuthenticated i = false) renders →
  (usePaginatedEmails_runs renders r).1 = map (λ _, ResetEmails) renders.
Proof.
  revert r. induction renders as [|i renders IH]; intros r Hall; [done|].
  apply Forall_cons in Hall as [Hi Hall]. simpl.
  unfold usePaginatedEmails_effect at 1 2. rewrite Hi. simpl. by rewrite IH.
Qed.

(** X24. What the pagination hook asks for, over any sequence of renders
    and from any refs.  It never asks twice in a row for the same page;
    while the user is signed out every render resets the list and nothing is
    loaded.  From the initial refs and for a signed-in user without a page
    token, the first render only resets the list, the second loads the first
    page and a third does nothing. *)
Theorem usePaginatedEmails_never_repeats_a_load
    (renders : list HookInputs) (r : HookRefs) (uid : string) :
  truthy uid = true →
  let calls := (usePaginatedEmails_runs renders r).1 in
  (∀ pre post x, calls ≠ pre ++ LoadEmails x :: LoadEmails x :: post)
  ∧ (Forall (λ i, hookIsAuthenticated i = false) renders →
     calls = map (λ _, ResetEmails) renders)
  ∧ (let i := mkHookInputs true (Some uid) None in
     (usePaginatedEmails_runs [i] initial_refs).1 = [ResetEmails]
     ∧ (usePaginatedEmails_runs [i; i] initial_refs).1
       = [ResetEmails; LoadEmails None]
     ∧ (usePaginatedEmails_runs [i; i; i] initial_refs).1
       = [ResetEmails; LoadEmails None]).
Proof.
  intros Hu. cbv zeta. split; [|split].
  - intros pre post x. apply usePaginatedEmails_runs_no_repeat.
  - apply usePaginatedEmails_runs_signed_out.
  - simpl. unfold usePaginatedEmails_effect. simpl. rewrite Hu. simpl.
    rewrite !bool_decide_eq_true_2 by done. simpl. done.
Qed.

Lemma usePaginatedEmails_never_repeats_a_load_witness :
  let renders :=
    [mkHookInputs true (Some "u") None; mkHookInputs true (Some "u") None;
     mkHookInputs true (Some "u") (Some "p2");
     mkHookInputs true (Some "u") (Some "p2");
     mkHookInputs true (Some "u") None;
     mkHookInputs false None None;
     mkHookInputs true (Some "u") (Some "p2")] in
  (usePaginatedEmails_runs renders initial_refs).1
  = [ResetEmails; LoadEmails None; LoadEmails (Some "p2"); ResetEmails;
     ResetEmails]
  ∧ ∀ pre post x,
      (usePaginatedEmails_runs renders initial_refs).1
      ≠ pre ++ LoadEmails x :: LoadEmails x :: post.
Proof.
  split; [reflexivity|].
  apply (usePaginatedEmails_never_repeats_a_load _ initial_refs "u"). reflexivity.
Defined.

(** ** Saving a project card *)

Lemma setTagsForTimelineCard_ok (st : Store) (uid cardId : string)
    (tagIds : list string) :
  (setTagsForTimelineCard st Succeeds Succeeds uid cardId tagIds).1 = Ok tt.
Proof.
  unfold setTagsForTimelineCard.
  destruct (negb (truthy uid) || negb (truthy cardId)); [done|]. simpl.
  by case_bool_decide.
Qed.

Lemma setTagsForTimelineCard_refused (st : Store) (o o' : Outcome)
    (uid cardId : string) (tagIds : list string) :
  truthy uid = true → truthy cardId = true → o ≠ Succeeds →
  ∃ msg, setTagsForTimelineCard st o o' uid cardId tagIds = (Throw msg, st).
Proof.
  intros Hu Hc Ho. unfold setTagsForTimelineCard. rewrite Hu, Hc. simpl.
  destruct o; [done|by eexists..].
Qed.

(** The tags the dialog puts on the saved card are those the store names
    for the selected ids, when the available tags are tags of the store and
    the selection is taken among them. *)
Lemma finalTags_are_stored (st : Store) (availableTags : list Tag)
    (selectedTagIds : list string) (t : Tag) :
  (∀ a, a ∈ availableTags → find_tag st (tag_id a) = Some a) →
  (∀ id, id ∈ selectedTagIds → ∃ a, a ∈ availableTags ∧ tag_id a = id) →
  t ∈ List.filter (λ tag, bool_decide (tag_id tag ∈ selectedTagIds)) availableTags
  ↔ t ∈ omap (find_tag st) selectedTagIds.
Proof.
  intros Havail Hsel.
  rewrite elem_of_filter_bool, bool_decide_eq_true, list_elem_of_omap. split.
  - intros [Ht Hid]. exists (tag_id t). split; [done|]. by apply Havail.
  - intros (id & Hid & Hfind). destruct (Hsel id Hid) as (a & Ha & <-).
    rewrite (Havail a Ha) in Hfind. injection Hfind as <-. done.
Qed.

(** The card [handleSave] writes, when its checks pass and the statement on
    the table of cards succeeds. *)
Lemma handleSave_card (trim : string → string)
    (endsBefore : string → string → bool) (uid : string) (w : SaveWrites)
    (form : DialogForm) (cards : list TimelineCardRow) (st : Store)
    (shown : list TimelineCard) (isOpen : bool) :
  truthy (trim (f_title form)) = true → truthy (f_startDate form) = true →
  truthy (f_endDate form) && endsBefore (f_endDate form) (f_startDate form) = false →
  truthy uid = true → sw_card w = Succeeds →
  match f_cardToEdit form with
  | Some cardToEdit =>
      truthy (tc_id cardToEdit) = true
      ∧ ∃ row0, filter (λ r, tcr_id r = tc_id cardToEdit ∧ tcr_user_id r = uid) cards
                = [row0]
  | None => truthy (sw_newId w) = true
  end →
  ∃ row cards',
    row ∈ cards'
    ∧ tcr_user_id row = uid
    ∧ tcr_title row = trim (f_title form)
    ∧ tcr_id row = match f_cardToEdit form with
                   | Some cardToEdit => tc_id cardToEdit
                   | None => sw_newId w
                   end
    ∧ truthy (tcr_id row) = true
    ∧ match f_cardToEdit form with
      | Some cardToEdit =>
          ∀ row0, row0 ∈ cards → tcr_id row0 = tc_id cardToEdit →
                  tcr_user_id row0 = uid →
                  tcr_description row
                  = (if truthy (trim (f_description form))
                     then Some (trim (f_description form))
                     else tcr_description row0)
                  ∧ tcr_end_date row
                    = (if truthy (f_endDate form) then Some (f_endDate form)
                       else None)
      | None => True
      end
    ∧ handleSave trim endsBefore (Some uid) w form cards st shown isOpen
      = match setTagsForTimelineCard st (sw_delete_tags w) (sw_insert_tags w)
                uid (tcr_id row) (f_selectedTagIds form) with
        | (Ok _, st') =>
            ((handleSaveSuccess
                (card_of_row row
                   (List.filter
                      (λ tag, bool_decide (tag_id tag ∈ f_selectedTagIds form))
                      (f_availableTags form)))
                shown, false),
             (cards', st'))
        | (Throw _, st') =>
            ((handleSaveSuccess (card_of_row row []) shown, false), (cards', st'))
        end.
Proof.
  intros Htitle Hstart Hdates Hu Hcard Htarget.
  unfold handleSave. rewrite Htitle, Hstart. simpl.
  rewrite andb_true_r, Hdates. simpl. rewrite Hu. simpl.
  set (cardData := mkTimelineCardInput _ _ _ _).
  destruct (f_cardToEdit form) as [cardToEdit|].
  - destruct Htarget as [Hid (row0 & Hrow0)].
    unfold updateTimelineCard. rewrite Hu, Hid, Hcard, Hrow0. simpl.
    assert (row0 ∈ cards ∧ tcr_id row0 = tc_id cardToEdit ∧ tcr_user_id row0 = uid)
      as (Hin & Hrid & Hruid).
    { assert (row0 ∈ filter (λ r, tcr_id r = tc_id cardToEdit ∧ tcr_user_id r = uid)
                cards) as H by (rewrite Hrow0; by left).
      apply list_elem_of_filter in H. tauto. }
    exists (apply_patch (patch_of_input cardData) row0),
           (map (λ r, if bool_decide (tcr_id r = tc_id cardToEdit ∧ tcr_user_id r = uid)
                      then apply_patch (patch_of_input cardData) r else r)
                cards).
    repeat apply conj.
    + apply list_elem_of_fmap. exists row0. split; [|done].
      by rewrite bool_decide_eq_true_2.
    + done.
    + done.
    + done.
    + simpl. by rewrite Hrid.
    + intros row1 Hin1 Hrid1 Hruid1.
      assert (row1 = row0) as ->.
      { assert (row1 ∈ filter (λ r, tcr_id r = tc_id cardToEdit ∧ tcr_user_id r = uid)
                  cards) as H by (by apply list_elem_of_filter).
        rewrite Hrow0 in H. by apply list_elem_of_singleton in H. }
      simpl. by destruct (truthy (trim (f_description form))).
    + simpl. rewrite Hrid, Hid. reflexivity.
  - unfold createTimelineCard. rewrite Hu, Hcard. simpl.
    rewrite Htitle, Hstart. simpl. rewrite Htarget.
    set (data := mkTimelineCardRow (sw_newId w) uid (in_title cardData)
                   (in_description cardData) (in_start_date cardData)
                   (in_end_date cardData) (sw_dbNow w)).
    exists data, (cards ++ [data]). repeat apply conj; try done.
    rewrite elem_of_app, list_elem_of_singleton. by right.
Qed.

(** X25. What the list shows after a save in the dialog is what the store
    holds.  When the checks of [handleSave] pass and the statements succeed
    (for an edit: the user has exactly one card with that id), the dialog
    closes, the table holds the card of the user with the trimmed title, the
    list shows that card, and the tags shown on it are those a fetch would
    return for it, provided the available tags are tags of the store and the
    selection is taken among them.  In an edit an empty description leaves
    the stored description as it was, whereas an empty end date clears the
    stored one. *)
Theorem handleSave_shows_what_is_stored (trim : string → string)
    (endsBefore : string → string → bool) (uid : string) (w : SaveWrites)
    (form : DialogForm) (cards : list TimelineCardRow) (st : Store)
    (shown : list TimelineCard) (isOpen : bool) :
  truthy (trim (f_title form)) = true → truthy (f_startDate form) = true →
  truthy (f_endDate form) && endsBefore (f_endDate form) (f_startDate form) = false →
  truthy uid = true →
  sw_card w = Succeeds → sw_delete_tags w = Succeeds → sw_insert_tags w = Succeeds →
  match f_cardToEdit form with
  | Some cardToEdit =>
      truthy (tc_id cardToEdit) = true
      ∧ ∃ row0, filter (λ r, tcr_id r = tc_id cardToEdit ∧ tcr_user_id r = uid) cards
                = [row0]
  | None => truthy (sw_newId w) = true
  end →
  (∀ a, a ∈ f_availableTags form → find_tag st (tag_id a) = Some a) →
  (∀ id, id ∈ f_selectedTagIds form →
         ∃ a, a ∈ f_availableTags form ∧ tag_id a = id) →
  let after := handleSave trim endsBefore (Some uid) w form cards st shown isOpen in
  after.1.2 = false
  ∧ ∃ row card,
      row ∈ after.2.1
      ∧ tcr_user_id row = uid
      ∧ tcr_title row = trim (f_title form)
      ∧ tcr_id row = match f_cardToEdit form with
                     | Some cardToEdit => tc_id cardToEdit
                     | None => sw_newId w
                     end
      ∧ card ∈ after.1.1
      ∧ with_card_tags [] card = card_of_row row []
      ∧ (∀ t, t ∈ tc_tags card
              ↔ t ∈ card_embedded_tags after.2.2 uid (tcr_id row))
      ∧ match f_cardToEdit form with
        | Some cardToEdit =>
            ∀ row0, row0 ∈ cards → tcr_id row0 = tc_id cardToEdit →
                    tcr_user_id row0 = uid →
                    tcr_description row
                    = (if truthy (trim (f_description form))
                       then Some (trim (f_description form))
                       else tcr_description row0)
                    ∧ tcr_end_date row
                      = (if truthy (f_endDate form) then Some (f_endDate form)
                         else None)
        | None => True
        end.
Proof.
  intros Htitle Hstart Hdates Hu Hcard Hdel Hins Htarget Havail Hsel. cbv zeta.
  destruct (handleSave_card trim endsBefore uid w form cards st shown isOpen
              Htitle Hstart Hdates Hu Hcard Htarget)
    as (row & cards' & Hrow & Hruid & Hrtitle & Hrid & Hrt & Hdesc & ->).
  rewrite Hdel, Hins.
  pose proof (setTagsForTimelineCard_ok st uid (tcr_id row) (f_selectedTagIds form))
    as Hok.
  pose proof (card_embedded_tags_after_set st uid (tcr_id row)
                (f_selectedTagIds form) (tcr_id row) Hu Hrt) as Htags.
  rewrite String.eqb_refl in Htags.
  destruct (setTagsForTimelineCard _ _ _ _ _ _) as [r st'].
  simpl in Hok, Htags. subst r. simpl.
  split; [done|]. eexists row, _.
  split; [done|]. split; [done|]. split; [done|]. split; [done|].
  split; [apply handleSaveSuccess_saved|]. split; [done|]. split; [|done].
  intros t. simpl. rewrite Htags. by apply finalTags_are_stored.
Qed.

Lemma handleSave_shows_what_is_stored_witness :
  let after :=
    handleSave (λ s, s) (λ _ _, false) (Some "u") save_ok edit_form
               described_cards project_store [] true in
  after.2.1
  = [mkTimelineCardRow "c1" "u" "Plan B" (Some "first draft") "2025-03-02" None "d0"]
  ∧ after.1.1
    = [mkTimelineCard "c1" "u" "Plan B" (Some "first draft") "2025-03-02" None "d0"
         [t2]]
  ∧ after.1.2 = false
  ∧ ∃ row card,
      row ∈ after.2.1 ∧ tcr_user_id row = "u" ∧ tcr_title row = "Plan B"
      ∧ tcr_id row = "c1" ∧ card ∈ after.1.1
      ∧ with_card_tags [] card = card_of_row row []
      ∧ (∀ t, t ∈ tc_tags card ↔ t ∈ card_embedded_tags after.2.2 "u" (tcr_id row))
      ∧ ∀ row0, row0 ∈ described_cards → tcr_id row0 = "c1" →
                tcr_user_id row0 = "u" →
                tcr_description row = tcr_description row0
                ∧ tcr_end_date row = None.
Proof.
  split; [reflexivity|]. split; [reflexivity|].
  apply (handleSave_shows_what_is_stored (λ s, s) (λ _ _, false) "u" save_ok
           edit_form described_cards project_store [] true);
    try reflexivity.
  - split; [reflexivity|]. eexists. reflexivity.
  - intros a Ha. simpl in Ha.
    repeat (apply elem_of_cons in Ha as [->|Ha]; [reflexivity|]).
    by apply elem_of_nil in Ha.
  - intros id Hid. simpl in Hid.
    apply list_elem_of_singleton in Hid as ->. exists t2. split; [|reflexivity].
    simpl. right. left.
Defined.

(** X26. A refused tag write is hidden by the save.  When the checks of
    [handleSave] pass and the card is written, but the statement that
    deletes the former links of the card does not succeed, the dialog closes
    all the same, the store is what it was, and the list shows the card
    without any tag, whatever tags the store still holds for it. *)
Theorem handleSave_hides_refused_tags (trim : string → string)
    (endsBefore : string → string → bool) (uid : string) (w : SaveWrites)
    (form : DialogForm) (cards : list TimelineCardRow) (st : Store)
    (shown : list TimelineCard) (isOpen : bool) :
  truthy (trim (f_title form)) = true → truthy (f_startDate form) = true →
  truthy (f_endDate form) && endsBefore (f_endDate form) (f_startDate form) = false →
  truthy uid = true →
  sw_card w = Succeeds → sw_delete_tags w ≠ Succeeds →
  match f_cardToEdit form with
  | Some cardToEdit =>
      truthy (tc_id cardToEdit) = true
      ∧ ∃ row0, filter (λ r, tcr_id r = tc_id cardToEdit ∧ tcr_user_id r = uid) cards
                = [row0]
  | None => truthy (sw_newId w) = true
  end →
  let after := handleSave trim endsBefore (Some uid) w form cards st shown isOpen in
  after.1.2 = false
  ∧ after.2.2 = st
  ∧ ∃ card, card ∈ after.1.1
            ∧ tc_id card = match f_cardToEdit form with
                           | Some cardToEdit => tc_id cardToEdit
                           | None => sw_newId w
                           end
            ∧ tc_tags card = [].
Proof.
  intros Htitle Hstart Hdates Hu Hcard Hdel Htarget. cbv zeta.
  destruct (handleSave_card trim endsBefore uid w form cards st shown isOpen
              Htitle Hstart Hdates Hu Hcard Htarget)
    as (row & cards' & Hrow & Hruid & Hrtitle & Hrid & Hrt & Hdesc & ->).
  destruct (setTagsForTimelineCard_refused st (sw_delete_tags w) (sw_insert_tags w)
              uid (tcr_id row) (f_selectedTagIds form) Hu Hrt Hdel) as [msg ->].
  simpl. split; [done|]. split; [done|].
  exists (card_of_row row []). split; [apply handleSaveSuccess_saved|]. done.
Qed.

Lemma handleSave_hides_refused_tags_witness :
  let after :=
    handleSave (λ s, s) (λ _ _, false) (Some "u") save_tags_refused edit_form
               described_cards project_store
               (fetchTimelineCardsWithTags (λ l, l) described_cards project_store
                  Succeeds "u")
               true in
  (tc_tags <$> after.1.1) = [[]]
  ∧ (tc_tags <$> fetchTimelineCardsWithTags (λ l, l) after.2.1 after.2.2
                   Succeeds "u") = [[t1]]
  ∧ after.1.2 = false
  ∧ after.2.2 = project_store
  ∧ ∃ card, card ∈ after.1.1 ∧ tc_id card = "c1" ∧ tc_tags card = [].
Proof.
  split; [reflexivity|]. split; [reflexivity|].
  apply (handleSave_hides_refused_tags (λ s, s) (λ _ _, false) "u"
           save_tags_refused edit_form described_cards project_store _ true);
    try reflexivity.
  - discriminate.
  - split; [reflexivity|]. eexists. reflexivity.
Defined.

(** ** C1: the multi-tag filter decides by one set predicate *)

Lemma ids_of_named_links {R} (st : Store) (tagOf : R → string) (rows : list R) :
  (∀ r, r ∈ rows → is_Some (find_tag st (tagOf r))) →
  map tag_id (omap (λ r, find_tag st (tagOf r)) rows) = map tagOf rows.
Proof.
  induction rows as [|r rows IH]; intros Hrows; [done|].
  rewrite omap_cons'. destruct (Hrows r (list_elem_of_here _ _)) as [t Ht].
  rewrite Ht. simpl. rewrite (find_tag_id' _ _ _ Ht). f_equal.
  apply IH. intros r' Hr'. apply Hrows. by right.
Qed.

Lemma filter_all_true {A} (f : A → bool) (l : list A) :
  (∀ x, x ∈ l → f x = true) → List.filter f l = l.
Proof.
  induction l as [|x l IH]; intros Hall; [done|]. simpl.
  rewrite (Hall x (list_elem_of_here _ _)). f_equal.
  apply IH. intros y Hy. apply Hall. by right.
Qed.

(** The tag-id set the calendar filter builds for a fetched event is the set
    of the tag ids of its links in the store. *)
Lemma eventTagIds_of_store (st : Store) (uid : string)
    (event : GoogleCalendarEvent) :
  (∀ link, link ∈ calendar_event_tags st →
           truthy (cet_tag_id link) = true
           ∧ is_Some (find_tag st (cet_tag_id link))) →
  eventTagIds (with_tags event (event_tags_of st uid (ev_id event)))
  = calendar_event_tag_ids st uid (ev_id event).
Proof.
  intros Hnamed. unfold eventTagIds, calendar_event_tag_ids, event_tags_of.
  simpl. rewrite ids_of_named_links.
  2:{ intros r Hr. apply list_elem_of_filter in Hr as [_ Hr].
      by apply Hnamed. }
  rewrite filter_all_true; [done|].
  intros id Hid. apply list_elem_of_fmap in Hid as (r & -> & Hr).
  apply list_elem_of_filter in Hr as [_ Hr]. by apply Hnamed.
Qed.

(** C1. For a non-empty selection and either mode, one set predicate,
    [Passes], over the tag ids the store currently holds for the item,
    decides membership for the three entity kinds: an email of the store is
    returned by [fetchEmailsByTags] iff the tag ids of its [email_tags] rows
    meet the selection (ANY) or contain it (ALL); an event of the fetched
    window is kept by [fetchCalendarEventsByTags] under the same predicate
    on the tag ids of its [calendar_event_tags] rows; a project card fetched
    by [fetchTimelineCardsWithTags] is kept by [filteredCardsForDisplay]
    under the same predicate on the tag ids of its [timeline_card_tags] rows
    (next to the text search of that view), and so is the id of a card by
    [fetchTimelineCustomCardsByTags] when no card id is a property name of
    [Object.prototype].  The store answers its queries,
    the events carry an id, and every link names a tag. *)
Theorem multi_tag_filter_predicate
    (tagIds : list string) (mode : FilterMode)
    (st : Store) (uid : string) (sess : Session) (tok : option string)
    (remote : string → Fetched GmailFullMessage)
    (res : Response (option (list GoogleCalendarEvent)))
    (orderByStartDate : list TimelineCardRow → list TimelineCardRow)
    (cardRows : list TimelineCardRow) (term : string) :
  tagIds ≠ [] →
  getAccessToken sess = Ok tok → truthy uid = true → ok res = true →
  (∀ event, event ∈ default [] (body res) → truthy (ev_id event) = true) →
  links_name_tags st →
  (∃ out, fetchEmailsByTags (Some uid) st Succeeds sess remote tagIds mode = Ok out
          ∧ ∀ eid, eid ∈ email_id <$> out
                   ↔ has_email st uid eid
                     ∧ Passes mode (list_to_set tagIds) (email_tag_ids st uid eid))
  ∧ (∃ events out,
       fetchCalendarEvents sess (Responded res) st Succeeds uid = Ok events
       ∧ fetchCalendarEventsByTags (Some uid) sess (Responded res) st Succeeds
           tagIds mode = Ok out
       ∧ ∀ ev, ev ∈ out
               ↔ ev ∈ events
                 ∧ Passes mode (list_to_set tagIds)
                          (calendar_event_tag_ids st uid (ev_id ev)))
  ∧ (let cards :=
       fetchTimelineCardsWithTags orderByStartDate cardRows st Succeeds uid in
     ∀ card, card ∈ filteredCardsForDisplay cards term tagIds mode
             ↔ card ∈ cards ∧ matchesSearch term card = true
               ∧ Passes mode (list_to_set tagIds)
                        (card_tag_ids st uid (tc_id card)))
  ∧ ((∀ row, row ∈ cardRows → tcr_id row ∉ object_prototype_keys) →
     ∃ out,
       fetchTimelineCustomCardsByTags (Some uid) cardRows st Succeeds tagIds mode
       = Ok out
       ∧ ∀ id, id ∈ tcr_id <$> out
               ↔ has_card cardRows uid id
                 ∧ Passes mode (list_to_set tagIds) (card_tag_ids st uid id)).
Proof.
  intros Hne Htok Hu Hok Hids [Hevents Hcards]. split; [|split; [|split]].
  - by eapply fetchEmailsByTags_membership.
  - pose proof (fetchCalendarEvents_tags sess tok res st uid Htok Hu Hok) as Hall.
    destruct (fetchCalendarEventsByTags_membership uid sess (Responded res) st
                Succeeds tagIds mode _ Hne Hall) as (out & Hout & Hmem).
    eexists _, out. split; [exact Hall|]. split; [exact Hout|].
    intros ev. rewrite Hmem. split.
    + intros [Hin Hpass]. split; [done|].
      apply list_elem_of_fmap in Hin as (event & -> & Hevent).
      rewrite (Hids event Hevent) in *.
      by rewrite eventTagIds_of_store in Hpass.
    + intros [Hin Hpass]. split; [done|].
      apply list_elem_of_fmap in Hin as (event & -> & Hevent).
      rewrite (Hids event Hevent) in *.
      by rewrite eventTagIds_of_store.
  - cbv zeta. intros card.
    rewrite filteredCardsForDisplay_membership by done.
    split; intros (Hin & Hsearch & Hpass); (split; [done|split; [done|]]).
    + unfold fetchTimelineCardsWithTags in Hin. rewrite Hu in Hin. simpl in Hin.
      apply list_elem_of_fmap in Hin as (row & -> & _).
      unfold cardTagIds in Hpass. simpl in *.
      by rewrite card_embedded_tag_ids in Hpass.
    + unfold fetchTimelineCardsWithTags in Hin. rewrite Hu in Hin. simpl in Hin.
      apply list_elem_of_fmap in Hin as (row & -> & _).
      unfold cardTagIds. simpl in *.
      by rewrite card_embedded_tag_ids.
  - intros Hproto.
    destruct (fetchTimelineCustomCardsByTags_ids cardRows st uid tagIds mode
                Hne Hproto) as (out & Hout & _ & Hmem).
    by exists out.
Qed.

Lemma multi_tag_filter_predicate_witness :
  (∃ out, fetchCalendarEventsByTags (Some "u") (SessionWith (Some "tok"))
            example_calendar_answer project_store Succeeds ["t1"] ModeAny
          = Ok out ∧ ev_id <$> out = ["e1"])
  ∧ (tc_id <$> filteredCardsForDisplay
                 (fetchTimelineCardsWithTags (λ l, l) project_cards project_store
                    Succeeds "u")
                 "" ["t1"; "t2"] ModeAll) = ["c2"]
  ∧ (∃ out, fetchEmailsByTags (Some "u") project_store Succeeds
              (SessionWith (Some "tok")) no_detail ["t1"; "t2"] ModeAll = Ok out
            ∧ ∀ eid, eid ∈ email_id <$> out
                     ↔ has_email project_store "u" eid
                       ∧ Passes ModeAll (list_to_set ["t1"; "t2"])
                                (email_tag_ids project_store "u" eid))
  ∧ (∃ events out,
       fetchCalendarEvents (SessionWith (Some "tok")) example_calendar_answer
         project_store Succeeds "u" = Ok events
       ∧ fetchCalendarEventsByTags (Some "u") (SessionWith (Some "tok"))
           example_calendar_answer project_store Succeeds ["t1"; "t2"] ModeAll
         = Ok out
       ∧ ∀ ev, ev ∈ out
               ↔ ev ∈ events
                 ∧ Passes ModeAll (list_to_set ["t1"; "t2"])
                          (calendar_event_tag_ids project_store "u" (ev_id ev)))
  ∧ (∀ card, card ∈ filteredCardsForDisplay
                      (fetchTimelineCardsWithTags (λ l, l) project_cards
                         project_store Succeeds "u")
                      "" ["t1"; "t2"] ModeAll
             ↔ card ∈ fetchTimelineCardsWithTags (λ l, l) project_cards
                        project_store Succeeds "u"
               ∧ matchesSearch "" card = true
               ∧ Passes ModeAll (list_to_set ["t1"; "t2"])
                        (card_tag_ids project_store "u" (tc_id card))).
Proof.
  split; [eexists; split; reflexivity|]. split; [reflexivity|].
  refine (let H := multi_tag_filter_predicate ["t1"; "t2"] ModeAll project_store "u"
           (SessionWith (Some "tok")) (Some "tok") no_detail
           (mkResponse 200 "OK" (Some [example_event "e1"; example_event "e2"]) None)
           (λ l, l) project_cards "" _ eq_refl eq_refl eq_refl _ _ in
          match H with conj He (conj Hv (conj Hc _)) => conj He (conj Hv Hc) end).
  - done.
  - intros event Hin. simpl in Hin.
    repeat (apply elem_of_cons in Hin as [->|Hin]; [reflexivity|]).
    by apply elem_of_nil in Hin.
  - split.
    + intros link Hin. simpl in Hin.
      repeat (apply elem_of_cons in Hin as [->|Hin];
              [split; [reflexivity|by eexists]|]).
      by apply elem_of_nil in Hin.
    + intros link Hin. simpl in Hin.
      repeat (apply elem_of_cons in Hin as [->|Hin]; [by eexists|]).
      by apply elem_of_nil in Hin.
Defined.

(** ** C9: failures on the write paths *)


